(** * Challenge-Lab AI Author: provider adapters and output normalizer

    A shallow embedding of the TypeScript services of the repository:

    - [services/outputNormalizer.ts]  (class [OutputNormalizer]);
    - [services/geminiProvider.ts]    (class [GeminiService]);
    - [services/openaiProvider.ts]    (class [OpenAIService]);
    - [services/ollamaProvider.ts]    (class [OllamaService]);
    - [services/aiServiceFactory.ts]  ([createAIService], and the
      functions of [geminiService.ts] that the class replaced);
    - [services/settingsManager.ts]   (class [SettingsManager]);
    - [getSeriesName] of the lab generator.

    Conventions of the embedding.

    - A JavaScript string is a Rocq [string]; its characters are the code
      units 0..255 (Latin-1).  White space ([\s], [trim], [trimEnd]) is
      therefore TAB, LF, VT, FF, CR, SPACE and NBSP.
    - A regular expression literal is a value of [regex]; it is run by a
      backtracking matcher that follows the ECMAScript disjunction order
      (greedy and lazy quantifiers, one capture group, look-ahead, [^] with
      the [m] flag, [$] without it).  [String.prototype.replace] with the
      [g] flag is [replaceAll].
    - A number is an integer where the code computes with integers below
      [2^53]; [Math.random()] is a rational that is a double, and its
      product with 5000 is rounded as the doubles round it.
    - An [async] method is a function from a scripted environment (what
      each awaited call settles to, and the value of the cancellation flag
      when the await resumes) to the trace of observable events and the
      settlement of the returned promise.
    - The packages [openai] and [@google/genai] are not among the
      sources: what their client constructors do with a key is a
      parameter ([Packages]). *)

From Stdlib Require Import String Ascii List ZArith Lia Bool QArith Qround DecimalString.
Import ListNotations.

Local Close Scope Q_scope.
Local Open Scope list_scope.
Local Open Scope string_scope.

(* ===================================================================== *)
(** * JavaScript strings *)
(* ===================================================================== *)

Module Js.

Definition LF : ascii := ascii_of_nat 10.
Definition CR : ascii := ascii_of_nat 13.
Definition nl : string := String LF "".
Definition crlf : string := String CR (String LF "").

(** [\s] on code units below 256. *)
Definition isSpace (c : ascii) : bool :=
  let n := nat_of_ascii c in
  (((9 <=? n) && (n <=? 13)) || (n =? 32) || (n =? 160))%nat.

Definition isLF (c : ascii) : bool := Ascii.eqb c LF.

Fixpoint rev_string (acc : list ascii) (s : string) : list ascii :=
  match s with
  | "" => acc
  | String c r => rev_string (c :: acc) r
  end.

Definition of_list (l : list ascii) : string := string_of_list_ascii l.
Definition to_list (s : string) : list ascii := list_ascii_of_string s.

(** [s.startsWith(p)] is [prefix p s] of the standard library. *)

(** [s.includes(p)] *)
Fixpoint includes (p s : string) : bool :=
  if prefix p s then true
  else match s with
       | "" => false
       | String _ r => includes p r
       end.

(** [s.toLowerCase()] on A-Z. *)
Definition lower (c : ascii) : ascii :=
  let n := nat_of_ascii c in
  if ((65 <=? n) && (n <=? 90))%nat then ascii_of_nat (n + 32) else c.

Fixpoint toLowerCase (s : string) : string :=
  match s with
  | "" => ""
  | String c r => String (lower c) (toLowerCase r)
  end.

(** [s.split('\n')]: never empty, one more element than there are LFs. *)
Fixpoint splitLines (s : string) : list string :=
  match s with
  | "" => [""]
  | String c r =>
      if isLF c then "" :: splitLines r
      else match splitLines r with
           | [] => [String c ""]
           | l :: ls => String c l :: ls
           end
  end.

(** [a.join(sep)] *)
Definition join (sep : string) (ls : list string) : string := String.concat sep ls.

Fixpoint dropWhile (p : ascii -> bool) (l : list ascii) : list ascii :=
  match l with
  | [] => []
  | c :: r => if p c then dropWhile p r else l
  end.

(** [s.trimEnd()], [s.trimStart()], [s.trim()] *)
Definition trimEnd (s : string) : string :=
  of_list (rev (dropWhile isSpace (rev (to_list s)))).
Definition trimStart (s : string) : string :=
  of_list (dropWhile isSpace (to_list s)).
Definition trim (s : string) : string := trimEnd (trimStart s).

(** Template-literal rendering of a non-negative integer. *)
Definition showZ (z : Z) : string := NilZero.string_of_int (Z.to_int z).
Definition showNat (n : nat) : string := showZ (Z.of_nat n).

End Js.

(* ===================================================================== *)
(** * Regular expressions *)
(* ===================================================================== *)

Module Regex.

Inductive regex : Type :=
| Chr (p : ascii -> bool)              (* a character of a class          *)
| Eps                                  (* the empty pattern               *)
| Seq (a b : regex)                    (* ab                              *)
| Alt (a b : regex)                    (* a|b                             *)
| Star (greedy : bool) (a : regex)     (* a*  and  a*?                    *)
| Group (a : regex)                    (* (a), the capture group $1       *)
| Look (a : regex)                     (* (?=a)                           *)
| Bol                                  (* ^ under the m flag              *)
| Eoi.                                 (* $ without the m flag            *)

(** A position of the matcher: the character before it, the text after
    it, the characters consumed since the match began (most recent
    first), the consumed count at which the open group started, and the
    text of the group once it has closed. *)
Record pos : Type := mkPos {
  before : option ascii;
  rest : string;
  taken : list ascii;
  mark : nat;
  group1 : option string
}.

Definition start (prev : option ascii) (s : string) : pos :=
  mkPos prev s [] 0 None.

Definition step (c : ascii) (r : string) (st : pos) : pos :=
  mkPos (Some c) r (c :: taken st) (mark st) (group1 st).

Definition openGroup (st : pos) : pos :=
  mkPos (before st) (rest st) (taken st) (List.length (taken st)) (group1 st).

Definition closeGroup (m : nat) (st : pos) : pos :=
  mkPos (before st) (rest st) (taken st) (mark st)
        (Some (Js.of_list (rev (firstn (List.length (taken st) - m) (taken st))))).

(** [^] under the [m] flag: at the start of the input or just after a
    line terminator (LF or CR among the code units below 256). *)
Definition atLineStart (st : pos) : bool :=
  match before st with
  | None => true
  | Some c => Js.isLF c || Ascii.eqb c Js.CR
  end.

Definition shorter (a b : pos) : bool :=
  (String.length (rest a) <? String.length (rest b))%nat.

Section Matcher.
Context {A : Type}.

(** Iteration of a quantified atom; an iteration that consumes nothing
    is rejected, as in ECMAScript. *)
Fixpoint iterate (greedy : bool) (atom : pos -> (pos -> option A) -> option A)
         (fuel : nat) (st : pos) (k : pos -> option A) : option A :=
  match fuel with
  | O => k st
  | S fuel' =>
      let more :=
        atom st (fun st' => if shorter st' st
                            then iterate greedy atom fuel' st' k
                            else None) in
      if greedy
      then match more with Some x => Some x | None => k st end
      else match k st with Some x => Some x | None => more end
  end.
End Matcher.

Fixpoint run {A : Type} (r : regex) (st : pos) (k : pos -> option A) : option A :=
  match r with
  | Chr p =>
      match rest st with
      | "" => None
      | String c s => if p c then k (step c s st) else None
      end
  | Eps => k st
  | Seq a b => run a st (fun st' => run b st' k)
  | Alt a b =>
      match run a st k with
      | Some x => Some x
      | None => run b st k
      end
  | Star greedy a =>
      iterate greedy (fun s k' => run a s k') (String.length (rest st)) st k
  | Group a =>
      run a (openGroup st) (fun st' => k (closeGroup (List.length (taken st)) st'))
  | Look a =>
      match run a st (fun st' => Some st') with
      | Some _ => k st
      | None => None
      end
  | Bol => if atLineStart st then k st else None
  | Eoi => match rest st with "" => k st | _ => None end
  end.

(** One match attempt at a position: the matched text and [$1]. *)
Record found : Type := mkFound { text : string; capture : string }.

Definition matchAt (r : regex) (prev : option ascii) (s : string) : option found :=
  match run r (start prev s) (fun st => Some st) with
  | Some st =>
      Some (mkFound (Js.of_list (rev (taken st)))
                    (match group1 st with Some g => g | None => "" end))
  | None => None
  end.

(** Building blocks for regular-expression literals. *)
Definition chr (c : ascii) : regex := Chr (Ascii.eqb c).
Fixpoint lit (s : string) : regex :=
  match s with
  | "" => Eps
  | String c r => Seq (chr c) (lit r)
  end.
Definition oneOf (s : string) : regex :=
  Chr (fun c => existsb (Ascii.eqb c) (Js.to_list s)).
Definition space : regex := Chr Js.isSpace.                      (* \s      *)
Definition any : regex := Chr (fun _ => true).                   (* [\s\S]  *)
Definition notLF : regex := Chr (fun c => negb (Js.isLF c)).     (* [^\n]   *)
Definition star (a : regex) : regex := Star true a.              (* a*      *)
Definition lazy (a : regex) : regex := Star false a.             (* a*?     *)
Definition plus (a : regex) : regex := Seq a (Star true a).      (* a+      *)
Fixpoint seq (l : list regex) : regex :=
  match l with
  | [] => Eps
  | [a] => a
  | a :: l' => Seq a (seq l')
  end.

(** [s.replace(/r/g, f)] where [f] may update a state (a closure that
    pushes on an array).  [skip] counts the characters of the current
    match still to be passed over.  After an empty match the scan moves
    one character forward, copying it. *)
Section Replace.
Context {St : Type} (r : regex) (f : found -> St -> string * St).

Fixpoint scan (prev : option ascii) (skip : nat) (s : string) (st : St) : string * St :=
  match s with
  | "" =>
      match skip with
      | O => match matchAt r prev "" with
             | Some m => f m st
             | None => ("", st)
             end
      | S _ => ("", st)
      end
  | String c s' =>
      match skip with
      | S n => scan (Some c) n s' st
      | O =>
          match matchAt r prev s with
          | Some m =>
              let '(out, st1) := f m st in
              match String.length (text m) with
              | O => let '(tl, st2) := scan (Some c) 0 s' st1 in
                     (out ++ String c tl, st2)
              | S n => let '(tl, st2) := scan (Some c) n s' st1 in
                       (out ++ tl, st2)
              end
          | None =>
              let '(tl, st1) := scan (Some c) 0 s' st in
              (String c tl, st1)
          end
      end
  end.
End Replace.

Definition replaceAllSt {St : Type} (r : regex) (f : found -> St -> string * St)
           (s : string) (st : St) : string * St :=
  scan r f None 0 s st.

Definition replaceAll (r : regex) (f : found -> string) (s : string) : string :=
  fst (replaceAllSt r (fun m (_ : unit) => (f m, tt)) s tt).

(** [s.replace(/r/, f)] without the [g] flag: the first match only. *)
Fixpoint replaceFirst (r : regex) (f : found -> string)
         (prev : option ascii) (s : string) : string :=
  match matchAt r prev s with
  | Some m => f m ++ Js.of_list (skipn (String.length (text m)) (Js.to_list s))
  | None =>
      match s with
      | "" => ""
      | String c s' => String c (replaceFirst r f (Some c) s')
      end
  end.

End Regex.

(* ===================================================================== *)
(** * services/outputNormalizer.ts *)
(* ===================================================================== *)

Module OutputNormalizer.
Import Js Regex.

(** [/(:::ShowGuided\(ShowGuided=Yes\)[\s\S]*?:::)/g] *)
Definition guidedMarker : string := ":::ShowGuided(ShowGuided=Yes)".
Definition guidedBlockRegex : regex :=
  Group (seq [lit guidedMarker; lazy any; lit ":::"]).

(** [/(:::ShowAdvanced\(ShowAdvanced=Yes\)[\s\S]*?:::)/g] *)
Definition advancedMarker : string := ":::ShowAdvanced(ShowAdvanced=Yes)".
Definition advancedBlockRegex : regex :=
  Group (seq [lit advancedMarker; lazy any; lit ":::"]).

(** [>[-\[]], the start of a bullet or of a bracketed tag line. *)
Definition bulletOrTag : regex := Seq (chr ">") (oneOf "-[").

(** [/>\n>\n(>[-\[])/g] replaced by ['>\n$1'] inside every guided block. *)
Definition fixGuidedHintSpacing (content : string) : string :=
  replaceAll guidedBlockRegex
    (fun m =>
       replaceAll (seq [lit (">" ++ nl ++ ">" ++ nl); Group bulletOrTag])
                  (fun m' => ">" ++ nl ++ capture m')
                  (text m))
    content.

(** [content.replace(/> >-/g, '> -')] *)
Definition fixDoubleGreaterThan (content : string) : string :=
  replaceAll (lit "> >-") (fun _ => "> -") content.

(** [/>\s*\[\+alert\][^\n]*\n((?:>[^\n]*\n)* )/g] and its two siblings
    (the blank before the last parenthesis is not in the source). *)
Definition calloutRegex (tag : string) : regex :=
  seq [chr ">"; star space; lit tag; star notLF; chr LF;
       Group (star (seq [chr ">"; star notLF; chr LF]))].
Definition alertBlockRegex : regex := calloutRegex "[+alert]".
Definition noteBlockRegex : regex := calloutRegex "[!note]".
Definition helpBlockRegex : regex := calloutRegex "[!help]".

(** The callback [(m) => { extractedBlocks.push(m.trim()); return ''; }]. *)
Definition pushTrimmed (m : found) (extractedBlocks : list string)
  : string * list string :=
  ("", (extractedBlocks ++ [trim (text m)])%list).

(** The callback given to [content.replace(guidedBlockRegex, ...)]. *)
Definition cleanGuidedBlock (m : found) (extractedBlocks : list string)
  : string * list string :=
  let cleanedGuidedBlock := text m in
  let '(cleanedGuidedBlock, extractedBlocks) :=
    replaceAllSt alertBlockRegex pushTrimmed cleanedGuidedBlock extractedBlocks in
  let '(cleanedGuidedBlock, extractedBlocks) :=
    replaceAllSt noteBlockRegex pushTrimmed cleanedGuidedBlock extractedBlocks in
  let '(cleanedGuidedBlock, extractedBlocks) :=
    replaceAllSt helpBlockRegex pushTrimmed cleanedGuidedBlock extractedBlocks in
  let cleanedGuidedBlock :=
    replaceAll (lit (">" ++ nl ++ ">" ++ nl ++ ">" ++ nl))
               (fun _ => ">" ++ nl ++ ">" ++ nl) cleanedGuidedBlock in
  (cleanedGuidedBlock, extractedBlocks).

Definition extractAndRelocateAlertBlocks (content : string) : string :=
  let '(modifiedContent, extractedBlocks) :=
    replaceAllSt guidedBlockRegex cleanGuidedBlock content [] in
  if (0 <? List.length extractedBlocks)%nat
  then replaceAll advancedBlockRegex
         (fun m =>
            let blocksToAdd := join (nl ++ ">" ++ nl) extractedBlocks in
            text m ++ nl ++ nl ++ blocksToAdd)
         modifiedContent
  else modifiedContent.

(** [.replace(/\n\n\n+(\[[\+\!])/g, '\n\n$1').replace(/(\])\n\n\n+/g, '$1\n\n')] *)
Definition normalizeAlertBlocks (content : string) : string :=
  let step1 :=
    replaceAll (seq [lit (nl ++ nl); plus (chr LF); Group (Seq (chr "[") (oneOf "+!"))])
               (fun m => nl ++ nl ++ capture m) content in
  replaceAll (seq [Group (chr "]"); lit (nl ++ nl); plus (chr LF)])
             (fun m => capture m ++ nl ++ nl) step1.

(** [normalize(content, provider)]; the [provider] argument is not read. *)
Definition normalize (content : string) (provider : string) : string :=
  let normalized := content in
  let normalized := replaceAll (lit crlf) (fun _ => nl) normalized in
  let normalized := join nl (map trimEnd (splitLines normalized)) in
  let normalized := fixDoubleGreaterThan normalized in
  let normalized := fixGuidedHintSpacing normalized in
  let normalized := extractAndRelocateAlertBlocks normalized in
  let normalized := normalizeAlertBlocks normalized in
  normalized.

Definition normalizeOpenAI (content : string) : string :=
  normalize content "openai".

(** [/>\[overview\]:([\s\S]*?)(?=\n\n|$)/], first match only. *)
Definition fixOverviewFormatting (content : string) : string :=
  replaceFirst
    (seq [lit ">[overview]:"; Group (lazy any); Look (Alt (lit (nl ++ nl)) Eoi)])
    (fun m =>
       let singleLine :=
         trim (replaceAll (plus space) (fun _ => " ")
                 (replaceAll (lit (nl ++ ">")) (fun _ => " ") (capture m))) in
       ">[overview]: " ++ singleLine)
    None content.

Definition fixGeminiGuidedHintSpacing (content : string) : string :=
  replaceAll guidedBlockRegex
    (fun m =>
       let fixed :=
         replaceAll (seq [lit (">" ++ nl ++ ">" ++ nl ++ ">" ++ nl); Group bulletOrTag])
                    (fun m' => ">" ++ nl ++ capture m') (text m) in
       let fixed :=
         replaceAll (seq [lit (">" ++ nl); Group bulletOrTag])
                    (fun m' => ">" ++ nl ++ ">" ++ nl ++ capture m') fixed in
       fixed)
    content.

(** One turn of the [for (let i = 0; i < 3; i++)] loop. *)
Definition blankQuoteLine : regex := seq [chr ">"; star space; chr LF].
Definition fixDoubleBlankPass (fixed : string) : string :=
  let fixed :=
    replaceAll (seq [Bol; blankQuoteLine; blankQuoteLine; Group (lit ">-")])
               (fun m => ">" ++ nl ++ capture m) fixed in
  let fixed :=
    replaceAll (seq [Bol; blankQuoteLine; blankQuoteLine; Group (lit ">[")])
               (fun m => ">" ++ nl ++ capture m) fixed in
  let fixed :=
    replaceAll (seq [Bol; plus (Group blankQuoteLine); Look bulletOrTag])
               (fun _ => ">" ++ nl) fixed in
  fixed.

Definition fixDoubleBlankLinesBeforeBullets (content : string) : string :=
  let fixed := replaceAll (lit crlf) (fun _ => nl) content in
  fixDoubleBlankPass (fixDoubleBlankPass (fixDoubleBlankPass fixed)).

Definition normalizeGemini (content : string) : string :=
  let normalized := normalize content "gemini" in
  let normalized := fixOverviewFormatting normalized in
  let normalized := fixGeminiGuidedHintSpacing normalized in
  let normalized := fixDoubleBlankLinesBeforeBullets normalized in
  normalized.

Definition normalizeOllama (content : string) : string :=
  normalize content "ollama".

End OutputNormalizer.

(* ===================================================================== *)
(** * Numbers: the multiplication of IEEE 754 doubles *)
(* ===================================================================== *)

(** A finite double is a rational [m * 2^e] with [|m| < 2^53] and
    [-1074 <= e]; the result of an arithmetic operation is the exact
    result rounded to the nearest double, a tie going to the even
    significand. *)
Module Double.

(** [n / d] rounded to the nearest integer, a tie to the even one, for
    [0 < d]. *)
Definition nearestEven (n d : Z) : Z :=
  let f := (n / d)%Z in
  match (2 * (n mod d) ?= d)%Z with
  | Lt => f
  | Gt => (f + 1)%Z
  | Eq => if Z.even f then f else (f + 1)%Z
  end.

(** Whether [2^e <= a / b], for [0 < b]. *)
Definition reaches (a b e : Z) : bool :=
  if (0 <=? e)%Z then (2 ^ e * b <=? a)%Z else (b <=? a * 2 ^ (- e))%Z.

(** The binary magnitude of [a / b] for [0 < a] and [0 < b]: the [e]
    with [2^(e-1) <= a / b < 2^e]. *)
Definition mag (a b : Z) : Z :=
  let d := (Z.log2 a - Z.log2 b)%Z in
  if reaches a b d then (d + 1)%Z else d.

(** The exponent of the last bit of the significand: 53 bits, and
    [2^-1074] for the subnormal numbers. *)
Definition lastBit (a b : Z) : Z := Z.max (mag a b - 53) (-1074).

(** The double nearest to [a / b], for [0 < a], [0 < b] and a quotient
    below [2^1024]. *)
Definition nearest (a b : Z) : Q :=
  let e := lastBit a b in
  if (0 <=? e)%Z
  then inject_Z (nearestEven a (b * 2 ^ e) * 2 ^ e)
  else Qmake (nearestEven (a * 2 ^ (- e)) b) (Z.to_pos (2 ^ (- e))).

(** The rounding of a rational result (of magnitude below [2^1024], so
    that nothing overflows). *)
Definition round (x : Q) : Q :=
  match Qnum x with
  | Z0 => 0%Q
  | Zpos a => nearest (Zpos a) (Zpos (Qden x))
  | Zneg a => Qopp (nearest (Zpos a) (Zpos (Qden x)))
  end.

(** [x * y] *)
Definition mul (x y : Q) : Q := round (x * y)%Q.

(** The doubles of [[0, 1)], the range of [Math.random()]: [m / 2^e]
    with a significand [m] below [2^53] and [53 <= e <= 1074]. *)
Definition unitDouble (r : Q) : Prop :=
  exists m e : Z,
    (0 <= m < 2 ^ 53)%Z /\ (53 <= e <= 1074)%Z /\
    (Qnum r * 2 ^ e = m * Zpos (Qden r))%Z.

End Double.

(* ===================================================================== *)
(** * Promises, the cancellation flag and the retry loop *)
(* ===================================================================== *)

Module Async.
Import Js.

(** A thrown value: an [Error] object with its [name], its [message] and
    the [status] property that HTTP client errors carry. *)
Record JsError : Type := mkJsError {
  name : string;
  message : string;
  status : option Z
}.

(** [new Error(msg)] *)
Definition Error (msg : string) : JsError := mkJsError "Error" msg None.
Definition TypeError (msg : string) : JsError := mkJsError "TypeError" msg None.

(** [String(e)], that is [Error.prototype.toString]. *)
Definition toString (e : JsError) : string :=
  if String.eqb (name e) "" then message e
  else if String.eqb (message e) "" then name e
  else name e ++ ": " ++ message e.

Definition stoppedByUser : string := "Operation stopped by user.".

Inductive Outcome (A : Type) : Type :=
| Fulfilled (a : A)
| Rejected (e : JsError).
Arguments Fulfilled {A} a.
Arguments Rejected {A} e.

(** A call that returns a value or throws. *)
Inductive Completion (A : Type) : Type :=
| Returned (a : A)
| Thrown (e : JsError).
Arguments Returned {A} a.
Arguments Thrown {A} e.

(** What an [await] resumes with: the settlement of the awaited promise
    and the value of [isCancelledRef.current] at that moment (the caller
    may have written the flag while the method was suspended). *)
Record Await (A : Type) : Type := mkAwait {
  outcome : Outcome A;
  flag : bool
}.
Arguments mkAwait {A} outcome flag.
Arguments outcome {A} a.
Arguments flag {A} a.

(** An async iterable, as consumed by [for await]. *)
Inductive AsyncStream (C : Type) : Type :=
| Done
| Yield (c : C) (flagNow : bool) (rest : AsyncStream C)
| Throws (e : JsError) (flagNow : bool).
Arguments Done {C}.
Arguments Yield {C} c flagNow rest.
Arguments Throws {C} e flagNow.

(** services/aiServiceTypes.ts *)
Inductive AIProvider : Type := gemini | openai | ollama.

Record AIConfig : Type := mkAIConfig {
  provider : AIProvider;
  apiKey : string;
  model : string;
  ollamaBaseUrl : option string
}.

Inductive ContentPart : Type :=
| TextPart (text : string)
| ImagePart (data mimeType : string).

(** The requests the adapters hand to their transports. *)
Inductive OpenAIPart : Type :=
| OText (text : string)
| OImageUrl (url : string).

Inductive OpenAIContent : Type :=
| OString (s : string)
| OParts (parts : list OpenAIPart).

Record OpenAIMessage : Type := mkOpenAIMessage {
  oRole : string;
  oContent : OpenAIContent
}.

Inductive GeminiPart : Type :=
| GText (text : string)
| GInlineData (data mimeType : string).

Inductive GeminiContents : Type :=
| GString (s : string)
| GParts (parts : list GeminiPart).

Record OllamaMessage : Type := mkOllamaMessage {
  role : string;
  content : string;
  images : option (list string)
}.

Inductive Request : Type :=
(** [client.chat.completions.create({model, messages, stream})] on a
    client built with [apiKey] *)
| ChatCompletionsCreate (key model : string) (messages : list OpenAIMessage) (stream : bool)
(** [ai.models.generateContentStream({model, contents})] *)
| GenerateContentStream (key model : string) (contents : GeminiContents)
(** [fetch(url, {method: 'POST', body: JSON.stringify({model, messages, stream})})] *)
| FetchPost (url : string) (model : string) (messages : list OllamaMessage) (stream : bool).

Inductive CheckSite : Type := BeforeCall | InStream | InCatch.

(** The observable steps of a method, in program order. *)
Inductive Event : Type :=
| ReadFlag (site : CheckSite) (value : bool)    (* isCancelledRef.current *)
| Call (req : Request)                          (* the transport call     *)
| ReaderCancel                                  (* reader.cancel()        *)
| OnChunk (chunk : string)                      (* onChunk(chunk)         *)
| OnStatus (msg : string)                       (* onStatusUpdate?.(msg)  *)
| Wait (ms : Z).                                (* await wait(ms)         *)

(** The environment of one method call.  [transport k req] is what the
    transport call of attempt [k] settles to. *)
Record Env (R : Type) : Type := mkEnv {
  flag0 : bool;                           (* the flag when the method starts *)
  transport : nat -> Request -> Await R;
  flagAfterWait : nat -> bool;            (* the flag when [wait] resumes    *)
  random : nat -> Q                       (* [Math.random()] of attempt [k]  *)
}.
Arguments mkEnv {R} flag0 transport flagAfterWait random.
Arguments flag0 {R} e.
Arguments transport {R} e.
Arguments flagAfterWait {R} e.
Arguments random {R} e.

(** A [try] block that ran to its end or threw. *)
Record Attempt : Type := mkAttempt {
  events : list Event;
  flagAfter : bool;
  completion : Outcome string
}.

Inductive Action : Type :=
| Throw (e : JsError)
| Retry (ms : Z).

(** A [catch] block up to its [throw] or its [await wait(delayTime)]. *)
Record Handled : Type := mkHandled {
  hevents : list Event;
  action : Action
}.

(** A whole method call. *)
Record Run : Type := mkRun {
  trace : list Event;
  settled : Outcome string
}.

Definition maxRetries : nat := 6.

(** The three methods of [IAIService]; their retry loops differ in one
    word of their messages. *)
Inductive Method : Type := ProcessText | ProcessTextStream | GenerateScriptStream.

Definition what (m : Method) : string :=
  match m with
  | ProcessText => "text"
  | ProcessTextStream => "text stream"
  | GenerateScriptStream => "multi-modal stream"
  end.

(** [2000 * Math.pow(2, attempt)] *)
Definition baseDelay (attempt : nat) : Z := 2000 * 2 ^ Z.of_nat attempt.

(** [Math.floor(Math.random() * 5000)]: the product is the one of the
    doubles, rounded. *)
Definition jitter (r : Q) : Z := Qfloor (Double.mul r 5000).

(** [15000 * Math.pow(2, attempt) + Math.floor(Math.random() * 5000)]:
    integers below [2^53], on which the doubles are exact. *)
Definition longDelay (attempt : nat) (r : Q) : Z :=
  15000 * 2 ^ Z.of_nat attempt + jitter r.

(** [Math.round(delayTime/1000)] for [delayTime >= 0]. *)
Definition roundSeconds (delayTime : Z) : Z := (delayTime + 500) / 1000.

(** [`(Attempt ${attempt + 2}/${maxRetries + 1})`] *)
Definition attemptOf (attempt : nat) : string :=
  "(Attempt " ++ showNat (attempt + 2) ++ "/" ++ showNat (maxRetries + 1) ++ ")".

(** The cooperative check that opens every [try] block. *)
Definition checkBeforeCall (flagNow : bool) (k : Attempt) : Attempt :=
  if flagNow
  then mkAttempt [ReadFlag BeforeCall true] true (Rejected (Error stoppedByUser))
  else mkAttempt (ReadFlag BeforeCall false :: events k) (flagAfter k) (completion k).

(** [fullText = ''; for await (const chunk of stream) { if (flag) throw ...;
    const chunkText = ...; if (chunkText) { fullText += chunkText;
    onChunk(chunkText) } }], with [notify = false] where the source has no
    [onChunk]. *)
Fixpoint forAwait {C : Type} (chunkText : C -> string) (notify : bool)
         (stream : AsyncStream C) (flagNow : bool) (fullText : string)
  : list Event * bool * Outcome string :=
  match stream with
  | Done => ([], flagNow, Fulfilled fullText)
  | Throws e f => ([], f, Rejected e)
  | Yield c f rest =>
      if f
      then ([ReadFlag InStream true], true, Rejected (Error stoppedByUser))
      else
        let t := chunkText c in
        let '(evs, f', r) :=
          forAwait chunkText notify rest f
                   (if String.eqb t "" then fullText else fullText ++ t) in
        ((ReadFlag InStream false ::
          (if String.eqb t "" then [] else if notify then [OnChunk t] else []) ++ evs)%list,
         f', r)
  end.

Section RetryLoop.
Context {R : Type} (env : Env R).
(** the [try] block of an attempt, entered with the current flag *)
Context (body : nat -> bool -> Attempt).
(** the [catch] block of an attempt *)
Context (handler : nat -> JsError -> bool -> Handled).
(** the [throw] that follows the [for] loop *)
Context (exhausted : option JsError -> JsError).

(** [for (let attempt = 0; attempt <= maxRetries; attempt++)], with
    [remaining = maxRetries + 1 - attempt] turns to go. *)
Fixpoint attempts (remaining : nat) (flagNow : bool) (lastError : option JsError) : Run :=
  match remaining with
  | O => mkRun [] (Rejected (exhausted lastError))
  | S remaining' =>
      let attempt := (maxRetries + 1 - remaining)%nat in
      let a := body attempt flagNow in
      match completion a with
      | Fulfilled text => mkRun (events a) (Fulfilled text)
      | Rejected error =>
          let h := handler attempt error (flagAfter a) in
          match action h with
          | Throw e => mkRun (events a ++ hevents h)%list (Rejected e)
          | Retry ms =>
              let r := attempts remaining' (flagAfterWait env attempt) (Some error) in
              mkRun (events a ++ hevents h ++ Wait ms :: trace r)%list (settled r)
          end
      end
  end.

Definition retry : Run := attempts (maxRetries + 1) (flag0 env) None.
End RetryLoop.

(** How many times the transport was invoked. *)
Definition isCall (e : Event) : bool :=
  match e with Call _ => true | _ => false end.
Definition calls (r : Run) : nat := List.length (filter isCall (trace r)).

Definition waits (r : Run) : list Z :=
  flat_map (fun e => match e with Wait ms => [ms] | _ => [] end) (trace r).

End Async.

(* ===================================================================== *)
(** * JSON values and the host functions *)
(* ===================================================================== *)

Module Json.

(** The result of [JSON.parse]; numbers are the integers. *)
#[local] Set Warnings "-register-all".
Inductive json : Type :=
| JNull
| JBool (b : bool)
| JNum (n : Z)
| JStr (s : string)
| JArr (items : list json)
| JObj (fields : list (string * json)).

(** A JavaScript value read out of parsed JSON: [None] is [undefined]. *)
Definition value : Type := option json.

Definition truthy (v : value) : bool :=
  match v with
  | None | Some JNull | Some (JBool false) | Some (JStr "") => false
  | Some (JNum n) => negb (n =? 0)%Z
  | Some _ => true
  end.

Fixpoint lookup (k : string) (fields : list (string * json)) : value :=
  match fields with
  | [] => None
  | (k', v) :: fs => if String.eqb k k' then Some v else lookup k fs
  end.

(** [v.k] for a [v] that is neither [null] nor [undefined]; the keys read
    by the adapters are own properties of objects only. *)
Definition prop (k : string) (v : json) : value :=
  match v with
  | JObj fields => lookup k fields
  | _ => None
  end.

(** [v?.k] *)
Definition optProp (k : string) (v : value) : value :=
  match v with
  | None | Some JNull => None
  | Some x => prop k x
  end.

(** [v || d] *)
Definition orElse (v : value) (d : json) : json :=
  match v with
  | Some x => if truthy v then x else d
  | None => d
  end.

Definition isNum (n : Z) (v : json) : bool :=
  match v with JNum m => (m =? n)%Z | _ => false end.
Definition isStr (s : string) (v : json) : bool :=
  match v with JStr t => String.eqb t s | _ => false end.

(** The functions of the host that the adapters call and the embedding
    does not define. *)
Record Host : Type := mkHost {
  (** [JSON.parse(text)]; [None] when it throws *)
  JSON_parse : string -> option json;
  (** [JSON.stringify(lastError)] *)
  JSON_stringify : option Async.JsError -> string
}.

End Json.

(* ===================================================================== *)
(** * services/geminiProvider.ts *)
(* ===================================================================== *)

Module GeminiService.
Import Js Async Json.

(** A chunk of [generateContentStream]: [chunk.text] is a string or
    [undefined]. *)
Record GenerateContentResponse : Type := mkChunk { text : option string }.

Definition Response : Type := AsyncStream GenerateContentResponse.

Record ParsedError : Type := mkParsed {
  code : json;
  message : json;
  status : json
}.

(** The [catch (e)] branch of [parseGeminiError]. *)
Definition parseFallback (errorMessage : string) : ParsedError :=
  if includes "429" errorMessage || includes "RESOURCE_EXHAUSTED" errorMessage
  then mkParsed (JNum 429) (JStr "You have exceeded your API quota.")
                (JStr "RESOURCE_EXHAUSTED")
  else if includes "503" errorMessage || includes "UNAVAILABLE" errorMessage
          || includes "overloaded" errorMessage
  then mkParsed (JNum 503) (JStr "The AI model is currently overloaded.")
                (JStr "UNAVAILABLE")
  else mkParsed (JNum 0) (JStr errorMessage) (JStr "UNKNOWN").

Definition parseGeminiError (H : Host) (error : JsError) : ParsedError :=
  let errorMessage := Async.message error in
  match JSON_parse H errorMessage with
  | None => parseFallback errorMessage
  | Some JNull =>
      (* [errorObj.error] on [null] throws inside the [try] *)
      parseFallback errorMessage
  | Some errorObj =>
      let errorObj :=
        match prop "error" errorObj with
        | Some e =>
            if truthy (Some e)
            then match prop "message" e with
                 | Some (JStr m) =>
                     match JSON_parse H m with
                     | Some JNull => errorObj    (* the inner [catch] *)
                     | Some nestedErrorObj =>
                         if truthy (prop "error" nestedErrorObj)
                         then nestedErrorObj else errorObj
                     | None => errorObj
                     end
                 | _ => errorObj
                 end
            else errorObj
        | None => errorObj
        end in
      let err := prop "error" errorObj in
      mkParsed (orElse (optProp "code" err) (JNum 0))
               (orElse (optProp "message" err) (JStr errorMessage))
               (orElse (optProp "status" err) (JStr ""))
  end.

(** [parsedError.message.includes(s)]: a string method, an array method,
    and a [TypeError] ([None]) on any other value. *)
Definition messageIncludes (s : string) (m : json) : option bool :=
  match m with
  | JStr t => Some (includes s t)
  | JArr items => Some (existsb (isStr s) items)
  | _ => None
  end.

(** [parsedError.message.toLowerCase().includes(s)] *)
Definition lowerMessageIncludes (s : string) (m : json) : option bool :=
  match m with
  | JStr t => Some (includes s (toLowerCase t))
  | _ => None
  end.

(** [code === 400 && (status === 'INVALID_ARGUMENT' ||
    message.toLowerCase().includes('api key'))] *)
Definition isApiKeyError (p : ParsedError) : option bool :=
  if isNum 400 (code p)
  then if isStr "INVALID_ARGUMENT" (status p) then Some true
       else lowerMessageIncludes "api key" (message p)
  else Some false.

Definition isBusy (p : ParsedError) : bool :=
  isNum 429 (code p) || isNum 503 (code p).

Definition invalidKeyMessage : string :=
  "Your API key is invalid or has expired. Please check your API key settings.".
Definition quotaMessage : string :=
  "You have exceeded your API quota. Please check your plan and billing details.".
Definition overloadedMessage : string :=
  "The AI model is currently overloaded. Please wait a few moments and try again.".

Definition failedMessage (m : Method) : string :=
  match m with
  | ProcessText =>
      "Failed to process text with Gemini API after multiple attempts. The service may be busy or unavailable."
  | ProcessTextStream =>
      "Failed to process text stream with Gemini API after multiple attempts. The service may be busy or unavailable."
  | GenerateScriptStream =>
      "Failed to process multi-modal stream with Gemini API after multiple attempts. The service may be busy or unavailable."
  end.

(** The message thrown once the last attempt has failed. *)
Definition finalMessage (m : Method) (p : ParsedError) : string :=
  if isNum 429 (code p) then quotaMessage
  else if isNum 503 (code p) then overloadedMessage
  else failedMessage m.

Definition busyStatus (delayTime : Z) (attempt : nat) : string :=
  "The AI model is very busy. Patiently retrying in "
    ++ showZ (roundSeconds delayTime) ++ "s... " ++ attemptOf attempt.

(** The [catch (error)] block. *)
Definition handler (H : Host) (m : Method) (r : nat -> Q)
           (attempt : nat) (error : JsError) (flagNow : bool) : Handled :=
  let parsedError := parseGeminiError H error in
  match messageIncludes stoppedByUser (message parsedError) with
  | None => mkHandled [] (Throw (TypeError "parsedError.message.includes is not a function"))
  | Some true => mkHandled [] (Throw (Error stoppedByUser))
  | Some false =>
      if flagNow
      then mkHandled [ReadFlag InCatch true] (Throw (Error stoppedByUser))
      else
        match isApiKeyError parsedError with
        | None =>
            mkHandled [ReadFlag InCatch false]
              (Throw (TypeError "parsedError.message.toLowerCase is not a function"))
        | Some true => mkHandled [ReadFlag InCatch false] (Throw (Error invalidKeyMessage))
        | Some false =>
            if (attempt <? maxRetries)%nat
            then
              let delayTime :=
                if isBusy parsedError then longDelay attempt (r attempt)
                else baseDelay attempt in
              mkHandled [ReadFlag InCatch false; OnStatus (busyStatus delayTime attempt)]
                        (Retry delayTime)
            else
              mkHandled [ReadFlag InCatch false] (Throw (Error (finalMessage m parsedError)))
        end
  end.

Definition exhausted (H : Host) (m : Method) (lastError : option JsError) : JsError :=
  Error ("Failed to process " ++ what m ++ " with Gemini API after "
           ++ showNat maxRetries ++ " attempts. Last error: "
           ++ JSON_stringify H lastError).

Definition chunkText (c : GenerateContentResponse) : string :=
  match text c with Some t => t | None => "" end.

Definition convertToGeminiPart (part : ContentPart) : GeminiPart :=
  match part with
  | TextPart t => GText t
  | ImagePart data mimeType => GInlineData data mimeType
  end.

(** The state of an instance: the client that
    [new GoogleGenAI({ apiKey })] returned, known by its key, and
    [model]. *)
Record t : Type := new { ai_apiKey : string; this_model : string }.

(** The constructor.  The class [GoogleGenAI] comes from the package
    [@google/genai], which is not among the sources:
    [newGoogleGenAI apiKey] stands for its constructor applied to
    [{ apiKey }], which returns a client ([None]) or throws. *)
Definition constructor (newGoogleGenAI : string -> option JsError)
           (config : AIConfig) : Completion t :=
  match newGoogleGenAI (apiKey config) with
  | Some e => Thrown e
  | None => Returned (new (apiKey config) (model config))
  end.

(** The [try] block shared by the three methods: the call, the loop over
    the chunks, [onStatusUpdate?.('')] and the normalized text. *)
Definition body (this : t) (env : Env Response) (contents : GeminiContents)
           (notify : bool) (attempt : nat) (flagNow : bool) : Attempt :=
  checkBeforeCall flagNow
    (let req := GenerateContentStream (ai_apiKey this) (this_model this) contents in
     let a := transport env attempt req in
     match outcome a with
     | Rejected e => mkAttempt [Call req] (flag a) (Rejected e)
     | Fulfilled response =>
         let '(evs, f, r) := forAwait chunkText notify response (flag a) "" in
         match r with
         | Rejected e => mkAttempt (Call req :: evs) f (Rejected e)
         | Fulfilled fullText =>
             mkAttempt (Call req :: evs ++ [OnStatus ""])%list f
                       (Fulfilled (OutputNormalizer.normalizeGemini fullText))
         end
     end).

Definition combined (agentPrompt content : string) : string :=
  agentPrompt ++ nl ++ nl ++ "---" ++ nl ++ nl ++ content.

Definition processText (H : Host) (this : t) (agentPrompt content : string)
           (env : Env Response) : Run :=
  retry env (body this env (GString (combined agentPrompt content)) false)
        (handler H ProcessText (random env)) (exhausted H ProcessText).

Definition processTextStream (H : Host) (this : t) (agentPrompt content : string)
           (env : Env Response) : Run :=
  retry env (body this env (GString (combined agentPrompt content)) true)
        (handler H ProcessTextStream (random env)) (exhausted H ProcessTextStream).

Definition generateScriptStream (H : Host) (this : t) (agentPrompt : string)
           (parts : list ContentPart) (env : Env Response) : Run :=
  retry env
        (body this env (GParts (GText agentPrompt :: map convertToGeminiPart parts)) true)
        (handler H GenerateScriptStream (random env)) (exhausted H GenerateScriptStream).

End GeminiService.

(* ===================================================================== *)
(** * services/openaiProvider.ts *)
(* ===================================================================== *)

Module OpenAIService.
Import Js Async Json.

(** [response.choices[0]?.message?.content]: the fields that may be
    missing or [null] are options. *)
Record ChatCompletionMessage : Type := mkMessage { msgContent : option string }.
Record Choice : Type := mkChoice { message : option ChatCompletionMessage }.
Record ChatCompletion : Type := mkCompletion { choices : list Choice }.

(** [chunk.choices[0]?.delta?.content] *)
Record Delta : Type := mkDelta { deltaContent : option string }.
Record ChunkChoice : Type := mkChunkChoice { delta : option Delta }.
Record ChatCompletionChunk : Type := mkChunk { chunkChoices : list ChunkChoice }.

Definition Stream : Type := AsyncStream ChatCompletionChunk.

(** [response.choices[0]?.message?.content || ''] *)
Definition responseContent (response : ChatCompletion) : string :=
  match choices response with
  | c :: _ =>
      match message c with
      | Some m => match msgContent m with Some s => s | None => "" end
      | None => ""
      end
  | [] => ""
  end.

(** [chunk.choices[0]?.delta?.content || ''] *)
Definition chunkText (chunk : ChatCompletionChunk) : string :=
  match chunkChoices chunk with
  | c :: _ =>
      match delta c with
      | Some d => match deltaContent d with Some s => s | None => "" end
      | None => ""
      end
  | [] => ""
  end.

(** [convertToOpenAIContent] *)
Definition convertToOpenAIContent (parts : list ContentPart) : list OpenAIPart :=
  map (fun part =>
         match part with
         | TextPart t => OText t
         | ImagePart data mimeType =>
             OImageUrl ("data:" ++ mimeType ++ ";base64," ++ data)
         end) parts.

(** [error?.status === 401 || error?.message?.toLowerCase().includes('api key')] *)
Definition isApiKeyError (error : JsError) : bool :=
  match Async.status error with
  | Some 401%Z => true
  | _ => includes "api key" (toLowerCase (Async.message error))
  end.

(** [error?.status === 429] *)
Definition isRateLimit (error : JsError) : bool :=
  match Async.status error with
  | Some 429%Z => true
  | _ => false
  end.

Definition invalidKeyMessage : string :=
  "Your OpenAI API key is invalid or has expired. Please check your API key settings.".
Definition quotaMessage : string :=
  "You have exceeded your OpenAI API quota. Please check your plan and billing details.".

(** [`Failed to process text with OpenAI API: ${error?.message || 'Unknown error'}`] *)
Definition failedMessage (m : Method) (error : JsError) : string :=
  "Failed to process " ++ what m ++ " with OpenAI API: "
    ++ (if String.eqb (Async.message error) "" then "Unknown error"
        else Async.message error).

(** The message thrown once the last attempt has failed. *)
Definition finalMessage (m : Method) (error : JsError) : string :=
  if isRateLimit error then quotaMessage else failedMessage m error.

Definition busyStatus (delayTime : Z) (attempt : nat) : string :=
  "The AI model is busy. Retrying in "
    ++ showZ (roundSeconds delayTime) ++ "s... " ++ attemptOf attempt.

(** The [catch (error: any)] block. *)
Definition handler (m : Method) (r : nat -> Q)
           (attempt : nat) (error : JsError) (flagNow : bool) : Handled :=
  if flagNow
  then mkHandled [ReadFlag InCatch true] (Throw (Error stoppedByUser))
  else if isApiKeyError error
  then mkHandled [ReadFlag InCatch false] (Throw (Error invalidKeyMessage))
  else if (attempt <? maxRetries)%nat
  then
    let delayTime :=
      if isRateLimit error then longDelay attempt (r attempt)
      else baseDelay attempt in
    mkHandled [ReadFlag InCatch false; OnStatus (busyStatus delayTime attempt)]
              (Retry delayTime)
  else
    mkHandled [ReadFlag InCatch false] (Throw (Error (finalMessage m error))).

(** [`... after ${maxRetries} attempts. Last error: ${lastError}`] *)
Definition exhausted (m : Method) (lastError : option JsError) : JsError :=
  Error ("Failed to process " ++ what m ++ " with OpenAI API after "
           ++ showNat maxRetries ++ " attempts. Last error: "
           ++ match lastError with Some e => toString e | None => "undefined" end).

(** The state of an instance: the client that [new OpenAI({ ... })]
    returned, known by its key, and [model]. *)
Record t : Type := new { client_apiKey : string; this_model : string }.

(** The constructor.  The class [OpenAI] comes from the package
    [openai], which is not among the sources: [newOpenAI apiKey] stands
    for its constructor applied to
    [{ apiKey, dangerouslyAllowBrowser: true }], which returns a client
    ([None]) or throws. *)
Definition constructor (newOpenAI : string -> option JsError)
           (config : AIConfig) : Completion t :=
  match newOpenAI (apiKey config) with
  | Some e => Thrown e
  | None => Returned (new (apiKey config) (model config))
  end.

(** [`${agentPrompt}\n\n---\n\n${content}`] *)
Definition combined (agentPrompt content : string) : string :=
  agentPrompt ++ nl ++ nl ++ "---" ++ nl ++ nl ++ content.

(** [messages: [{ role: 'user', content: `...` }]] *)
Definition textMessages (agentPrompt content : string) : list OpenAIMessage :=
  [mkOpenAIMessage "user" (OString (combined agentPrompt content))].

(** [[{ role: 'user', content: [{ type: 'text', text: agentPrompt }, ...contentParts] }]] *)
Definition multiModalMessages (agentPrompt : string) (parts : list ContentPart)
  : list OpenAIMessage :=
  [mkOpenAIMessage "user" (OParts (OText agentPrompt :: convertToOpenAIContent parts))].

(** The [try] block of [processText]. *)
Definition bodyText (this : t) (env : Env ChatCompletion) (agentPrompt content : string)
           (attempt : nat) (flagNow : bool) : Attempt :=
  checkBeforeCall flagNow
    (let req := ChatCompletionsCreate (client_apiKey this) (this_model this)
                                      (textMessages agentPrompt content) false in
     let a := transport env attempt req in
     match outcome a with
     | Rejected e => mkAttempt [Call req] (flag a) (Rejected e)
     | Fulfilled response =>
         mkAttempt [Call req; OnStatus ""] (flag a)
                   (Fulfilled (OutputNormalizer.normalizeOpenAI (responseContent response)))
     end).

(** The [try] block of the two streaming methods. *)
Definition bodyStream (this : t) (env : Env Stream) (messages : list OpenAIMessage)
           (attempt : nat) (flagNow : bool) : Attempt :=
  checkBeforeCall flagNow
    (let req := ChatCompletionsCreate (client_apiKey this) (this_model this) messages true in
     let a := transport env attempt req in
     match outcome a with
     | Rejected e => mkAttempt [Call req] (flag a) (Rejected e)
     | Fulfilled stream =>
         let '(evs, f, r) := forAwait chunkText true stream (flag a) "" in
         match r with
         | Rejected e => mkAttempt (Call req :: evs) f (Rejected e)
         | Fulfilled fullText =>
             mkAttempt (Call req :: evs ++ [OnStatus ""])%list f
                       (Fulfilled (OutputNormalizer.normalizeOpenAI fullText))
         end
     end).

Definition processText (this : t) (agentPrompt content : string)
           (env : Env ChatCompletion) : Run :=
  retry env (bodyText this env agentPrompt content)
        (handler ProcessText (random env)) (exhausted ProcessText).

Definition processTextStream (this : t) (agentPrompt content : string)
           (env : Env Stream) : Run :=
  retry env (bodyStream this env (textMessages agentPrompt content))
        (handler ProcessTextStream (random env)) (exhausted ProcessTextStream).

Definition generateScriptStream (this : t) (agentPrompt : string)
           (parts : list ContentPart) (env : Env Stream) : Run :=
  retry env (bodyStream this env (multiModalMessages agentPrompt parts))
        (handler GenerateScriptStream (random env)) (exhausted GenerateScriptStream).

End OpenAIService.

(* ===================================================================== *)
(** * services/ollamaProvider.ts *)
(* ===================================================================== *)

Module OllamaService.
Import Js Async Json.

(** [interface OllamaResponse], as far as it is read. *)
Record OllamaResponse : Type := mkOllamaResponse { message_content : string }.

(** What [fetch] resolves to: [ok], [status], what [text()] and [json()]
    settle to, and the reads of [body?.getReader()] ([None] when there is
    no body). *)
Record HttpResponse : Type := mkHttpResponse {
  ok : bool;
  httpStatus : Z;
  responseText : Await string;
  responseJson : Await OllamaResponse;
  bodyReader : option (AsyncStream string)
}.

(** The state of an instance. *)
Record t : Type := new { baseUrl : string; this_model : string }.

(** [config.ollamaBaseUrl || 'http://localhost:11434'] *)
Definition constructor (config : AIConfig) : t :=
  new (match ollamaBaseUrl config with
       | Some u => if String.eqb u "" then "http://localhost:11434" else u
       | None => "http://localhost:11434"
       end)
      (model config).

(** [makeRequest('/api/chat', { model, messages }, stream)] *)
Definition makeRequest (this : t) (env : Env HttpResponse) (attempt : nat)
           (messages : list OllamaMessage) (stream : bool)
  : list Event * bool * Outcome HttpResponse :=
  let req := FetchPost (baseUrl this ++ "/api/chat") (this_model this) messages stream in
  let a := transport env attempt req in
  match outcome a with
  | Rejected e => ([Call req], flag a, Rejected e)
  | Fulfilled response =>
      if ok response then ([Call req], flag a, Fulfilled response)
      else
        let t := responseText response in
        match outcome t with
        | Rejected e => ([Call req], flag t, Rejected e)
        | Fulfilled errorText =>
            ([Call req], flag t,
             Rejected (Error ("Ollama API error: " ++ showZ (httpStatus response)
                                ++ " - " ++ errorText)))
        end
  end.

(** [error?.message?.includes('fetch') || error?.message?.includes('Network')] *)
Definition isConnectionError (error : JsError) : bool :=
  includes "fetch" (Async.message error) || includes "Network" (Async.message error).

Definition cannotConnect (this : t) : string :=
  "Cannot connect to Ollama at " ++ baseUrl this
    ++ ". Please ensure Ollama is running locally.".

(** [`Failed to process text with Ollama: ${error?.message || 'Unknown error'}`] *)
Definition failedMessage (m : Method) (error : JsError) : string :=
  "Failed to process " ++ what m ++ " with Ollama: "
    ++ (if String.eqb (Async.message error) "" then "Unknown error"
        else Async.message error).

Definition retryStatus (delayTime : Z) (attempt : nat) : string :=
  "Retrying in " ++ showZ (roundSeconds delayTime) ++ "s... " ++ attemptOf attempt.

(** The [catch (error: any)] block. *)
Definition handler (this : t) (m : Method)
           (attempt : nat) (error : JsError) (flagNow : bool) : Handled :=
  if flagNow
  then mkHandled [ReadFlag InCatch true] (Throw (Error stoppedByUser))
  else if isConnectionError error
  then mkHandled [ReadFlag InCatch false] (Throw (Error (cannotConnect this)))
  else if (attempt <? maxRetries)%nat
  then
    let delayTime := baseDelay attempt in
    mkHandled [ReadFlag InCatch false; OnStatus (retryStatus delayTime attempt)]
              (Retry delayTime)
  else
    mkHandled [ReadFlag InCatch false] (Throw (Error (failedMessage m error))).

Definition exhausted (m : Method) (lastError : option JsError) : JsError :=
  Error ("Failed to process " ++ what m ++ " with Ollama after "
           ++ showNat maxRetries ++ " attempts. Last error: "
           ++ match lastError with Some e => toString e | None => "undefined" end).

(** [`${agentPrompt}\n\n---\n\n${content}`] *)
Definition combined (agentPrompt content : string) : string :=
  agentPrompt ++ nl ++ nl ++ "---" ++ nl ++ nl ++ content.

Definition textMessages (agentPrompt content : string) : list OllamaMessage :=
  [mkOllamaMessage "user" (combined agentPrompt content) None].

(** The message of [generateScriptStream]: the texts joined by LF after
    the prompt, the image data in [images] when there is any. *)
Definition multiModalMessages (agentPrompt : string) (parts : list ContentPart)
  : list OllamaMessage :=
  let textParts :=
    flat_map (fun p => match p with TextPart t => [t] | _ => [] end) parts in
  let imageParts :=
    flat_map (fun p => match p with ImagePart d _ => [d] | _ => [] end) parts in
  [mkOllamaMessage "user" (agentPrompt ++ nl ++ nl ++ join nl textParts)
                   (match imageParts with [] => None | _ => Some imageParts end)].

(** The [try] block of [processText]. *)
Definition bodyText (this : t) (env : Env HttpResponse) (agentPrompt content : string)
           (attempt : nat) (flagNow : bool) : Attempt :=
  checkBeforeCall flagNow
    (let '(evs, f, r) :=
       makeRequest this env attempt (textMessages agentPrompt content) false in
     match r with
     | Rejected e => mkAttempt evs f (Rejected e)
     | Fulfilled response =>
         let d := responseJson response in
         match outcome d with
         | Rejected e => mkAttempt evs (flag d) (Rejected e)
         | Fulfilled data =>
             mkAttempt (evs ++ [OnStatus ""])%list (flag d)
                       (Fulfilled (OutputNormalizer.normalizeOllama (message_content data)))
         end
     end).

(** [json.message?.content || ''] of one line; a content that is present
    is a string (interface [OllamaResponse]).  [None] when [JSON.parse]
    or the property access throws, which the inner [catch] swallows. *)
Definition lineText (H : Host) (line : string) : option string :=
  match JSON_parse H line with
  | None | Some JNull => None
  | Some v =>
      match optProp "content" (prop "message" v) with
      | Some (JStr s) => Some s
      | _ => Some ""
      end
  end.

(** [for (const line of lines) { try { ... } catch (e) { } }] *)
Fixpoint eachLine (H : Host) (lines : list string) (fullText : string)
  : list Event * string :=
  match lines with
  | [] => ([], fullText)
  | line :: rest =>
      match lineText H line with
      | Some chunkText =>
          if String.eqb chunkText "" then eachLine H rest fullText
          else let '(evs, full) := eachLine H rest (fullText ++ chunkText) in
               (OnChunk chunkText :: evs, full)
      | None => eachLine H rest fullText
      end
  end.

(** [chunk.split('\n').filter(line => line.trim())] *)
Definition nonBlankLines (chunk : string) : list string :=
  filter (fun line => negb (String.eqb (trim line) "")) (splitLines chunk).

(** [while (true) { if (flag) { reader.cancel(); throw ... }
    const { done, value } = await reader.read(); if (done) break; ... }] *)
Fixpoint readLoop (H : Host) (reads : AsyncStream string) (flagNow : bool)
         (fullText : string) : list Event * bool * Outcome string :=
  if flagNow
  then ([ReadFlag InStream true; ReaderCancel], true, Rejected (Error stoppedByUser))
  else
    match reads with
    | Done => ([ReadFlag InStream false], flagNow, Fulfilled fullText)
    | Throws e f => ([ReadFlag InStream false], f, Rejected e)
    | Yield chunk f rest =>
        let '(evs1, full) := eachLine H (nonBlankLines chunk) fullText in
        let '(evs2, f', r) := readLoop H rest f full in
        ((ReadFlag InStream false :: evs1 ++ evs2)%list, f', r)
    end.

(** The [try] block of the two streaming methods. *)
Definition bodyStream (H : Host) (this : t) (env : Env HttpResponse)
           (messages : list OllamaMessage) (attempt : nat) (flagNow : bool) : Attempt :=
  checkBeforeCall flagNow
    (let '(evs, f, r) := makeRequest this env attempt messages true in
     match r with
     | Rejected e => mkAttempt evs f (Rejected e)
     | Fulfilled response =>
         match bodyReader response with
         | None => mkAttempt evs f (Rejected (Error "No response body reader available"))
         | Some reads =>
             let '(evs2, f2, r2) := readLoop H reads f "" in
             match r2 with
             | Rejected e => mkAttempt (evs ++ evs2)%list f2 (Rejected e)
             | Fulfilled fullText =>
                 mkAttempt (evs ++ evs2 ++ [OnStatus ""])%list f2
                           (Fulfilled (OutputNormalizer.normalizeOllama fullText))
             end
         end
     end).

Definition processText (this : t) (agentPrompt content : string)
           (env : Env HttpResponse) : Run :=
  retry env (bodyText this env agentPrompt content)
        (handler this ProcessText) (exhausted ProcessText).

Definition processTextStream (H : Host) (this : t) (agentPrompt content : string)
           (env : Env HttpResponse) : Run :=
  retry env (bodyStream H this env (textMessages agentPrompt content))
        (handler this ProcessTextStream) (exhausted ProcessTextStream).

Definition generateScriptStream (H : Host) (this : t) (agentPrompt : string)
           (parts : list ContentPart) (env : Env HttpResponse) : Run :=
  retry env (bodyStream H this env (multiModalMessages agentPrompt parts))
        (handler this GenerateScriptStream) (exhausted GenerateScriptStream).

End OllamaService.

(* ===================================================================== *)
(** * services/aiServiceFactory.ts *)
(* ===================================================================== *)

Module Factory.
Import Js Async Json.

(** An object that implements [IAIService]. *)
Inductive IAIService : Type :=
| Gemini (this : GeminiService.t)
| OpenAI (this : OpenAIService.t)
| Ollama (this : OllamaService.t).

(** The client constructors of the two packages that the sources
    import and do not contain. *)
Record Packages : Type := mkPackages {
  newGoogleGenAI : string -> option JsError;   (* [new GoogleGenAI({ apiKey })] *)
  newOpenAI : string -> option JsError         (* [new OpenAI({ apiKey, ... })] *)
}.

(** [createAIService]; the [default] branch of its [switch] needs a
    provider outside [AIProvider].  A constructor that throws makes
    [createAIService] throw. *)
Definition createAIService (P : Packages) (config : AIConfig) : Completion IAIService :=
  match provider config with
  | gemini =>
      match GeminiService.constructor (newGoogleGenAI P) config with
      | Returned this => Returned (Gemini this)
      | Thrown e => Thrown e
      end
  | openai =>
      match OpenAIService.constructor (newOpenAI P) config with
      | Returned this => Returned (OpenAI this)
      | Thrown e => Thrown e
      end
  | ollama => Returned (Ollama (OllamaService.constructor config))
  end.

Definition providerOf (s : IAIService) : AIProvider :=
  match s with
  | Gemini _ => gemini
  | OpenAI _ => openai
  | Ollama _ => ollama
  end.

(** What the transport of each method resolves to. *)
Definition Response (p : AIProvider) (m : Method) : Type :=
  match p, m with
  | gemini, _ => GeminiService.Response
  | openai, ProcessText => OpenAIService.ChatCompletion
  | openai, _ => OpenAIService.Stream
  | ollama, _ => OllamaService.HttpResponse
  end.

(** The arguments of a call: [content] is read by the two text methods,
    [parts] by [generateScriptStream]. *)
Record Args : Type := mkArgs {
  agentPrompt : string;
  content : string;
  parts : list ContentPart
}.

(** [service.processText(...)], [service.processTextStream(...)] and
    [service.generateScriptStream(...)]. *)
Definition invoke (H : Host) (s : IAIService) (m : Method) (a : Args)
  : Env (Response (providerOf s) m) -> Run :=
  match s as s0, m as m0 return Env (Response (providerOf s0) m0) -> Run with
  | Gemini g, ProcessText =>
      GeminiService.processText H g (agentPrompt a) (content a)
  | Gemini g, ProcessTextStream =>
      GeminiService.processTextStream H g (agentPrompt a) (content a)
  | Gemini g, GenerateScriptStream =>
      GeminiService.generateScriptStream H g (agentPrompt a) (parts a)
  | OpenAI o, ProcessText =>
      OpenAIService.processText o (agentPrompt a) (content a)
  | OpenAI o, ProcessTextStream =>
      OpenAIService.processTextStream o (agentPrompt a) (content a)
  | OpenAI o, GenerateScriptStream =>
      OpenAIService.generateScriptStream o (agentPrompt a) (parts a)
  | Ollama l, ProcessText =>
      OllamaService.processText l (agentPrompt a) (content a)
  | Ollama l, ProcessTextStream =>
      OllamaService.processTextStream H l (agentPrompt a) (content a)
  | Ollama l, GenerateScriptStream =>
      OllamaService.generateScriptStream H l (agentPrompt a) (parts a)
  end.

End Factory.

(* ===================================================================== *)
(** * services/geminiService.ts: the functions that the class replaced *)
(* ===================================================================== *)

Module GeminiLegacy.
Import Js Async Json.

(** [const ai = new GoogleGenAI({ apiKey: process.env.API_KEY })], the
    first statement of each function: [key] is the text of
    [process.env.API_KEY], and a constructor that throws makes the
    function reject before anything else. *)
Definition withClient (newGoogleGenAI : string -> option JsError) (key : string)
           (rest : Run) : Run :=
  match newGoogleGenAI key with
  | Some e => mkRun [] (Rejected e)
  | None => rest
  end.

(** The [try] block shared by the three functions; the text gathered
    from the chunks is returned as it is. *)
Definition body (key model : string) (env : Env GeminiService.Response)
           (contents : GeminiContents) (notify : bool)
           (attempt : nat) (flagNow : bool) : Attempt :=
  checkBeforeCall flagNow
    (let req := GenerateContentStream key model contents in
     let a := transport env attempt req in
     match outcome a with
     | Rejected e => mkAttempt [Call req] (flag a) (Rejected e)
     | Fulfilled response =>
         let '(evs, f, r) :=
           forAwait GeminiService.chunkText notify response (flag a) "" in
         match r with
         | Rejected e => mkAttempt (Call req :: evs) f (Rejected e)
         | Fulfilled fullText =>
             mkAttempt (Call req :: evs ++ [OnStatus ""])%list f (Fulfilled fullText)
         end
     end).

(** The [catch] blocks and the closing [throw]s have the texts of the
    class. *)
Definition processText (newGoogleGenAI : string -> option JsError) (H : Host)
           (key model agentPrompt content : string)
           (env : Env GeminiService.Response) : Run :=
  withClient newGoogleGenAI key
    (retry env (body key model env (GString (GeminiService.combined agentPrompt content)) false)
           (GeminiService.handler H ProcessText (random env))
           (GeminiService.exhausted H ProcessText)).

Definition processTextStream (newGoogleGenAI : string -> option JsError) (H : Host)
           (key model agentPrompt content : string)
           (env : Env GeminiService.Response) : Run :=
  withClient newGoogleGenAI key
    (retry env (body key model env (GString (GeminiService.combined agentPrompt content)) true)
           (GeminiService.handler H ProcessTextStream (random env))
           (GeminiService.exhausted H ProcessTextStream)).

(** [parts: Part[]] are parts of the Gemini client already. *)
Definition generateScriptStream (newGoogleGenAI : string -> option JsError) (H : Host)
           (key model agentPrompt : string)
           (parts : list GeminiPart) (env : Env GeminiService.Response) : Run :=
  withClient newGoogleGenAI key
    (retry env (body key model env (GParts (GText agentPrompt :: parts)) true)
           (GeminiService.handler H GenerateScriptStream (random env))
           (GeminiService.exhausted H GenerateScriptStream)).

End GeminiLegacy.

(* ===================================================================== *)
(** * services/settingsManager.ts *)
(* ===================================================================== *)

Module SettingsManager.
Import Js Json.

(** [JSON.parse] ([None] when it throws) and [JSON.stringify] of the
    host, on the values that the settings are made of. *)
Record JSON : Type := mkJSON {
  parse : string -> option json;
  stringify : json -> string
}.

(** [localStorage] as the class sees it: the item stored under
    ['ai-provider-settings'], and whether [getItem], [setItem] and
    [removeItem] throw (storage disabled, quota exceeded). *)
Record Storage : Type := mkStorage {
  item : option string;
  getItemThrows : bool;
  setItemThrows : bool;
  removeItemThrows : bool
}.

(** An object: its own properties in order. *)
Definition object : Type := list (string * json).

(** [o[k] = v] *)
Fixpoint set (k : string) (v : json) (o : object) : object :=
  match o with
  | [] => [(k, v)]
  | (k', v') :: rest =>
      if String.eqb k k' then (k, v) :: rest else (k', v') :: set k v rest
  end.

(** The own enumerable properties that [...v] copies: the fields of an
    object, the items of an array and the characters of a string under
    their indices, nothing for [null], a number or a boolean. *)
Fixpoint indexed {A : Type} (f : A -> json) (i : nat) (l : list A) : object :=
  match l with
  | [] => []
  | x :: rest => (showNat i, f x) :: indexed f (S i) rest
  end.

Definition ownProperties (v : json) : object :=
  match v with
  | JObj fields => fields
  | JArr items => indexed (fun x => x) 0 items
  | JStr s => indexed (fun c => JStr (String c "")) 0 (to_list s)
  | _ => []
  end.

(** [{ ...a, ...b }] *)
Definition spread (a : object) (b : json) : object :=
  fold_left (fun acc kv => set (fst kv) (snd kv) acc) (ownProperties b) a.

Definition DEFAULT_SETTINGS : object :=
  [("provider", JStr "gemini");
   ("apiKey", JStr "");
   ("model", JStr "gemini-2.0-flash-exp");
   ("ollamaBaseUrl", JStr "http://localhost:11434")].

(** [static getSettings(): ProviderSettings] *)
Definition getSettings (J : JSON) (st : Storage) : object :=
  if getItemThrows st then DEFAULT_SETTINGS
  else match item st with
       | None => DEFAULT_SETTINGS
       | Some stored =>
           if String.eqb stored "" then DEFAULT_SETTINGS
           else match parse J stored with
                | Some parsed => spread DEFAULT_SETTINGS parsed
                | None => DEFAULT_SETTINGS
                end
       end.

(** [static saveSettings(settings: ProviderSettings): void] *)
Definition saveSettings (J : JSON) (settings : object) (st : Storage) : Storage :=
  if setItemThrows st then st
  else mkStorage (Some (stringify J (JObj settings)))
                 (getItemThrows st) (setItemThrows st) (removeItemThrows st).

(** [static clearSettings(): void] *)
Definition clearSettings (st : Storage) : Storage :=
  if removeItemThrows st then st
  else mkStorage None (getItemThrows st) (setItemThrows st) (removeItemThrows st).

(** [settings.provider === provider] *)
Definition isProvider (provider : string) (settings : object) : bool :=
  match lookup "provider" settings with
  | Some (JStr p) => String.eqb p provider
  | _ => false
  end.

(** [static getApiKey(provider: AIProvider): string]; [None] is
    [undefined]. *)
Definition getApiKey (J : JSON) (provider : string) (st : Storage) : value :=
  let settings := getSettings J st in
  if isProvider provider settings then lookup "apiKey" settings else Some (JStr "").

(** [static setApiKey(provider: AIProvider, apiKey: string): void] *)
Definition setApiKey (J : JSON) (provider apiKey : string) (st : Storage) : Storage :=
  let settings := getSettings J st in
  if isProvider provider settings
  then saveSettings J (set "apiKey" (JStr apiKey) settings) st
  else st.

(** The settings that the settings dialog saves: four texts. *)
Definition providerSettings (provider apiKey model ollamaBaseUrl : string) : object :=
  [("provider", JStr provider);
   ("apiKey", JStr apiKey);
   ("model", JStr model);
   ("ollamaBaseUrl", JStr ollamaBaseUrl)].

End SettingsManager.

(* ===================================================================== *)
(** * components/LabGenerator.tsx: the name of the downloaded file *)
(* ===================================================================== *)

Module LabGenerator.
Import Js.

Definition isDigit (c : ascii) : bool :=
  let n := nat_of_ascii c in ((48 <=? n) && (n <=? 57))%nat.
Definition isLower (c : ascii) : bool :=
  let n := nat_of_ascii c in ((97 <=? n) && (n <=? 122))%nat.
Definition isUpper (c : ascii) : bool :=
  let n := nat_of_ascii c in ((65 <=? n) && (n <=? 90))%nat.

(** [[^a-z0-9\s-]] under the [i] flag, on code units below 256 (none of
    them but the letters A-Z is canonicalized to a member of the
    class). *)
Definition unsafeChar : Regex.regex :=
  Regex.Chr (fun c => negb (isLower c || isUpper c || isDigit c || isSpace c
                            || Ascii.eqb c "-")).

Definition seriesNameTag : string := "**Series Name:**".

(** [getSeriesName(content)] *)
Definition getSeriesName (content : string) : string :=
  let lines := splitLines content in
  match find (fun line => prefix seriesNameTag line) lines with
  | Some nameLine =>
      let name :=
        trim (Regex.replaceFirst (Regex.lit seriesNameTag) (fun _ => "") None nameLine) in
      let safeName :=
        toLowerCase
          (Regex.replaceAll (Regex.plus Regex.space) (fun _ => "-")
             (Regex.replaceAll unsafeChar (fun _ => "") name)) in
      "lab-series-" ++ safeName ++ ".md"
  | None => "lab-series.md"
  end.

End LabGenerator.

(* ===================================================================== *)
(** * Vocabulary of the properties *)
(* ===================================================================== *)

Import Js Async Json Factory.

(** The flag is never set and every transport call rejects; [e k] is the
    error of attempt [k]. *)
Definition alwaysRejects {R : Type} (env : Env R) (e : nat -> JsError) : Prop :=
  flag0 env = false /\
  (forall k, flagAfterWait env k = false) /\
  (forall k req, transport env k req = mkAwait (Rejected (e k)) false).

(** [Math.random()] returns a double of [[0, 1)]. *)
Definition randomInRange {R : Type} (env : Env R) : Prop :=
  forall k, Double.unitDouble (random env k).

(** The errors that the [catch] block of an adapter answers with its
    invalid-key message (the Ollama adapter has no such branch). *)
Definition invalidKey (H : Host) (s : IAIService) (e : JsError) : bool :=
  match s with
  | Gemini _ =>
      let p := GeminiService.parseGeminiError H e in
      match GeminiService.messageIncludes stoppedByUser (GeminiService.message p),
            GeminiService.isApiKeyError p with
      | Some false, Some true => true
      | _, _ => false
      end
  | OpenAI _ => OpenAIService.isApiKeyError e
  | Ollama _ => false
  end.

Definition invalidKeyMessage (s : IAIService) : string :=
  match s with
  | Gemini _ => GeminiService.invalidKeyMessage
  | OpenAI _ => OpenAIService.invalidKeyMessage
  | Ollama _ => ""
  end.

(** The errors that the [catch] block of an adapter retries while the
    flag is unset: for Gemini, a parsed message that is a text without
    the cancellation sentence and no invalid-key error; for OpenAI, no
    invalid-key error; for Ollama, no connection error. *)
Definition retryable (H : Host) (s : IAIService) (e : JsError) : bool :=
  match s with
  | Gemini _ =>
      let p := GeminiService.parseGeminiError H e in
      match GeminiService.messageIncludes stoppedByUser (GeminiService.message p),
            GeminiService.isApiKeyError p with
      | Some false, Some false => true
      | _, _ => false
      end
  | OpenAI _ => negb (OpenAIService.isApiKeyError e)
  | Ollama _ => negb (OllamaService.isConnectionError e)
  end.

(** The errors that get the long delay. *)
Definition busy (H : Host) (s : IAIService) (e : JsError) : bool :=
  match s with
  | Gemini _ => GeminiService.isBusy (GeminiService.parseGeminiError H e)
  | OpenAI _ => OpenAIService.isRateLimit e
  | Ollama _ => false
  end.

(** The message of the error thrown when the last attempt has failed. *)
Definition finalMessage (H : Host) (s : IAIService) (m : Method) (e : JsError) : string :=
  match s with
  | Gemini _ => GeminiService.finalMessage m (GeminiService.parseGeminiError H e)
  | OpenAI _ => OpenAIService.finalMessage m e
  | Ollama _ => OllamaService.failedMessage m e
  end.

(** The schedule of the claim: the long delay with a jitter below 5000
    for a busy backend, the base delay otherwise. *)
Definition onSchedule (isBusy : bool) (attempt : nat) (ms : Z) : Prop :=
  if isBusy
  then exists j, (0 <= j < 5000)%Z /\ ms = (15000 * 2 ^ Z.of_nat attempt + j)%Z
  else ms = (2000 * 2 ^ Z.of_nat attempt)%Z.

(** The connection errors of the Ollama adapter and its answer to them. *)
Definition connectionError (s : IAIService) (e : JsError) : bool :=
  match s with
  | Ollama _ => OllamaService.isConnectionError e
  | _ => false
  end.

Definition connectionMessage (s : IAIService) : string :=
  match s with
  | Ollama this => OllamaService.cannotConnect this
  | _ => ""
  end.

(** The request that a method hands to its transport. *)
Definition requestOf (s : IAIService) (m : Method) (a : Args) : Request :=
  match s, m with
  | Gemini g, GenerateScriptStream =>
      GenerateContentStream (GeminiService.ai_apiKey g) (GeminiService.this_model g)
        (GParts (GText (agentPrompt a) :: map GeminiService.convertToGeminiPart (parts a)))
  | Gemini g, _ =>
      GenerateContentStream (GeminiService.ai_apiKey g) (GeminiService.this_model g)
        (GString (GeminiService.combined (agentPrompt a) (content a)))
  | OpenAI o, ProcessText =>
      ChatCompletionsCreate (OpenAIService.client_apiKey o) (OpenAIService.this_model o)
        (OpenAIService.textMessages (agentPrompt a) (content a)) false
  | OpenAI o, ProcessTextStream =>
      ChatCompletionsCreate (OpenAIService.client_apiKey o) (OpenAIService.this_model o)
        (OpenAIService.textMessages (agentPrompt a) (content a)) true
  | OpenAI o, GenerateScriptStream =>
      ChatCompletionsCreate (OpenAIService.client_apiKey o) (OpenAIService.this_model o)
        (OpenAIService.multiModalMessages (agentPrompt a) (parts a)) true
  | Ollama l, ProcessText =>
      FetchPost (OllamaService.baseUrl l ++ "/api/chat") (OllamaService.this_model l)
        (OllamaService.textMessages (agentPrompt a) (content a)) false
  | Ollama l, ProcessTextStream =>
      FetchPost (OllamaService.baseUrl l ++ "/api/chat") (OllamaService.this_model l)
        (OllamaService.textMessages (agentPrompt a) (content a)) true
  | Ollama l, GenerateScriptStream =>
      FetchPost (OllamaService.baseUrl l ++ "/api/chat") (OllamaService.this_model l)
        (OllamaService.multiModalMessages (agentPrompt a) (parts a)) true
  end.

(** The [try] block, the [catch] block and the closing [throw] of the
    retry loop of a method. *)
Definition tryBlock (H : Host) (s : IAIService) (m : Method) (a : Args)
  : Env (Response (providerOf s) m) -> nat -> bool -> Attempt :=
  match s as s0, m as m0
        return Env (Response (providerOf s0) m0) -> nat -> bool -> Attempt with
  | Gemini g, ProcessText => fun env =>
      GeminiService.body g env
        (GString (GeminiService.combined (agentPrompt a) (content a))) false
  | Gemini g, ProcessTextStream => fun env =>
      GeminiService.body g env
        (GString (GeminiService.combined (agentPrompt a) (content a))) true
  | Gemini g, GenerateScriptStream => fun env =>
      GeminiService.body g env
        (GParts (GText (agentPrompt a) :: map GeminiService.convertToGeminiPart (parts a)))
        true
  | OpenAI o, ProcessText => fun env =>
      OpenAIService.bodyText o env (agentPrompt a) (content a)
  | OpenAI o, ProcessTextStream => fun env =>
      OpenAIService.bodyStream o env (OpenAIService.textMessages (agentPrompt a) (content a))
  | OpenAI o, GenerateScriptStream => fun env =>
      OpenAIService.bodyStream o env
        (OpenAIService.multiModalMessages (agentPrompt a) (parts a))
  | Ollama l, ProcessText => fun env =>
      OllamaService.bodyText l env (agentPrompt a) (content a)
  | Ollama l, ProcessTextStream => fun env =>
      OllamaService.bodyStream H l env
        (OllamaService.textMessages (agentPrompt a) (content a))
  | Ollama l, GenerateScriptStream => fun env =>
      OllamaService.bodyStream H l env
        (OllamaService.multiModalMessages (agentPrompt a) (parts a))
  end.

Definition catchBlock (H : Host) (s : IAIService) (m : Method) (r : nat -> Q)
  : nat -> JsError -> bool -> Handled :=
  match s with
  | Gemini _ => GeminiService.handler H m r
  | OpenAI _ => OpenAIService.handler m r
  | Ollama l => OllamaService.handler l m
  end.

Definition afterLoop (H : Host) (s : IAIService) (m : Method)
  : option JsError -> JsError :=
  match s with
  | Gemini _ => GeminiService.exhausted H m
  | OpenAI _ => OpenAIService.exhausted m
  | Ollama _ => OllamaService.exhausted m
  end.

(** The status line shown before a wait. *)
Definition notice (s : IAIService) (delay : Z) (attempt : nat) : string :=
  match s with
  | Gemini _ => GeminiService.busyStatus delay attempt
  | OpenAI _ => OpenAIService.busyStatus delay attempt
  | Ollama _ => OllamaService.retryStatus delay attempt
  end.

(** The message with which the [catch] block of attempt [k] gives up on
    error [e] while the flag is unset; [None] when it retries (or when
    the Gemini adapter throws something else). *)
Definition givesUp (H : Host) (s : IAIService) (m : Method) (k : nat) (e : JsError)
  : option string :=
  if invalidKey H s e then Some (invalidKeyMessage s)
  else if connectionError s e then Some (connectionMessage s)
  else if retryable H s e && (k =? maxRetries)%nat then Some (finalMessage H s m e)
  else None.

(** The [delayTime] that the [catch] block of attempt [k] computes. *)
Definition delayTime {R : Type} (H : Host) (s : IAIService) (env : Env R)
           (e : nat -> JsError) (k : nat) : Z :=
  if busy H s (e k) then longDelay k (random env k) else baseDelay k.

(** The API key that a request carries ([fetch] carries none). *)
Definition keyOf (req : Request) : option string :=
  match req with
  | ChatCompletionsCreate key _ _ _ => Some key
  | GenerateContentStream key _ _ => Some key
  | FetchPost _ _ _ _ => None
  end.

(** What the client constructor of the provider's package does with the
    key of a configuration: it returns ([None]) or throws.  The Ollama
    adapter builds no client. *)
Definition clientError (P : Packages) (config : AIConfig) : option JsError :=
  match provider config with
  | gemini => newGoogleGenAI P (apiKey config)
  | openai => newOpenAI P (apiKey config)
  | ollama => None
  end.

(** "no message content (empty choices array, or a missing/null message
    content field)" *)
Definition noContent (response : OpenAIService.ChatCompletion) : Prop :=
  OpenAIService.choices response = [] \/
  exists c rest,
    OpenAIService.choices response = c :: rest /\
    (OpenAIService.message c = None \/
     OpenAIService.message c = Some (OpenAIService.mkMessage None)).

(** A read of the flag that finds it set. *)
Definition seesCancel (ev : Event) : bool :=
  match ev with
  | ReadFlag _ true => true
  | _ => false
  end.

(** The steps that may follow such a read: further reads of the flag and
    [reader.cancel()]; no transport call, no chunk, no status, no wait. *)
Definition quiet (ev : Event) : Prop :=
  match ev with
  | ReadFlag _ _ | ReaderCancel => True
  | _ => False
  end.

(** A trace on which cancellation wins: once a read finds the flag set,
    the promise rejects with the cancellation error and only quiet steps
    follow. *)
Inductive Cooperative (o : Outcome string) : list Event -> Prop :=
| coop_nil : Cooperative o []
| coop_step ev evs :
    seesCancel ev = false -> Cooperative o evs -> Cooperative o (ev :: evs)
| coop_cancel site tail :
    o = Rejected (Error stoppedByUser) -> Forall quiet tail ->
    Cooperative o (ReadFlag site true :: tail).

(** What a [try] block leaves behind: no read that found the flag set,
    or such a read followed by quiet steps, the cancellation error and
    the flag still set. *)
Inductive CancelShape : list Event -> bool -> Outcome string -> Prop :=
| shape_plain evs f o :
    forallb (fun ev => negb (seesCancel ev)) evs = true -> CancelShape evs f o
| shape_cancel pre site tail :
    forallb (fun ev => negb (seesCancel ev)) pre = true -> Forall quiet tail ->
    CancelShape (pre ++ ReadFlag site true :: tail)%list true
                (Rejected (Error stoppedByUser)).

(** A host on which no text parses as JSON, for the examples whose
    errors are plain texts. *)
Definition plainHost : Host := mkHost (fun _ => None) (fun _ => "{}").


(* ===================================================================== *)
(** * Examples: configurations, errors and scripted backends *)
(* ===================================================================== *)

(** Configurations and arguments of the examples. *)
Definition daemonConfig : AIConfig := mkAIConfig ollama "" "llama3.2" None.
Definition localConfig : AIConfig :=
  mkAIConfig ollama "" "llama3.2" (Some "http://localhost:11434").
Definition cloudConfig : AIConfig := mkAIConfig openai "sk-test" "gpt-4o" None.
Definition someArgs : Args := mkArgs "prompt" "content" [].

(** Packages whose client constructors accept every key, and packages
    whose client constructors throw when the key is empty. *)
Definition lenient : Packages := mkPackages (fun _ => None) (fun _ => None).
Definition missingCredentials : JsError := Error "Missing credentials.".
Definition strict : Packages :=
  mkPackages (fun key => if String.eqb key "" then Some missingCredentials else None)
             (fun key => if String.eqb key "" then Some missingCredentials else None).

(** The adapters that [createAIService] returns for these
    configurations. *)
Definition daemonService : IAIService := Ollama (OllamaService.constructor daemonConfig).
Definition localService : IAIService := Ollama (OllamaService.constructor localConfig).
Definition cloudClient : OpenAIService.t := OpenAIService.new "sk-test" "gpt-4o".
Definition cloudService : IAIService := OpenAI cloudClient.

(** What [fetch] rejects with in Chrome when the connection is refused. *)
Definition failedToFetch : JsError := TypeError "Failed to fetch".

(** The daemon is down: every [fetch] rejects, nobody cancels. *)
Definition unreachable : Env OllamaService.HttpResponse :=
  mkEnv false (fun _ _ => mkAwait (Rejected failedToFetch) false)
        (fun _ => false) (fun _ => 0%Q).

(** A backend that answers every call with an internal error. *)
Definition serverError : JsError := mkJsError "Error" "500 Internal Server Error" (Some 500%Z).
Definition failing (R : Type) : Env R :=
  mkEnv false (fun _ _ => mkAwait (Rejected serverError) false)
        (fun _ => false) (fun _ => (1 # 2)%Q).

(** A backend that is overloaded once: status 503 on the first call, an
    empty completion on the next. *)
Definition overloaded : JsError := mkJsError "Error" "503 Service Unavailable" (Some 503%Z).
Definition overloadedOnce : Env OpenAIService.ChatCompletion :=
  mkEnv false
        (fun k _ => match k with
                    | O => mkAwait (Rejected overloaded) false
                    | _ => mkAwait (Fulfilled (OpenAIService.mkCompletion [])) false
                    end)
        (fun _ => false) (fun _ => (1 # 2)%Q).

(** A backend that answers every call with status 429. *)
Definition rateLimited : JsError := mkJsError "Error" "429 Too Many Requests" (Some 429%Z).
Definition throttled (R : Type) : Env R :=
  mkEnv false (fun _ _ => mkAwait (Rejected rateLimited) false)
        (fun _ => false) (fun _ => (1 # 2)%Q).

(** A daemon, or a proxy in front of it, that answers 401 to every
    request. *)
Definition unauthorizedResponse : OllamaService.HttpResponse :=
  OllamaService.mkHttpResponse false 401
    (mkAwait (Fulfilled "Unauthorized") false)
    (mkAwait (Rejected (Error "Unexpected token")) false)
    None.
Definition rejecting401 : Env OllamaService.HttpResponse :=
  mkEnv false (fun _ _ => mkAwait (Fulfilled unauthorizedResponse) false)
        (fun _ => false) (fun _ => 0%Q).

(** What the OpenAI client throws for a wrong key. *)
Definition invalidKeyError : JsError :=
  mkJsError "Error" "401 Incorrect API key provided" (Some 401%Z).
Definition badKey : Env OpenAIService.ChatCompletion :=
  mkEnv false (fun _ _ => mkAwait (Rejected invalidKeyError) false)
        (fun _ => false) (fun _ => 0%Q).

(** Every call among the events is the call of [req]. *)
Definition isRequest (req : Request) (ev : Event) : Prop :=
  isCall ev = true -> ev = Call req.

(** Cloud configurations without a key, and backends that answer. *)
Definition keylessConfig : AIConfig := mkAIConfig openai "" "gpt-4o" None.
Definition keylessGemini : AIConfig := mkAIConfig gemini "" "gemini-2.0-flash-exp" None.
Definition streaming : Env GeminiService.Response :=
  mkEnv false
        (fun _ _ => mkAwait (Fulfilled (Yield (GeminiService.mkChunk (Some "ok")) false Done))
                            false)
        (fun _ => false) (fun _ => 0%Q).
Definition answer (text : option string) : OpenAIService.ChatCompletion :=
  OpenAIService.mkCompletion
    [OpenAIService.mkChoice (Some (OpenAIService.mkMessage text))].
Definition answering : Env OpenAIService.ChatCompletion :=
  mkEnv false (fun _ _ => mkAwait (Fulfilled (answer (Some "ok"))) false)
        (fun _ => false) (fun _ => 0%Q).

(** A backend whose completions have no choice. *)
Definition silent : Env OpenAIService.ChatCompletion :=
  mkEnv false (fun _ _ => mkAwait (Fulfilled (OpenAIService.mkCompletion [])) false)
        (fun _ => false) (fun _ => 0%Q).

(** No event of the list reads a set flag. *)
Definition plain (evs : list Event) : bool :=
  forallb (fun ev => negb (seesCancel ev)) evs.

(** The caller stops the run while the first chunk is on its way. *)
Definition stoppedMidStream : Env OpenAIService.Stream :=
  mkEnv false
        (fun _ _ =>
           mkAwait (Fulfilled
                      (Yield (OpenAIService.mkChunk
                                [OpenAIService.mkChunkChoice
                                   (Some (OpenAIService.mkDelta (Some "A")))])
                             false
                             (Yield (OpenAIService.mkChunk []) true Done)))
                   false)
        (fun _ => false) (fun _ => 0%Q).

(** The flag is set before the call. *)
Definition stoppedAtStart : Env OpenAIService.Stream :=
  mkEnv true (fun _ _ => mkAwait (Fulfilled Done) true) (fun _ => true) (fun _ => 0%Q).

(** A guided block whose note precedes its alert, followed by an
    advanced block. *)
Definition noteThenAlert : string :=
  ":::ShowGuided(ShowGuided=Yes)" ++ nl ++
  ">[+hint] Expand this hint." ++ nl ++
  ">" ++ nl ++
  ">- Step one." ++ nl ++
  ">[!note] A note." ++ nl ++
  ">[+alert] An alert." ++ nl ++
  ":::" ++ nl ++
  nl ++
  ":::ShowAdvanced(ShowAdvanced=Yes)" ++ nl ++
  ">[!knowledge] Read more." ++ nl ++
  ":::" ++ nl.

(* ===================================================================== *)
(** * Rewriting rules: the vocabulary of the normalizer proofs *)
(* ===================================================================== *)

(** The character before a position that lies [w] further. *)
Fixpoint lastChar (prev : option ascii) (w : string) : option ascii :=
  match w with
  | "" => prev
  | String c w' => lastChar (Some c) w'
  end.

(** The position reached from [st] by consuming [w], with [r] left. *)
Definition advance (st : Regex.pos) (w r : string) : Regex.pos :=
  Regex.mkPos (lastChar (Regex.before st) w) r
              (rev (to_list w) ++ Regex.taken st)%list
              (Regex.mark st) (Regex.group1 st).

(** The pattern matches at no position of the text. *)
Fixpoint noMatch (r : Regex.regex) (prev : option ascii) (s : string) : bool :=
  match Regex.matchAt r prev s with
  | Some _ => false
  | None =>
      match s with
      | "" => true
      | String c s' => noMatch r (Some c) s'
      end
  end.

(** [rule s] tells whether a match starts at the head of [s]: the text
    it matches and what replaces it. *)
Definition Rule : Type := string -> option (string * string).

(** [Rw rule s out]: [out] is [s] with the matched texts replaced, from
    left to right, each match starting where the previous one ended. *)
Inductive Rw (rule : Rule) : string -> string -> Prop :=
| Rw_nil : rule "" = None -> Rw rule "" ""
| Rw_copy c s out :
    rule (String c s) = None -> Rw rule s out -> Rw rule (String c s) (String c out)
| Rw_match M R rest out :
    rule (M ++ rest) = Some (M, R) -> M <> "" -> Rw rule rest out ->
    Rw rule (M ++ rest) (R ++ out).

(** The pattern [r] with the replacement [f] follows [rule]. *)
Definition Follows (r : Regex.regex) (f : Regex.found -> string) (rule : Rule) : Prop :=
  forall prev s,
    match Regex.matchAt r prev s with
    | None => rule s = None
    | Some m =>
        Regex.text m <> "" /\
        rule s = Some (Regex.text m, f m) /\
        exists rest, s = Regex.text m ++ rest
    end.

(** The rule of a literal pattern. *)
Definition ruleLit (P Q : string) : Rule :=
  fun s => if prefix P s then Some (P, Q) else None.

(** The number of line feeds the text starts with, the text after
    them, and a text of [n] line feeds. *)
Fixpoint lfRun (s : string) : nat :=
  match s with
  | String c s' => if isLF c then S (lfRun s') else 0
  | "" => 0
  end.

Fixpoint afterLFs (s : string) : string :=
  match s with
  | String c s' => if isLF c then afterLFs s' else s
  | "" => ""
  end.

Fixpoint lfs (n : nat) : string :=
  match n with
  | O => ""
  | S n' => String LF (lfs n')
  end.

(** The text is not empty and its first character satisfies [p]. *)
Definition headIs (p : ascii -> bool) (s : string) : bool :=
  match s with
  | String c _ => p c
  | "" => false
  end.

(** The two characters that open the tag of an alert block after the
    bracket. *)
Definition isTag (c : ascii) : bool := existsb (Ascii.eqb c) (to_list "+!").

(** [/\n\n\n+(\[[\+\!])/g] replaced by ['\n\n$1'] *)
Definition regexA : Regex.regex :=
  Regex.seq [Regex.lit (nl ++ nl); Regex.plus (Regex.chr LF);
             Regex.Group (Regex.Seq (Regex.chr "[") (Regex.oneOf "+!"))].
Definition replaceA (m : Regex.found) : string := nl ++ nl ++ Regex.capture m.

(** The first pattern as a rule: three or more line feeds before a tag
    become two. *)
Definition ruleA : Rule := fun s =>
  if (3 <=? lfRun s)%nat
  then match afterLFs s with
       | String a (String b _) =>
           if Ascii.eqb "[" a && isTag b
           then Some (lfs (lfRun s) ++ String a (String b ""),
                      nl ++ nl ++ String a (String b ""))
           else None
       | _ => None
       end
  else None.

(** [/(\])\n\n\n+/g] replaced by ['$1\n\n'] *)
Definition regexB : Regex.regex :=
  Regex.seq [Regex.Group (Regex.chr "]"); Regex.lit (nl ++ nl); Regex.plus (Regex.chr LF)].
Definition replaceB (m : Regex.found) : string := Regex.capture m ++ nl ++ nl.

(** The second pattern as a rule: three or more line feeds after a
    closing bracket become two. *)
Definition ruleB : Rule := fun s =>
  match s with
  | String a s' =>
      if Ascii.eqb "]" a && (3 <=? lfRun s')%nat
      then Some (String a (lfs (lfRun s')), String a (nl ++ nl))
      else None
  | "" => None
  end.

(** [c] is a character of [W]; no character of [R] is one of [W]. *)
Fixpoint charIn (c : ascii) (W : string) : bool :=
  match W with
  | "" => false
  | String w W' => Ascii.eqb c w || charIn c W'
  end.

Fixpoint disjoint (R W : string) : bool :=
  match R with
  | "" => true
  | String c R' => negb (charIn c W) && disjoint R' W
  end.

(** The first character of a text. *)
Definition headOpt (s : string) : option ascii :=
  match s with
  | "" => None
  | String c _ => Some c
  end.

(** A rule keeps the head: what it puts starts as what it takes. *)
Definition KeepsHead (rule : Rule) : Prop :=
  forall s M R, rule s = Some (M, R) -> headOpt R = headOpt M.

(** What a rule puts is not empty and shares no character with [W]. *)
Definition Disjoint (rule : Rule) (W : string) : Prop :=
  forall s M R, rule s = Some (M, R) -> R <> "" /\ disjoint R W = true.

(** No match of the rule starts anywhere in the text. *)
Fixpoint noRule (rule : Rule) (s : string) : bool :=
  match rule s with
  | Some _ => false
  | None => match s with
            | "" => true
            | String _ s' => noRule rule s'
            end
  end.

(** A whitespace character other than the line feed. *)
Definition blank (c : ascii) : bool := isSpace c && negb (isLF c).

(** The text is at the end of a line. *)
Definition endsLine (s : string) : bool :=
  match s with
  | "" => true
  | String c _ => isLF c
  end.

(** [s.split('\n').map(line => line.trimEnd()).join('\n')], by recursion
    on the text. *)
Fixpoint trimLines (s : string) : string :=
  match s with
  | "" => ""
  | String c r =>
      if isLF c then String c (trimLines r)
      else if blank c && endsLine (trimLines r) then trimLines r
           else String c (trimLines r)
  end.

(** No line ends in whitespace. *)
Fixpoint trimmed (s : string) : bool :=
  match s with
  | "" => true
  | String c r => negb (blank c && endsLine r) && trimmed r
  end.

(** What the rule puts has no whitespace before a line end, neither
    inside nor as its last character. *)
Definition KeepsTrimmed (rule : Rule) : Prop :=
  forall s M R, rule s = Some (M, R) -> trimmed (R ++ nl) = true.

(** The rules of the two literal replacements of [normalize]. *)
Definition ruleCRLF : Rule := ruleLit crlf nl.
Definition ruleDGT : Rule := ruleLit "> >-" "> -".

(** [atA n s]: the text starts with at least [n] line feeds and the tag
    of an alert follows them. *)
Fixpoint atA (n : nat) (s : string) : bool :=
  match s with
  | "" => false
  | String c r =>
      if isLF c then atA (pred n) r
      else (n =? 0)%nat && Ascii.eqb "[" c && headIs isTag r
  end.

(** The text starts with the tag of an alert block. *)
Definition tagged (t : string) : bool :=
  match t with
  | String a (String b _) => Ascii.eqb "[" a && isTag b
  | _ => false
  end.

(** What [normalize] establishes on a text without guided blocks, and
    what makes a text a fixed point of every pass. *)
Record Settled (y : string) : Prop := {
  settled_guided : includes OutputNormalizer.guidedMarker y = false;
  settled_trimmed : trimmed y = true;
  settled_dgt : includes "> >-" y = false;
  settled_A : noRule ruleA y = true;
  settled_B : noRule ruleB y = true
}.

(** A guided block with three blank blockquote lines before its first
    bullet. *)
Definition tripleBlank : string :=
  ":::ShowGuided(ShowGuided=Yes)" ++ nl ++ ">" ++ nl ++ ">" ++ nl ++ ">" ++ nl
    ++ ">- a" ++ nl ++ ":::".

(** An overview line followed by a nested bullet, without guided block. *)
Definition overviewLine : string := ">[overview]: x >" ++ nl ++ ">>-".

(** A text without guided block that every other pass changes. *)
Definition untidy : string :=
  "Title  " ++ crlf ++ "> >- step " ++ nl ++ nl ++ nl ++ nl ++ "[!note] text]" ++ nl ++ nl ++ nl ++ nl ++ "end ".

(* ===================================================================== *)
(** * Vocabulary and examples of the further properties *)
(* ===================================================================== *)

(** ** Vocabulary of the traces *)

Definition isWait (ev : Event) : bool :=
  match ev with Wait _ => true | _ => false end.

(** The chunks handed to [onChunk], in order. *)
Definition chunksOf (evs : list Event) : list string :=
  flat_map (fun ev => match ev with OnChunk c => [c] | _ => [] end) evs.

(** The status lines handed to [onStatusUpdate], in order. *)
Definition statusOf (evs : list Event) : list string :=
  flat_map (fun ev => match ev with OnStatus msg => [msg] | _ => [] end) evs.

(** The events that follow the last wait (all of them when there is no
    wait): the events of the last attempt. *)
Fixpoint afterLastWait (evs : list Event) : list Event :=
  match evs with
  | [] => []
  | ev :: rest =>
      if existsb isWait rest then afterLastWait rest
      else if isWait ev then rest else ev :: rest
  end.

(** The normalizer that the methods of an adapter apply to their result. *)
Definition normalizeFor (s : IAIService) : string -> string :=
  match s with
  | Gemini _ => OutputNormalizer.normalizeGemini
  | OpenAI _ => OutputNormalizer.normalizeOpenAI
  | Ollama _ => OutputNormalizer.normalizeOllama
  end.

(** The events of a [catch] block: reads of the flag and status lines. *)
Definition isCatchEvent (ev : Event) : bool :=
  match ev with
  | ReadFlag _ _ | OnStatus _ => true
  | _ => false
  end.

(** The longest wait that attempt [k] can be followed by, and the sum of
    these over the attempts that [remaining] turns of the loop can
    retry. *)
Definition longestDelay (k : nat) : Z := 15000 * 2 ^ Z.of_nat k + 4999.

Fixpoint longestTotal (remaining : nat) : Z :=
  match remaining with
  | O => 0
  | S r =>
      match r with
      | O => 0
      | S _ => longestDelay (maxRetries + 1 - remaining) + longestTotal r
      end
  end.

Definition total (l : list Z) : Z := fold_right Z.add 0%Z l.

(** The waits that the schedule allows after attempt [k]: the base
    delay, or the long delay with a jitter below 5000. *)
Definition scheduled (k : nat) (ms : Z) : Prop :=
  onSchedule false k ms \/ onSchedule true k ms.

(** The chunks handed to [onChunk] are not empty. *)
Definition chunkOk (ev : Event) : Prop :=
  match ev with
  | OnChunk c => c <> ""
  | _ => True
  end.

(** A backend that fails once with an internal error and then streams
    "A", an empty delta and "B". *)
Definition flaky : JsError := mkJsError "Error" "500 Internal Server Error" (Some 500%Z).
Definition delta (text : string) : OpenAIService.ChatCompletionChunk :=
  OpenAIService.mkChunk [OpenAIService.mkChunkChoice (Some (OpenAIService.mkDelta (Some text)))].
Definition flakyStream : Env OpenAIService.Stream :=
  mkEnv false
        (fun k _ => match k with
                    | O => mkAwait (Rejected flaky) false
                    | _ => mkAwait (Fulfilled
                                      (Yield (delta "A") false
                                         (Yield (delta "") false
                                            (Yield (delta "B") false Done))))
                                   false
                    end)
        (fun _ => false) (fun _ => (1 # 2)%Q).

(** What [makeRequest] throws for an answer that is not [ok]. *)
Definition httpError (httpStatus : Z) (errorText : string) : JsError :=
  Error ("Ollama API error: " ++ showZ httpStatus ++ " - " ++ errorText).

(** An answer that is not [ok], with its status and its text. *)
Definition refusal (httpStatus : Z) (errorText : string) : OllamaService.HttpResponse :=
  OllamaService.mkHttpResponse false httpStatus
    (mkAwait (Fulfilled errorText) false)
    (mkAwait (Rejected (Error "Unexpected token")) false)
    None.

(** A server in front of the daemon that answers 502 to every request. *)
Definition badGateway : Env OllamaService.HttpResponse :=
  mkEnv false (fun _ _ => mkAwait (Fulfilled (refusal 502 "Network unreachable")) false)
        (fun _ => false) (fun _ => 0%Q).
Definition busyDaemon : Env OllamaService.HttpResponse :=
  mkEnv false (fun _ _ => mkAwait (Fulfilled (refusal 500 "model is loading")) false)
        (fun _ => false) (fun _ => 0%Q).
Definition daemon : OllamaService.t :=
  OllamaService.constructor (mkAIConfig ollama "" "llama3.2" None).

(** A cloud backend that fails twice and then answers. *)
Definition secondRetryWorks : Env OpenAIService.ChatCompletion :=
  mkEnv false
        (fun k _ => match k with
                    | O | S O => mkAwait (Rejected flaky) false
                    | _ => mkAwait (Fulfilled
                                      (OpenAIService.mkCompletion
                                         [OpenAIService.mkChoice
                                            (Some (OpenAIService.mkMessage (Some "done  ")))]))
                                   false
                    end)
        (fun _ => false) (fun _ => 0%Q).

(** A Gemini backend whose errors are plain texts that mention 429. *)
Definition tooManyRequests : JsError := Error "got status: 429 Too Many Requests".
Definition exhaustedQuota : Env GeminiService.Response :=
  mkEnv false (fun _ _ => mkAwait (Rejected tooManyRequests) false)
        (fun _ => false) (fun _ => (1 # 4)%Q).
Definition geminiClient : IAIService :=
  Gemini (GeminiService.new "key" "gemini-2.0-flash-exp").

(** Status 503 on the OpenAI adapter: its [catch] block tests status 429
    only, while the Gemini adapter gives code 503 the long delay. *)
Definition unclassifiedOverload (s : IAIService) (e : JsError) : bool :=
  match s with
  | OpenAI _ =>
      match Async.status e with
      | Some code => (code =? 503)%Z
      | None => false
      end
  | _ => false
  end.

(** A proxy in front of the daemon that answers 429 to every request. *)
Definition throttlingProxy : Env OllamaService.HttpResponse :=
  mkEnv false (fun _ _ => mkAwait (Fulfilled (refusal 429 "Too Many Requests")) false)
        (fun _ => false) (fun _ => 0%Q).

(** A run whose value, when it resolves, is passed through [g]. *)
Definition mapSettled (g : string -> string) (o : Outcome string) : Outcome string :=
  match o with
  | Fulfilled text => Fulfilled (g text)
  | Rejected e => Rejected e
  end.

(** The number of line feeds of a text. *)
Fixpoint countLF (s : string) : nat :=
  match s with
  | "" => 0
  | String c r => if isLF c then S (countLF r) else countLF r
  end.

(** An advanced block alone, with blank blockquote lines and a callout. *)
Definition advancedOnly : string :=
  ":::ShowAdvanced(ShowAdvanced=Yes)" ++ nl ++ ">" ++ nl ++ ">" ++ nl ++ ">- a" ++ nl
    ++ ">[!note] n" ++ nl ++ ":::".

(** The last value stored under a key of a list of properties. *)
Definition lookupLast (k : string) (o : SettingsManager.object) : value :=
  lookup k (rev o).

(** A host for the examples: [JSON.stringify] on objects of texts that
    need no escape, and [JSON.parse] on the three texts of the
    examples. *)
Definition quoted (s : string) : string :=
  String (ascii_of_nat 34) s ++ String (ascii_of_nat 34) "".

Definition jsonText (o : SettingsManager.object) : string :=
  "{" ++ join ","
           (map (fun kv => quoted (fst kv) ++ ":"
                             ++ match snd kv with JStr t => quoted t | _ => "null" end) o)
      ++ "}".

Definition ollamaChosen : SettingsManager.object := [("provider", JStr "ollama")].
Definition withFirstKey : SettingsManager.object :=
  SettingsManager.providerSettings "openai" "sk-1" "gpt-4o" "http://h:1".
Definition withSecondKey : SettingsManager.object :=
  SettingsManager.providerSettings "openai" "sk-2" "gpt-4o" "http://h:1".

Definition smallJSON : SettingsManager.JSON :=
  SettingsManager.mkJSON
    (fun text =>
       if String.eqb text (jsonText ollamaChosen) then Some (JObj ollamaChosen)
       else if String.eqb text (jsonText withFirstKey) then Some (JObj withFirstKey)
       else if String.eqb text (jsonText withSecondKey) then Some (JObj withSecondKey)
       else None)
    (fun v => match v with JObj o => jsonText o | _ => "null" end).

Definition emptyStorage : SettingsManager.Storage :=
  SettingsManager.mkStorage None false false false.
Definition ollamaStored : SettingsManager.Storage :=
  SettingsManager.mkStorage (Some (jsonText ollamaChosen)) false false false.
Definition firstKeyStored : SettingsManager.Storage :=
  SettingsManager.mkStorage (Some (jsonText withFirstKey)) false false false.

(** The characters of a safe file name: a-z, 0-9 and the hyphen. *)
Definition isFileChar (c : ascii) : bool :=
  LabGenerator.isLower c || LabGenerator.isDigit c || Ascii.eqb c "-".

(** Every character of a text satisfies [p]. *)
Fixpoint allChars (p : ascii -> bool) (s : string) : bool :=
  match s with
  | "" => true
  | String c r => p c && allChars p r
  end.

(** The longest start of a text made of characters of a class. *)
Fixpoint runOf (p : ascii -> bool) (s : string) : string :=
  match s with
  | "" => ""
  | String c r => if p c then String c (runOf p r) else ""
  end.

Fixpoint afterRun (p : ascii -> bool) (s : string) : string :=
  match s with
  | "" => ""
  | String c r => if p c then afterRun p r else s
  end.

(** The rules of a character class and of its repetition [+]. *)
Definition ruleChr (p : ascii -> bool) (R : string) : Rule :=
  fun s => match s with
           | String c _ => if p c then Some (String c "", R) else None
           | "" => None
           end.

Definition rulePlus (p : ascii -> bool) (R : string) : Rule :=
  fun s => match s with
           | String c r => if p c then Some (String c (runOf p r), R) else None
           | "" => None
           end.

Definition seriesDocument : string :=
  "# Plan" ++ nl ++ "**Series Name:**  Azure & AI:  Intro (v2)! " ++ nl ++ "text".

(** ** Vocabulary of the callout relocation *)

(** The characters with which a match of a pattern may start (a pattern
    that may match the empty text is taken to start with any). *)
Fixpoint canStart (r : Regex.regex) (c : ascii) : bool :=
  match r with
  | Regex.Chr p => p c
  | Regex.Seq a _ => canStart a c
  | Regex.Alt a b => canStart a c || canStart b c
  | Regex.Group a => canStart a c
  | Regex.Look a => canStart a c
  | Regex.Eoi => false
  | Regex.Eps | Regex.Star _ _ | Regex.Bol => true
  end.

(** The pattern matches at no position of [p], whatever follows [p]. *)
Fixpoint Silent (r : Regex.regex) (p : string) : Prop :=
  match p with
  | "" => True
  | String c p' =>
      (forall s prev, Regex.matchAt r prev (String c (p' ++ s)) = None) /\ Silent r p'
  end.

(** [/(M[\s\S]*?:::)/], the pattern of a block that [M] opens. *)
Definition blockRegex (M : string) : Regex.regex :=
  Regex.Group (Regex.seq [Regex.lit M; Regex.lazy Regex.any; Regex.lit ":::"]).

(** The pattern of the spacing pass and the one of the cleaning pass
    need two blank blockquote lines. *)
Definition spacingRegex : Regex.regex :=
  Regex.seq [Regex.lit (">" ++ nl ++ ">" ++ nl); Regex.Group OutputNormalizer.bulletOrTag].
Definition cleaningRegex : Regex.regex := Regex.lit (">" ++ nl ++ ">" ++ nl ++ ">" ++ nl).

(** A guided-hint block and an advanced-hint block with the given
    lines. *)
Definition guidedBlock (lines : string) : string :=
  OutputNormalizer.guidedMarker ++ nl ++ lines ++ ":::".
Definition advancedBlock (lines : string) : string :=
  OutputNormalizer.advancedMarker ++ nl ++ lines ++ ":::".

(** A callout tag line, or no line. *)
Definition calloutLine (tag : string) (text : option string) : string :=
  match text with
  | Some t => ">" ++ tag ++ t ++ nl
  | None => ""
  end.

(** The extracted callout of a tag line: the line without its end. *)
Definition calloutOf (tag : string) (text : option string) : list string :=
  match text with
  | Some t => [">" ++ tag ++ t]
  | None => []
  end.

(** What follows an advanced block to which callouts are relocated: an
    empty line, then the callouts, one blank blockquote line between
    two of them. *)
Definition relocatedAfter (callouts : list string) : string :=
  match callouts with
  | [] => ""
  | _ => nl ++ nl ++ join (nl ++ ">" ++ nl) callouts
  end.

(** The text of a callout tag line: no line feed, no colon, no [>]. *)
Definition tagText (c : ascii) : bool :=
  negb (isLF c) && negb (Ascii.eqb c ":") && negb (Ascii.eqb c ">").
Definition lineText (text : option string) : bool :=
  match text with
  | Some t => allChars tagText t
  | None => true
  end.

(** No marker of a block starts or ends in a text without colon. *)
Definition colonFree (s : string) : bool := allChars (fun c => negb (Ascii.eqb c ":")) s.

(** The two texts differ at a position that both have. *)
Fixpoint clash (a b : string) : bool :=
  match a, b with
  | String x a', String y b' => if Ascii.eqb x y then clash a' b' else true
  | _, _ => false
  end.

(** What follows a [>] of a calm text: no callout tag behind optional
    white space, and no blank blockquote line behind a line end. *)
Definition quietAfter (r : string) : bool :=
  clash "[+alert]" (afterRun isSpace r) && clash "[!note]" (afterRun isSpace r)
  && clash "[!help]" (afterRun isSpace r) && clash (nl ++ ">" ++ nl) r.

(** The lines of a guided block that hold no callout and no two blank
    blockquote lines in a row. *)
Fixpoint calm (s : string) : bool :=
  match s with
  | "" => true
  | String c r => (if Ascii.eqb c ">" then quietAfter r else true) && calm r
  end.

(** A text that the passes on line ends, on [> >-] and on runs of line
    feeds leave as it is: no white space at the end of a line, no
    [> >-], no three line feeds in a row. *)
Definition tidy (s : string) : bool :=
  trimmed s && negb (includes "> >-" s) && negb (includes (nl ++ nl ++ nl) s).

(** A document with one guided-hint block, whose last lines are callout
    tag lines (a help, a note and an alert line, each of them optional),
    and one advanced-hint block behind it. *)
Definition withCallouts (pre body : string) (h n w : option string)
           (mid adv post : string) : string :=
  pre ++ guidedBlock (body ++ calloutLine "[!help]" h ++ calloutLine "[!note]" n
                           ++ calloutLine "[+alert]" w)
      ++ nl ++ mid ++ advancedBlock adv ++ nl ++ post.

(** The same document with the callouts behind the advanced block. *)
Definition relocatedCallouts (pre body : string) (h n w : option string)
           (mid adv post : string) : string :=
  pre ++ guidedBlock body ++ nl ++ mid ++ advancedBlock adv
      ++ relocatedAfter (calloutOf "[+alert]" w ++ calloutOf "[!note]" n
                           ++ calloutOf "[!help]" h)%list
      ++ nl ++ post.

(** [trim] takes the line end, and nothing else, off a tag line. *)
Definition trimOk (tag : string) (o : option string) : Prop :=
  match o with
  | Some t => trim (">" ++ tag ++ t ++ nl) = ">" ++ tag ++ t
  | None => True
  end.


(** The documents of [withCallouts] that the relocation is stated for:
    the document is tidy, no text between the markers holds a colon,
    the lines of the guided block before its tag lines are calm, and
    the texts of the tag lines are texts of one line. *)
Definition relocatable (pre body : string) (h n w : option string)
           (mid adv post : string) : bool :=
  tidy (withCallouts pre body h n w mid adv post)
  && colonFree pre && colonFree body && colonFree mid && colonFree adv && colonFree post
  && calm body && lineText h && lineText n && lineText w.

(* ===================================================================== *)
(** * Facts about strings *)
(* ===================================================================== *)

Lemma append_assoc (a b c : string) : (a ++ b) ++ c = a ++ b ++ c.
Proof. induction a as [|x a IH]; cbn; [reflexivity | rewrite IH; reflexivity]. Qed.

Lemma append_nil_r (a : string) : a ++ "" = a.
Proof. induction a as [|x a IH]; cbn; [reflexivity | rewrite IH; reflexivity]. Qed.

(* ===================================================================== *)
(** * The retry loop *)
(* ===================================================================== *)

Section FailingAttempts.
Context {R : Type} (env : Env R) (body : nat -> bool -> Attempt)
        (handler : nat -> JsError -> bool -> Handled)
        (exhausted : option JsError -> JsError).
Context (e : nat -> JsError) (req : nat -> Request)
        (ms : nat -> Z) (st : nat -> string) (final : JsError).

(** Attempts [0] to [n - 1] throw and are retried; attempt [n] throws
    and its [catch] block gives up with [final]. *)
Variable n : nat.
Hypothesis n_bound : (n <= maxRetries)%nat.
Hypothesis wait_unset : forall k, (k < n)%nat -> flagAfterWait env k = false.
Hypothesis body_throws : forall k, (k <= n)%nat ->
    body k false = mkAttempt [ReadFlag BeforeCall false; Call (req k)] false (Rejected (e k)).
Hypothesis handler_retries : forall k, (k < n)%nat ->
    handler k (e k) false =
      mkHandled [ReadFlag InCatch false; OnStatus (st k)] (Retry (ms k)).
Hypothesis handler_gives_up :
    handler n (e n) false = mkHandled [ReadFlag InCatch false] (Throw final).

Lemma attempts_S : forall r flagNow last,
    attempts env body handler exhausted (S r) flagNow last =
      let attempt := (maxRetries + 1 - S r)%nat in
      let a := body attempt flagNow in
      match completion a with
      | Fulfilled text => mkRun (events a) (Fulfilled text)
      | Rejected error =>
          let h := handler attempt error (flagAfter a) in
          match action h with
          | Throw e' => mkRun (events a ++ hevents h)%list (Rejected e')
          | Retry d =>
              let r' := attempts env body handler exhausted r
                                 (flagAfterWait env attempt) (Some error) in
              mkRun (events a ++ hevents h ++ Wait d :: trace r')%list (settled r')
          end
      end.
Proof. reflexivity. Qed.

Lemma attempts_fail_until : forall remaining last,
    (maxRetries + 1 - remaining <= n)%nat ->
    (remaining <= maxRetries + 1)%nat ->
    let k := (maxRetries + 1 - remaining)%nat in
    let r := attempts env body handler exhausted remaining false last in
    calls r = (n + 1 - k)%nat /\
    settled r = Rejected final /\
    waits r = map ms (seq k (n - k)).
Proof.
  induction remaining as [|r IH]; intros last Hk Hr; [lia|].
  cbn zeta. rewrite attempts_S. cbn zeta.
  remember (maxRetries + 1 - S r)%nat as k eqn:Ek.
  rewrite body_throws by exact Hk. cbn [completion flagAfter events].
  destruct (Nat.eq_dec k n) as [->|Hne].
  - rewrite handler_gives_up. cbn [action hevents].
    unfold calls, waits. cbn [trace settled app filter isCall List.length flat_map].
    replace (n + 1 - n)%nat with 1%nat by lia.
    replace (n - n)%nat with 0%nat by lia. auto.
  - rewrite handler_retries by lia.
    cbn [action hevents]. rewrite wait_unset by lia.
    destruct (IH (Some (e k))) as (Hc & Hs & Hw); [lia | lia |].
    cbn zeta in Hc, Hs, Hw.
    unfold calls, waits in *. cbn [trace settled].
    repeat split.
    + cbn [app filter isCall List.length]. rewrite Hc. lia.
    + exact Hs.
    + cbn [app flat_map]. rewrite Hw.
      replace (maxRetries + 1 - r)%nat with (S k) by lia.
      replace (n - k)%nat with (S (n - S k)) by lia.
      reflexivity.
Qed.

Lemma retry_fail_until :
    flag0 env = false ->
    let r := retry env body handler exhausted in
    calls r = (n + 1)%nat /\
    settled r = Rejected final /\
    waits r = map ms (seq 0 n).
Proof.
  intros H0. unfold retry. rewrite H0.
  destruct (attempts_fail_until (maxRetries + 1) None) as (Hc & Hs & Hw); [lia | lia |].
  cbn zeta in *.
  replace (maxRetries + 1 - (maxRetries + 1))%nat with 0%nat in * by lia.
  replace (n + 1 - 0)%nat with (n + 1)%nat in Hc by lia.
  replace (n - 0)%nat with n in Hw by lia.
  repeat split; auto.
Qed.
End FailingAttempts.

(** ** The retry loop of the nine methods *)

Lemma invoke_retry H s m a (env : Env (Response (providerOf s) m)) :
  invoke H s m a env =
    retry env (tryBlock H s m a env) (catchBlock H s m (random env)) (afterLoop H s m).
Proof. destruct s, m; reflexivity. Qed.

(** The [try] block throws the rejection of its transport call. *)
Lemma tryBlock_throws H s m a (env : Env (Response (providerOf s) m)) k e :
  (forall req, transport env k req = mkAwait (Rejected e) false) ->
  tryBlock H s m a env k false =
    mkAttempt [ReadFlag BeforeCall false; Call (requestOf s m a)] false (Rejected e).
Proof.
  intros Ht.
  destruct s as [g|o|l], m; cbn [tryBlock requestOf providerOf Response] in *;
    unfold GeminiService.body, OpenAIService.bodyText, OpenAIService.bodyStream,
      OllamaService.bodyText, OllamaService.bodyStream, OllamaService.makeRequest,
      checkBeforeCall;
    rewrite Ht; reflexivity.
Qed.

Lemma ltb_maxRetries : forall k, (k < maxRetries)%nat -> (k <? maxRetries)%nat = true.
Proof. intros k Hk. apply Nat.ltb_lt. exact Hk. Qed.

(** The [catch] block retries a retryable error of an attempt before the
    last, after the delay of the schedule. *)
Lemma catchBlock_retries H s m r k e :
  retryable H s e = true ->
  (k < maxRetries)%nat ->
  catchBlock H s m r k e false =
    mkHandled
      [ReadFlag InCatch false;
       OnStatus (notice s (if busy H s e then longDelay k (r k) else baseDelay k) k)]
      (Retry (if busy H s e then longDelay k (r k) else baseDelay k)).
Proof.
  intros Hr Hk. destruct s as [g|o|l]; cbn [catchBlock notice busy retryable] in *.
  - unfold GeminiService.handler.
    destruct (GeminiService.messageIncludes _ _) as [[|]|]; try discriminate.
    destruct (GeminiService.isApiKeyError _) as [[|]|]; try discriminate.
    rewrite (ltb_maxRetries k Hk). reflexivity.
  - unfold OpenAIService.handler. apply negb_true_iff in Hr.
    rewrite Hr, (ltb_maxRetries k Hk). reflexivity.
  - unfold OllamaService.handler. apply negb_true_iff in Hr.
    rewrite Hr, (ltb_maxRetries k Hk). reflexivity.
Qed.

(** The [catch] block gives up with the message of [givesUp]. *)
Lemma catchBlock_gives_up H s m r k e msg :
  givesUp H s m k e = Some msg ->
  catchBlock H s m r k e false = mkHandled [ReadFlag InCatch false] (Throw (Error msg)).
Proof.
  unfold givesUp. intros Hg.
  destruct s as [g|o|l];
    cbn [catchBlock invalidKey connectionError retryable invalidKeyMessage
         connectionMessage finalMessage] in *.
  - unfold GeminiService.handler.
    destruct (GeminiService.messageIncludes _ _) as [[|]|]; try discriminate.
    destruct (GeminiService.isApiKeyError _) as [[|]|]; try discriminate.
    + injection Hg as <-. reflexivity.
    + cbn [andb] in Hg. destruct (Nat.eqb_spec k maxRetries) as [->|]; [|discriminate].
      injection Hg as <-. reflexivity.
  - unfold OpenAIService.handler.
    destruct (OpenAIService.isApiKeyError e).
    + injection Hg as <-. reflexivity.
    + cbn [negb andb] in Hg. destruct (Nat.eqb_spec k maxRetries) as [->|]; [|discriminate].
      injection Hg as <-. reflexivity.
  - unfold OllamaService.handler.
    destruct (OllamaService.isConnectionError e).
    + injection Hg as <-. reflexivity.
    + cbn [negb andb] in Hg. destruct (Nat.eqb_spec k maxRetries) as [->|]; [|discriminate].
      injection Hg as <-. reflexivity.
Qed.

(** A run whose attempts [0] to [n - 1] fail with retried errors and
    whose attempt [n] fails with an error that ends the loop: [n + 1]
    transport calls, [n] waits, and the message of [givesUp]. *)
Lemma invoke_fails_until H s m a (env : Env (Response (providerOf s) m)) e n msg :
  flag0 env = false ->
  (n <= maxRetries)%nat ->
  (forall k req, (k <= n)%nat -> transport env k req = mkAwait (Rejected (e k)) false) ->
  (forall k, (k < n)%nat -> flagAfterWait env k = false) ->
  (forall k, (k < n)%nat -> retryable H s (e k) = true) ->
  givesUp H s m n (e n) = Some msg ->
  let r := invoke H s m a env in
  calls r = (n + 1)%nat /\
  settled r = Rejected (Error msg) /\
  waits r = map (delayTime H s env e) (seq 0 n).
Proof.
  intros H0 Hn Ht Hw Hr Hg. rewrite invoke_retry.
  apply retry_fail_until
    with (e := e) (req := fun _ => requestOf s m a)
         (st := fun k => notice s (delayTime H s env e k) k); auto.
  - intros k Hk. apply tryBlock_throws. intro req. apply Ht. exact Hk.
  - intros k Hk. unfold delayTime. apply catchBlock_retries; [apply Hr; exact Hk | lia].
  - apply catchBlock_gives_up. exact Hg.
Qed.

Lemma givesUp_last H s m e :
  retryable H s e = true -> givesUp H s m maxRetries e = Some (finalMessage H s m e).
Proof.
  unfold givesUp. intros Hr.
  destruct s as [g|o|l]; cbn [invalidKey connectionError retryable] in *.
  - destruct (GeminiService.messageIncludes _ _) as [[|]|]; try discriminate.
    destruct (GeminiService.isApiKeyError _) as [[|]|]; try discriminate. reflexivity.
  - apply negb_true_iff in Hr. rewrite Hr. reflexivity.
  - apply negb_true_iff in Hr. rewrite Hr. reflexivity.
Qed.

Lemma invoke_all_fail H s m a (env : Env (Response (providerOf s) m)) e :
  alwaysRejects env e ->
  (forall k, retryable H s (e k) = true) ->
  let r := invoke H s m a env in
  calls r = (maxRetries + 1)%nat /\
  settled r = Rejected (Error (finalMessage H s m (e maxRetries))) /\
  waits r = map (delayTime H s env e) (seq 0 maxRetries).
Proof.
  intros (H0 & Hw & Ht) Hr.
  apply invoke_fails_until; auto.
  apply givesUp_last. apply Hr.
Qed.

(** ** The rounded product of [Math.random()] and 5000 *)

Lemma nearestEven_nonneg n d : (0 <= n)%Z -> (0 < d)%Z -> (0 <= Double.nearestEven n d)%Z.
Proof.
  intros Hn Hd. unfold Double.nearestEven.
  assert (0 <= n / d)%Z by (apply Z.div_pos; lia).
  destruct (2 * (n mod d) ?= d)%Z; [destruct (Z.even _)| |]; lia.
Qed.

Lemma nearestEven_le n d K :
  (0 < d)%Z -> (n <= K * d)%Z -> (Double.nearestEven n d <= K)%Z.
Proof.
  intros Hd Hn. unfold Double.nearestEven.
  pose proof (Z.div_mod n d ltac:(lia)) as Hdm.
  pose proof (Z.mod_pos_bound n d Hd) as Hm.
  set (f := (n / d)%Z) in *. set (r := (n mod d)%Z) in *.
  assert (Hf : (f <= K)%Z) by nia.
  assert (Hr : (0 < r -> f + 1 <= K)%Z) by (intros; nia).
  destruct (2 * r ?= d)%Z eqn:Ec.
  - apply Z.compare_eq in Ec. destruct (Z.even f); [exact Hf | apply Hr; lia].
  - exact Hf.
  - apply Z.compare_gt_iff in Ec. apply Hr. lia.
Qed.

Lemma nearestEven_below n d K :
  (0 < d)%Z -> (2 * n < (2 * K - 1) * d)%Z -> (Double.nearestEven n d <= K - 1)%Z.
Proof.
  intros Hd Hn. unfold Double.nearestEven.
  pose proof (Z.div_mod n d ltac:(lia)) as Hdm.
  pose proof (Z.mod_pos_bound n d Hd) as Hm.
  set (f := (n / d)%Z) in *. set (r := (n mod d)%Z) in *.
  assert (Hf : (f <= K - 1)%Z) by nia.
  assert (Hr : (d <= 2 * r -> f + 1 <= K - 1)%Z) by (intros; nia).
  destruct (2 * r ?= d)%Z eqn:Ec.
  - apply Z.compare_eq in Ec. destruct (Z.even f); [exact Hf | apply Hr; lia].
  - exact Hf.
  - apply Z.compare_gt_iff in Ec. apply Hr. lia.
Qed.

Lemma reaches_true a b e :
  Double.reaches a b e = true ->
  if (0 <=? e)%Z then (2 ^ e * b <= a)%Z else (b <= a * 2 ^ (- e))%Z.
Proof.
  unfold Double.reaches. destruct (0 <=? e)%Z; intros Hr; apply Z.leb_le; exact Hr.
Qed.

Lemma reaches_false a b e :
  Double.reaches a b e = false ->
  if (0 <=? e)%Z then (a < 2 ^ e * b)%Z else (a * 2 ^ (- e) < b)%Z.
Proof.
  unfold Double.reaches. destruct (0 <=? e)%Z; intros Hr; apply Z.leb_gt; exact Hr.
Qed.

Lemma mag_spec a b :
  (0 < a)%Z -> (0 < b)%Z ->
  Double.reaches a b (Double.mag a b - 1) = true /\
  Double.reaches a b (Double.mag a b) = false.
Proof.
  intros Ha Hb.
  destruct (Z.log2_spec a Ha) as (Ha1 & Ha2). destruct (Z.log2_spec b Hb) as (Hb1 & Hb2).
  pose proof (Z.log2_nonneg a) as Hla. pose proof (Z.log2_nonneg b) as Hlb.
  unfold Double.mag. set (la := Z.log2 a) in *. set (lb := Z.log2 b) in *.
  rewrite <- Z.add_1_r in Ha2, Hb2.
  destruct (Double.reaches a b (la - lb)) eqn:Hr.
  - split; [replace (la - lb + 1 - 1)%Z with (la - lb)%Z by lia; exact Hr|].
    unfold Double.reaches. destruct (0 <=? la - lb + 1)%Z eqn:Es.
    + apply Z.leb_le in Es. apply Z.leb_gt.
      replace (la + 1)%Z with ((la - lb + 1) + lb)%Z in Ha2 by lia.
      rewrite Z.pow_add_r in Ha2 by lia.
      assert (0 < 2 ^ (la - lb + 1))%Z by (apply Z.pow_pos_nonneg; lia). nia.
    + apply Z.leb_gt in Es. apply Z.leb_gt.
      replace lb with ((la + 1) + (- (la - lb + 1)))%Z in Hb1 by lia.
      rewrite Z.pow_add_r in Hb1 by lia.
      assert (0 < 2 ^ (- (la - lb + 1)))%Z by (apply Z.pow_pos_nonneg; lia). nia.
  - split; [|exact Hr].
    unfold Double.reaches. destruct (0 <=? la - lb - 1)%Z eqn:Es.
    + apply Z.leb_le in Es. apply Z.leb_le.
      replace la with ((la - lb - 1) + (lb + 1))%Z in Ha1 by lia.
      rewrite Z.pow_add_r in Ha1 by lia.
      assert (0 < 2 ^ (la - lb - 1))%Z by (apply Z.pow_pos_nonneg; lia). nia.
    + apply Z.leb_gt in Es. apply Z.leb_le.
      replace (lb + 1)%Z with (la + (- (la - lb - 1)))%Z in Hb2 by lia.
      rewrite Z.pow_add_r in Hb2 by lia.
      assert (0 < 2 ^ (- (la - lb - 1)))%Z by (apply Z.pow_pos_nonneg; lia). nia.
Qed.

(** The magnitude of a quotient below [2^e]. *)
Lemma mag_le a b e :
  (0 < a)%Z -> (0 < b)%Z -> (0 <= e)%Z -> (a < 2 ^ e * b)%Z -> (Double.mag a b <= e)%Z.
Proof.
  intros Ha Hb He Hlt. destruct (mag_spec a b Ha Hb) as (Hr & _).
  apply reaches_true in Hr. destruct (Z.le_gt_cases (Double.mag a b) e) as [|Hgt]; [assumption|].
  exfalso. replace (0 <=? Double.mag a b - 1)%Z with true in Hr
    by (symmetry; apply Z.leb_le; lia).
  assert (2 ^ e <= 2 ^ (Double.mag a b - 1))%Z by (apply Z.pow_le_mono_r; lia).
  nia.
Qed.

(** The magnitude of a quotient that reaches [2^e]. *)
Lemma mag_gt a b e :
  (0 < a)%Z -> (0 < b)%Z -> (0 <= e)%Z -> (2 ^ e * b <= a)%Z -> (e < Double.mag a b)%Z.
Proof.
  intros Ha Hb He Hle. destruct (mag_spec a b Ha Hb) as (_ & Hr).
  apply reaches_false in Hr. destruct (Z.lt_ge_cases e (Double.mag a b)) as [|Hge]; [assumption|].
  exfalso. assert (0 < 2 ^ e)%Z by (apply Z.pow_pos_nonneg; lia).
  destruct (0 <=? Double.mag a b)%Z eqn:Es.
  - apply Z.leb_le in Es.
    assert (2 ^ Double.mag a b <= 2 ^ e)%Z by (apply Z.pow_le_mono_r; lia). nia.
  - apply Z.leb_gt in Es.
    assert (0 < 2 ^ (- Double.mag a b))%Z by (apply Z.pow_pos_nonneg; lia). nia.
Qed.

Lemma Qfloor_Qmake n p : Qfloor (Qmake n p) = (n / Zpos p)%Z.
Proof. reflexivity. Qed.

(** [Math.floor(Math.random() * 5000)] is an integer of [[0, 5000)]. *)
Lemma jitter_range (r : Q) : Double.unitDouble r -> (0 <= jitter r < 5000)%Z.
Proof.
  intros (m & e & Hm & He & Hr). unfold jitter, Double.mul, Double.round.
  destruct r as [a b]. cbn [Qnum Qden Qmult] in *.
  assert (Hpe : (0 < 2 ^ e)%Z) by (apply Z.pow_pos_nonneg; lia).
  assert (Ha0 : (0 <= a)%Z) by nia.
  assert (H53 : (a * 2 ^ 53 <= (2 ^ 53 - 1) * Zpos b)%Z).
  { assert (2 ^ 53 <= 2 ^ e)%Z by (apply Z.pow_le_mono_r; lia). nia. }
  replace (Zpos (b * 1)) with (Zpos b) by (rewrite Pos.mul_1_r; reflexivity).
  destruct (a * 5000)%Z as [|A|A] eqn:EA.
  { change (Qfloor 0) with 0%Z. lia. }
  2: { exfalso. lia. }
  assert (HA : (0 < Zpos A)%Z) by lia. assert (HB : (0 < Zpos b)%Z) by lia.
  set (B := Zpos b) in *. rewrite <- EA in *. clear EA A. set (A := (a * 5000)%Z) in *.
  assert (Hlt : (A < 5000 * B)%Z).
  { unfold A. change (2 ^ 53)%Z with 9007199254740992%Z in H53. lia. }
  unfold Double.nearest, Double.lastBit.
  assert (Hmag : (Double.mag A B <= 13)%Z).
  { apply mag_le; lia. }
  replace (0 <=? Z.max (Double.mag A B - 53) (-1074))%Z with false
    by (symmetry; apply Z.leb_gt; lia).
  set (k := (- Z.max (Double.mag A B - 53) (-1074))%Z).
  assert (Hk : (40 <= k)%Z) by (unfold k; lia).
  assert (Hpk : (0 < 2 ^ k)%Z) by (apply Z.pow_pos_nonneg; lia).
  rewrite Qfloor_Qmake, Z2Pos.id by exact Hpk.
  assert (Hn0 : (0 <= Double.nearestEven (A * 2 ^ k) B)%Z)
    by (apply nearestEven_nonneg; nia).
  split; [apply Z.div_pos; lia|].
  apply Z.div_lt_upper_bound; [exact Hpk|].
  destruct (Z.lt_ge_cases A (2 ^ 12 * B)) as [Hsmall | Hbig].
  - assert (Double.nearestEven (A * 2 ^ k) B <= 4096 * 2 ^ k)%Z.
    { apply nearestEven_le; [exact HB|]. change (2 ^ 12)%Z with 4096%Z in Hsmall. nia. }
    lia.
  - assert (Hm13 : (12 < Double.mag A B)%Z) by (apply mag_gt; lia).
    assert (Ek : k = 40%Z) by (unfold k; lia).
    rewrite Ek. 
    assert (Double.nearestEven (A * 2 ^ 40) B <= 5000 * 2 ^ 40 - 1)%Z.
    { apply nearestEven_below; [exact HB|].
      unfold A. change (2 ^ 53)%Z with 9007199254740992%Z in H53.
      change (2 ^ 40)%Z with 1099511627776%Z. lia. }
    lia.
Qed.

(** ** The examples of the retry loop *)

(** C1, as stated, fails on the Ollama adapter: an error that is neither
    the cancellation nor an authorization failure (a refused connection)
    ends [processTextStream] after one transport call, not seven. *)
Lemma retry_bound_fails_for_connection_errors :
  alwaysRejects unreachable (fun _ => failedToFetch) /\
  includes stoppedByUser (Async.message failedToFetch) = false /\
  Async.status failedToFetch = None /\
  includes "api key" (toLowerCase (Async.message failedToFetch)) = false /\
  calls (invoke plainHost daemonService ProcessTextStream
                someArgs unreachable) = 1%nat.
Proof.
  repeat split; intros; reflexivity.
Qed.

(** C1 (amended).  For each of the nine adapter methods: if the flag is
    never set and every transport call rejects with an error that the
    adapter retries (for Gemini, the parsed message is a text without the
    cancellation sentence and the error is no invalid-key error; for
    OpenAI, no invalid-key error; for Ollama, a message with neither
    "fetch" nor "Network"), the transport is called exactly 7 times and
    the method then rejects with the adapter's final message. *)
Theorem retry_bound H s m a (env : Env (Response (providerOf s) m)) e :
  alwaysRejects env e ->
  (forall k, retryable H s (e k) = true) ->
  calls (invoke H s m a env) = 7%nat /\
  settled (invoke H s m a env) = Rejected (Error (finalMessage H s m (e 6%nat))).
Proof.
  intros Ha Hr. destruct (invoke_all_fail H s m a env e Ha Hr) as (Hc & Hs & _).
  split; [exact Hc | exact Hs].
Qed.

Lemma retry_bound_witness :
  alwaysRejects (failing OpenAIService.ChatCompletion) (fun _ => serverError) /\
  (forall k : nat, retryable plainHost cloudService serverError = true) /\
  calls (invoke plainHost cloudService ProcessText someArgs
                (failing OpenAIService.ChatCompletion)) = 7%nat /\
  settled (invoke plainHost cloudService ProcessText someArgs
                  (failing OpenAIService.ChatCompletion)) =
    Rejected (Error "Failed to process text with OpenAI API: 500 Internal Server Error").
Proof.
  assert (Ha : alwaysRejects (failing OpenAIService.ChatCompletion) (fun _ => serverError))
    by (repeat split; intros; reflexivity).
  assert (Hr : forall k : nat,
             retryable plainHost cloudService serverError = true)
    by (intros; reflexivity).
  split; [exact Ha|]. split; [exact Hr|].
  exact (retry_bound plainHost cloudService ProcessText someArgs
                     (failing OpenAIService.ChatCompletion) (fun _ => serverError) Ha Hr).
Defined.

(** ** Errors that end the loop at once *)

Lemma prefix_app p b : prefix p (p ++ b) = true.
Proof.
  induction p as [|c p IH]; cbn; [destruct b; reflexivity|].
  destruct (ascii_dec c c) as [_|Hc]; [exact IH | contradiction Hc; reflexivity].
Qed.

Lemma includes_prefix p s : prefix p s = true -> includes p s = true.
Proof. intros Hp. destruct s; cbn [includes]; rewrite Hp; reflexivity. Qed.

Lemma includes_app p a b : includes p (a ++ p ++ b) = true.
Proof.
  induction a as [|c a IH].
  - apply includes_prefix. exact (prefix_app p b).
  - cbn [append includes]. rewrite IH. destruct (prefix p _); reflexivity.
Qed.

(** C2, as stated, fails on the Ollama adapter, which has no branch for
    authorization failures: a daemon (or a proxy in front of it) that
    answers 401 to every request is asked seven times. *)
Lemma unauthorized_is_retried_by_ollama :
  calls (invoke plainHost daemonService ProcessText someArgs
                rejecting401) = 7%nat /\
  settled (invoke plainHost daemonService ProcessText someArgs
                  rejecting401) =
    Rejected (Error "Failed to process text with Ollama: Ollama API error: 401 - Unauthorized").
Proof. split; reflexivity. Qed.

(** C2 (amended).  On the Gemini and OpenAI adapters an invalid-key error
    (OpenAI: status 401 or a message containing "api key"; Gemini: parsed
    code 400 with status INVALID_ARGUMENT or a message containing
    "api key") is never retried: whichever attempt [n] it occurs in while
    the flag is unset, that transport call is the last one and the method
    rejects with the adapter's invalid-key message; for [n = 0] the
    transport is called exactly once.  The Ollama adapter has no such
    branch ([invalidKey] is false on it). *)
Theorem invalid_key_not_retried H s m a (env : Env (Response (providerOf s) m)) e n :
  flag0 env = false ->
  (n <= 6)%nat ->
  (forall k req, (k <= n)%nat -> transport env k req = mkAwait (Rejected (e k)) false) ->
  (forall k, (k < n)%nat -> flagAfterWait env k = false) ->
  (forall k, (k < n)%nat -> retryable H s (e k) = true) ->
  invalidKey H s (e n) = true ->
  calls (invoke H s m a env) = (n + 1)%nat /\
  settled (invoke H s m a env) = Rejected (Error (invalidKeyMessage s)).
Proof.
  intros H0 Hn Ht Hw Hr Hk.
  destruct (invoke_fails_until H s m a env e n (invalidKeyMessage s)) as (Hc & Hs & _); auto.
  unfold givesUp. rewrite Hk. reflexivity.
Qed.

Lemma invalid_key_not_retried_witness :
  calls (invoke plainHost cloudService ProcessText someArgs badKey) = 1%nat /\
  settled (invoke plainHost cloudService ProcessText someArgs badKey) =
    Rejected (Error "Your OpenAI API key is invalid or has expired. Please check your API key settings.").
Proof.
  apply (invalid_key_not_retried plainHost cloudService ProcessText
           someArgs badKey (fun _ => invalidKeyError) 0).
  - reflexivity.
  - lia.
  - intros; reflexivity.
  - intros; reflexivity.
  - intros k Hk; lia.
  - reflexivity.
Defined.

(** C5, as stated, fails: with the daemon unreachable, [processText]
    rejects with the message that names the base URL after one [fetch],
    not after seven. *)
Lemma unreachable_daemon_is_not_retried :
  calls (invoke plainHost localService ProcessText someArgs
                unreachable) = 1%nat /\
  waits (invoke plainHost localService ProcessText someArgs
                unreachable) = [] /\
  settled (invoke plainHost localService ProcessText someArgs
                  unreachable) =
    Rejected (Error "Cannot connect to Ollama at http://localhost:11434. Please ensure Ollama is running locally.").
Proof. repeat split; reflexivity. Qed.

(** C5 (amended).  When a [fetch] of the Ollama adapter rejects with an
    error whose message contains "fetch" or "Network" while the flag is
    unset, the method rejects at once, without another [fetch] and
    without a wait for that error, with "Cannot connect to Ollama at
    <base URL>. Please ensure Ollama is running locally."; an unreachable
    daemon ([n = 0]) thus costs exactly one [fetch], not seven. *)
Theorem connection_error_not_retried H this m a
        (env : Env (Response (providerOf (Ollama this)) m)) e n :
  flag0 env = false ->
  (n <= 6)%nat ->
  (forall k req, (k <= n)%nat -> transport env k req = mkAwait (Rejected (e k)) false) ->
  (forall k, (k < n)%nat -> flagAfterWait env k = false) ->
  (forall k, (k < n)%nat -> OllamaService.isConnectionError (e k) = false) ->
  OllamaService.isConnectionError (e n) = true ->
  calls (invoke H (Ollama this) m a env) = (n + 1)%nat /\
  List.length (waits (invoke H (Ollama this) m a env)) = n /\
  settled (invoke H (Ollama this) m a env) =
    Rejected (Error (OllamaService.cannotConnect this)) /\
  includes (OllamaService.baseUrl this) (OllamaService.cannotConnect this) = true /\
  includes "Please ensure Ollama is running" (OllamaService.cannotConnect this) = true.
Proof.
  intros H0 Hn Ht Hw Hr Hk.
  destruct (invoke_fails_until H (Ollama this) m a env e n (OllamaService.cannotConnect this))
    as (Hc & Hs & Hd); auto.
  - intros k Hlt. cbn [retryable]. rewrite (Hr k Hlt). reflexivity.
  - unfold givesUp. cbn [invalidKey connectionError connectionMessage]. rewrite Hk. reflexivity.
  - cbn zeta in Hd. repeat split; auto.
    + rewrite Hd, length_map, length_seq. reflexivity.
    + unfold OllamaService.cannotConnect. apply includes_app.
    + unfold OllamaService.cannotConnect.
      change ". Please ensure Ollama is running locally."
        with (". " ++ "Please ensure Ollama is running" ++ " locally.").
      rewrite <- (append_assoc (OllamaService.baseUrl this)).
      rewrite <- (append_assoc "Cannot connect to Ollama at ").
      apply includes_app.
Qed.

Lemma connection_error_not_retried_witness :
  calls (invoke plainHost (Ollama (OllamaService.constructor localConfig))
                ProcessText someArgs unreachable) = 1%nat /\
  List.length (waits (invoke plainHost (Ollama (OllamaService.constructor localConfig))
                             ProcessText someArgs unreachable)) = 0%nat /\
  settled (invoke plainHost (Ollama (OllamaService.constructor localConfig))
                  ProcessText someArgs unreachable) =
    Rejected (Error (OllamaService.cannotConnect (OllamaService.constructor localConfig))) /\
  includes "http://localhost:11434"
           (OllamaService.cannotConnect (OllamaService.constructor localConfig)) = true /\
  includes "Please ensure Ollama is running"
           (OllamaService.cannotConnect (OllamaService.constructor localConfig)) = true.
Proof.
  apply (connection_error_not_retried plainHost (OllamaService.constructor localConfig)
           ProcessText someArgs unreachable (fun _ => failedToFetch) 0).
  - reflexivity.
  - lia.
  - intros; reflexivity.
  - intros; reflexivity.
  - intros k Hk; lia.
  - reflexivity.
Defined.

(** ** What the methods hand to their transports *)

Lemma forAwait_no_call {C : Type} (chunkText : C -> string) notify :
  forall stream f full evs f' r,
    forAwait chunkText notify stream f full = (evs, f', r) ->
    Forall (fun ev => isCall ev = false) evs.
Proof.
  induction stream as [|c fl rest IH|e fl]; intros f full evs f' r Heq; cbn in Heq.
  - injection Heq as <- <- <-. constructor.
  - destruct fl.
    + injection Heq as <- <- <-. repeat constructor.
    + destruct (forAwait chunkText notify rest false _) as [[evs0 f0] r0] eqn:Hrec.
      injection Heq as <- <- <-.
      constructor; [reflexivity|].
      apply Forall_app. split.
      * destruct (String.eqb (chunkText c) ""); [constructor|].
        destruct notify; repeat constructor.
      * eapply IH. exact Hrec.
  - injection Heq as <- <- <-. constructor.
Qed.

Lemma eachLine_no_call H : forall lines full evs full',
    OllamaService.eachLine H lines full = (evs, full') ->
    Forall (fun ev => isCall ev = false) evs.
Proof.
  induction lines as [|line rest IH]; intros full evs full' Heq; cbn in Heq.
  - injection Heq as <- <-. constructor.
  - destruct (OllamaService.lineText H line) as [t|]; [|eapply IH; exact Heq].
    destruct (String.eqb t ""); [eapply IH; exact Heq|].
    destruct (OllamaService.eachLine H rest (full ++ t)) as [evs0 full0] eqn:Hrec.
    injection Heq as <- <-. constructor; [reflexivity|]. eapply IH. exact Hrec.
Qed.

Lemma readLoop_no_call H : forall reads f full evs f' r,
    OllamaService.readLoop H reads f full = (evs, f', r) ->
    Forall (fun ev => isCall ev = false) evs.
Proof.
  induction reads as [|chunk fl rest IH|e fl]; intros f full evs f' r Heq;
    cbn in Heq; destruct f; try (injection Heq as <- <- <-; repeat constructor).
  destruct (OllamaService.eachLine H (OllamaService.nonBlankLines chunk) full)
    as [evs1 full1] eqn:Hlines.
  destruct (OllamaService.readLoop H rest fl full1) as [[evs2 f2] r2] eqn:Hrec.
  injection Heq as <- <- <-.
  constructor; [reflexivity|]. apply Forall_app. split.
  - eapply eachLine_no_call. exact Hlines.
  - eapply IH. exact Hrec.
Qed.

Lemma no_call_isRequest req evs :
  Forall (fun ev => isCall ev = false) evs -> Forall (isRequest req) evs.
Proof.
  intros Hf. eapply Forall_impl; [|exact Hf].
  intros ev Hev Hc. rewrite Hev in Hc. discriminate.
Qed.

Lemma gemini_body_events this (env : Env GeminiService.Response) contents notify k :
  exists rest,
    events (GeminiService.body this env contents notify k false) =
      ReadFlag BeforeCall false ::
      Call (GenerateContentStream (GeminiService.ai_apiKey this)
                                  (GeminiService.this_model this) contents) :: rest /\
    Forall (fun ev => isCall ev = false) rest.
Proof.
  unfold GeminiService.body, checkBeforeCall. cbn [events].
  destruct (transport env k _) as [[resp|err] fl]; cbn [outcome flag].
  - destruct (forAwait GeminiService.chunkText notify resp fl "") as [[evs f'] r] eqn:Hs.
    pose proof (forAwait_no_call _ _ _ _ _ _ _ _ Hs) as Hn.
    destruct r; cbn [events]; eexists; (split; [reflexivity|]); [|exact Hn].
    apply Forall_app; split; [exact Hn | repeat constructor].
  - eexists; split; [reflexivity | constructor].
Qed.

Lemma openai_bodyText_events this (env : Env OpenAIService.ChatCompletion) p c k :
  exists rest,
    events (OpenAIService.bodyText this env p c k false) =
      ReadFlag BeforeCall false ::
      Call (ChatCompletionsCreate (OpenAIService.client_apiKey this)
              (OpenAIService.this_model this) (OpenAIService.textMessages p c) false)
      :: rest /\
    Forall (fun ev => isCall ev = false) rest.
Proof.
  unfold OpenAIService.bodyText, checkBeforeCall. cbn [events].
  destruct (transport env k _) as [[resp|err] fl]; cbn [outcome flag events];
    eexists; (split; [reflexivity | repeat constructor]).
Qed.

Lemma openai_bodyStream_events this (env : Env OpenAIService.Stream) msgs k :
  exists rest,
    events (OpenAIService.bodyStream this env msgs k false) =
      ReadFlag BeforeCall false ::
      Call (ChatCompletionsCreate (OpenAIService.client_apiKey this)
              (OpenAIService.this_model this) msgs true) :: rest /\
    Forall (fun ev => isCall ev = false) rest.
Proof.
  unfold OpenAIService.bodyStream, checkBeforeCall. cbn [events].
  destruct (transport env k _) as [[resp|err] fl]; cbn [outcome flag].
  - destruct (forAwait OpenAIService.chunkText true resp fl "") as [[evs f'] r] eqn:Hs.
    pose proof (forAwait_no_call _ _ _ _ _ _ _ _ Hs) as Hn.
    destruct r; cbn [events]; eexists; (split; [reflexivity|]); [|exact Hn].
    apply Forall_app; split; [exact Hn | repeat constructor].
  - eexists; split; [reflexivity | constructor].
Qed.

Lemma makeRequest_events this (env : Env OllamaService.HttpResponse) k msgs stream :
  fst (fst (OllamaService.makeRequest this env k msgs stream)) =
    [Call (FetchPost (OllamaService.baseUrl this ++ "/api/chat")
             (OllamaService.this_model this) msgs stream)].
Proof.
  unfold OllamaService.makeRequest.
  destruct (transport env k _) as [[resp|err] fl]; cbn [outcome flag]; [|reflexivity].
  destruct (OllamaService.ok resp); [reflexivity|].
  destruct (OllamaService.responseText resp) as [[t|err] fl']; reflexivity.
Qed.

Lemma ollama_bodyText_events this (env : Env OllamaService.HttpResponse) p c k :
  exists rest,
    events (OllamaService.bodyText this env p c k false) =
      ReadFlag BeforeCall false ::
      Call (FetchPost (OllamaService.baseUrl this ++ "/api/chat")
              (OllamaService.this_model this) (OllamaService.textMessages p c) false)
      :: rest /\
    Forall (fun ev => isCall ev = false) rest.
Proof.
  unfold OllamaService.bodyText, checkBeforeCall. cbn [events].
  pose proof (makeRequest_events this env k (OllamaService.textMessages p c) false) as Hm.
  destruct (OllamaService.makeRequest this env k _ false) as [[evs f] r].
  cbn [fst] in Hm. subst evs.
  destruct r as [resp|err]; cbn [events].
  - destruct (OllamaService.responseJson resp) as [[d|err] fl']; cbn [outcome flag events app];
      eexists; (split; [reflexivity | repeat constructor]).
  - eexists; split; [reflexivity | constructor].
Qed.

Lemma ollama_bodyStream_events H this (env : Env OllamaService.HttpResponse) msgs k :
  exists rest,
    events (OllamaService.bodyStream H this env msgs k false) =
      ReadFlag BeforeCall false ::
      Call (FetchPost (OllamaService.baseUrl this ++ "/api/chat")
              (OllamaService.this_model this) msgs true) :: rest /\
    Forall (fun ev => isCall ev = false) rest.
Proof.
  unfold OllamaService.bodyStream, checkBeforeCall. cbn [events].
  pose proof (makeRequest_events this env k msgs true) as Hm.
  destruct (OllamaService.makeRequest this env k _ true) as [[evs f] r].
  cbn [fst] in Hm. subst evs.
  destruct r as [resp|err]; cbn [events].
  - destruct (OllamaService.bodyReader resp) as [reads|]; cbn [events].
    + destruct (OllamaService.readLoop H reads f "") as [[evs2 f2] r2] eqn:Hs.
      pose proof (readLoop_no_call _ _ _ _ _ _ _ Hs) as Hn.
      destruct r2; cbn [events app]; eexists; (split; [reflexivity|]); [|exact Hn].
      apply Forall_app; split; [exact Hn | repeat constructor].
    + eexists; split; [reflexivity | constructor].
  - eexists; split; [reflexivity | constructor].
Qed.

(** The [try] block of a method reads the flag and, when it is unset,
    calls the transport once, with the request of the method. *)
Lemma tryBlock_events H s m a (env : Env (Response (providerOf s) m)) k f :
  exists rest,
    events (tryBlock H s m a env k f) =
      (if f then [ReadFlag BeforeCall true]
       else ReadFlag BeforeCall false :: Call (requestOf s m a) :: rest) /\
    Forall (fun ev => isCall ev = false) rest.
Proof.
  destruct f.
  - exists []. split; [|constructor].
    destruct s, m; reflexivity.
  - destruct s as [g|o|l], m; cbn [tryBlock requestOf providerOf Response] in *.
    + apply gemini_body_events.
    + apply gemini_body_events.
    + apply gemini_body_events.
    + apply openai_bodyText_events.
    + apply openai_bodyStream_events.
    + apply openai_bodyStream_events.
    + apply ollama_bodyText_events.
    + apply ollama_bodyStream_events.
    + apply ollama_bodyStream_events.
Qed.

Lemma tryBlock_requests H s m a (env : Env (Response (providerOf s) m)) k f :
  Forall (isRequest (requestOf s m a)) (events (tryBlock H s m a env k f)).
Proof.
  destruct (tryBlock_events H s m a env k f) as (rest & Hev & Hn). rewrite Hev.
  destruct f.
  - repeat constructor. intro Hc. discriminate.
  - constructor; [intro Hc; discriminate|].
    constructor; [intro Hc; reflexivity|].
    apply no_call_isRequest. exact Hn.
Qed.

Lemma catchBlock_no_call H s m r k e f :
  Forall (fun ev => isCall ev = false) (hevents (catchBlock H s m r k e f)).
Proof.
  destruct s as [g|o|l]; cbn [catchBlock].
  - unfold GeminiService.handler.
    destruct (GeminiService.messageIncludes _ _) as [[|]|];
      [| destruct f;
         [| destruct (GeminiService.isApiKeyError _) as [[|]|];
            [| destruct (k <? maxRetries)%nat |] ] |];
      cbn [hevents]; repeat constructor.
  - unfold OpenAIService.handler.
    destruct f;
      [| destruct (OpenAIService.isApiKeyError e); [| destruct (k <? maxRetries)%nat ] ];
      cbn [hevents]; repeat constructor.
  - unfold OllamaService.handler.
    destruct f;
      [| destruct (OllamaService.isConnectionError e); [| destruct (k <? maxRetries)%nat ] ];
      cbn [hevents]; repeat constructor.
Qed.

Section TraceOfRetry.
Context {R : Type} (env : Env R) (body : nat -> bool -> Attempt)
        (handler : nat -> JsError -> bool -> Handled)
        (exhausted : option JsError -> JsError).
Context (P : Event -> Prop).
Hypothesis body_ok : forall k f, Forall P (events (body k f)).
Hypothesis handler_ok : forall k e f, Forall P (hevents (handler k e f)).
Hypothesis wait_ok : forall ms, P (Wait ms).

Lemma attempts_Forall : forall remaining f last,
    Forall P (trace (attempts env body handler exhausted remaining f last)).
Proof.
  induction remaining as [|r IH]; intros f last; [constructor|].
  rewrite attempts_S. cbn zeta.
  destruct (completion (body _ f)) as [text|error]; cbn [trace]; [apply body_ok|].
  destruct (action (handler _ error _)) as [e'|d]; cbn [trace].
  - apply Forall_app. split; [apply body_ok | apply handler_ok].
  - apply Forall_app. split; [apply body_ok|].
    apply Forall_app. split; [apply handler_ok|].
    constructor; [apply wait_ok | apply IH].
Qed.

Lemma retry_starts :
  exists rest,
    trace (retry env body handler exhausted) =
      (events (body 0%nat (flag0 env)) ++ rest)%list.
Proof.
  unfold retry. replace (maxRetries + 1)%nat with (S maxRetries) by reflexivity.
  rewrite attempts_S. cbn zeta.
  replace (maxRetries + 1 - S maxRetries)%nat with 0%nat by reflexivity.
  destruct (completion (body 0%nat _)) as [text|error]; cbn [trace].
  - exists []. rewrite app_nil_r. reflexivity.
  - destruct (action (handler _ error _)) as [e'|d]; cbn [trace]; eexists; reflexivity.
Qed.
End TraceOfRetry.

(** Every transport call of a run carries the request of the method. *)
Lemma invoke_requests H s m a (env : Env (Response (providerOf s) m)) :
  Forall (isRequest (requestOf s m a)) (trace (invoke H s m a env)).
Proof.
  rewrite invoke_retry. apply attempts_Forall.
  - intros k f. apply tryBlock_requests.
  - intros k e f. apply no_call_isRequest. apply catchBlock_no_call.
  - intros ms Hc. discriminate.
Qed.

(** A run that starts with the flag unset starts with the transport call. *)
Lemma invoke_starts H s m a (env : Env (Response (providerOf s) m)) :
  flag0 env = false ->
  exists rest,
    trace (invoke H s m a env) =
      ReadFlag BeforeCall false :: Call (requestOf s m a) :: rest.
Proof.
  intros H0. rewrite invoke_retry.
  destruct (retry_starts env (tryBlock H s m a env) (catchBlock H s m (random env))
                         (afterLoop H s m)) as (rest & Ht).
  rewrite Ht, H0.
  destruct (tryBlock_events H s m a env 0 false) as (rest' & Hev & _).
  rewrite Hev. eexists. reflexivity.
Qed.

(** ** The API key, the chat messages and the empty response *)

(** The adapters of the examples are the ones that [createAIService]
    returns; the Ollama adapter needs no package. *)
Lemma created_examples :
  createAIService lenient cloudConfig = Returned cloudService /\
  (forall P, createAIService P daemonConfig = Returned daemonService) /\
  (forall P, createAIService P localConfig = Returned localService).
Proof. repeat split. Qed.

(** [createAIService] and the constructors hand the key to the client
    constructor of the package and do nothing else with it. *)
Lemma createAIService_cases P config :
  match createAIService P config with
  | Thrown e => clientError P config = Some e
  | Returned s =>
      clientError P config = None /\ providerOf s = provider config /\
      forall m a, provider config <> ollama ->
                  keyOf (requestOf s m a) = Some (apiKey config)
  end.
Proof.
  unfold createAIService, clientError, GeminiService.constructor,
    OpenAIService.constructor.
  destruct config as [p key mdl url]. cbn [provider apiKey model].
  destruct p.
  - destruct (newGoogleGenAI P key); [reflexivity|].
    repeat split. intros m a _. destruct m; reflexivity.
  - destruct (newOpenAI P key); [reflexivity|].
    repeat split. intros m a _. destruct m; reflexivity.
  - repeat split. intros m a Hp. contradiction Hp. reflexivity.
Qed.

(** C8, as stated, fails when the client constructors of the packages
    accept an empty key: the adapters built from a Gemini and from an
    OpenAI configuration with an empty API key call their transport
    with the client of the empty key, and resolve when the transport
    answers; nothing in the sources fails fast. *)
Lemma empty_key_does_not_fail_fast :
  apiKey keylessGemini = "" /\ apiKey keylessConfig = "" /\
  (exists s,
      createAIService lenient keylessGemini = Returned (Gemini s) /\
      trace (invoke plainHost (Gemini s) ProcessTextStream someArgs streaming) =
        [ReadFlag BeforeCall false;
         Call (GenerateContentStream "" "gemini-2.0-flash-exp"
                 (GString (GeminiService.combined "prompt" "content")));
         ReadFlag InStream false; OnChunk "ok"; OnStatus ""] /\
      settled (invoke plainHost (Gemini s) ProcessTextStream someArgs streaming) =
        Fulfilled "ok") /\
  (exists s,
      createAIService lenient keylessConfig = Returned (OpenAI s) /\
      trace (invoke plainHost (OpenAI s) ProcessText someArgs answering) =
        [ReadFlag BeforeCall false;
         Call (ChatCompletionsCreate "" "gpt-4o"
                 (OpenAIService.textMessages "prompt" "content") false);
         OnStatus ""] /\
      settled (invoke plainHost (OpenAI s) ProcessText someArgs answering) =
        Fulfilled "ok").
Proof.
  split; [reflexivity|]. split; [reflexivity|]. split.
  - eexists. split; [reflexivity|]. split; reflexivity.
  - eexists. split; [reflexivity|]. split; reflexivity.
Qed.

(** C8 (amended).  For a cloud provider with an empty key, neither
    [createAIService] nor the constructors nor the methods test the key:
    it goes to the client constructor of the provider's package, which
    is not among the sources.  If that constructor throws,
    [createAIService] throws the same error and no adapter exists; if
    it returns, every method whose flag is unset at the start first
    reads the flag and then calls its transport with the client of the
    empty key. *)
Theorem empty_key_is_sent P H config :
  provider config <> ollama ->
  apiKey config = "" ->
  match createAIService P config with
  | Thrown e => clientError P config = Some e
  | Returned s =>
      clientError P config = None /\
      forall m a (env : Env (Response (providerOf s) m)),
        flag0 env = false ->
        exists req rest,
          trace (invoke H s m a env) = ReadFlag BeforeCall false :: Call req :: rest /\
          keyOf req = Some ""
  end.
Proof.
  intros Hp Hk. pose proof (createAIService_cases P config) as Hc.
  destruct (createAIService P config) as [s|e]; [|exact Hc].
  destruct Hc as (Hn & _ & Hreq). split; [exact Hn|].
  intros m a env H0.
  destruct (invoke_starts H s m a env H0) as (rest & Ht).
  exists (requestOf s m a), rest. split; [exact Ht|].
  rewrite (Hreq m a Hp). rewrite Hk. reflexivity.
Qed.

Lemma empty_key_is_sent_witness :
  provider keylessGemini <> ollama /\ apiKey keylessGemini = "" /\
  match createAIService lenient keylessGemini with
  | Thrown e => clientError lenient keylessGemini = Some e
  | Returned s =>
      clientError lenient keylessGemini = None /\
      forall m a (env : Env (Response (providerOf s) m)),
        flag0 env = false ->
        exists req rest,
          trace (invoke plainHost s m a env) =
            ReadFlag BeforeCall false :: Call req :: rest /\
          keyOf req = Some ""
  end.
Proof.
  split; [discriminate|]. split; [reflexivity|].
  apply (empty_key_is_sent lenient plainHost keylessGemini).
  - discriminate.
  - reflexivity.
Defined.

(** C9, as stated, fails: the request of [processText] carries one
    message, of role "user", that holds the prompt, a rule and the
    content; there is no message of role "system". *)
Lemma openai_request_has_no_system_message :
  trace (invoke plainHost cloudService ProcessText someArgs answering) =
    [ReadFlag BeforeCall false;
     Call (ChatCompletionsCreate "sk-test" "gpt-4o"
             [mkOpenAIMessage "user"
                (OString ("prompt" ++ nl ++ nl ++ "---" ++ nl ++ nl ++ "content"))]
             false);
     OnStatus ""] /\
  filter (fun msg => String.eqb (oRole msg) "system")
         (OpenAIService.textMessages "prompt" "content") = [].
Proof. split; reflexivity. Qed.

(** C9 (amended).  Every request of [OpenAIService.processText] and of
    [OpenAIService.processTextStream] carries exactly one chat message:
    its role is "user" and its content is the agent prompt, a blank line,
    "---", a blank line and the content.  When the flag is unset at the
    start such a request is issued. *)
Theorem openai_text_request H this (streaming : bool) a
        (env : Env (Response openai (if streaming then ProcessTextStream else ProcessText))) :
  flag0 env = false ->
  let m := if streaming then ProcessTextStream else ProcessText in
  let req :=
    ChatCompletionsCreate (OpenAIService.client_apiKey this) (OpenAIService.this_model this)
      [mkOpenAIMessage "user"
         (OString (agentPrompt a ++ nl ++ nl ++ "---" ++ nl ++ nl ++ content a))]
      streaming in
  In (Call req) (trace (invoke H (OpenAI this) m a env)) /\
  forall req', In (Call req') (trace (invoke H (OpenAI this) m a env)) -> req' = req.
Proof.
  intros H0 m req.
  assert (Hreq : requestOf (OpenAI this) m a = req) by (destruct streaming; reflexivity).
  split.
  - destruct (invoke_starts H (OpenAI this) m a env H0) as (rest & Ht).
    rewrite Ht, Hreq. right. left. reflexivity.
  - intros req' Hin.
    pose proof (invoke_requests H (OpenAI this) m a env) as Hall.
    rewrite Forall_forall in Hall. specialize (Hall _ Hin eq_refl).
    rewrite Hreq in Hall. injection Hall as ->. reflexivity.
Qed.

Lemma openai_text_request_witness :
  let req :=
    ChatCompletionsCreate "sk-test" "gpt-4o"
      [mkOpenAIMessage "user"
         (OString ("prompt" ++ nl ++ nl ++ "---" ++ nl ++ nl ++ "content"))]
      false in
  In (Call req)
     (trace (invoke plainHost cloudService
                    ProcessText someArgs answering)) /\
  forall req',
    In (Call req')
       (trace (invoke plainHost cloudService
                      ProcessText someArgs answering)) ->
    req' = req.
Proof.
  apply (openai_text_request plainHost cloudClient false
                             someArgs answering).
  reflexivity.
Defined.

Lemma normalizeOpenAI_empty : OutputNormalizer.normalizeOpenAI "" = "".
Proof. reflexivity. Qed.

Lemma noContent_responseContent response :
  noContent response -> OpenAIService.responseContent response = "".
Proof.
  unfold OpenAIService.responseContent.
  intros [Hnil | (c & rest & Hc & [Hm | Hm])].
  - rewrite Hnil. reflexivity.
  - rewrite Hc, Hm. reflexivity.
  - rewrite Hc, Hm. reflexivity.
Qed.

(** C10.  When the flag is unset at the start and the first response of
    the chat-completions transport has no message content (no choice, or
    a first choice without a message or with a null content),
    [OpenAIService.processText] resolves with the normalization of the
    empty string, which is the empty string; it does not reject. *)
Theorem empty_response_resolves this agentPrompt content
        (env : Env OpenAIService.ChatCompletion) response flagThen :
  flag0 env = false ->
  (forall req, transport env 0%nat req = mkAwait (Fulfilled response) flagThen) ->
  noContent response ->
  settled (OpenAIService.processText this agentPrompt content env) =
    Fulfilled (OutputNormalizer.normalizeOpenAI "") /\
  OutputNormalizer.normalizeOpenAI "" = "".
Proof.
  intros H0 Ht Hn. split; [|exact normalizeOpenAI_empty].
  unfold OpenAIService.processText, retry.
  replace (maxRetries + 1)%nat with (S maxRetries) by reflexivity.
  rewrite attempts_S. cbn zeta. rewrite H0.
  replace (maxRetries + 1 - S maxRetries)%nat with 0%nat by reflexivity.
  unfold OpenAIService.bodyText, checkBeforeCall.
  rewrite Ht. cbn [outcome completion settled].
  rewrite (noContent_responseContent response Hn). reflexivity.
Qed.

Lemma empty_response_resolves_witness :
  settled (OpenAIService.processText cloudClient
                                     "prompt" "content" silent) =
    Fulfilled (OutputNormalizer.normalizeOpenAI "") /\
  OutputNormalizer.normalizeOpenAI "" = "".
Proof.
  apply (empty_response_resolves cloudClient
           "prompt" "content" silent (OpenAIService.mkCompletion []) false).
  - reflexivity.
  - intros; reflexivity.
  - left. reflexivity.
Defined.

(** ** Cancellation *)

Lemma plain_app a b : plain (a ++ b)%list = plain a && plain b.
Proof. apply forallb_app. Qed.

Lemma Cooperative_plain o evs : plain evs = true -> Cooperative o evs.
Proof.
  induction evs as [|ev evs IH]; intros Hp; [constructor|].
  cbn in Hp. apply andb_true_iff in Hp as (Hev & Hp).
  apply coop_step; [apply negb_true_iff; exact Hev | apply IH; exact Hp].
Qed.

Lemma Cooperative_prepend o pre evs :
  plain pre = true -> Cooperative o evs -> Cooperative o (pre ++ evs)%list.
Proof.
  induction pre as [|ev pre IH]; intros Hp Hc; [exact Hc|].
  cbn in Hp. apply andb_true_iff in Hp as (Hev & Hp).
  cbn [app]. apply coop_step; [apply negb_true_iff; exact Hev | apply IH; assumption].
Qed.

(** Past the first read that finds the flag set, the promise is rejected
    with the cancellation error and only quiet steps remain. *)
Lemma Cooperative_split o : forall pre site post,
    Cooperative o (pre ++ ReadFlag site true :: post)%list ->
    o = Rejected (Error stoppedByUser) /\ Forall quiet post.
Proof.
  induction pre as [|ev pre IH]; intros site post Hc; cbn [app] in Hc.
  - inversion Hc as [|ev evs Hev Hrest|site' tail Ho Hq]; subst.
    + cbn in Hev. discriminate.
    + split; auto.
  - inversion Hc as [|ev' evs Hev Hrest|site' tail Ho Hq]; subst.
    + eapply IH. exact Hrest.
    + split; [auto|].
      apply Forall_app in Hq as (_ & Hq). inversion Hq; assumption.
Qed.

Lemma CancelShape_prepend pre evs f o :
  plain pre = true -> CancelShape evs f o -> CancelShape (pre ++ evs)%list f o.
Proof.
  intros Hp Hs. destruct Hs as [evs f o He | pre' site tail Hpre Hq].
  - apply shape_plain. fold (plain (pre ++ evs)%list). rewrite plain_app.
    fold (plain evs) in He. rewrite Hp, He. reflexivity.
  - rewrite app_assoc. apply shape_cancel; [|exact Hq].
    fold (plain (pre ++ pre')%list). rewrite plain_app.
    fold (plain pre') in Hpre. rewrite Hp, Hpre. reflexivity.
Qed.

Lemma CancelShape_fulfilled evs f text :
  CancelShape evs f (Fulfilled text) -> plain evs = true.
Proof. intros Hs. inversion Hs; subst. assumption. Qed.

Lemma forAwait_shape {C : Type} (chunkText : C -> string) notify :
  forall stream f full evs f' r,
    forAwait chunkText notify stream f full = (evs, f', r) ->
    CancelShape evs f' r.
Proof.
  induction stream as [|c fl rest IH|e fl]; intros f full evs f' r Heq; cbn in Heq.
  - injection Heq as <- <- <-. apply shape_plain. reflexivity.
  - destruct fl.
    + injection Heq as <- <- <-. apply (shape_cancel [] InStream []); [reflexivity | constructor].
    + destruct (forAwait chunkText notify rest false _) as [[evs0 f0] r0] eqn:Hrec.
      injection Heq as <- <- <-.
      apply (CancelShape_prepend [ReadFlag InStream false]); [reflexivity|].
      apply CancelShape_prepend; [|eapply IH; exact Hrec].
      destruct (String.eqb (chunkText c) ""); [reflexivity|]. destruct notify; reflexivity.
  - injection Heq as <- <- <-. apply shape_plain. reflexivity.
Qed.

Lemma eachLine_plain H : forall lines full evs full',
    OllamaService.eachLine H lines full = (evs, full') -> plain evs = true.
Proof.
  induction lines as [|line rest IH]; intros full evs full' Heq; cbn in Heq.
  - injection Heq as <- <-. reflexivity.
  - destruct (OllamaService.lineText H line) as [t|]; [|eapply IH; exact Heq].
    destruct (String.eqb t ""); [eapply IH; exact Heq|].
    destruct (OllamaService.eachLine H rest (full ++ t)) as [evs0 full0] eqn:Hrec.
    injection Heq as <- <-. cbn. eapply IH. exact Hrec.
Qed.

Lemma readLoop_shape H : forall reads f full evs f' r,
    OllamaService.readLoop H reads f full = (evs, f', r) ->
    CancelShape evs f' r.
Proof.
  induction reads as [|chunk fl rest IH|e fl]; intros f full evs f' r Heq;
    cbn in Heq; destruct f;
    try (injection Heq as <- <- <-;
         first [ apply (shape_cancel [] InStream [ReaderCancel]);
                 [reflexivity | repeat constructor]
               | apply shape_plain; reflexivity ]).
  destruct (OllamaService.eachLine H (OllamaService.nonBlankLines chunk) full)
    as [evs1 full1] eqn:Hlines.
  destruct (OllamaService.readLoop H rest fl full1) as [[evs2 f2] r2] eqn:Hrec.
  injection Heq as <- <- <-.
  apply (CancelShape_prepend [ReadFlag InStream false]); [reflexivity|].
  apply CancelShape_prepend; [eapply eachLine_plain; exact Hlines | eapply IH; exact Hrec].
Qed.

Lemma checkBeforeCall_shape f (k : Attempt) :
  CancelShape (events k) (flagAfter k) (completion k) ->
  CancelShape (events (checkBeforeCall f k)) (flagAfter (checkBeforeCall f k))
              (completion (checkBeforeCall f k)).
Proof.
  intros Hk. unfold checkBeforeCall. destruct f; cbn [events flagAfter completion].
  - apply (shape_cancel [] BeforeCall []); [reflexivity | constructor].
  - apply (CancelShape_prepend [ReadFlag BeforeCall false]); [reflexivity | exact Hk].
Qed.

Lemma gemini_body_shape this (env : Env GeminiService.Response) contents notify k f :
  let a := GeminiService.body this env contents notify k f in
  CancelShape (events a) (flagAfter a) (completion a).
Proof.
  cbn zeta. unfold GeminiService.body. apply checkBeforeCall_shape.
  destruct (transport env k _) as [[resp|err] fl]; cbn [outcome flag].
  - destruct (forAwait GeminiService.chunkText notify resp fl "") as [[evs f'] r] eqn:Hs.
    pose proof (forAwait_shape _ _ _ _ _ _ _ _ Hs) as Hsh.
    destruct r as [text|e]; cbn [events flagAfter completion].
    + apply shape_plain. apply CancelShape_fulfilled in Hsh.
      change (plain (Call (GenerateContentStream (GeminiService.ai_apiKey this)
                             (GeminiService.this_model this) contents)
                       :: evs ++ [OnStatus ""])%list = true).
      cbn [plain forallb seesCancel negb andb]. fold (plain (evs ++ [OnStatus ""])%list).
      rewrite plain_app, Hsh. reflexivity.
    + apply (CancelShape_prepend [Call _]); [reflexivity | exact Hsh].
  - apply shape_plain. reflexivity.
Qed.

Lemma openai_bodyText_shape this (env : Env OpenAIService.ChatCompletion) p c k f :
  let a := OpenAIService.bodyText this env p c k f in
  CancelShape (events a) (flagAfter a) (completion a).
Proof.
  cbn zeta. unfold OpenAIService.bodyText. apply checkBeforeCall_shape.
  destruct (transport env k _) as [[resp|err] fl]; cbn [outcome flag];
    apply shape_plain; reflexivity.
Qed.

Lemma openai_bodyStream_shape this (env : Env OpenAIService.Stream) msgs k f :
  let a := OpenAIService.bodyStream this env msgs k f in
  CancelShape (events a) (flagAfter a) (completion a).
Proof.
  cbn zeta. unfold OpenAIService.bodyStream. apply checkBeforeCall_shape.
  destruct (transport env k _) as [[resp|err] fl]; cbn [outcome flag].
  - destruct (forAwait OpenAIService.chunkText true resp fl "") as [[evs f'] r] eqn:Hs.
    pose proof (forAwait_shape _ _ _ _ _ _ _ _ Hs) as Hsh.
    destruct r as [text|e]; cbn [events flagAfter completion].
    + apply shape_plain. apply CancelShape_fulfilled in Hsh.
      change (plain (Call (ChatCompletionsCreate (OpenAIService.client_apiKey this)
                             (OpenAIService.this_model this) msgs true)
                       :: evs ++ [OnStatus ""])%list = true).
      cbn [plain forallb seesCancel negb andb]. fold (plain (evs ++ [OnStatus ""])%list).
      rewrite plain_app, Hsh. reflexivity.
    + apply (CancelShape_prepend [Call _]); [reflexivity | exact Hsh].
  - apply shape_plain. reflexivity.
Qed.

Lemma ollama_bodyText_shape this (env : Env OllamaService.HttpResponse) p c k f :
  let a := OllamaService.bodyText this env p c k f in
  CancelShape (events a) (flagAfter a) (completion a).
Proof.
  cbn zeta. unfold OllamaService.bodyText. apply checkBeforeCall_shape.
  pose proof (makeRequest_events this env k (OllamaService.textMessages p c) false) as Hm.
  destruct (OllamaService.makeRequest this env k _ false) as [[evs fl] r].
  cbn [fst] in Hm. subst evs.
  destruct r as [resp|err]; cbn [events flagAfter completion].
  - destruct (OllamaService.responseJson resp) as [[d|err] fl'];
      cbn [outcome flag events flagAfter completion]; apply shape_plain; reflexivity.
  - apply shape_plain. reflexivity.
Qed.

Lemma ollama_bodyStream_shape H this (env : Env OllamaService.HttpResponse) msgs k f :
  let a := OllamaService.bodyStream H this env msgs k f in
  CancelShape (events a) (flagAfter a) (completion a).
Proof.
  cbn zeta. unfold OllamaService.bodyStream. apply checkBeforeCall_shape.
  pose proof (makeRequest_events this env k msgs true) as Hm.
  destruct (OllamaService.makeRequest this env k _ true) as [[evs fl] r].
  cbn [fst] in Hm. subst evs.
  destruct r as [resp|err]; cbn [events flagAfter completion].
  - destruct (OllamaService.bodyReader resp) as [reads|];
      cbn [events flagAfter completion]; [|apply shape_plain; reflexivity].
    destruct (OllamaService.readLoop H reads fl "") as [[evs2 f2] r2] eqn:Hs.
    pose proof (readLoop_shape _ _ _ _ _ _ _ Hs) as Hsh.
    destruct r2 as [text|e]; cbn [events flagAfter completion].
    + apply shape_plain. apply CancelShape_fulfilled in Hsh.
      change (plain ([Call (FetchPost (OllamaService.baseUrl this ++ "/api/chat")
                              (OllamaService.this_model this) msgs true)]
                       ++ evs2 ++ [OnStatus ""])%list = true).
      rewrite !plain_app, Hsh. reflexivity.
    + apply (CancelShape_prepend [Call _]); [reflexivity | exact Hsh].
  - apply shape_plain. reflexivity.
Qed.

Lemma tryBlock_shape H s m a (env : Env (Response (providerOf s) m)) k f :
  let t := tryBlock H s m a env k f in
  CancelShape (events t) (flagAfter t) (completion t).
Proof.
  destruct s as [g|o|l], m; cbn [tryBlock providerOf Response] in *.
  - apply gemini_body_shape.
  - apply gemini_body_shape.
  - apply gemini_body_shape.
  - apply openai_bodyText_shape.
  - apply openai_bodyStream_shape.
  - apply openai_bodyStream_shape.
  - apply ollama_bodyText_shape.
  - apply ollama_bodyStream_shape.
  - apply ollama_bodyStream_shape.
Qed.

(** The [catch] block either reads no set flag, or reads it and throws
    the cancellation error. *)
Lemma catchBlock_shape H s m r k e f :
  let h := catchBlock H s m r k e f in
  plain (hevents h) = true \/
  (hevents h = [ReadFlag InCatch true] /\ action h = Throw (Error stoppedByUser)).
Proof.
  cbn zeta. destruct s as [g|o|l]; cbn [catchBlock].
  - unfold GeminiService.handler.
    destruct (GeminiService.messageIncludes _ _) as [[|]|];
      [| destruct f;
         [| destruct (GeminiService.isApiKeyError _) as [[|]|];
            [| destruct (k <? maxRetries)%nat |] ] |];
      cbn [hevents action]; auto.
  - unfold OpenAIService.handler.
    destruct f;
      [| destruct (OpenAIService.isApiKeyError e); [| destruct (k <? maxRetries)%nat ] ];
      cbn [hevents action]; auto.
  - unfold OllamaService.handler.
    destruct f;
      [| destruct (OllamaService.isConnectionError e); [| destruct (k <? maxRetries)%nat ] ];
      cbn [hevents action]; auto.
Qed.

(** The cancellation error thrown by a [try] block while the flag is set
    is thrown again by the [catch] block. *)
Lemma catchBlock_cancel H s m r k :
  JSON_parse H stoppedByUser = None ->
  exists evs,
    catchBlock H s m r k (Error stoppedByUser) true =
      mkHandled evs (Throw (Error stoppedByUser)) /\
    Forall quiet evs.
Proof.
  intros Hp. destruct s as [g|o|l]; cbn [catchBlock].
  - exists []. split; [|constructor].
    unfold GeminiService.handler, GeminiService.parseGeminiError.
    cbn [Async.message Error]. rewrite Hp. reflexivity.
  - exists [ReadFlag InCatch true]. split; [reflexivity | repeat constructor].
  - exists [ReadFlag InCatch true]. split; [reflexivity | repeat constructor].
Qed.

Section CooperativeRetry.
Context {R : Type} (env : Env R) (body : nat -> bool -> Attempt)
        (handler : nat -> JsError -> bool -> Handled)
        (exhausted : option JsError -> JsError).
Hypothesis body_shape : forall k f,
    CancelShape (events (body k f)) (flagAfter (body k f)) (completion (body k f)).
Hypothesis handler_shape : forall k e f,
    plain (hevents (handler k e f)) = true \/
    (hevents (handler k e f) = [ReadFlag InCatch true] /\
     action (handler k e f) = Throw (Error stoppedByUser)).
Hypothesis handler_cancel : forall k,
    exists evs,
      handler k (Error stoppedByUser) true = mkHandled evs (Throw (Error stoppedByUser)) /\
      Forall quiet evs.

Lemma attempts_cooperative : forall remaining f last,
    let r := attempts env body handler exhausted remaining f last in
    Cooperative (settled r) (trace r).
Proof.
  induction remaining as [|n IH]; intros f last; [constructor|].
  cbn zeta. rewrite attempts_S. cbn zeta.
  remember (maxRetries + 1 - S n)%nat as k eqn:Ek.
  pose proof (body_shape k f) as Hb.
  destruct (completion (body k f)) as [text|error] eqn:Hc; cbn [trace settled].
  - apply Cooperative_plain. eapply CancelShape_fulfilled. exact Hb.
  - inversion Hb as [evs f0 o Hplain E1 E2 E3 | pre site tail Hpre Hq E1 E2 E3].
    + (* the [try] block read no set flag *)
      fold (plain (events (body k f))) in Hplain.
      destruct (handler_shape k error (flagAfter (body k f))) as [Hh | (Hh & Ha)].
      * destruct (action (handler k error (flagAfter (body k f)))) as [e'|d];
          cbn [trace settled].
        -- apply Cooperative_plain. rewrite plain_app, Hplain, Hh. reflexivity.
        -- apply Cooperative_prepend; [exact Hplain|].
           apply Cooperative_prepend; [exact Hh|].
           apply coop_step; [reflexivity | apply IH].
      * rewrite Ha, Hh. cbn [trace settled].
        apply Cooperative_prepend; [exact Hplain|].
        apply coop_cancel; [reflexivity | constructor].
    + (* the [try] block found the flag set *)
      destruct (handler_cancel k) as (evs & Hh & Hquiet).
      rewrite Hh. cbn [action hevents trace settled].
      rewrite <- app_assoc. cbn [app].
      apply Cooperative_prepend; [exact Hpre|].
      apply coop_cancel; [reflexivity|].
      apply Forall_app. split; assumption.
Qed.
End CooperativeRetry.

Lemma invoke_cooperative H s m a (env : Env (Response (providerOf s) m)) :
  JSON_parse H stoppedByUser = None ->
  Cooperative (settled (invoke H s m a env)) (trace (invoke H s m a env)).
Proof.
  intros Hp. rewrite invoke_retry. apply attempts_cooperative.
  - intros k f. apply tryBlock_shape.
  - intros k e f. apply catchBlock_shape.
  - intros k. apply catchBlock_cancel. exact Hp.
Qed.

Lemma tryBlock_cancelled H s m a (env : Env (Response (providerOf s) m)) k :
  tryBlock H s m a env k true =
    mkAttempt [ReadFlag BeforeCall true] true (Rejected (Error stoppedByUser)).
Proof. destruct s, m; reflexivity. Qed.

(** C3.  On a host whose [JSON.parse] rejects the cancellation sentence
    (it is no JSON text), for each of the nine adapter methods:
    (1) if the flag is set when the method starts, the method rejects with
    "Operation stopped by user." and the transport is never called;
    (2) wherever a read of the flag finds it set (before a call, between
    the chunks of a stream, in a [catch] block), the method rejects with
    that error and nothing follows the read but further reads of the flag
    and [reader.cancel()]: no transport call, no chunk, no status line
    and no wait. *)
Theorem cancellation_wins H s m a (env : Env (Response (providerOf s) m)) :
  JSON_parse H stoppedByUser = None ->
  (flag0 env = true ->
   calls (invoke H s m a env) = 0%nat /\
   settled (invoke H s m a env) = Rejected (Error stoppedByUser)) /\
  (forall pre site post,
      trace (invoke H s m a env) = (pre ++ ReadFlag site true :: post)%list ->
      settled (invoke H s m a env) = Rejected (Error stoppedByUser) /\
      Forall quiet post).
Proof.
  intros Hp. split.
  - intros H0. rewrite invoke_retry. unfold retry.
    replace (maxRetries + 1)%nat with (S maxRetries) by reflexivity.
    rewrite attempts_S. cbn zeta. rewrite H0, tryBlock_cancelled.
    cbn [completion flagAfter events].
    destruct (catchBlock_cancel H s m (random env)
                (maxRetries + 1 - S maxRetries)%nat Hp) as (evs & Hh & Hq).
    rewrite Hh. cbn [action hevents]. split; [|reflexivity].
    unfold calls. cbn [trace app filter isCall].
    clear Hh. induction Hq as [|ev evs Hev Hq IH]; [reflexivity|].
    destruct ev; try contradiction; cbn [filter isCall]; exact IH.
  - intros pre site post Ht.
    pose proof (invoke_cooperative H s m a env Hp) as Hc.
    rewrite Ht in Hc. eapply Cooperative_split. exact Hc.
Qed.

Lemma cancellation_wins_witness :
  (calls (invoke plainHost cloudService ProcessTextStream someArgs
                 stoppedAtStart) = 0%nat /\
   settled (invoke plainHost cloudService ProcessTextStream someArgs
                   stoppedAtStart) = Rejected (Error stoppedByUser)) /\
  (settled (invoke plainHost cloudService ProcessTextStream someArgs
                   stoppedMidStream) = Rejected (Error stoppedByUser) /\
   Forall quiet [ReadFlag InCatch true]).
Proof.
  split.
  - apply (cancellation_wins plainHost cloudService ProcessTextStream
             someArgs stoppedAtStart eq_refl). reflexivity.
  - apply (proj2 (cancellation_wins plainHost cloudService
                    ProcessTextStream someArgs stoppedMidStream eq_refl)
                 [ReadFlag BeforeCall false;
                  Call (requestOf cloudService ProcessTextStream someArgs);
                  ReadFlag InStream false; OnChunk "A"]
                 InStream [ReadFlag InCatch true]).
    reflexivity.
Defined.

(* ===================================================================== *)
(** * The output normalizer *)
(* ===================================================================== *)

(** ** What the matcher does on the patterns of the first passes *)

Lemma advance_nil st : advance st "" (Regex.rest st) = st.
Proof. destruct st; reflexivity. Qed.

Lemma advance_step st c w r :
  advance (Regex.step c (w ++ r) st) w r = advance st (String c w) r.
Proof.
  unfold advance, Regex.step. cbn [Regex.before Regex.taken Regex.mark Regex.group1 lastChar].
  f_equal. unfold to_list. cbn [list_ascii_of_string rev]. rewrite <- app_assoc. reflexivity.
Qed.

Lemma run_lit {A : Type} (P : string) : forall st (k : Regex.pos -> option A) r,
    Regex.rest st = P ++ r ->
    Regex.run (Regex.lit P) st k = k (advance st P r).
Proof.
  induction P as [|c P IH]; intros st k r Hr; cbn [Regex.lit Regex.run].
  - cbn in Hr. rewrite <- Hr, advance_nil. reflexivity.
  - unfold Regex.chr. cbn [Regex.run]. rewrite Hr. cbn [append].
    rewrite Ascii.eqb_refl. rewrite (IH _ k r); [|reflexivity].
    rewrite advance_step. reflexivity.
Qed.

Lemma run_lit_fail {A : Type} (P : string) : forall st (k : Regex.pos -> option A),
    prefix P (Regex.rest st) = false ->
    Regex.run (Regex.lit P) st k = None.
Proof.
  induction P as [|c P IH]; intros st k Hp.
  - destruct (Regex.rest st); discriminate.
  - cbn [Regex.lit Regex.run]. unfold Regex.chr. cbn [Regex.run].
    destruct (Regex.rest st) as [|d r] eqn:Hr; [reflexivity|].
    cbn [prefix] in Hp. destruct (ascii_dec c d) as [->|Hne].
    + rewrite Ascii.eqb_refl. apply IH. cbn [Regex.step Regex.rest]. exact Hp.
    + apply Ascii.eqb_neq in Hne. rewrite Hne. reflexivity.
Qed.

Lemma prefix_split P : forall s, prefix P s = true -> exists r, s = P ++ r.
Proof.
  induction P as [|c P IH]; intros s Hp.
  - exists s. reflexivity.
  - destruct s as [|d s]; [discriminate|]. cbn [prefix] in Hp.
    destruct (ascii_dec c d) as [->|]; [|discriminate].
    destruct (IH s Hp) as (r & ->). exists r. reflexivity.
Qed.

Lemma of_list_to_list s : of_list (to_list s) = s.
Proof. apply string_of_list_ascii_of_string. Qed.

Lemma to_list_of_list l : to_list (of_list l) = l.
Proof. apply list_ascii_of_string_of_list_ascii. Qed.

Lemma matchAt_lit P prev s :
  Regex.matchAt (Regex.lit P) prev s =
    if prefix P s then Some (Regex.mkFound P "") else None.
Proof.
  unfold Regex.matchAt. destruct (prefix P s) eqn:Hp.
  - destruct (prefix_split P s Hp) as (r & ->).
    rewrite (run_lit P (Regex.start prev (P ++ r)) _ r); [|reflexivity].
    unfold advance. cbn [Regex.taken Regex.group1 Regex.start].
    rewrite app_nil_r, rev_involutive, of_list_to_list. reflexivity.
  - rewrite run_lit_fail; [reflexivity | exact Hp].
Qed.

Lemma matchAt_guided_fail prev s :
  prefix OutputNormalizer.guidedMarker s = false ->
  Regex.matchAt OutputNormalizer.guidedBlockRegex prev s = None.
Proof.
  intros Hp. unfold Regex.matchAt, OutputNormalizer.guidedBlockRegex.
  cbn [Regex.seq Regex.run]. rewrite run_lit_fail; [reflexivity | exact Hp].
Qed.

(** ** Texts in which a pattern matches nowhere *)

Lemma scan_noMatch {St : Type} r (f : Regex.found -> St -> string * St) :
  forall s prev st, noMatch r prev s = true -> Regex.scan r f prev 0 s st = (s, st).
Proof.
  induction s as [|c s IH]; intros prev st Hn; cbn [noMatch] in Hn; cbn [Regex.scan].
  - destruct (Regex.matchAt r prev ""); [discriminate | reflexivity].
  - destruct (Regex.matchAt r prev (String c s)); [discriminate|].
    rewrite IH; [reflexivity | exact Hn].
Qed.

Lemma replaceAll_noMatch r f s :
  noMatch r None s = true -> Regex.replaceAll r f s = s.
Proof.
  intros Hn. unfold Regex.replaceAll, Regex.replaceAllSt.
  rewrite scan_noMatch; [reflexivity | exact Hn].
Qed.

Lemma noMatch_lit P : forall s prev, includes P s = false -> noMatch (Regex.lit P) prev s = true.
Proof.
  induction s as [|c s IH]; intros prev Hi; cbn [noMatch]; rewrite matchAt_lit;
    cbn [includes] in Hi; destruct (prefix P _); try discriminate; [reflexivity|].
  apply IH. exact Hi.
Qed.

Lemma noMatch_guided : forall s prev,
    includes OutputNormalizer.guidedMarker s = false ->
    noMatch OutputNormalizer.guidedBlockRegex prev s = true.
Proof.
  induction s as [|c s IH]; intros prev Hi; cbn [noMatch]; cbn [includes] in Hi;
    destruct (prefix OutputNormalizer.guidedMarker _) eqn:Hp; try discriminate;
    rewrite matchAt_guided_fail by exact Hp; [reflexivity|].
  apply IH. exact Hi.
Qed.

(** Without the start marker of a guided block, the two passes over the
    guided blocks change nothing. *)
Lemma fixGuidedHintSpacing_without_guided s :
  includes OutputNormalizer.guidedMarker s = false ->
  OutputNormalizer.fixGuidedHintSpacing s = s.
Proof.
  intros Hi. unfold OutputNormalizer.fixGuidedHintSpacing.
  apply replaceAll_noMatch. apply noMatch_guided. exact Hi.
Qed.

Lemma extractAndRelocate_without_guided s :
  includes OutputNormalizer.guidedMarker s = false ->
  OutputNormalizer.extractAndRelocateAlertBlocks s = s.
Proof.
  intros Hi. unfold OutputNormalizer.extractAndRelocateAlertBlocks, Regex.replaceAllSt.
  rewrite scan_noMatch; [reflexivity | apply noMatch_guided; exact Hi].
Qed.

(** ** A [replace] as a rewriting of the text *)

Lemma scan_skip {St : Type} r (f : Regex.found -> St -> string * St) :
  forall w rest prev st,
    Regex.scan r f prev (String.length w) (w ++ rest) st =
      Regex.scan r f (lastChar prev w) 0 rest st.
Proof.
  induction w as [|c w IH]; intros rest prev st; [reflexivity|].
  cbn [String.length append Regex.scan lastChar]. apply IH.
Qed.

Lemma length_append (a b : string) :
  String.length (a ++ b) = (String.length a + String.length b)%nat.
Proof. induction a as [|c a IH]; cbn; [reflexivity | rewrite IH; reflexivity]. Qed.

Lemma replaceAll_Rw r f rule :
  Follows r f rule ->
  forall n s prev, (String.length s <= n)%nat ->
    Rw rule s (fst (Regex.scan r (fun m (_ : unit) => (f m, tt)) prev 0 s tt)).
Proof.
  intros Hf. induction n as [|n IH]; intros s prev Hn.
  - destruct s; [|cbn in Hn; lia]. cbn [Regex.scan].
    pose proof (Hf prev "") as Hm. destruct (Regex.matchAt r prev "") as [m|].
    + destruct Hm as (Hne & _ & rest & Hs). destruct (Regex.text m); [contradiction|discriminate].
    + apply Rw_nil. exact Hm.
  - destruct s as [|c s].
    + cbn [Regex.scan].
      pose proof (Hf prev "") as Hm. destruct (Regex.matchAt r prev "") as [m|].
      * destruct Hm as (Hne & _ & rest & Hs).
        destruct (Regex.text m); [contradiction|discriminate].
      * apply Rw_nil. exact Hm.
    + cbn [Regex.scan].
      pose proof (Hf prev (String c s)) as Hm.
      destruct (Regex.matchAt r prev (String c s)) as [m|].
      * destruct Hm as (Hne & Hrule & rest & Hs).
        destruct (Regex.text m) as [|d w] eqn:Ht; [contradiction|].
        cbn [append] in Hs. injection Hs as <- ->.
        cbn [String.length]. rewrite scan_skip.
        destruct (Regex.scan r _ (lastChar (Some c) w) 0 rest tt) as [tl u] eqn:Hscan.
        cbn [fst].
        change (String c (w ++ rest)) with (String c w ++ rest) in *.
        apply Rw_match; [exact Hrule | discriminate |].
        replace tl with (fst (Regex.scan r (fun m0 (_ : unit) => (f m0, tt))
                                         (lastChar (Some c) w) 0 rest tt))
          by (rewrite Hscan; reflexivity).
        apply IH. rewrite length_append in Hn. cbn [String.length] in Hn. lia.
      * destruct (Regex.scan r _ (Some c) 0 s tt) as [tl u] eqn:Hscan. cbn [fst].
        apply Rw_copy; [exact Hm|].
        replace tl with (fst (Regex.scan r (fun m0 (_ : unit) => (f m0, tt))
                                         (Some c) 0 s tt))
          by (rewrite Hscan; reflexivity).
        apply IH. cbn [String.length] in Hn. lia.
Qed.

Lemma replaceAll_follows r f rule s :
  Follows r f rule -> Rw rule s (Regex.replaceAll r f s).
Proof.
  intros Hf. unfold Regex.replaceAll, Regex.replaceAllSt.
  apply (replaceAll_Rw r f rule Hf (String.length s)). lia.
Qed.

Lemma lit_follows P Q :
  P <> "" -> Follows (Regex.lit P) (fun _ => Q) (ruleLit P Q).
Proof.
  intros HP prev s. rewrite matchAt_lit. unfold ruleLit.
  destruct (prefix P s) eqn:Hp; [|reflexivity].
  cbn [Regex.text]. split; [exact HP|]. split; [reflexivity|].
  apply prefix_split. exact Hp.
Qed.

(** ** Runs of line feeds *)

Lemma isLF_eq c : isLF c = true -> c = LF.
Proof. unfold isLF. intros H. apply Ascii.eqb_eq. exact H. Qed.

Lemma lfs_split s : s = lfs (lfRun s) ++ afterLFs s.
Proof.
  induction s as [|c s IH]; [reflexivity|]. cbn [lfRun afterLFs].
  destruct (isLF c) eqn:Hc; [|reflexivity].
  apply isLF_eq in Hc. subst c. cbn [lfs append]. rewrite <- IH. reflexivity.
Qed.

Lemma afterLFs_head s : headIs isLF (afterLFs s) = false.
Proof.
  induction s as [|c s IH]; [reflexivity|]. cbn [afterLFs].
  destruct (isLF c) eqn:Hc; [exact IH | cbn; exact Hc].
Qed.

Lemma lfRun_lfs n t : headIs isLF t = false -> lfRun (lfs n ++ t) = n.
Proof.
  intros Ht. induction n as [|n IH]; cbn [lfs append lfRun].
  - destruct t as [|c t]; [reflexivity|]. cbn in *. rewrite Ht. reflexivity.
  - change (isLF LF) with true. cbn iota. rewrite IH. reflexivity.
Qed.

Lemma afterLFs_lfs n t : headIs isLF t = false -> afterLFs (lfs n ++ t) = t.
Proof.
  intros Ht. induction n as [|n IH]; cbn [lfs append afterLFs].
  - destruct t as [|c t]; [reflexivity|]. cbn in *. rewrite Ht. reflexivity.
  - change (isLF LF) with true. cbn iota. exact IH.
Qed.

Lemma allLF_lfs n : forallb isLF (to_list (lfs n)) = true.
Proof. induction n as [|n IH]; [reflexivity|]. cbn. exact IH. Qed.

Lemma length_lfs n : String.length (lfs n) = n.
Proof. induction n as [|n IH]; cbn; [reflexivity | rewrite IH; reflexivity]. Qed.

(** ** Greedy repetition of a character class *)

Lemma iterate_greedy_chr {A : Type} (p : ascii -> bool) (k : Regex.pos -> option A) :
  (forall st, headIs p (Regex.rest st) = true -> k st = None) \/
  (forall st, k st <> None) ->
  forall w t st fuel,
    Regex.rest st = w ++ t ->
    forallb p (to_list w) = true ->
    headIs p t = false ->
    (String.length (w ++ t) <= fuel)%nat ->
    Regex.iterate true (fun s k' => Regex.run (Regex.Chr p) s k') fuel st k =
      k (advance st w t).
Proof.
  intros Hk. set (atom := fun s k' => Regex.run (Regex.Chr p) s k').
  induction w as [|c w IH]; intros t st fuel Hr Hw Ht Hfuel.
  - cbn [append] in Hr. rewrite <- Hr, advance_nil.
    destruct fuel as [|fuel]; [reflexivity|]. cbn [Regex.iterate].
    unfold atom at 1. cbn [Regex.run].
    rewrite Hr. destruct t as [|d t]; [reflexivity|]. cbn in Ht. rewrite Ht. reflexivity.
  - cbn [to_list list_ascii_of_string forallb] in Hw.
    apply andb_true_iff in Hw as (Hc & Hw).
    destruct fuel as [|fuel]; [cbn in Hfuel; lia|].
    cbn [Regex.iterate]. unfold atom at 1. cbn [Regex.run].
    rewrite Hr. cbn [append]. rewrite Hc.
    unfold Regex.shorter at 1. cbn [Regex.step Regex.rest]. rewrite Hr. cbn [append String.length].
    replace (String.length (w ++ t) <? S (String.length (w ++ t)))%nat with true
      by (symmetry; apply Nat.ltb_lt; lia).
    rewrite (IH t (Regex.step c (w ++ t) st) fuel); try assumption;
      [| reflexivity | cbn [append String.length] in Hfuel; lia].
    rewrite advance_step.
    destruct (k (advance st (String c w) t)) eqn:Hres; [reflexivity|].
    destruct Hk as [Hk | Hk].
    + apply Hk. rewrite Hr. cbn. exact Hc.
    + exfalso. exact (Hk _ Hres).
Qed.

(** ** The two patterns of [normalizeAlertBlocks] *)

Lemma normalizeAlertBlocks_eq s :
  OutputNormalizer.normalizeAlertBlocks s =
    Regex.replaceAll regexB replaceB (Regex.replaceAll regexA replaceA s).
Proof. reflexivity. Qed.

Lemma prefix_nlnl_short t :
  headIs isLF t = false ->
  prefix (nl ++ nl) t = false /\ prefix (nl ++ nl) (String LF t) = false.
Proof.
  intros Ht. destruct t as [|c t]; [split; reflexivity|].
  cbn [headIs] in Ht. unfold isLF in Ht. apply Ascii.eqb_neq in Ht.
  split; cbn [nl append prefix].
  - destruct (ascii_dec LF c) as [E|_]; [symmetry in E; contradiction | reflexivity].
  - destruct (ascii_dec LF LF) as [_|N]; [|contradiction N; reflexivity].
    destruct (ascii_dec LF c) as [E|_]; [symmetry in E; contradiction | reflexivity].
Qed.

Lemma rev_lfs n : rev (to_list (lfs n)) = to_list (lfs n).
Proof.
  induction n as [|n IH]; [reflexivity|].
  cbn [lfs to_list list_ascii_of_string rev]. unfold to_list in IH. rewrite IH.
  clear IH. induction n as [|n IH]; [reflexivity|].
  cbn [lfs list_ascii_of_string app]. rewrite IH. reflexivity.
Qed.

Lemma of_list_app a b : of_list (a ++ b)%list = of_list a ++ of_list b.
Proof. induction a as [|c a IH]; cbn; [reflexivity | unfold of_list in IH; rewrite IH; reflexivity]. Qed.

Lemma minus_two (n : nat) : (S (S n) - n = 2)%nat.
Proof. lia. Qed.

Lemma minus_one (n : nat) : (S n - n = 1)%nat.
Proof. lia. Qed.

Lemma follows_A : Follows regexA replaceA ruleA.
Proof.
  intros prev s.
  pose proof (afterLFs_head s) as Ht. pose proof (lfs_split s) as Hs.
  unfold ruleA.
  remember (lfRun s) as n eqn:En. remember (afterLFs s) as t eqn:Et.
  clear En Et. subst s.
  unfold Regex.matchAt, regexA. cbn [Regex.seq Regex.run Regex.plus].
  destruct (prefix_nlnl_short t Ht) as (P0 & P1).
  destruct n as [|[|[|n]]]; cbn [lfs append Nat.leb].
  - rewrite run_lit_fail; [reflexivity | exact P0].
  - rewrite run_lit_fail; [reflexivity | exact P1].
  - rewrite (run_lit (nl ++ nl) _ _ t); [|reflexivity].
    unfold Regex.chr at 1. cbn [Regex.run advance Regex.rest].
    destruct t as [|c t]; [reflexivity|]. cbn [headIs] in Ht. unfold isLF in Ht.
    rewrite Ascii.eqb_sym, Ht. reflexivity.
  - rewrite (run_lit (nl ++ nl) _ _ (String LF (lfs n ++ t))); [|reflexivity].
    unfold Regex.chr at 1. cbn [Regex.run]. unfold advance at 1. cbn [Regex.rest].
    rewrite Ascii.eqb_refl.
    unfold Regex.chr at 1.
    rewrite (iterate_greedy_chr (Ascii.eqb LF) _) with (w := lfs n) (t := t).
    + unfold Regex.chr, Regex.oneOf. cbn [Regex.run Regex.openGroup Regex.rest advance].
      destruct t as [|a [|b t]]; [reflexivity | destruct (Ascii.eqb "[" a); reflexivity |].
      destruct (Ascii.eqb "[" a) eqn:Ha; [|reflexivity].
      cbn [Regex.step Regex.rest andb].
      change (existsb (Ascii.eqb b) (to_list "+!")) with (isTag b).
      destruct (isTag b) eqn:Hb; [|reflexivity].
      unfold Regex.closeGroup, Regex.step, Regex.openGroup, advance, Regex.start.
      cbn [Regex.taken Regex.group1 Regex.text Regex.capture Regex.mark Regex.before
           Regex.rest].
      cbn [Datatypes.length]. rewrite minus_two. cbn [firstn rev app].
      rewrite rev_lfs. unfold replaceA. cbn [Regex.capture].
      assert (Htext :
                of_list ((rev (to_list (lfs n)
                                 ++ LF :: rev (to_list (nl ++ nl)) ++ []) ++ [a]) ++ [b])%list
                = String LF (String LF (String LF (lfs n ++ String a (String b ""))))).
      { rewrite rev_app_distr. cbn [rev app nl to_list list_ascii_of_string append].
        rewrite <- !app_assoc. cbn [app of_list string_of_list_ascii].
        f_equal. f_equal. f_equal.
        change (string_of_list_ascii (rev (list_ascii_of_string (lfs n)) ++ [a; b])%list)
          with (of_list (rev (to_list (lfs n)) ++ [a; b])%list).
        rewrite rev_lfs, of_list_app, of_list_to_list. reflexivity. }
      rewrite Htext. split; [discriminate|]. split; [reflexivity|].
      exists t. cbn [append]. rewrite append_assoc. reflexivity.
    + left. intros st Hst. unfold Regex.chr. cbn [Regex.run Regex.openGroup Regex.rest].
      destruct (Regex.rest st) as [|c r]; [reflexivity|]. cbn [headIs] in Hst.
      apply Ascii.eqb_eq in Hst. subst c. reflexivity.
    + reflexivity.
    + apply allLF_lfs.
    + destruct t as [|c t]; [reflexivity|]. cbn [headIs] in *. unfold isLF in Ht.
      rewrite Ascii.eqb_sym. exact Ht.
    + cbn [Regex.step Regex.rest]. lia.
Qed.

Lemma follows_B : Follows regexB replaceB ruleB.
Proof.
  intros prev s. unfold ruleB.
  destruct s as [|a s]; [reflexivity|].
  pose proof (afterLFs_head s) as Ht. pose proof (lfs_split s) as Hs.
  remember (lfRun s) as n eqn:En. remember (afterLFs s) as t eqn:Et.
  clear En Et. subst s.
  unfold Regex.matchAt, regexB. cbn [Regex.seq Regex.run Regex.plus].
  unfold Regex.chr at 1. cbn [Regex.run Regex.openGroup Regex.rest Regex.start].
  destruct (Ascii.eqb "]" a) eqn:Ha; [|reflexivity]. cbn [andb].
  destruct (prefix_nlnl_short t Ht) as (P0 & P1).
  destruct n as [|[|[|n]]]; cbn [lfs append Nat.leb].
  - rewrite run_lit_fail; [reflexivity | exact P0].
  - rewrite run_lit_fail; [reflexivity | exact P1].
  - rewrite (run_lit (nl ++ nl) _ _ t); [|reflexivity].
    unfold Regex.chr at 1. cbn [Regex.run advance Regex.rest].
    destruct t as [|c t]; [reflexivity|]. cbn [headIs] in Ht. unfold isLF in Ht.
    rewrite Ascii.eqb_sym, Ht. reflexivity.
  - rewrite (run_lit (nl ++ nl) _ _ (String LF (lfs n ++ t))); [|reflexivity].
    unfold Regex.chr at 1. cbn [Regex.run]. unfold advance at 1. cbn [Regex.rest].
    rewrite Ascii.eqb_refl.
    unfold Regex.chr at 1.
    rewrite (iterate_greedy_chr (Ascii.eqb LF) _) with (w := lfs n) (t := t).
    + unfold Regex.closeGroup, Regex.step, Regex.openGroup, advance, Regex.start.
      cbn [Regex.taken Regex.group1 Regex.text Regex.capture Regex.mark Regex.before
           Regex.rest].
      cbn [Datatypes.length Nat.sub firstn rev app].
      rewrite rev_lfs. unfold replaceB. cbn [Regex.capture of_list string_of_list_ascii].
      assert (Htext :
                of_list (rev (to_list (lfs n)
                                ++ LF :: rev (to_list (nl ++ nl)) ++ [a]))%list
                = String a (String LF (String LF (String LF (lfs n))))).
      { rewrite rev_app_distr. cbn [rev app nl to_list list_ascii_of_string append].
        cbn [of_list string_of_list_ascii].
        f_equal. f_equal. f_equal. f_equal.
        change (string_of_list_ascii (rev (to_list (lfs n))))
          with (of_list (rev (to_list (lfs n)))).
        rewrite rev_lfs, of_list_to_list. reflexivity. }
      rewrite Htext. split; [discriminate|]. split; [reflexivity|].
      exists t. cbn [append]. reflexivity.
    + right. intros st. discriminate.
    + reflexivity.
    + apply allLF_lfs.
    + destruct t as [|c t]; [reflexivity|]. cbn [headIs] in *. unfold isLF in Ht.
      rewrite Ascii.eqb_sym. exact Ht.
    + cbn [Regex.step Regex.rest]. lia.
Qed.

(** ** Occurrences of a pattern in a text *)

Lemma prefix_cons a P b s :
  prefix (String a P) (String b s) = Ascii.eqb a b && prefix P s.
Proof.
  cbn [prefix]. destruct (ascii_dec a b) as [->|Hne].
  - rewrite Ascii.eqb_refl. reflexivity.
  - apply Ascii.eqb_neq in Hne. rewrite Hne. reflexivity.
Qed.

Lemma prefix_nil_r P : prefix P "" = true -> P = "".
Proof. destruct P; [reflexivity | discriminate]. Qed.

Lemma includes_cons W c s :
  includes W (String c s) = prefix W (String c s) || includes W s.
Proof. cbn [includes]. destruct (prefix W (String c s)); reflexivity. Qed.

Lemma includes_nil W : includes W "" = prefix W "".
Proof. cbn [includes]. destruct (prefix W ""); reflexivity. Qed.

Lemma prefix_app_l W a b : prefix W a = true -> prefix W (a ++ b) = true.
Proof.
  revert a. induction W as [|w W IH]; intros a Hp; [destruct (a ++ b); reflexivity|].
  destruct a as [|c a]; [discriminate|]. cbn [append].
  rewrite prefix_cons in *. apply andb_true_iff in Hp as (Hc & Hp).
  rewrite Hc, (IH a Hp). reflexivity.
Qed.

Lemma includes_app_l W a b : includes W a = true -> includes W (a ++ b) = true.
Proof.
  induction a as [|c a IH]; intros Hi.
  - rewrite includes_nil in Hi. apply prefix_nil_r in Hi. subst W.
    destruct b; reflexivity.
  - cbn [append]. rewrite includes_cons in *. apply orb_true_iff in Hi as [Hp | Hi].
    + pose proof (prefix_app_l W (String c a) b Hp) as Hq. cbn [append] in Hq.
      rewrite Hq. reflexivity.
    + rewrite (IH Hi). apply orb_true_r.
Qed.

Lemma includes_app_r W a b : includes W b = true -> includes W (a ++ b) = true.
Proof.
  intros Hi. induction a as [|c a IH]; [exact Hi|].
  cbn [append]. rewrite includes_cons, IH. apply orb_true_r.
Qed.

Lemma includes_false_l W a b : includes W (a ++ b) = false -> includes W a = false.
Proof.
  intros H. destruct (includes W a) eqn:E; [|reflexivity].
  rewrite (includes_app_l W a b E) in H. discriminate.
Qed.

Lemma includes_false_r W a b : includes W (a ++ b) = false -> includes W b = false.
Proof.
  intros H. destruct (includes W b) eqn:E; [|reflexivity].
  rewrite (includes_app_r W a b E) in H. discriminate.
Qed.

Lemma prefix_head_charIn W c s : prefix W (String c s) = true -> W = "" \/ charIn c W = true.
Proof.
  destruct W as [|w W]; [left; reflexivity|]. rewrite prefix_cons.
  intros H. apply andb_true_iff in H as (Hc & _). right.
  cbn [charIn]. apply Ascii.eqb_eq in Hc. subst. rewrite Ascii.eqb_refl. reflexivity.
Qed.

Lemma charIn_tail c w W : charIn c W = true -> charIn c (String w W) = true.
Proof. cbn [charIn]. intros ->. apply orb_true_r. Qed.

(** A prefix of [a ++ String c z] that is no prefix of [a] runs over [c]. *)
Lemma prefix_over W : forall a c z,
    prefix W (a ++ String c z) = true -> prefix W a = true \/ charIn c W = true.
Proof.
  induction W as [|w W IH]; intros a c z Hp; [left; destruct a; reflexivity|].
  destruct a as [|d a]; cbn [append] in Hp.
  - right. destruct (prefix_head_charIn _ _ _ Hp) as [E|E]; [discriminate | exact E].
  - rewrite prefix_cons in Hp. apply andb_true_iff in Hp as (Hd & Hp).
    destruct (IH a c z Hp) as [H|H].
    + left. rewrite prefix_cons, Hd, H. reflexivity.
    + right. apply charIn_tail. exact H.
Qed.

(** A pattern does not occur across a character that it lacks. *)
Lemma includes_across W c : charIn c W = false ->
  forall a z, includes W a = false -> includes W z = false ->
              includes W (a ++ String c z) = false.
Proof.
  intros Hc. induction a as [|d a IH]; intros z Ha Hz.
  - cbn [append]. rewrite includes_cons, Hz, orb_false_r.
    destruct (prefix W (String c z)) eqn:Hp; [|reflexivity].
    destruct (prefix_head_charIn _ _ _ Hp) as [E|E].
    + subst W. destruct z; discriminate.
    + rewrite E in Hc. discriminate.
  - cbn [append]. rewrite includes_cons in *.
    apply orb_false_iff in Ha as (Hp & Ha).
    rewrite (IH z Ha Hz), orb_false_r.
    destruct (prefix W (String d (a ++ String c z))) eqn:Hq; [|reflexivity].
    destruct (prefix_over W (String d a) c z Hq) as [E|E]; congruence.
Qed.

Lemma includes_sep W R : R <> "" -> disjoint R W = true ->
  forall a z, includes W a = false -> includes W z = false ->
              includes W (a ++ R ++ z) = false.
Proof.
  intros HR. revert HR. induction R as [|c R IH]; intros HR Hd a z Ha Hz; [contradiction|].
  cbn [disjoint] in Hd.
  apply andb_true_iff in Hd as (Hc & Hd). apply negb_true_iff in Hc.
  cbn [append]. destruct R as [|c' R].
  - cbn [append]. apply includes_across; assumption.
  - apply includes_across; [exact Hc | exact Ha |].
    apply (IH ltac:(discriminate) Hd "" z); [|exact Hz].
    rewrite includes_nil. destruct W; [|reflexivity].
    destruct a; cbn in Ha; discriminate.
Qed.

(** ** What rewriting keeps *)

Lemma Rw_head rule : KeepsHead rule ->
  forall s out, Rw rule s out -> headOpt out = headOpt s.
Proof.
  intros Hk s out Hrw. destruct Hrw as [|c s out _ _|M R rest out Hr HM _]; try reflexivity.
  pose proof (Hk _ _ _ Hr) as Hh.
  destruct M as [|m M]; [contradiction|]. destruct R as [|r R]; [discriminate|].
  exact Hh.
Qed.

Lemma Rw_avoids rule W : Disjoint rule W ->
  forall s out, Rw rule s out ->
  forall u, includes W (u ++ s) = false -> includes W (u ++ out) = false.
Proof.
  intros Hd s out Hrw.
  induction Hrw as [|c s out _ _ IH|M R rest out Hr HM _ IH]; intros u Hu.
  - exact Hu.
  - change (String c out) with (String c "" ++ out). rewrite <- append_assoc.
    apply IH. rewrite append_assoc. exact Hu.
  - destruct (Hd _ _ _ Hr) as (HR & HRW).
    apply includes_sep; [exact HR | exact HRW | exact (includes_false_l _ _ _ Hu) |].
    apply (IH ""). cbn [append].
    exact (includes_false_r _ _ _ (includes_false_r _ _ _ Hu)).
Qed.

Lemma replaceAll_avoids r f rule W s :
  Follows r f rule -> Disjoint rule W ->
  includes W s = false -> includes W (Regex.replaceAll r f s) = false.
Proof.
  intros Hf Hd Hs. exact (Rw_avoids rule W Hd _ _ (replaceAll_follows r f rule s Hf) "" Hs).
Qed.

Lemma noRule_noMatch r f rule : Follows r f rule ->
  forall s prev, noRule rule s = true -> noMatch r prev s = true.
Proof.
  intros Hf. induction s as [|c s IH]; intros prev Hn; cbn [noRule noMatch] in *;
    pose proof (Hf prev) as Hm.
  - specialize (Hm ""). destruct (Regex.matchAt r prev "") as [m|]; [|reflexivity].
    destruct Hm as (_ & Hr & _). rewrite Hr in Hn. discriminate.
  - specialize (Hm (String c s)). destruct (Regex.matchAt r prev (String c s)) as [m|].
    + destruct Hm as (_ & Hr & _). rewrite Hr in Hn. discriminate.
    + rewrite Hm in Hn. apply IH. exact Hn.
Qed.

Lemma replaceAll_noRule r f rule s :
  Follows r f rule -> noRule rule s = true -> Regex.replaceAll r f s = s.
Proof.
  intros Hf Hn. apply replaceAll_noMatch. apply (noRule_noMatch r f rule Hf). exact Hn.
Qed.

Lemma noRule_lit P Q s : includes P s = false -> noRule (ruleLit P Q) s = true.
Proof.
  induction s as [|c s IH]; intros Hi.
  - rewrite includes_nil in Hi. cbn [noRule]. unfold ruleLit. rewrite Hi. reflexivity.
  - rewrite includes_cons in Hi. apply orb_false_iff in Hi as (Hp & Hi).
    cbn [noRule]. unfold ruleLit at 1. rewrite Hp. apply IH. exact Hi.
Qed.

(** ** Trimming the end of every line *)

Lemma dropWhile_snoc (p : ascii -> bool) (a : list ascii) (c : ascii) :
  dropWhile p (a ++ [c])%list =
    match dropWhile p a with
    | [] => if p c then [] else [c]
    | d => (d ++ [c])%list
    end.
Proof.
  induction a as [|x a IH]; cbn [dropWhile app]; [reflexivity|].
  destruct (p x); [exact IH | reflexivity].
Qed.

Lemma trimEnd_cons c s :
  trimEnd (String c s) =
    match trimEnd s with
    | "" => if isSpace c then "" else String c ""
    | t => String c t
    end.
Proof.
  unfold trimEnd. cbn [to_list list_ascii_of_string rev].
  change (list_ascii_of_string s) with (to_list s).
  rewrite dropWhile_snoc.
  destruct (dropWhile isSpace (rev (to_list s))) as [|d ds] eqn:E.
  - cbn [rev of_list string_of_list_ascii]. destruct (isSpace c); reflexivity.
  - rewrite rev_app_distr. cbn [rev app].
    destruct (rev ds ++ [d])%list as [|e es] eqn:E2.
    + destruct (rev ds); discriminate.
    + reflexivity.
Qed.

Lemma trimEnd_head l d t : trimEnd l = String d t -> headOpt l = Some d.
Proof.
  destruct l as [|e l]; [discriminate|]. rewrite trimEnd_cons.
  destruct (trimEnd l); [destruct (isSpace e)|]; intros H; inversion H; reflexivity.
Qed.

Lemma splitLines_cons s : exists l ls, splitLines s = l :: ls /\ headIs isLF l = false.
Proof.
  destruct s as [|c r]; [exists "", []; split; reflexivity|].
  cbn [splitLines]. destruct (isLF c) eqn:Ec.
  - exists "", (splitLines r). split; reflexivity.
  - destruct (splitLines r) as [|l ls].
    + exists (String c ""), []. split; [reflexivity | exact Ec].
    + exists (String c l), ls. split; [reflexivity | exact Ec].
Qed.

Lemma join_cons sep a tl :
  join sep (a :: tl) = a ++ match tl with [] => "" | _ :: _ => sep ++ join sep tl end.
Proof. destruct tl; [symmetry; apply append_nil_r | reflexivity]. Qed.

Lemma trimLines_eq s : join nl (map trimEnd (splitLines s)) = trimLines s.
Proof.
  induction s as [|c r IH]; [reflexivity|].
  destruct (splitLines_cons r) as (l & ls & E & Hl).
  cbn [splitLines trimLines]. rewrite E in *. destruct (isLF c) eqn:Ec.
  - rewrite <- IH. rewrite (isLF_eq c Ec). reflexivity.
  - cbn [map] in *. rewrite join_cons in *. rewrite trimEnd_cons.
    set (tp := match map trimEnd ls with [] => "" | _ :: _ => nl ++ join nl (map trimEnd ls) end) in *.
    assert (Htp : endsLine tp = true) by (unfold tp; destruct (map trimEnd ls); reflexivity).
    rewrite <- IH. unfold blank. rewrite Ec.
    destruct (trimEnd l) as [|d t] eqn:Et.
    + cbn [append]. rewrite Htp. destruct (isSpace c); reflexivity.
    + apply trimEnd_head in Et. destruct l as [|e l]; [discriminate|].
      cbn in Et. inversion Et; subst e. cbn [headIs] in Hl.
      cbn [append endsLine]. rewrite Hl, andb_false_r. reflexivity.
Qed.

Lemma trimLines_trimmed s : trimmed (trimLines s) = true.
Proof.
  induction s as [|c r IH]; [reflexivity|]. cbn [trimLines].
  destruct (isLF c) eqn:Ec.
  - cbn [trimmed]. unfold blank. rewrite Ec, andb_false_r. exact IH.
  - destruct (blank c && endsLine (trimLines r)) eqn:Eb; [exact IH|].
    cbn [trimmed]. rewrite Eb. exact IH.
Qed.

Lemma trimLines_fixed s : trimmed s = true -> trimLines s = s.
Proof.
  induction s as [|c r IH]; [reflexivity|]. cbn [trimmed trimLines].
  intros H. apply andb_true_iff in H as (Hb & Hr). rewrite (IH Hr).
  apply negb_true_iff in Hb. rewrite Hb. destruct (isLF c); reflexivity.
Qed.

Lemma trimmed_no_crlf s : trimmed s = true -> includes crlf s = false.
Proof.
  induction s as [|c r IH]; [reflexivity|]. cbn [trimmed].
  intros H. apply andb_true_iff in H as (Hb & Hr). apply negb_true_iff in Hb.
  rewrite includes_cons, (IH Hr), orb_false_r. unfold crlf. rewrite prefix_cons.
  destruct (Ascii.eqb CR c) eqn:Ec; [|reflexivity]. apply Ascii.eqb_eq in Ec. subst c.
  destruct r as [|d r]; [reflexivity|]. rewrite prefix_cons.
  destruct (Ascii.eqb LF d) eqn:Ed; [|reflexivity]. apply Ascii.eqb_eq in Ed. subst d.
  cbn in Hb. discriminate.
Qed.

Lemma trimLines_prefix : forall s W, charIn LF W = false ->
  prefix W (trimLines s) = true -> prefix W s = true.
Proof.
  induction s as [|c r IH]; intros W HW Hp; [exact Hp|].
  destruct W as [|w W]; [reflexivity|].
  cbn [charIn] in HW. apply orb_false_iff in HW as (Hw & HW).
  cbn [trimLines] in Hp.
  assert (Hkeep : prefix (String w W) (String c (trimLines r)) = true ->
                  prefix (String w W) (String c r) = true).
  { rewrite !prefix_cons. intros H. apply andb_true_iff in H as (H1 & H2).
    rewrite H1, (IH W HW H2). reflexivity. }
  destruct (isLF c); [auto|].
  destruct (blank c && endsLine (trimLines r)) eqn:Eb; [|auto].
  apply andb_true_iff in Eb as (_ & He).
  destruct (trimLines r) as [|d t]; [discriminate|].
  rewrite prefix_cons in Hp. apply andb_true_iff in Hp as (Hd & _).
  cbn [endsLine] in He. apply isLF_eq in He. apply Ascii.eqb_eq in Hd. subst.
  rewrite Ascii.eqb_refl in Hw. discriminate.
Qed.

Lemma trimLines_avoids W s : charIn LF W = false ->
  includes W s = false -> includes W (trimLines s) = false.
Proof.
  intros HW. induction s as [|c r IH]; intros Hi; [exact Hi|].
  pose proof Hi as Hi'. rewrite includes_cons in Hi'.
  apply orb_false_iff in Hi' as (Hp & Hr). specialize (IH Hr).
  assert (Hq : prefix W (trimLines (String c r)) = false).
  { destruct (prefix W (trimLines (String c r))) eqn:E; [|reflexivity].
    rewrite (trimLines_prefix _ _ HW E) in Hp. discriminate. }
  cbn [trimLines] in *.
  destruct (isLF c); [rewrite includes_cons, Hq, IH; reflexivity|].
  destruct (blank c && endsLine (trimLines r)); [exact IH|].
  rewrite includes_cons, Hq, IH. reflexivity.
Qed.

(** ** Rewriting keeps lines trimmed *)

Lemma trimmed_put R z : trimmed (R ++ nl) = true -> trimmed (R ++ z) = trimmed z.
Proof.
  induction R as [|c R IH]; [reflexivity|]. cbn [append trimmed].
  intros H. apply andb_true_iff in H as (Hb & HR). rewrite (IH HR).
  apply negb_true_iff in Hb.
  destruct R as [|d R]; cbn [append endsLine] in *.
  - rewrite andb_true_r in Hb. rewrite Hb. reflexivity.
  - rewrite Hb. reflexivity.
Qed.

Lemma trimmed_rest a b : trimmed (a ++ b) = true -> trimmed b = true.
Proof.
  induction a as [|c a IH]; [auto|]. cbn [append trimmed].
  intros H. apply andb_true_iff in H as (_ & H). auto.
Qed.

Lemma endsLine_head a b : headOpt a = headOpt b -> endsLine a = endsLine b.
Proof. destruct a, b; cbn; intros H; inversion H; reflexivity. Qed.

Lemma Rw_trimmed rule : KeepsHead rule -> KeepsTrimmed rule ->
  forall s out, Rw rule s out -> trimmed s = true -> trimmed out = true.
Proof.
  intros Hh Ht s out Hrw.
  induction Hrw as [|c s out _ Hrw IH|M R rest out Hr HM _ IH]; intros Hs.
  - reflexivity.
  - cbn [trimmed] in *. apply andb_true_iff in Hs as (Hb & Hs).
    rewrite (endsLine_head out s (Rw_head rule Hh s out Hrw)), Hb. exact (IH Hs).
  - rewrite (trimmed_put R out (Ht _ _ _ Hr)). exact (IH (trimmed_rest _ _ Hs)).
Qed.

Lemma replaceAll_trimmed r f rule s :
  Follows r f rule -> KeepsHead rule -> KeepsTrimmed rule ->
  trimmed s = true -> trimmed (Regex.replaceAll r f s) = true.
Proof.
  intros Hf Hh Ht. exact (Rw_trimmed rule Hh Ht _ _ (replaceAll_follows r f rule s Hf)).
Qed.

(** ** The shape of the matches of the two alert rules *)

Lemma isTag_cases b : isTag b = true -> b = "+"%char \/ b = "!"%char.
Proof.
  unfold isTag. cbn. intros H. apply orb_true_iff in H as [H|H].
  - left. apply Ascii.eqb_eq. exact H.
  - rewrite orb_false_r in H. right. apply Ascii.eqb_eq. exact H.
Qed.

Lemma ruleA_some s M R : ruleA s = Some (M, R) ->
  exists b t, isTag b = true /\ (3 <= lfRun s)%nat /\
              afterLFs s = String "[" (String b t) /\
              M = lfs (lfRun s) ++ String "[" (String b "") /\
              R = nl ++ nl ++ String "[" (String b "").
Proof.
  unfold ruleA. destruct (3 <=? lfRun s)%nat eqn:E3; [|discriminate].
  destruct (afterLFs s) as [|a [|b t]]; try discriminate.
  destruct (Ascii.eqb "[" a) eqn:Ea; [|discriminate].
  destruct (isTag b) eqn:Eb; [|discriminate]. cbn [andb].
  intros H. inversion H. apply Ascii.eqb_eq in Ea. subst a.
  exists b, t. repeat split; auto. apply Nat.leb_le. exact E3.
Qed.

Lemma ruleB_some s M R : ruleB s = Some (M, R) ->
  exists s', s = String "]" s' /\ (3 <= lfRun s')%nat /\
             M = String "]" (lfs (lfRun s')) /\ R = String "]" (nl ++ nl).
Proof.
  unfold ruleB. destruct s as [|a s']; [discriminate|].
  destruct (Ascii.eqb "]" a) eqn:Ea; [|discriminate].
  destruct (3 <=? lfRun s')%nat eqn:E3; [|discriminate]. cbn [andb].
  intros H. inversion H. apply Ascii.eqb_eq in Ea. subst a.
  exists s'. repeat split; auto. apply Nat.leb_le. exact E3.
Qed.

Lemma ruleLit_some P Q s M R : ruleLit P Q s = Some (M, R) -> M = P /\ R = Q.
Proof. unfold ruleLit. destruct (prefix P s); intros H; inversion H; auto. Qed.

Lemma keepsHead_DGT : KeepsHead ruleDGT.
Proof. intros s M R H. apply ruleLit_some in H as (-> & ->). reflexivity. Qed.

Lemma keepsHead_A : KeepsHead ruleA.
Proof.
  intros s M R H. apply ruleA_some in H as (b & t & _ & H3 & _ & -> & ->).
  destruct (lfRun s) as [|n]; [lia|]. reflexivity.
Qed.

Lemma keepsHead_B : KeepsHead ruleB.
Proof. intros s M R H. apply ruleB_some in H as (s' & _ & _ & -> & ->). reflexivity. Qed.

Lemma keepsTrimmed_DGT : KeepsTrimmed ruleDGT.
Proof. intros s M R H. apply ruleLit_some in H as (-> & ->). reflexivity. Qed.

Lemma keepsTrimmed_A : KeepsTrimmed ruleA.
Proof.
  intros s M R H. apply ruleA_some in H as (b & t & Hb & _ & _ & _ & ->).
  destruct (isTag_cases b Hb); subst b; reflexivity.
Qed.

Lemma keepsTrimmed_B : KeepsTrimmed ruleB.
Proof. intros s M R H. apply ruleB_some in H as (s' & _ & _ & _ & ->). reflexivity. Qed.

Lemma disjoint_lit P Q W : Q <> "" -> disjoint Q W = true -> Disjoint (ruleLit P Q) W.
Proof. intros HQ Hd s M R H. apply ruleLit_some in H as (_ & ->). auto. Qed.

Lemma disjoint_A W : disjoint (nl ++ "[+!") W = true -> Disjoint ruleA W.
Proof.
  intros Hd s M R H. apply ruleA_some in H as (b & t & Hb & _ & _ & _ & ->).
  split; [discriminate|].
  cbn [disjoint append nl] in *.
  repeat (apply andb_true_iff in Hd as (? & Hd)).
  destruct (isTag_cases b Hb); subst b; repeat (apply andb_true_iff; split); auto.
Qed.

Lemma disjoint_B W : disjoint ("]" ++ nl) W = true -> Disjoint ruleB W.
Proof.
  intros Hd s M R H. apply ruleB_some in H as (s' & _ & _ & _ & ->).
  split; [discriminate|].
  cbn [disjoint append nl] in *.
  repeat (apply andb_true_iff in Hd as (? & Hd)).
  repeat (apply andb_true_iff; split); auto.
Qed.

(** ** What each rewriting establishes *)

Lemma noRule_cons rule c s :
  rule (String c s) = None -> noRule rule s = true -> noRule rule (String c s) = true.
Proof. intros Hr Hs. cbn [noRule]. rewrite Hr. exact Hs. Qed.

Lemma noRule_inv rule c s :
  noRule rule (String c s) = true -> rule (String c s) = None /\ noRule rule s = true.
Proof. cbn [noRule]. destruct (rule (String c s)); [discriminate | auto]. Qed.

Lemma noRule_rest rule a b : noRule rule (a ++ b) = true -> noRule rule b = true.
Proof.
  induction a as [|c a IH]; [auto|]. cbn [append]. intros H.
  apply noRule_inv in H as (_ & H). auto.
Qed.

(** After [fixDoubleGreaterThan] the text [> >-] occurs nowhere. *)
Lemma Rw_DGT_prefixes s out : Rw ruleDGT s out ->
  (prefix "-" out = true -> prefix "-" s = true) /\
  (prefix ">-" out = true -> prefix ">-" s = true) /\
  (prefix " >-" out = true -> prefix " >-" s = true) /\
  (prefix "> >-" out = true -> prefix "> >-" s = true).
Proof.
  intros Hrw. induction Hrw as [|c s out _ _ IH|M R rest out Hr HM _ IH].
  - auto.
  - destruct IH as (H1 & H2 & H3 & H4). rewrite !prefix_cons.
    repeat split; intros H; apply andb_true_iff in H as (Hc & H); rewrite Hc; auto.
    destruct s; reflexivity.
  - apply ruleLit_some in Hr as (-> & ->). cbn [append]. rewrite !prefix_cons. cbn.
    repeat split; discriminate.
Qed.

Lemma Rw_DGT_clean s out : Rw ruleDGT s out -> includes "> >-" out = false.
Proof.
  intros Hrw. induction Hrw as [|c s out Hn Hrw IH|M R rest out Hr HM _ IH].
  - reflexivity.
  - rewrite includes_cons, IH, orb_false_r.
    destruct (prefix "> >-" (String c out)) eqn:E; [|reflexivity].
    destruct (Rw_DGT_prefixes _ _ (Rw_copy ruleDGT c s out Hn Hrw)) as (_ & _ & _ & H4).
    unfold ruleDGT, ruleLit in Hn. rewrite (H4 E) in Hn. discriminate.
  - apply ruleLit_some in Hr as (-> & ->). cbn [append].
    rewrite !includes_cons, !prefix_cons, IH. reflexivity.
Qed.

Lemma atA_eq : forall s n, atA n s = (n <=? lfRun s)%nat && tagged (afterLFs s).
Proof.
  induction s as [|c r IH]; intros n; cbn [atA lfRun afterLFs].
  - cbn [tagged]. rewrite andb_false_r. reflexivity.
  - destruct (isLF c).
    + rewrite IH. destruct n; reflexivity.
    + cbn [tagged]. destruct n; [|reflexivity]. cbn.
      destruct r; [rewrite andb_false_r|]; reflexivity.
Qed.

Lemma ruleA_atA s : atA 3 s = match ruleA s with Some _ => true | None => false end.
Proof.
  rewrite atA_eq. unfold ruleA, tagged.
  destruct (3 <=? lfRun s)%nat; [|reflexivity].
  destruct (afterLFs s) as [|a [|b t]]; try reflexivity.
  cbn [andb]. destruct (Ascii.eqb "[" a && isTag b); reflexivity.
Qed.

Lemma ruleA_none s : atA 3 s = false -> ruleA s = None.
Proof. rewrite ruleA_atA. destruct (ruleA s); [discriminate | reflexivity]. Qed.

Lemma atA_mono s n m : (m <= n)%nat -> atA n s = true -> atA m s = true.
Proof.
  rewrite !atA_eq. intros Hm H. apply andb_true_iff in H as (H1 & H2).
  rewrite H2, andb_true_r. apply Nat.leb_le. apply Nat.leb_le in H1. lia.
Qed.

Lemma atA_pos t n : headIs isLF t = false -> atA (S n) t = false.
Proof. destruct t as [|c r]; [reflexivity|]. cbn [headIs atA]. intros ->. reflexivity. Qed.

Lemma headIs_head p a b : headOpt a = headOpt b -> headIs p a = headIs p b.
Proof. destruct a, b; cbn; intros H; inversion H; reflexivity. Qed.

Lemma Rw_A_at s out : Rw ruleA s out ->
  forall n, atA n out = true -> atA n s = true \/ ((n <= 2)%nat /\ atA 3 s = true).
Proof.
  intros Hrw. induction Hrw as [|c s out Hn Hrw IH|M R rest out Hr HM _ IH]; intros n Hat.
  - discriminate.
  - cbn [atA] in *. destruct (isLF c) eqn:Ec.
    + destruct (IH _ Hat) as [H | (Hle & H)]; [left; exact H|].
      exfalso. pose proof (ruleA_atA (String c s)) as Hx. rewrite Hn in Hx.
      cbn [atA] in Hx. rewrite Ec in Hx. cbn [pred] in Hx.
      rewrite (atA_mono s 3 2 ltac:(lia) H) in Hx. discriminate.
    + left. rewrite <- (headIs_head isTag out s (Rw_head ruleA keepsHead_A s out Hrw)).
      exact Hat.
  - right. pose proof (ruleA_atA (M ++ rest)) as Hx. rewrite Hr in Hx. split; [|exact Hx].
    apply ruleA_some in Hr as (b & t & Hb & _ & _ & _ & ->).
    cbn [append nl atA] in Hat. change (isLF LF) with true in Hat. cbn iota in Hat.
    change (isLF "[") with false in Hat. cbn iota in Hat.
    apply andb_true_iff in Hat as (Hat & _). apply andb_true_iff in Hat as (Hat & _).
    apply Nat.eqb_eq in Hat. lia.
Qed.

(** After the first rewriting of [normalizeAlertBlocks] its pattern
    matches nowhere. *)
Lemma Rw_A_clean s out : Rw ruleA s out -> noRule ruleA out = true.
Proof.
  intros Hrw. induction Hrw as [|c s out Hn Hrw IH|M R rest out Hr HM _ IH].
  - reflexivity.
  - apply noRule_cons; [|exact IH]. apply ruleA_none.
    destruct (atA 3 (String c out)) eqn:E; [|reflexivity].
    destruct (Rw_A_at _ _ (Rw_copy ruleA c s out Hn Hrw) 3 E) as [H | (Hle & _)]; [|lia].
    rewrite ruleA_atA, Hn in H. discriminate.
  - apply ruleA_some in Hr as (b & t & Hb & _ & _ & _ & ->).
    cbn [append nl].
    destruct (isTag_cases b Hb); subst b;
      repeat (apply noRule_cons; [apply ruleA_none; reflexivity|]); exact IH.
Qed.

Lemma Rw_B_at z out : Rw ruleB z out -> forall n, atA n out = atA n z.
Proof.
  intros Hrw. induction Hrw as [|c s out Hn Hrw IH|M R rest out Hr HM _ IH]; intros n.
  - reflexivity.
  - cbn [atA]. destruct (isLF c); [apply IH|].
    rewrite (headIs_head isTag out s (Rw_head ruleB keepsHead_B s out Hrw)). reflexivity.
  - apply ruleB_some in Hr as (s' & _ & _ & -> & ->). cbn [append atA].
    change (isLF "]") with false. cbn iota.
    change (Ascii.eqb "[" "]") with false. rewrite !andb_false_r. reflexivity.
Qed.

Lemma append_inv_head (a b c : string) : a ++ b = a ++ c -> b = c.
Proof. induction a as [|x a IH]; cbn [append]; intros H; [exact H | inversion H; auto]. Qed.

(** What follows a match of the second rule does not start with a line
    feed. *)
Lemma ruleB_rest M R rest : ruleB (M ++ rest) = Some (M, R) ->
  R = String "]" (nl ++ nl) /\ headIs isLF rest = false /\
  exists m, M = String "]" (lfs m).
Proof.
  intros H. apply ruleB_some in H as (s' & Hs & _ & HM & HR).
  split; [exact HR|]. split; [|eexists; exact HM].
  rewrite HM in Hs. cbn [append] in Hs. inversion Hs as [Hs'].
  pose proof (lfs_split s') as Hsplit.
  remember (lfRun s') as k eqn:Hk. remember (afterLFs s') as t eqn:Ht.
  assert (E : lfs k ++ rest = lfs k ++ t) by congruence.
  apply append_inv_head in E. subst rest t. apply afterLFs_head.
Qed.

Lemma lfRun_head t : headIs isLF t = false -> lfRun t = 0%nat.
Proof. destruct t as [|c r]; [reflexivity|]. cbn [headIs lfRun]. intros ->. reflexivity. Qed.

(** The second rewriting of [normalizeAlertBlocks] keeps what the first
    established. *)
Lemma Rw_B_keeps_A z out : Rw ruleB z out -> noRule ruleA z = true -> noRule ruleA out = true.
Proof.
  intros Hrw. induction Hrw as [|c s out Hn Hrw IH|M R rest out Hr HM Hrw IH]; intros Hz.
  - reflexivity.
  - apply noRule_inv in Hz as (Hc & Hs). apply noRule_cons; [|exact (IH Hs)].
    apply ruleA_none. rewrite (Rw_B_at _ _ (Rw_copy ruleB c s out Hn Hrw)).
    rewrite ruleA_atA, Hc. reflexivity.
  - apply noRule_rest in Hz. specialize (IH Hz).
    apply ruleB_rest in Hr as (-> & Hh & _). cbn [append nl].
    apply noRule_cons; [apply ruleA_none; reflexivity|].
    apply noRule_cons.
    { apply ruleA_none. cbn [atA]. change (isLF LF) with true. cbn iota. cbn [pred].
      rewrite (Rw_B_at _ _ Hrw). apply atA_pos. exact Hh. }
    apply noRule_cons; [|exact IH].
    apply ruleA_none. cbn [atA]. change (isLF LF) with true. cbn iota. cbn [pred].
    rewrite (Rw_B_at _ _ Hrw). apply atA_pos. exact Hh.
Qed.

Lemma Rw_B_lfRun z out : Rw ruleB z out -> lfRun out = lfRun z.
Proof.
  intros Hrw. destruct Hrw as [|c s out Hn Hrw|M R rest out Hr HM Hrw].
  - reflexivity.
  - cbn [lfRun]. destruct (isLF c) eqn:Ec; [|reflexivity]. f_equal.
    revert Hrw. clear. intros Hrw.
    induction Hrw as [|c s out Hn Hrw IH|M R rest out Hr HM Hrw IH]; [reflexivity| |].
    + cbn [lfRun]. destruct (isLF c); [f_equal; exact IH | reflexivity].
    + apply ruleB_some in Hr as (s' & _ & _ & -> & ->). reflexivity.
  - apply ruleB_some in Hr as (s' & _ & _ & -> & ->). reflexivity.
Qed.

(** After the second rewriting its pattern matches nowhere. *)
Lemma Rw_B_clean z out : Rw ruleB z out -> noRule ruleB out = true.
Proof.
  intros Hrw. induction Hrw as [|c s out Hn Hrw IH|M R rest out Hr HM Hrw IH].
  - reflexivity.
  - apply noRule_cons; [|exact IH]. unfold ruleB in *.
    rewrite (Rw_B_lfRun _ _ Hrw). exact Hn.
  - apply ruleB_rest in Hr as (-> & Hh & _). cbn [append nl].
    apply noRule_cons; [|repeat (apply noRule_cons; [reflexivity|]); exact IH].
    unfold ruleB. cbn [lfRun]. change (isLF LF) with true. cbn iota.
    rewrite (Rw_B_lfRun _ _ Hrw), (lfRun_head _ Hh). reflexivity.
Qed.

(** ** Normalizing twice *)

Lemma normalize_eq (T provider : string) :
  OutputNormalizer.normalize T provider =
    OutputNormalizer.normalizeAlertBlocks
      (OutputNormalizer.extractAndRelocateAlertBlocks
         (OutputNormalizer.fixGuidedHintSpacing
            (OutputNormalizer.fixDoubleGreaterThan
               (trimLines (Regex.replaceAll (Regex.lit crlf) (fun _ => nl) T))))).
Proof. unfold OutputNormalizer.normalize. rewrite trimLines_eq. reflexivity. Qed.

Lemma follows_CRLF : Follows (Regex.lit crlf) (fun _ => nl) ruleCRLF.
Proof. apply lit_follows. discriminate. Qed.

Lemma follows_DGT : Follows (Regex.lit "> >-") (fun _ => "> -") ruleDGT.
Proof. apply lit_follows. discriminate. Qed.

Lemma normalize_settles (T provider : string) :
  includes OutputNormalizer.guidedMarker T = false ->
  Settled (OutputNormalizer.normalize T provider).
Proof.
  intros H0. rewrite normalize_eq.
  set (x1 := Regex.replaceAll (Regex.lit crlf) (fun _ => nl) T).
  assert (G1 : includes OutputNormalizer.guidedMarker x1 = false).
  { apply (replaceAll_avoids _ _ ruleCRLF); [exact follows_CRLF | | exact H0].
    apply disjoint_lit; [discriminate | reflexivity]. }
  set (x2 := trimLines x1).
  assert (G2 : includes OutputNormalizer.guidedMarker x2 = false)
    by (apply trimLines_avoids; [reflexivity | exact G1]).
  assert (T2 : trimmed x2 = true) by apply trimLines_trimmed.
  unfold OutputNormalizer.fixDoubleGreaterThan.
  set (x3 := Regex.replaceAll (Regex.lit "> >-") (fun _ => "> -") x2).
  assert (G3 : includes OutputNormalizer.guidedMarker x3 = false).
  { apply (replaceAll_avoids _ _ ruleDGT); [exact follows_DGT | | exact G2].
    apply disjoint_lit; [discriminate | reflexivity]. }
  assert (T3 : trimmed x3 = true).
  { apply (replaceAll_trimmed _ _ ruleDGT);
      [exact follows_DGT | exact keepsHead_DGT | exact keepsTrimmed_DGT | exact T2]. }
  assert (D3 : includes "> >-" x3 = false).
  { apply (Rw_DGT_clean x2). apply replaceAll_follows. exact follows_DGT. }
  rewrite (fixGuidedHintSpacing_without_guided x3 G3).
  rewrite (extractAndRelocate_without_guided x3 G3).
  rewrite normalizeAlertBlocks_eq.
  set (x4 := Regex.replaceAll regexA replaceA x3).
  pose proof (replaceAll_follows regexA replaceA ruleA x3 follows_A) as RA. fold x4 in RA.
  assert (G4 : includes OutputNormalizer.guidedMarker x4 = false).
  { apply (Rw_avoids ruleA _ (disjoint_A OutputNormalizer.guidedMarker eq_refl) _ _ RA ""). exact G3. }
  assert (T4 : trimmed x4 = true)
    by exact (Rw_trimmed ruleA keepsHead_A keepsTrimmed_A _ _ RA T3).
  assert (D4 : includes "> >-" x4 = false).
  { apply (Rw_avoids ruleA _ (disjoint_A "> >-" eq_refl) _ _ RA ""). exact D3. }
  assert (A4 : noRule ruleA x4 = true) by exact (Rw_A_clean _ _ RA).
  set (y := Regex.replaceAll regexB replaceB x4).
  pose proof (replaceAll_follows regexB replaceB ruleB x4 follows_B) as RB. fold y in RB.
  constructor.
  - apply (Rw_avoids ruleB _ (disjoint_B OutputNormalizer.guidedMarker eq_refl) _ _ RB ""). exact G4.
  - exact (Rw_trimmed ruleB keepsHead_B keepsTrimmed_B _ _ RB T4).
  - apply (Rw_avoids ruleB _ (disjoint_B "> >-" eq_refl) _ _ RB ""). exact D4.
  - exact (Rw_B_keeps_A _ _ RB A4).
  - exact (Rw_B_clean _ _ RB).
Qed.

Lemma normalize_settled (y provider : string) :
  Settled y -> OutputNormalizer.normalize y provider = y.
Proof.
  intros [G Tr D A B]. rewrite normalize_eq.
  rewrite (replaceAll_noMatch (Regex.lit crlf))
    by (apply noMatch_lit; apply trimmed_no_crlf; exact Tr).
  rewrite (trimLines_fixed y Tr).
  unfold OutputNormalizer.fixDoubleGreaterThan.
  rewrite (replaceAll_noMatch (Regex.lit "> >-")) by (apply noMatch_lit; exact D).
  rewrite (fixGuidedHintSpacing_without_guided y G).
  rewrite (extractAndRelocate_without_guided y G).
  rewrite normalizeAlertBlocks_eq.
  rewrite (replaceAll_noRule regexA replaceA ruleA y follows_A A).
  exact (replaceAll_noRule regexB replaceB ruleB y follows_B B).
Qed.

(** C6.  The code at the failing input.  A guided block with three
    blank blockquote lines before its first bullet keeps two of them in
    the result of [normalize], the very text that [fixGuidedHintSpacing]
    is documented to replace, and the next run takes one more away: the
    second run differs from the first, for the OpenAI and the Ollama
    entry points alike.  [normalizeGemini], whose own pass on guided
    blocks settles that text in one run, changes its own result on
    another text, where the overview pass makes the [> >-] that the
    next run of [normalize] replaces. *)
Theorem normalize_is_not_idempotent :
  OutputNormalizer.normalize tripleBlank "openai" =
    ":::ShowGuided(ShowGuided=Yes)" ++ nl ++ ">" ++ nl ++ ">" ++ nl ++ ">- a" ++ nl ++ ":::" /\
  includes (">" ++ nl ++ ">" ++ nl ++ ">-") (OutputNormalizer.normalize tripleBlank "openai")
    = true /\
  OutputNormalizer.normalize (OutputNormalizer.normalize tripleBlank "openai") "openai" =
    ":::ShowGuided(ShowGuided=Yes)" ++ nl ++ ">" ++ nl ++ ">- a" ++ nl ++ ":::" /\
  OutputNormalizer.normalizeOpenAI (OutputNormalizer.normalizeOpenAI tripleBlank)
    <> OutputNormalizer.normalizeOpenAI tripleBlank /\
  OutputNormalizer.normalizeOllama (OutputNormalizer.normalizeOllama tripleBlank)
    <> OutputNormalizer.normalizeOllama tripleBlank /\
  OutputNormalizer.normalizeGemini (OutputNormalizer.normalizeGemini tripleBlank)
    = OutputNormalizer.normalizeGemini tripleBlank /\
  OutputNormalizer.normalizeGemini (OutputNormalizer.normalizeGemini overviewLine)
    <> OutputNormalizer.normalizeGemini overviewLine.
Proof.
  split; [vm_compute; reflexivity|]. split; [vm_compute; reflexivity|].
  split; [vm_compute; reflexivity|].
  split; [vm_compute; discriminate|]. split; [vm_compute; discriminate|].
  split; [vm_compute; reflexivity | vm_compute; discriminate].
Qed.

(** For every text in which the start marker of a guided block,
    [:::ShowGuided(ShowGuided=Yes)], does not occur, and for every pair
    of provider hints, running [normalize] on the result of [normalize]
    returns that result unchanged.  [normalizeOpenAI] and
    [normalizeOllama] are [normalize]. *)
Theorem normalize_idempotent_without_guided (T provider again : string) :
  includes OutputNormalizer.guidedMarker T = false ->
  OutputNormalizer.normalize (OutputNormalizer.normalize T provider) again =
    OutputNormalizer.normalize T provider.
Proof.
  intros H. apply normalize_settled. apply normalize_settles. exact H.
Qed.

Lemma normalize_idempotent_without_guided_witness :
  includes OutputNormalizer.guidedMarker untidy = false /\
  OutputNormalizer.normalizeOpenAI (OutputNormalizer.normalizeOpenAI untidy) =
    OutputNormalizer.normalizeOpenAI untidy.
Proof.
  split; [reflexivity|].
  apply (normalize_idempotent_without_guided untidy "openai" "openai"). reflexivity.
Defined.

(* ===================================================================== *)
(** * More on the retry loop: every run, whatever the transport does *)
(* ===================================================================== *)

Lemma concat_cons (c : string) (l : list string) :
  String.concat "" (c :: l) = c ++ String.concat "" l.
Proof. destruct l; [symmetry; apply append_nil_r | reflexivity]. Qed.

Lemma concat_app (a b : list string) :
  String.concat "" (a ++ b)%list = String.concat "" a ++ String.concat "" b.
Proof.
  induction a as [|c a IH]; [reflexivity|].
  change ((c :: a) ++ b)%list with (c :: (a ++ b))%list.
  rewrite !concat_cons, IH, append_assoc. reflexivity.
Qed.

Lemma chunksOf_app a b : chunksOf (a ++ b)%list = (chunksOf a ++ chunksOf b)%list.
Proof. unfold chunksOf. apply flat_map_app. Qed.

(** ** What a [try] block does *)

(** The loop over a stream: no wait; the chunks handed to [onChunk] are
    not empty; and the text it ends with is the text it began with
    followed by these chunks. *)
Lemma forAwait_account {C : Type} (chunkText : C -> string) :
  forall stream f full evs f' r,
    forAwait chunkText true stream f full = (evs, f', r) ->
    Forall (fun ev => isWait ev = false) evs /\
    Forall (fun c => c <> "") (chunksOf evs) /\
    forall text, r = Fulfilled text -> text = full ++ String.concat "" (chunksOf evs).
Proof.
  induction stream as [|c fl rest IH|e fl]; intros f full evs f' r Heq; cbn in Heq.
  - injection Heq as <- <- <-. repeat split; try constructor.
    intros text Ht. injection Ht as <-. symmetry. apply append_nil_r.
  - destruct fl.
    + injection Heq as <- <- <-. repeat split; try (repeat constructor). discriminate.
    + destruct (forAwait chunkText true rest false _) as [[evs0 f0] r0] eqn:Hrec.
      injection Heq as <- <- <-.
      destruct (IH _ _ _ _ _ Hrec) as (Hw & Hc & Ht).
      destruct (String.eqb (chunkText c) "") eqn:Ee.
      * repeat split; [constructor; [reflexivity | exact Hw] | exact Hc | exact Ht].
      * apply String.eqb_neq in Ee. repeat split.
        -- repeat (constructor; [reflexivity|]). exact Hw.
        -- constructor; [exact Ee | exact Hc].
        -- intros text Hx. rewrite (Ht text Hx).
           cbn [app chunksOf flat_map]. fold (chunksOf evs0).
           rewrite concat_cons, append_assoc. reflexivity.
  - injection Heq as <- <- <-. repeat split; try constructor. discriminate.
Qed.

Lemma forAwait_silent {C : Type} (chunkText : C -> string) :
  forall stream f full evs f' r,
    forAwait chunkText false stream f full = (evs, f', r) ->
    Forall (fun ev => isWait ev = false) evs /\ chunksOf evs = [].
Proof.
  induction stream as [|c fl rest IH|e fl]; intros f full evs f' r Heq; cbn in Heq.
  - injection Heq as <- <- <-. split; [constructor | reflexivity].
  - destruct fl.
    + injection Heq as <- <- <-. split; [repeat constructor | reflexivity].
    + destruct (forAwait chunkText false rest false _) as [[evs0 f0] r0] eqn:Hrec.
      injection Heq as <- <- <-.
      destruct (IH _ _ _ _ _ Hrec) as (Hw & Hc).
      destruct (String.eqb (chunkText c) "");
        (split; [constructor; [reflexivity | exact Hw] | exact Hc]).
  - injection Heq as <- <- <-. split; [constructor | reflexivity].
Qed.

Lemma eachLine_account H : forall lines full evs full',
    OllamaService.eachLine H lines full = (evs, full') ->
    Forall (fun ev => isWait ev = false) evs /\
    Forall (fun c => c <> "") (chunksOf evs) /\
    full' = full ++ String.concat "" (chunksOf evs).
Proof.
  induction lines as [|line rest IH]; intros full evs full' Heq; cbn in Heq.
  - injection Heq as <- <-. repeat split; try constructor. symmetry. apply append_nil_r.
  - destruct (OllamaService.lineText H line) as [t|]; [|eapply IH; exact Heq].
    destruct (String.eqb t "") eqn:Ee; [eapply IH; exact Heq|].
    destruct (OllamaService.eachLine H rest (full ++ t)) as [evs0 full0] eqn:Hrec.
    injection Heq as <- <-. destruct (IH _ _ _ Hrec) as (Hw & Hc & Ht).
    apply String.eqb_neq in Ee. repeat split.
    + constructor; [reflexivity | exact Hw].
    + constructor; [exact Ee | exact Hc].
    + rewrite Ht. cbn [chunksOf flat_map app]. fold (chunksOf evs0).
      rewrite concat_cons, append_assoc. reflexivity.
Qed.

Lemma readLoop_account H : forall reads f full evs f' r,
    OllamaService.readLoop H reads f full = (evs, f', r) ->
    Forall (fun ev => isWait ev = false) evs /\
    Forall (fun c => c <> "") (chunksOf evs) /\
    forall text, r = Fulfilled text -> text = full ++ String.concat "" (chunksOf evs).
Proof.
  induction reads as [|chunk fl rest IH|e fl]; intros f full evs f' r Heq;
    cbn in Heq; destruct f;
    try (injection Heq as <- <- <-; repeat split; try (repeat constructor);
         try discriminate;
         intros text Ht; injection Ht as <-; symmetry; apply append_nil_r).
  destruct (OllamaService.eachLine H (OllamaService.nonBlankLines chunk) full)
    as [evs1 full1] eqn:Hlines.
  destruct (OllamaService.readLoop H rest fl full1) as [[evs2 f2] r2] eqn:Hrec.
  injection Heq as <- <- <-.
  destruct (eachLine_account _ _ _ _ _ Hlines) as (Hw1 & Hc1 & Ht1).
  destruct (IH _ _ _ _ _ Hrec) as (Hw2 & Hc2 & Ht2).
  repeat split.
  - constructor; [reflexivity|]. apply Forall_app. split; assumption.
  - cbn [chunksOf flat_map app]. fold (chunksOf (evs1 ++ evs2)).
    rewrite chunksOf_app. apply Forall_app. split; assumption.
  - intros text Hx. rewrite (Ht2 text Hx), Ht1.
    cbn [chunksOf flat_map app]. fold (chunksOf (evs1 ++ evs2)).
    rewrite chunksOf_app, concat_app, append_assoc. reflexivity.
Qed.

Lemma gemini_body_account this (env : Env GeminiService.Response) contents k f :
  let t := GeminiService.body this env contents true k f in
  Forall (fun ev => isWait ev = false) (events t) /\
  Forall (fun c => c <> "") (chunksOf (events t)) /\
  forall text, completion t = Fulfilled text ->
               text = OutputNormalizer.normalizeGemini (String.concat "" (chunksOf (events t))).
Proof.
  cbn zeta. unfold GeminiService.body, checkBeforeCall.
  destruct f; cbn [events completion]; [repeat split; try (repeat constructor); discriminate|].
  destruct (transport env k _) as [[resp|err] fl]; cbn [outcome flag].
  - destruct (forAwait GeminiService.chunkText true resp fl "") as [[evs f'] r] eqn:Hs.
    destruct (forAwait_account _ _ _ _ _ _ _ Hs) as (Hw & Hc & Ht).
    destruct r as [full|e]; cbn [events completion].
    + repeat split.
      * repeat (constructor; [reflexivity|]). apply Forall_app. split; [exact Hw | repeat constructor].
      * cbn [chunksOf flat_map app]. fold (chunksOf (evs ++ [OnStatus ""])).
        rewrite chunksOf_app. cbn. rewrite app_nil_r. exact Hc.
      * intros text Hx. injection Hx as <-.
        cbn [chunksOf flat_map app]. fold (chunksOf (evs ++ [OnStatus ""])).
        rewrite chunksOf_app. cbn [chunksOf flat_map app]. rewrite app_nil_r.
        rewrite (Ht full eq_refl). reflexivity.
    + repeat split; [repeat (constructor; [reflexivity|]); exact Hw | exact Hc | discriminate].
  - repeat split; try (repeat constructor). discriminate.
Qed.

Lemma gemini_body_silent this (env : Env GeminiService.Response) contents k f :
  let t := GeminiService.body this env contents false k f in
  Forall (fun ev => isWait ev = false) (events t) /\ chunksOf (events t) = [].
Proof.
  cbn zeta. unfold GeminiService.body, checkBeforeCall.
  destruct f; cbn [events]; [split; [repeat constructor | reflexivity]|].
  destruct (transport env k _) as [[resp|err] fl]; cbn [outcome flag].
  - destruct (forAwait GeminiService.chunkText false resp fl "") as [[evs f'] r] eqn:Hs.
    destruct (forAwait_silent _ _ _ _ _ _ _ Hs) as (Hw & Hc).
    destruct r as [full|e]; cbn [events].
    + split.
      * repeat (constructor; [reflexivity|]). apply Forall_app. split; [exact Hw | repeat constructor].
      * cbn [chunksOf flat_map app]. fold (chunksOf (evs ++ [OnStatus ""])).
        rewrite chunksOf_app, Hc. reflexivity.
    + split; [repeat (constructor; [reflexivity|]); exact Hw | exact Hc].
  - split; [repeat constructor | reflexivity].
Qed.

Lemma openai_bodyText_silent this (env : Env OpenAIService.ChatCompletion) p c k f :
  let t := OpenAIService.bodyText this env p c k f in
  Forall (fun ev => isWait ev = false) (events t) /\ chunksOf (events t) = [].
Proof.
  cbn zeta. unfold OpenAIService.bodyText, checkBeforeCall.
  destruct f; cbn [events]; [split; [repeat constructor | reflexivity]|].
  destruct (transport env k _) as [[resp|err] fl]; cbn [outcome flag events];
    (split; [repeat constructor | reflexivity]).
Qed.

Lemma openai_bodyStream_account this (env : Env OpenAIService.Stream) msgs k f :
  let t := OpenAIService.bodyStream this env msgs k f in
  Forall (fun ev => isWait ev = false) (events t) /\
  Forall (fun c => c <> "") (chunksOf (events t)) /\
  forall text, completion t = Fulfilled text ->
               text = OutputNormalizer.normalizeOpenAI (String.concat "" (chunksOf (events t))).
Proof.
  cbn zeta. unfold OpenAIService.bodyStream, checkBeforeCall.
  destruct f; cbn [events completion]; [repeat split; try (repeat constructor); discriminate|].
  destruct (transport env k _) as [[resp|err] fl]; cbn [outcome flag].
  - destruct (forAwait OpenAIService.chunkText true resp fl "") as [[evs f'] r] eqn:Hs.
    destruct (forAwait_account _ _ _ _ _ _ _ Hs) as (Hw & Hc & Ht).
    destruct r as [full|e]; cbn [events completion].
    + repeat split.
      * repeat (constructor; [reflexivity|]). apply Forall_app. split; [exact Hw | repeat constructor].
      * cbn [chunksOf flat_map app]. fold (chunksOf (evs ++ [OnStatus ""])).
        rewrite chunksOf_app. cbn. rewrite app_nil_r. exact Hc.
      * intros text Hx. injection Hx as <-.
        cbn [chunksOf flat_map app]. fold (chunksOf (evs ++ [OnStatus ""])).
        rewrite chunksOf_app. cbn [chunksOf flat_map app]. rewrite app_nil_r.
        rewrite (Ht full eq_refl). reflexivity.
    + repeat split; [repeat (constructor; [reflexivity|]); exact Hw | exact Hc | discriminate].
  - repeat split; try (repeat constructor). discriminate.
Qed.

Lemma ollama_bodyText_silent this (env : Env OllamaService.HttpResponse) p c k f :
  let t := OllamaService.bodyText this env p c k f in
  Forall (fun ev => isWait ev = false) (events t) /\ chunksOf (events t) = [].
Proof.
  cbn zeta. unfold OllamaService.bodyText, checkBeforeCall.
  destruct f; cbn [events]; [split; [repeat constructor | reflexivity]|].
  pose proof (makeRequest_events this env k (OllamaService.textMessages p c) false) as Hm.
  destruct (OllamaService.makeRequest this env k _ false) as [[evs f] r].
  cbn [fst] in Hm. subst evs.
  destruct r as [resp|err]; cbn [events].
  - destruct (OllamaService.responseJson resp) as [[d|err] fl']; cbn [outcome flag events app];
      (split; [repeat constructor | reflexivity]).
  - split; [repeat constructor | reflexivity].
Qed.

Lemma ollama_bodyStream_account H this (env : Env OllamaService.HttpResponse) msgs k f :
  let t := OllamaService.bodyStream H this env msgs k f in
  Forall (fun ev => isWait ev = false) (events t) /\
  Forall (fun c => c <> "") (chunksOf (events t)) /\
  forall text, completion t = Fulfilled text ->
               text = OutputNormalizer.normalizeOllama (String.concat "" (chunksOf (events t))).
Proof.
  cbn zeta. unfold OllamaService.bodyStream, checkBeforeCall.
  destruct f; cbn [events completion]; [repeat split; try (repeat constructor); discriminate|].
  pose proof (makeRequest_events this env k msgs true) as Hm.
  destruct (OllamaService.makeRequest this env k _ true) as [[evs f] r].
  cbn [fst] in Hm. subst evs.
  destruct r as [resp|err]; cbn [events completion];
    [|repeat split; try (repeat constructor); discriminate].
  destruct (OllamaService.bodyReader resp) as [reads|]; cbn [events completion];
    [|repeat split; try (repeat constructor); discriminate].
  destruct (OllamaService.readLoop H reads f "") as [[evs2 f2] r2] eqn:Hs.
  destruct (readLoop_account _ _ _ _ _ _ _ Hs) as (Hw & Hc & Ht).
  destruct r2 as [full|e]; cbn [events completion app].
  - repeat split.
    + repeat (constructor; [reflexivity|]). apply Forall_app. split; [exact Hw | repeat constructor].
    + cbn [chunksOf flat_map app]. fold (chunksOf (evs2 ++ [OnStatus ""])).
      rewrite chunksOf_app. cbn. rewrite app_nil_r. exact Hc.
    + intros text Hx. injection Hx as <-.
      cbn [chunksOf flat_map app]. fold (chunksOf (evs2 ++ [OnStatus ""])).
      rewrite chunksOf_app. cbn [chunksOf flat_map app]. rewrite app_nil_r.
      rewrite (Ht full eq_refl). reflexivity.
  - repeat split; [repeat (constructor; [reflexivity|]); exact Hw | exact Hc | discriminate].
Qed.

(** The [try] block of a method: no wait; the chunks handed to [onChunk]
    are not empty; and a streaming method returns the normalized
    concatenation of the chunks it handed to [onChunk]. *)
Lemma tryBlock_account H s m a (env : Env (Response (providerOf s) m)) k f :
  let t := tryBlock H s m a env k f in
  Forall (fun ev => isWait ev = false) (events t) /\
  Forall (fun c => c <> "") (chunksOf (events t)) /\
  (m <> ProcessText ->
   forall text, completion t = Fulfilled text ->
                text = normalizeFor s (String.concat "" (chunksOf (events t)))).
Proof.
  cbn zeta.
  destruct s as [g|o|l], m; cbn [tryBlock providerOf Response normalizeFor] in *.
  - destruct (gemini_body_silent g env
                (GString (GeminiService.combined (agentPrompt a) (content a))) k f) as (Hw & Hc).
    rewrite Hc. repeat split; [exact Hw | constructor | congruence].
  - destruct (gemini_body_account g env
                (GString (GeminiService.combined (agentPrompt a) (content a))) k f)
      as (Hw & Hc & Ht). auto.
  - destruct (gemini_body_account g env
                (GParts (GText (agentPrompt a) :: map GeminiService.convertToGeminiPart (parts a)))
                k f) as (Hw & Hc & Ht). auto.
  - destruct (openai_bodyText_silent o env (agentPrompt a) (content a) k f) as (Hw & Hc).
    rewrite Hc. repeat split; [exact Hw | constructor | congruence].
  - destruct (openai_bodyStream_account o env
                (OpenAIService.textMessages (agentPrompt a) (content a)) k f)
      as (Hw & Hc & Ht). auto.
  - destruct (openai_bodyStream_account o env
                (OpenAIService.multiModalMessages (agentPrompt a) (parts a)) k f)
      as (Hw & Hc & Ht). auto.
  - destruct (ollama_bodyText_silent l env (agentPrompt a) (content a) k f) as (Hw & Hc).
    rewrite Hc. repeat split; [exact Hw | constructor | congruence].
  - destruct (ollama_bodyStream_account H l env
                (OllamaService.textMessages (agentPrompt a) (content a)) k f)
      as (Hw & Hc & Ht). auto.
  - destruct (ollama_bodyStream_account H l env
                (OllamaService.multiModalMessages (agentPrompt a) (parts a)) k f)
      as (Hw & Hc & Ht). auto.
Qed.

(** ** What a [catch] block does *)

(** A [catch] block emits reads of the flag and status lines only; when
    it retries, the attempt is not the last one, the flag was unset, the
    delay is the one of the schedule and the status line that announces
    it is the last event; when it throws, it emits no status line. *)
Lemma catchBlock_inv H s m r k e f :
  let h := catchBlock H s m r k e f in
  Forall (fun ev => isCatchEvent ev = true) (hevents h) /\
  match action h with
  | Retry ms =>
      (k < maxRetries)%nat /\ f = false /\
      ms = (if busy H s e then longDelay k (r k) else baseDelay k) /\
      hevents h = [ReadFlag InCatch false; OnStatus (notice s ms k)]
  | Throw _ => statusOf (hevents h) = []
  end.
Proof.
  cbn zeta. destruct s as [g|o|l]; cbn [catchBlock busy notice].
  - unfold GeminiService.handler.
    destruct (GeminiService.messageIncludes _ _) as [[|]|];
      [| destruct f;
         [| destruct (GeminiService.isApiKeyError _) as [[|]|];
            [| destruct (k <? maxRetries)%nat eqn:Ek |] ] |];
      cbn [hevents action]; (split; [repeat constructor|]); try reflexivity.
    apply Nat.ltb_lt in Ek. auto.
  - unfold OpenAIService.handler.
    destruct f;
      [| destruct (OpenAIService.isApiKeyError e);
         [| destruct (k <? maxRetries)%nat eqn:Ek ] ];
      cbn [hevents action]; (split; [repeat constructor|]); try reflexivity.
    apply Nat.ltb_lt in Ek. auto.
  - unfold OllamaService.handler.
    destruct f;
      [| destruct (OllamaService.isConnectionError e);
         [| destruct (k <? maxRetries)%nat eqn:Ek ] ];
      cbn [hevents action]; (split; [repeat constructor|]); try reflexivity.
    apply Nat.ltb_lt in Ek. auto.
Qed.

(** ** Lists of events *)

Lemma waits_of_list r : waits r = flat_map (fun e => match e with Wait ms => [ms] | _ => [] end) (trace r).
Proof. reflexivity. Qed.

Lemma nowait_waits evs :
  Forall (fun ev => isWait ev = false) evs ->
  flat_map (fun e => match e with Wait ms => [ms] | _ => [] end) evs = [].
Proof.
  induction 1 as [|ev evs Hev _ IH]; [reflexivity|].
  cbn [flat_map]. rewrite IH. destruct ev; try reflexivity. discriminate.
Qed.

Lemma nowait_filter evs :
  Forall (fun ev => isWait ev = false) evs -> filter isWait evs = [].
Proof.
  induction 1 as [|ev evs Hev _ IH]; [reflexivity|].
  cbn [filter]. rewrite Hev. exact IH.
Qed.

Lemma nowait_existsb evs :
  Forall (fun ev => isWait ev = false) evs -> existsb isWait evs = false.
Proof.
  induction 1 as [|ev evs Hev _ IH]; [reflexivity|].
  cbn [existsb]. rewrite Hev. exact IH.
Qed.

Lemma catch_nowait evs :
  Forall (fun ev => isCatchEvent ev = true) evs -> Forall (fun ev => isWait ev = false) evs.
Proof. apply Forall_impl. intros [] Hx; try reflexivity; discriminate. Qed.

Lemma catch_nocall evs :
  Forall (fun ev => isCatchEvent ev = true) evs -> filter isCall evs = [].
Proof.
  induction 1 as [|ev evs Hev _ IH]; [reflexivity|].
  cbn [filter]. rewrite IH. destruct ev; try reflexivity; discriminate.
Qed.

Lemma catch_nochunk evs :
  Forall (fun ev => isCatchEvent ev = true) evs -> chunksOf evs = [].
Proof.
  induction 1 as [|ev evs Hev _ IH]; [reflexivity|].
  cbn [chunksOf flat_map]. fold (chunksOf evs). rewrite IH.
  destruct ev; try reflexivity; discriminate.
Qed.

Lemma afterLastWait_nowait evs :
  existsb isWait evs = false -> afterLastWait evs = evs.
Proof.
  destruct evs as [|ev rest]; [reflexivity|]. cbn [existsb afterLastWait].
  intros Hx. apply orb_false_iff in Hx as (Hev & Hrest). rewrite Hrest, Hev. reflexivity.
Qed.

Lemma afterLastWait_wait X d Y :
  afterLastWait (X ++ Wait d :: Y)%list = afterLastWait Y.
Proof.
  induction X as [|x X IH].
  - cbn [app afterLastWait isWait]. destruct (existsb isWait Y) eqn:E; [reflexivity|].
    symmetry. apply afterLastWait_nowait. exact E.
  - cbn [app afterLastWait]. rewrite existsb_app. cbn [existsb isWait].
    rewrite orb_true_r. exact IH.
Qed.

Lemma split_at_wait : forall X d Y pre ms post,
    Forall (fun ev => isWait ev = false) X ->
    (X ++ Wait d :: Y = pre ++ Wait ms :: post)%list ->
    (pre = X /\ ms = d /\ post = Y) \/
    (exists pre2, pre = (X ++ Wait d :: pre2)%list /\ Y = (pre2 ++ Wait ms :: post)%list).
Proof.
  induction X as [|x X IH]; intros d Y pre ms post Hn Heq.
  - destruct pre as [|p pre]; cbn [app] in Heq.
    + injection Heq as -> ->. left. auto.
    + injection Heq as <- ->. right. exists pre. auto.
  - inversion Hn as [|? ? Hx HX]; subst.
    destruct pre as [|p pre]; cbn [app] in Heq.
    + injection Heq as -> _. discriminate.
    + injection Heq as <- Heq.
      destruct (IH _ _ _ _ _ HX Heq) as [(-> & -> & ->) | (pre2 & -> & ->)].
      * left. auto.
      * right. exists pre2. auto.
Qed.

Lemma nowait_no_split L pre ms post :
  Forall (fun ev => isWait ev = false) L -> L <> (pre ++ Wait ms :: post)%list.
Proof.
  intros Hn Heq. subst L. apply Forall_app in Hn as (_ & Hn).
  inversion Hn as [|? ? Hx _]. discriminate.
Qed.

(** ** Every run of a retry loop *)

Section AnyRun.
Context {R : Type} (env : Env R) (body : nat -> bool -> Attempt)
        (handler : nat -> JsError -> bool -> Handled)
        (exhausted : option JsError -> JsError).
Context (sched : nat -> Z -> Prop) (st : nat -> Z -> string).

Hypothesis body_nowait : forall k f, Forall (fun ev => isWait ev = false) (events (body k f)).
Hypothesis body_calls : forall k f, (List.length (filter isCall (events (body k f))) <= 1)%nat.
Hypothesis handler_events : forall k e f,
    Forall (fun ev => isCatchEvent ev = true) (hevents (handler k e f)).
Hypothesis handler_retry : forall k e f ms,
    action (handler k e f) = Retry ms ->
    (k < maxRetries)%nat /\ sched k ms /\
    hevents (handler k e f) = [ReadFlag InCatch false; OnStatus (st k ms)].
Hypothesis sched_le : forall k ms, sched k ms -> (ms <= longestDelay k)%Z.

Lemma attempts_counts : forall remaining f last,
    (remaining <= maxRetries + 1)%nat ->
    let r := attempts env body handler exhausted remaining f last in
    (calls r <= remaining)%nat /\ (List.length (waits r) <= pred remaining)%nat /\
    (calls r <= List.length (waits r) + 1)%nat.
Proof.
  induction remaining as [|r IH]; intros f last Hr; cbn zeta.
  - cbn. repeat split; lia.
  - rewrite attempts_S. cbn zeta.
    remember (maxRetries + 1 - S r)%nat as k eqn:Ek.
    pose proof (body_nowait k f) as Hbw. pose proof (body_calls k f) as Hbc.
    destruct (completion (body k f)) as [text|error].
    + unfold calls, waits. cbn [trace]. rewrite (nowait_waits _ Hbw). cbn [List.length].
      repeat split; lia.
    + pose proof (handler_events k error (flagAfter (body k f))) as Hhe.
      destruct (action (handler k error (flagAfter (body k f)))) as [e'|d] eqn:Ea.
      * unfold calls, waits. cbn [trace]. rewrite flat_map_app, filter_app, length_app.
        rewrite (nowait_waits _ Hbw), (nowait_waits _ (catch_nowait _ Hhe)), (catch_nocall _ Hhe).
        cbn [List.length app]. repeat split; lia.
      * destruct (handler_retry _ _ _ _ Ea) as (Hk & Hs & Hev).
        assert (Hr1 : (1 <= r)%nat) by (unfold maxRetries in *; lia).
        destruct (IH (flagAfterWait env k) (Some error)) as (Hc & Hw & Hcw); [lia|].
        cbn zeta in Hc, Hw, Hcw. unfold calls, waits in *. cbn [trace].
        rewrite !flat_map_app, !filter_app, !length_app.
        rewrite (nowait_waits _ Hbw), (nowait_waits _ (catch_nowait _ Hhe)), (catch_nocall _ Hhe).
        cbn [flat_map filter isCall List.length app].
        repeat split; lia.
Qed.

Lemma longestTotal_nonneg r : (0 <= longestTotal r)%Z.
Proof.
  induction r as [|r IHr]; [cbn; lia|]. destruct r as [|r]; [cbn; lia|].
  change (longestTotal (S (S r)))
    with (longestDelay (maxRetries + 1 - S (S r)) + longestTotal (S r))%Z.
  unfold longestDelay.
  assert (0 < 2 ^ Z.of_nat (maxRetries + 1 - S (S r)))%Z by (apply Z.pow_pos_nonneg; lia).
  lia.
Qed.

Lemma attempts_total : forall remaining f last,
    (remaining <= maxRetries + 1)%nat ->
    let r := attempts env body handler exhausted remaining f last in
    (total (waits r) <= longestTotal remaining)%Z.
Proof.
  induction remaining as [|r IH]; intros f last Hr; cbn zeta.
  - cbn. lia.
  - rewrite attempts_S. cbn zeta.
    remember (maxRetries + 1 - S r)%nat as k eqn:Ek.
    pose proof (body_nowait k f) as Hbw.
    pose proof (longestTotal_nonneg (S r)) as Hlt.
    destruct (completion (body k f)) as [text|error].
    + unfold waits. cbn [trace]. rewrite (nowait_waits _ Hbw). cbn [total fold_right]. lia.
    + pose proof (handler_events k error (flagAfter (body k f))) as Hhe.
      destruct (action (handler k error (flagAfter (body k f)))) as [e'|d] eqn:Ea.
      * unfold waits. cbn [trace]. rewrite flat_map_app.
        rewrite (nowait_waits _ Hbw), (nowait_waits _ (catch_nowait _ Hhe)).
        cbn [app total fold_right]. lia.
      * destruct (handler_retry _ _ _ _ Ea) as (Hk & Hs & Hev).
        specialize (IH (flagAfterWait env k) (Some error) ltac:(lia)).
        cbn zeta in IH. unfold waits in *. cbn [trace].
        rewrite !flat_map_app.
        rewrite (nowait_waits _ Hbw), (nowait_waits _ (catch_nowait _ Hhe)).
        cbn [flat_map app total fold_right]. unfold total in IH.
        destruct r as [|r']; [unfold maxRetries in *; lia|].
        change (longestTotal (S (S r')))
          with (longestDelay (maxRetries + 1 - S (S r')) + longestTotal (S r'))%Z.
        rewrite <- Ek. pose proof (sched_le _ _ Hs). lia.
Qed.

Lemma attempts_schedule : forall remaining f last i ms,
    (remaining <= maxRetries + 1)%nat ->
    let r := attempts env body handler exhausted remaining f last in
    nth_error (waits r) i = Some ms -> sched (maxRetries + 1 - remaining + i) ms.
Proof.
  induction remaining as [|r IH]; intros f last i ms Hr; cbn zeta.
  - cbn. destruct i; discriminate.
  - rewrite attempts_S. cbn zeta.
    remember (maxRetries + 1 - S r)%nat as k eqn:Ek.
    pose proof (body_nowait k f) as Hbw.
    destruct (completion (body k f)) as [text|error].
    + unfold waits. cbn [trace]. rewrite (nowait_waits _ Hbw). destruct i; discriminate.
    + pose proof (handler_events k error (flagAfter (body k f))) as Hhe.
      destruct (action (handler k error (flagAfter (body k f)))) as [e'|d] eqn:Ea.
      * unfold waits. cbn [trace]. rewrite flat_map_app.
        rewrite (nowait_waits _ Hbw), (nowait_waits _ (catch_nowait _ Hhe)).
        destruct i; discriminate.
      * destruct (handler_retry _ _ _ _ Ea) as (Hk & Hs & Hev).
        unfold waits. cbn [trace]. rewrite !flat_map_app.
        rewrite (nowait_waits _ Hbw), (nowait_waits _ (catch_nowait _ Hhe)).
        cbn [flat_map app]. destruct i as [|i]; cbn [nth_error].
        -- intros Hx. injection Hx as <-. replace (k + 0)%nat with k by lia. exact Hs.
        -- intros Hx. apply IH in Hx; [|lia].
           replace (k + S i)%nat with (maxRetries + 1 - r + i)%nat
             by (unfold maxRetries in *; lia).
           exact Hx.
Qed.

Lemma attempts_announced : forall remaining f last pre ms post,
    (remaining <= maxRetries + 1)%nat ->
    trace (attempts env body handler exhausted remaining f last) =
      (pre ++ Wait ms :: post)%list ->
    exists pre',
      pre = (pre' ++ [OnStatus (st (maxRetries + 1 - remaining
                                     + List.length (filter isWait pre)) ms)])%list.
Proof.
  induction remaining as [|r IH]; intros f last pre ms post Hr.
  - cbn. intros Hx. destruct pre; discriminate.
  - rewrite attempts_S. cbn zeta.
    remember (maxRetries + 1 - S r)%nat as k eqn:Ek.
    pose proof (body_nowait k f) as Hbw.
    destruct (completion (body k f)) as [text|error].
    + cbn [trace]. intros Hx. exfalso. exact (nowait_no_split _ _ _ _ Hbw Hx).
    + pose proof (handler_events k error (flagAfter (body k f))) as Hhe.
      destruct (action (handler k error (flagAfter (body k f)))) as [e'|d] eqn:Ea.
      * cbn [trace]. intros Hx. exfalso. refine (nowait_no_split _ _ _ _ _ Hx).
        apply Forall_app. split; [exact Hbw | exact (catch_nowait _ Hhe)].
      * destruct (handler_retry _ _ _ _ Ea) as (Hk & Hs & Hev).
        cbn [trace]. rewrite app_assoc. intros Hx.
        assert (Hn : Forall (fun ev => isWait ev = false)
                            (events (body k f)
                             ++ hevents (handler k error (flagAfter (body k f))))%list)
          by (apply Forall_app; split; [exact Hbw | exact (catch_nowait _ Hhe)]).
        destruct (split_at_wait _ _ _ _ _ _ Hn Hx) as [(-> & -> & ->) | (pre2 & -> & Hy)].
        -- rewrite (nowait_filter _ Hn). cbn [List.length]. rewrite Hev.
           exists (events (body k f) ++ [ReadFlag InCatch false])%list.
           rewrite <- app_assoc. replace (k + 0)%nat with k by lia. reflexivity.
        -- destruct (IH _ _ _ _ _ ltac:(lia) Hy) as (pre' & Hp).
           rewrite filter_app, (nowait_filter _ Hn). cbn [app filter isWait List.length].
           remember (List.length (filter isWait pre2)) as w eqn:Ew.
           replace (k + S w)%nat with (maxRetries + 1 - r + w)%nat
             by (unfold maxRetries in *; lia).
           clear Ew Hy Hx. subst pre2.
           exists ((events (body k f) ++ hevents (handler k error (flagAfter (body k f))))
                     ++ Wait d :: pre')%list.
           rewrite <- !app_assoc. reflexivity.
Qed.

Lemma attempts_last_attempt : forall remaining f last text,
    let r := attempts env body handler exhausted remaining f last in
    settled r = Fulfilled text ->
    exists k f', completion (body k f') = Fulfilled text /\
                 afterLastWait (trace r) = events (body k f').
Proof.
  induction remaining as [|r IH]; intros f last text; cbn zeta.
  - cbn. discriminate.
  - rewrite attempts_S. cbn zeta.
    remember (maxRetries + 1 - S r)%nat as k eqn:Ek.
    pose proof (body_nowait k f) as Hbw.
    destruct (completion (body k f)) as [text'|error] eqn:Ec.
    + cbn [settled trace]. intros Hx. injection Hx as ->.
      exists k, f. split; [exact Ec|].
      apply afterLastWait_nowait. apply nowait_existsb. exact Hbw.
    + destruct (action (handler k error (flagAfter (body k f)))) as [e'|d] eqn:Ea.
      * cbn [settled]. discriminate.
      * cbn [settled trace]. intros Hx.
        destruct (IH _ _ _ Hx) as (k' & f' & Hc & Ha).
        exists k', f'. split; [exact Hc|].
        rewrite app_assoc, afterLastWait_wait. exact Ha.
Qed.
End AnyRun.

(** ** Every run of the nine methods *)

Lemma tryBlock_calls H s m a (env : Env (Response (providerOf s) m)) k f :
  (List.length (filter isCall (events (tryBlock H s m a env k f))) <= 1)%nat.
Proof.
  destruct (tryBlock_events H s m a env k f) as (rest & -> & Hn).
  destruct f; [cbn; lia|]. cbn [filter isCall List.length].
  replace (filter isCall rest) with (@nil Event); [cbn; lia|].
  symmetry. clear - Hn. induction Hn as [|ev evs Hev _ IH]; [reflexivity|].
  cbn [filter]. rewrite Hev. exact IH.
Qed.

Lemma tryBlock_nowait H s m a (env : Env (Response (providerOf s) m)) k f :
  Forall (fun ev => isWait ev = false) (events (tryBlock H s m a env k f)).
Proof. apply (tryBlock_account H s m a env k f). Qed.

Lemma catchBlock_events H s m r k e f :
  Forall (fun ev => isCatchEvent ev = true) (hevents (catchBlock H s m r k e f)).
Proof. apply (catchBlock_inv H s m r k e f). Qed.

Lemma catchBlock_retry H s m r k e f ms :
  action (catchBlock H s m r k e f) = Retry ms ->
  (k < maxRetries)%nat /\
  ms = (if busy H s e then longDelay k (r k) else baseDelay k) /\
  hevents (catchBlock H s m r k e f) = [ReadFlag InCatch false; OnStatus (notice s ms k)].
Proof.
  intros Ha. pose proof (catchBlock_inv H s m r k e f) as (_ & Hi).
  cbn zeta in Hi. rewrite Ha in Hi. tauto.
Qed.

Lemma scheduled_delay (r : Q) (b : bool) (k : nat) :
  Double.unitDouble r ->
  scheduled k (if b then longDelay k r else baseDelay k).
Proof.
  intros Hr. destruct b.
  - right. exists (jitter r). split; [apply jitter_range; exact Hr | reflexivity].
  - left. reflexivity.
Qed.

Lemma scheduled_le k ms : scheduled k ms -> (ms <= longestDelay k)%Z.
Proof.
  assert (0 < 2 ^ Z.of_nat k)%Z by (apply Z.pow_pos_nonneg; lia).
  unfold scheduled, onSchedule, longestDelay. intros [-> | (j & Hj & ->)]; lia.
Qed.


(** For each of the nine methods, when [Math.random()] returns doubles
    of [[0, 1)]: the wait number [i] of a run (from 0) is
    [2000 * 2^i], or [15000 * 2^i] plus a jitter below 5000; and the
    waits of a run add up to 974994 ms at most. *)
Theorem waits_are_within_the_schedule H s m a (env : Env (Response (providerOf s) m)) :
  randomInRange env ->
  (forall i ms, nth_error (waits (invoke H s m a env)) i = Some ms -> scheduled i ms) /\
  (total (waits (invoke H s m a env)) <= 974994)%Z.
Proof.
  intros Hrand. rewrite invoke_retry. unfold retry.
  assert (Hretry : forall k e f ms,
             action (catchBlock H s m (random env) k e f) = Retry ms ->
             (k < maxRetries)%nat /\ scheduled k ms /\
             hevents (catchBlock H s m (random env) k e f) =
               [ReadFlag InCatch false; OnStatus (notice s ms k)]).
  { intros k e f ms Ha. destruct (catchBlock_retry _ _ _ _ _ _ _ _ Ha) as (Hk & Hms & Hev).
    repeat split; auto. rewrite Hms.
    apply scheduled_delay. apply Hrand. }
  split.
  - intros i ms Hn.
    apply (attempts_schedule env (tryBlock H s m a env) (catchBlock H s m (random env))
             (afterLoop H s m) scheduled (fun k d => notice s d k)
             (tryBlock_nowait H s m a env) (catchBlock_events H s m (random env)) Hretry
             (maxRetries + 1) (flag0 env) None i ms) in Hn; [|lia].
    cbn zeta in Hn. replace (maxRetries + 1 - (maxRetries + 1) + i)%nat with i in Hn by lia.
    exact Hn.
  - change 974994%Z with (longestTotal (maxRetries + 1)).
    apply (attempts_total env (tryBlock H s m a env) (catchBlock H s m (random env))
             (afterLoop H s m) scheduled (fun k d => notice s d k)
             (tryBlock_nowait H s m a env) (catchBlock_events H s m (random env)) Hretry
             scheduled_le). lia.
Qed.

Lemma waits_are_within_the_schedule_witness :
  randomInRange flakyStream /\
  (forall i ms,
      nth_error (waits (invoke plainHost cloudService ProcessTextStream someArgs
                               flakyStream)) i = Some ms -> scheduled i ms) /\
  (total (waits (invoke plainHost cloudService ProcessTextStream someArgs flakyStream))
   <= 974994)%Z.
Proof.
  assert (Hr : randomInRange flakyStream).
  { intros k. exists (2 ^ 52)%Z, 53%Z. cbn. repeat split; try lia; discriminate. }
  split; [exact Hr|].
  exact (waits_are_within_the_schedule plainHost cloudService ProcessTextStream
           someArgs flakyStream Hr).
Defined.



Lemma chunkOk_of_chunks evs :
  Forall (fun ev => isWait ev = false) evs ->
  Forall (fun c => c <> "") (chunksOf evs) -> Forall chunkOk evs.
Proof.
  induction evs as [|ev evs IH]; intros Hw Hc; [constructor|].
  inversion Hw; subst. destruct ev; cbn [chunksOf flat_map app] in Hc; fold (chunksOf evs) in Hc;
    try (constructor; [exact I | apply IH; assumption]).
  inversion Hc; subst. constructor; [assumption | apply IH; assumption].
Qed.

Lemma chunks_of_chunkOk evs : Forall chunkOk evs -> Forall (fun c => c <> "") (chunksOf evs).
Proof.
  induction 1 as [|ev evs Hev _ IH]; [constructor|].
  destruct ev; cbn [chunksOf flat_map app]; fold (chunksOf evs); try exact IH.
  constructor; [exact Hev | exact IH].
Qed.

(** For each of the nine methods: no empty chunk is ever handed to
    [onChunk]; and when a streaming method resolves, its value is the
    normalizer of its adapter applied to the concatenation of the chunks
    handed to [onChunk] since the last wait, that is, during the attempt
    that succeeded (the chunks of the failed attempts before it were
    handed to [onChunk] as well and are not part of the value). *)
Theorem stream_result_is_the_last_attempt H s m a (env : Env (Response (providerOf s) m)) :
  Forall (fun c => c <> "") (chunksOf (trace (invoke H s m a env))) /\
  (m <> ProcessText ->
   forall text,
     settled (invoke H s m a env) = Fulfilled text ->
     text = normalizeFor s
              (String.concat "" (chunksOf (afterLastWait (trace (invoke H s m a env)))))).
Proof.
  rewrite invoke_retry. unfold retry. split.
  - apply chunks_of_chunkOk. apply attempts_Forall.
    + intros k f. apply chunkOk_of_chunks; apply (tryBlock_account H s m a env k f).
    + intros k e f. pose proof (catchBlock_events H s m (random env) k e f) as Hc.
      eapply Forall_impl; [|exact Hc]. intros [] Hx; try exact I; discriminate.
    + intros ms. exact I.
  - intros Hm text Hs.
    destruct (attempts_last_attempt env (tryBlock H s m a env) (catchBlock H s m (random env))
                (afterLoop H s m) (tryBlock_nowait H s m a env) _ _ _ _ Hs)
      as (k & f & Hc & Ha).
    rewrite Ha. apply (tryBlock_account H s m a env k f); assumption.
Qed.

Lemma stream_result_is_the_last_attempt_witness :
  settled (invoke plainHost cloudService ProcessTextStream someArgs flakyStream) =
    Fulfilled "AB" /\
  chunksOf (afterLastWait
              (trace (invoke plainHost cloudService ProcessTextStream someArgs
                             flakyStream))) = ["A"; "B"] /\
  "AB" = normalizeFor cloudService
           (String.concat ""
              (chunksOf (afterLastWait
                 (trace (invoke plainHost cloudService ProcessTextStream someArgs
                                flakyStream))))).
Proof.
  split; [reflexivity|]. split; [reflexivity|].
  apply (stream_result_is_the_last_attempt plainHost cloudService ProcessTextStream
           someArgs flakyStream); [discriminate | reflexivity].
Defined.

(** ** The error behind every wait *)

Section RetriedAttempts.
Context {R : Type} (env : Env R) (body : nat -> bool -> Attempt)
        (handler : nat -> JsError -> bool -> Handled)
        (exhausted : option JsError -> JsError).

Hypothesis body_nowait : forall k f, Forall (fun ev => isWait ev = false) (events (body k f)).
Hypothesis body_cancelled : forall k, flagAfter (body k true) = true.
Hypothesis handler_events : forall k e f,
    Forall (fun ev => isCatchEvent ev = true) (hevents (handler k e f)).
Hypothesis handler_unset : forall k e f ms,
    action (handler k e f) = Retry ms -> f = false.

(** Wait number [i] follows attempt number [i], which was entered with
    the flag unset, threw, and was answered by a retry of that delay. *)
Lemma attempts_cause : forall remaining f last i ms,
    (remaining <= maxRetries + 1)%nat ->
    nth_error (waits (attempts env body handler exhausted remaining f last)) i = Some ms ->
    exists e,
      completion (body (maxRetries + 1 - remaining + i) false) = Rejected e /\
      action (handler (maxRetries + 1 - remaining + i) e false) = Retry ms.
Proof.
  induction remaining as [|r IH]; intros f last i ms Hr.
  - cbn. destruct i; discriminate.
  - rewrite attempts_S. cbn zeta.
    remember (maxRetries + 1 - S r)%nat as k eqn:Ek.
    pose proof (body_nowait k f) as Hbw.
    destruct (completion (body k f)) as [text|error] eqn:Ec.
    + unfold waits. cbn [trace]. rewrite (nowait_waits _ Hbw). destruct i; discriminate.
    + pose proof (handler_events k error (flagAfter (body k f))) as Hhe.
      destruct (action (handler k error (flagAfter (body k f)))) as [e'|d] eqn:Ea.
      * unfold waits. cbn [trace]. rewrite flat_map_app.
        rewrite (nowait_waits _ Hbw), (nowait_waits _ (catch_nowait _ Hhe)).
        destruct i; discriminate.
      * pose proof (handler_unset _ _ _ _ Ea) as Hf.
        assert (Hf0 : f = false).
        { destruct f; [|reflexivity]. rewrite body_cancelled in Hf. discriminate. }
        subst f. rewrite Hf in Ea.
        unfold waits. cbn [trace]. rewrite !flat_map_app.
        rewrite (nowait_waits _ Hbw), (nowait_waits _ (catch_nowait _ Hhe)).
        cbn [flat_map app]. destruct i as [|i]; cbn [nth_error].
        -- intros Hx. injection Hx as <-. replace (k + 0)%nat with k by lia.
           exists error. split; [exact Ec | exact Ea].
        -- intros Hx. apply IH in Hx; [|lia].
           replace (k + S i)%nat with (maxRetries + 1 - r + i)%nat
             by (unfold maxRetries in *; lia).
           exact Hx.
Qed.
End RetriedAttempts.

(** What a [catch] block retries is retryable, and the flag was unset. *)
Lemma catchBlock_retryable H s m r k e f ms :
  action (catchBlock H s m r k e f) = Retry ms -> f = false /\ retryable H s e = true.
Proof.
  destruct s as [g|o|l]; cbn [catchBlock retryable].
  - unfold GeminiService.handler.
    destruct (GeminiService.messageIncludes _ _) as [[|]|]; try discriminate.
    destruct f; [discriminate|].
    destruct (GeminiService.isApiKeyError _) as [[|]|]; try discriminate.
    intros _. split; reflexivity.
  - unfold OpenAIService.handler.
    destruct f; [discriminate|].
    destruct (OpenAIService.isApiKeyError e); [discriminate|].
    intros _. split; reflexivity.
  - unfold OllamaService.handler.
    destruct f; [discriminate|].
    destruct (OllamaService.isConnectionError e); [discriminate|].
    intros _. split; reflexivity.
Qed.

(** C4, as stated, fails on the Ollama adapter, which has no long
    schedule: a server that answers 429 to every request is asked again
    after the base delays of 2000 ms to 64000 ms, not after delays of
    15000 ms and more. *)
Lemma ollama_has_no_long_delay :
  waits (invoke plainHost daemonService ProcessText someArgs throttlingProxy) =
    [2000; 4000; 8000; 16000; 32000; 64000]%Z /\
  ~ onSchedule true 0 2000.
Proof.
  split; [reflexivity|].
  intros (j & Hj & Heq). change (Z.of_nat 0) with 0%Z in Heq.
  rewrite Z.pow_0_r in Heq. lia.
Qed.

(** C4 (amended).  For each of the nine adapter methods and every run,
    when [Math.random()] returns doubles of [[0, 1)]: wait number [i]
    (from 0) follows attempt number [i], whose [try] block threw an
    error that the [catch] block retries; the delay is
    [15000 * 2^i] plus a jitter in [[0, 5000)] when the Gemini adapter
    parsed code 429 or 503 or when the OpenAI adapter sees status 429,
    and it is [2000 * 2^i] for every other error, status 503 on the
    OpenAI adapter apart, about which nothing is said.  The Ollama
    adapter has the second schedule only. *)
Theorem backoff_schedule H s m a (env : Env (Response (providerOf s) m)) i ms :
  randomInRange env ->
  nth_error (waits (invoke H s m a env)) i = Some ms ->
  exists e,
    completion (tryBlock H s m a env i false) = Rejected e /\
    retryable H s e = true /\
    (busy H s e = true -> onSchedule true i ms) /\
    (busy H s e = false -> unclassifiedOverload s e = false -> onSchedule false i ms).
Proof.
  intros Hrand Hn. rewrite invoke_retry in Hn. unfold retry in Hn.
  apply (attempts_cause env (tryBlock H s m a env) (catchBlock H s m (random env))
           (afterLoop H s m)) in Hn.
  - replace (maxRetries + 1 - (maxRetries + 1) + i)%nat with i in Hn by lia.
    destruct Hn as (e & Hc & Ha). exists e. split; [exact Hc|].
    destruct (catchBlock_retryable _ _ _ _ _ _ _ _ Ha) as (_ & Hr). split; [exact Hr|].
    destruct (catchBlock_retry _ _ _ _ _ _ _ _ Ha) as (_ & Hms & _).
    split; intros Hb; rewrite Hb in Hms; subst ms.
    + exists (jitter (random env i)). split; [apply jitter_range; apply Hrand | reflexivity].
    + intros _. reflexivity.
  - apply tryBlock_nowait.
  - intros k. rewrite tryBlock_cancelled. reflexivity.
  - apply catchBlock_events.
  - intros k e f d Ha. apply (catchBlock_retryable _ _ _ _ _ _ _ _ Ha).
  - lia.
Qed.

Lemma backoff_schedule_witness :
  randomInRange (throttled OpenAIService.Stream) /\
  nth_error (waits (invoke plainHost cloudService ProcessTextStream someArgs
                           (throttled OpenAIService.Stream))) 1 = Some 32500%Z /\
  exists e,
    completion (tryBlock plainHost cloudService ProcessTextStream someArgs
                         (throttled OpenAIService.Stream) 1 false) = Rejected e /\
    retryable plainHost cloudService e = true /\
    (busy plainHost cloudService e = true -> onSchedule true 1 32500) /\
    (busy plainHost cloudService e = false ->
     unclassifiedOverload cloudService e = false -> onSchedule false 1 32500).
Proof.
  assert (Hq : randomInRange (throttled OpenAIService.Stream))
    by (intro k; exists (2 ^ 52)%Z, 53%Z; cbn; repeat split; try lia; discriminate).
  assert (Hn : nth_error (waits (invoke plainHost cloudService ProcessTextStream someArgs
                                        (throttled OpenAIService.Stream))) 1 = Some 32500%Z)
    by reflexivity.
  split; [exact Hq|]. split; [exact Hn|].
  exact (backoff_schedule plainHost cloudService ProcessTextStream someArgs
                          (throttled OpenAIService.Stream) 1 32500 Hq Hn).
Defined.

(** The three methods of the OpenAI adapter test status 429 only: in
    every run, a wait that follows an error of status 503 has the base
    delay [2000 * 2^i], where the Gemini adapter gives code 503 the
    long delay. *)
Theorem openai_overload_gets_the_base_delay H this m a
        (env : Env (Response (providerOf (OpenAI this)) m)) i ms :
  nth_error (waits (invoke H (OpenAI this) m a env)) i = Some ms ->
  exists e,
    completion (tryBlock H (OpenAI this) m a env i false) = Rejected e /\
    (Async.status e = Some 503%Z -> ms = (2000 * 2 ^ Z.of_nat i)%Z).
Proof.
  intros Hn. rewrite invoke_retry in Hn. unfold retry in Hn.
  apply (attempts_cause env (tryBlock H (OpenAI this) m a env)
           (catchBlock H (OpenAI this) m (random env)) (afterLoop H (OpenAI this) m)) in Hn.
  - replace (maxRetries + 1 - (maxRetries + 1) + i)%nat with i in Hn by lia.
    destruct Hn as (e & Hc & Ha). exists e. split; [exact Hc|].
    destruct (catchBlock_retry _ _ _ _ _ _ _ _ Ha) as (_ & Hms & _).
    intros Hs. cbn [busy] in Hms. unfold OpenAIService.isRateLimit in Hms.
    rewrite Hs in Hms. exact Hms.
  - apply tryBlock_nowait.
  - intros k. rewrite tryBlock_cancelled. reflexivity.
  - apply catchBlock_events.
  - intros k e f d Ha. apply (catchBlock_retryable _ _ _ _ _ _ _ _ Ha).
  - lia.
Qed.

Lemma openai_overload_gets_the_base_delay_witness :
  nth_error (waits (invoke plainHost cloudService ProcessText someArgs overloadedOnce)) 0
    = Some 2000%Z /\
  exists e,
    completion (tryBlock plainHost cloudService ProcessText someArgs overloadedOnce 0 false)
      = Rejected e /\
    (Async.status e = Some 503%Z -> 2000%Z = (2000 * 2 ^ Z.of_nat 0)%Z).
Proof.
  split; [reflexivity|].
  exact (openai_overload_gets_the_base_delay plainHost cloudClient ProcessText someArgs
           overloadedOnce 0 2000 eq_refl).
Defined.

(* ===================================================================== *)
(** * The jitter of the long delay *)
(* ===================================================================== *)

(** [Math.floor(Math.random() * 5000)] floors the product of the
    doubles, which is rounded: for the double nearest to 0.0242 the
    exact product is below 121, the product of the doubles is 121, and
    so is the jitter; for the largest double below 1 the jitter is
    4999. *)
Theorem jitter_floors_the_rounded_product :
  let r := (54493555491183 # 2251799813685248)%Q in
  Double.unitDouble r /\
  Qfloor (r * 5000) = 120%Z /\
  Qeq (Double.mul r 5000) 121 /\
  jitter r = 121%Z /\
  jitter (9007199254740991 # 9007199254740992) = 4999%Z.
Proof.
  split.
  - exists 217974221964732%Z, 53%Z. cbn. repeat split; try lia; discriminate.
  - split; [reflexivity|]. split; [reflexivity|]. split; reflexivity.
Qed.

(** The long delay of attempt [attempt], for every double of [[0, 1)]
    that [Math.random()] may return: an integer from
    [15000 * 2^attempt] to [15000 * 2^attempt + 4999]. *)
Theorem long_delay_range (attempt : nat) (r : Q) :
  Double.unitDouble r ->
  (15000 * 2 ^ Z.of_nat attempt <= longDelay attempt r
     <= 15000 * 2 ^ Z.of_nat attempt + 4999)%Z.
Proof.
  intros Hr. pose proof (jitter_range r Hr). unfold longDelay. lia.
Qed.

Lemma long_delay_range_witness :
  Double.unitDouble (1 # 2) /\
  (15000 * 2 ^ Z.of_nat 1 <= longDelay 1 (1 # 2) <= 15000 * 2 ^ Z.of_nat 1 + 4999)%Z /\
  longDelay 1 (1 # 2) = 32500%Z.
Proof.
  assert (Hr : Double.unitDouble (1 # 2))
    by (exists (2 ^ 52)%Z, 53%Z; cbn; repeat split; try lia; discriminate).
  split; [exact Hr|]. split; [|reflexivity].
  exact (long_delay_range 1 (1 # 2) Hr).
Defined.

(** ** Runs that recover *)

Section RecoveringAttempts.
Context {R : Type} (env : Env R) (body : nat -> bool -> Attempt)
        (handler : nat -> JsError -> bool -> Handled)
        (exhausted : option JsError -> JsError).
Context (e : nat -> JsError) (req : nat -> Request)
        (ms : nat -> Z) (st : nat -> string).
Context (n : nat) (last_events : list Event) (last_flag : bool) (text : string).

(** Attempts [0] to [n - 1] throw and are retried; attempt [n] returns
    [text] after one transport call. *)
Hypothesis n_bound : (n <= maxRetries)%nat.
Hypothesis wait_unset : forall k, (k < n)%nat -> flagAfterWait env k = false.
Hypothesis body_throws : forall k, (k < n)%nat ->
    body k false = mkAttempt [ReadFlag BeforeCall false; Call (req k)] false (Rejected (e k)).
Hypothesis handler_retries : forall k, (k < n)%nat ->
    handler k (e k) false =
      mkHandled [ReadFlag InCatch false; OnStatus (st k)] (Retry (ms k)).
Hypothesis body_returns :
    body n false = mkAttempt last_events last_flag (Fulfilled text).
Hypothesis last_call : List.length (filter isCall last_events) = 1%nat.
Hypothesis last_nowait : Forall (fun ev => isWait ev = false) last_events.

Lemma attempts_recover : forall remaining last,
    (maxRetries + 1 - remaining <= n)%nat ->
    (remaining <= maxRetries + 1)%nat ->
    let k := (maxRetries + 1 - remaining)%nat in
    let r := attempts env body handler exhausted remaining false last in
    calls r = (n + 1 - k)%nat /\
    settled r = Fulfilled text /\
    waits r = map ms (seq k (n - k)).
Proof.
  induction remaining as [|r IH]; intros last Hk Hr; [unfold maxRetries in *; lia|].
  cbn zeta. rewrite attempts_S. cbn zeta.
  remember (maxRetries + 1 - S r)%nat as k eqn:Ek.
  destruct (Nat.eq_dec k n) as [->|Hne].
  - rewrite body_returns. cbn [completion events].
    unfold calls, waits. cbn [trace settled]. rewrite last_call, (nowait_waits _ last_nowait).
    replace (n + 1 - n)%nat with 1%nat by lia.
    replace (n - n)%nat with 0%nat by lia. auto.
  - rewrite body_throws by lia. cbn [completion flagAfter events].
    rewrite handler_retries by lia.
    cbn [action hevents]. rewrite wait_unset by lia.
    destruct (IH (Some (e k))) as (Hc & Hs & Hw); [lia | lia |].
    cbn zeta in Hc, Hs, Hw.
    unfold calls, waits in *. cbn [trace settled].
    repeat split.
    + cbn [app filter isCall List.length]. rewrite Hc. lia.
    + exact Hs.
    + cbn [app flat_map]. rewrite Hw.
      replace (maxRetries + 1 - r)%nat with (S k) by lia.
      replace (n - k)%nat with (S (n - S k)) by lia.
      reflexivity.
Qed.

Lemma retry_recovers :
    flag0 env = false ->
    let r := retry env body handler exhausted in
    calls r = (n + 1)%nat /\
    settled r = Fulfilled text /\
    waits r = map ms (seq 0 n).
Proof.
  intros H0. unfold retry. rewrite H0.
  destruct (attempts_recover (maxRetries + 1) None) as (Hc & Hs & Hw); [lia | lia |].
  cbn zeta in *.
  replace (maxRetries + 1 - (maxRetries + 1))%nat with 0%nat in * by lia.
  replace (n + 1 - 0)%nat with (n + 1)%nat in Hc by lia.
  replace (n - 0)%nat with n in Hw by lia.
  repeat split; auto.
Qed.
End RecoveringAttempts.

(** A run whose attempts [0] to [n - 1] fail with retried errors and
    whose attempt [n] returns. *)
Lemma invoke_recovers H s m a (env : Env (Response (providerOf s) m)) e n evs fl text :
  flag0 env = false ->
  (n <= maxRetries)%nat ->
  (forall k req, (k < n)%nat -> transport env k req = mkAwait (Rejected (e k)) false) ->
  (forall k, (k < n)%nat -> flagAfterWait env k = false) ->
  (forall k, (k < n)%nat -> retryable H s (e k) = true) ->
  tryBlock H s m a env n false = mkAttempt evs fl (Fulfilled text) ->
  let r := invoke H s m a env in
  calls r = (n + 1)%nat /\
  settled r = Fulfilled text /\
  waits r = map (delayTime H s env e) (seq 0 n).
Proof.
  intros H0 Hn Ht Hw Hr Hb. rewrite invoke_retry.
  apply retry_recovers
    with (e := e) (req := fun _ => requestOf s m a)
         (st := fun k => notice s (delayTime H s env e k) k)
         (last_events := evs) (last_flag := fl); auto.
  - intros k Hk. apply tryBlock_throws. intro req. apply Ht. exact Hk.
  - intros k Hk. unfold delayTime. apply catchBlock_retries; [apply Hr; exact Hk | lia].
  - pose proof (tryBlock_events H s m a env n false) as (rest & Hev & Hnc).
    rewrite Hb in Hev. cbn [events] in Hev. rewrite Hev. cbn [filter isCall List.length].
    replace (filter isCall rest) with (@nil Event); [reflexivity|].
    symmetry. clear - Hnc. induction Hnc as [|ev l Hev _ IH]; [reflexivity|].
    cbn [filter]. rewrite Hev. exact IH.
  - pose proof (tryBlock_nowait H s m a env n false) as Hx. rewrite Hb in Hx. exact Hx.
Qed.

(** [OpenAIService.processText]: when the first [n] calls (at most 6)
    reject with errors that are no invalid-key errors and the next call
    answers, the method resolves with the normalized content of that
    answer, after [n + 1] calls and the [n] waits of the schedule. *)
Theorem openai_processText_recovers this agentPrompt content
        (env : Env OpenAIService.ChatCompletion) e n response flagThen :
  flag0 env = false ->
  (n <= 6)%nat ->
  (forall k req, (k < n)%nat -> transport env k req = mkAwait (Rejected (e k)) false) ->
  (forall k, (k < n)%nat -> flagAfterWait env k = false) ->
  (forall k, (k < n)%nat -> OpenAIService.isApiKeyError (e k) = false) ->
  (forall req, transport env n req = mkAwait (Fulfilled response) flagThen) ->
  let r := OpenAIService.processText this agentPrompt content env in
  settled r =
    Fulfilled (OutputNormalizer.normalizeOpenAI (OpenAIService.responseContent response)) /\
  calls r = (n + 1)%nat /\
  waits r = map (fun k => if OpenAIService.isRateLimit (e k)
                          then longDelay k (random env k) else baseDelay k) (seq 0 n).
Proof.
  intros H0 Hn Ht Hw Hr Hlast. cbn zeta.
  pose proof (invoke_recovers plainHost (OpenAI this) ProcessText
                (mkArgs agentPrompt content []) env e n
                [ReadFlag BeforeCall false;
                 Call (requestOf (OpenAI this) ProcessText (mkArgs agentPrompt content []));
                 OnStatus ""]
                flagThen
                (OutputNormalizer.normalizeOpenAI (OpenAIService.responseContent response))
                H0 Hn Ht Hw) as Hi.
  cbn [invoke Factory.agentPrompt Factory.content] in Hi.
  destruct Hi as (Hc & Hs & Hwt).
  - intros k Hk. cbn [retryable]. rewrite (Hr k Hk). reflexivity.
  - cbn [tryBlock Factory.agentPrompt Factory.content requestOf].
    unfold OpenAIService.bodyText, checkBeforeCall. rewrite Hlast. reflexivity.
  - auto.
Qed.

Lemma openai_processText_recovers_witness :
  settled (OpenAIService.processText cloudClient "prompt" "content" secondRetryWorks) =
    Fulfilled "done" /\
  calls (OpenAIService.processText cloudClient "prompt" "content" secondRetryWorks) = 3%nat /\
  waits (OpenAIService.processText cloudClient "prompt" "content" secondRetryWorks) =
    [2000%Z; 4000%Z].
Proof.
  apply (openai_processText_recovers cloudClient "prompt" "content" secondRetryWorks
           (fun _ => flaky) 2
           (OpenAIService.mkCompletion
              [OpenAIService.mkChoice (Some (OpenAIService.mkMessage (Some "done  ")))])
           false); try reflexivity; try lia.
  - intros k req Hk. destruct k as [|[|k]]; [reflexivity | reflexivity | lia].
Defined.

(** ** HTTP errors of the Ollama adapter *)

(** The [try] block of the three methods throws the error of
    [makeRequest] when the answer is not [ok]. *)
Lemma ollama_tryBlock_http_error H this m a
      (env : Env (Response (providerOf (Ollama this)) m)) k response errorText :
  (forall req, transport env k req = mkAwait (Fulfilled response) false) ->
  OllamaService.ok response = false ->
  OllamaService.responseText response = mkAwait (Fulfilled errorText) false ->
  tryBlock H (Ollama this) m a env k false =
    mkAttempt [ReadFlag BeforeCall false; Call (requestOf (Ollama this) m a)] false
              (Rejected (httpError (OllamaService.httpStatus response) errorText)).
Proof.
  intros Ht Hok Htxt.
  destruct m; cbn [tryBlock requestOf providerOf Response] in *;
    unfold OllamaService.bodyText, OllamaService.bodyStream, OllamaService.makeRequest,
      checkBeforeCall;
    rewrite Ht; cbn [outcome flag]; rewrite Hok, Htxt; reflexivity.
Qed.

(** The three methods of the Ollama adapter: when every [fetch] gets an
    answer that is not [ok], and the error made of its status and text
    holds neither "fetch" nor "Network", the answer is asked for 7
    times, with the waits of the base schedule, and the method rejects
    with "Failed to process ... with Ollama: Ollama API error: <status>
    - <text>". *)
Theorem ollama_http_error_is_retried H this m a
        (env : Env (Response (providerOf (Ollama this)) m)) response errorText :
  flag0 env = false ->
  (forall k, flagAfterWait env k = false) ->
  (forall k req, transport env k req = mkAwait (Fulfilled response) false) ->
  OllamaService.ok response = false ->
  OllamaService.responseText response = mkAwait (Fulfilled errorText) false ->
  OllamaService.isConnectionError
    (httpError (OllamaService.httpStatus response) errorText) = false ->
  let r := invoke H (Ollama this) m a env in
  calls r = 7%nat /\
  waits r = [2000; 4000; 8000; 16000; 32000; 64000]%Z /\
  settled r =
    Rejected (Error ("Failed to process " ++ what m ++ " with Ollama: Ollama API error: "
                       ++ showZ (OllamaService.httpStatus response) ++ " - " ++ errorText)).
Proof.
  intros H0 Hw Ht Hok Htxt Hc. cbn zeta. rewrite invoke_retry.
  set (e := httpError (OllamaService.httpStatus response) errorText).
  assert (Hr : retryable H (Ollama this) e = true)
    by (cbn [retryable]; unfold e; rewrite Hc; reflexivity).
  assert (Hbody : forall k, (k <= maxRetries)%nat ->
             tryBlock H (Ollama this) m a env k false =
               mkAttempt [ReadFlag BeforeCall false; Call (requestOf (Ollama this) m a)] false
                         (Rejected e))
    by (intros k Hk; apply ollama_tryBlock_http_error; auto).
  assert (Hretries : forall k, (k < maxRetries)%nat ->
             catchBlock H (Ollama this) m (random env) k e false =
               mkHandled [ReadFlag InCatch false;
                          OnStatus (notice (Ollama this) (baseDelay k) k)]
                         (Retry (baseDelay k)))
    by (intros k Hk; exact (catchBlock_retries H (Ollama this) m (random env) k e Hr Hk)).
  assert (Hgives : catchBlock H (Ollama this) m (random env) maxRetries e false =
                     mkHandled [ReadFlag InCatch false]
                               (Throw (Error (finalMessage H (Ollama this) m e))))
    by (apply catchBlock_gives_up; apply givesUp_last; exact Hr).
  destruct (retry_fail_until env (tryBlock H (Ollama this) m a env)
              (catchBlock H (Ollama this) m (random env)) (afterLoop H (Ollama this) m)
              (fun _ => e) (fun _ => requestOf (Ollama this) m a)
              (fun k => baseDelay k)
              (fun k => notice (Ollama this) (baseDelay k) k)
              (Error (finalMessage H (Ollama this) m e)) maxRetries
              (le_n _) (fun k _ => Hw k) Hbody Hretries Hgives H0) as (Hcalls & Hs & Hwaits).
  repeat split; [exact Hcalls | exact Hwaits | exact Hs].
Qed.

Lemma ollama_http_error_is_retried_witness :
  calls (invoke plainHost (Ollama daemon) ProcessText someArgs busyDaemon) = 7%nat /\
  waits (invoke plainHost (Ollama daemon) ProcessText someArgs busyDaemon) =
    [2000; 4000; 8000; 16000; 32000; 64000]%Z /\
  settled (invoke plainHost (Ollama daemon) ProcessText someArgs busyDaemon) =
    Rejected (Error "Failed to process text with Ollama: Ollama API error: 500 - model is loading").
Proof.
  apply (ollama_http_error_is_retried plainHost daemon ProcessText someArgs busyDaemon
           (refusal 500 "model is loading") "model is loading"); reflexivity.
Defined.

(** The three methods of the Ollama adapter tell a connection failure by
    the text of the error alone: an answer that is not [ok] and whose
    text holds "fetch" or "Network" ends the run after one [fetch],
    without a wait, with "Cannot connect to Ollama at <base URL>. Please
    ensure Ollama is running locally.", although the server answered. *)
Theorem ollama_http_error_taken_for_connection_failure H this m a
        (env : Env (Response (providerOf (Ollama this)) m)) response errorText :
  flag0 env = false ->
  (forall req, transport env 0%nat req = mkAwait (Fulfilled response) false) ->
  OllamaService.ok response = false ->
  OllamaService.responseText response = mkAwait (Fulfilled errorText) false ->
  includes "fetch" errorText || includes "Network" errorText = true ->
  let r := invoke H (Ollama this) m a env in
  calls r = 1%nat /\ waits r = [] /\
  settled r = Rejected (Error (OllamaService.cannotConnect this)).
Proof.
  intros H0 Ht Hok Htxt Hinc. cbn zeta. rewrite invoke_retry.
  set (e := httpError (OllamaService.httpStatus response) errorText).
  assert (Hc : OllamaService.isConnectionError e = true).
  { unfold OllamaService.isConnectionError, e, httpError. cbn [Async.message Error].
    apply orb_true_iff in Hinc as [Hi | Hi]; apply orb_true_iff; [left | right];
      do 3 apply includes_app_r; exact Hi. }
  assert (Hbody : forall k, (k <= 0)%nat ->
             tryBlock H (Ollama this) m a env k false =
               mkAttempt [ReadFlag BeforeCall false; Call (requestOf (Ollama this) m a)] false
                         (Rejected e)).
  { intros k Hk. replace k with 0%nat by lia. apply ollama_tryBlock_http_error; auto. }
  assert (Hgives : catchBlock H (Ollama this) m (random env) 0 e false =
                     mkHandled [ReadFlag InCatch false]
                               (Throw (Error (OllamaService.cannotConnect this)))).
  { apply catchBlock_gives_up. unfold givesUp.
    cbn [invalidKey connectionError connectionMessage]. rewrite Hc. reflexivity. }
  destruct (retry_fail_until env (tryBlock H (Ollama this) m a env)
              (catchBlock H (Ollama this) m (random env)) (afterLoop H (Ollama this) m)
              (fun _ => e) (fun _ => requestOf (Ollama this) m a)
              (fun k => baseDelay k)
              (fun k => notice (Ollama this) (baseDelay k) k)
              (Error (OllamaService.cannotConnect this)) 0
              (Nat.le_0_l _) (fun k (Hk : (k < 0)%nat) => match Nat.nlt_0_r k Hk with end)
              Hbody
              (fun k (Hk : (k < 0)%nat) => match Nat.nlt_0_r k Hk with end)
              Hgives H0) as (Hcalls & Hs & Hwaits).
  repeat split; [exact Hcalls | exact Hwaits | exact Hs].
Qed.

Lemma ollama_http_error_taken_for_connection_failure_witness :
  calls (invoke plainHost (Ollama daemon) ProcessTextStream someArgs badGateway) = 1%nat /\
  waits (invoke plainHost (Ollama daemon) ProcessTextStream someArgs badGateway) = [] /\
  settled (invoke plainHost (Ollama daemon) ProcessTextStream someArgs badGateway) =
    Rejected (Error "Cannot connect to Ollama at http://localhost:11434. Please ensure Ollama is running locally.").
Proof.
  apply (ollama_http_error_taken_for_connection_failure plainHost daemon ProcessTextStream
           someArgs badGateway (refusal 502 "Network unreachable") "Network unreachable");
    reflexivity.
Defined.

(** ** Plain-text errors of the Gemini adapter *)

(** The three methods of the Gemini adapter: when every call rejects
    with an error whose message is no JSON text and holds "429" or
    "RESOURCE_EXHAUSTED", the error counts as a quota error whatever
    else the message says: 7 calls, the long delay before every retry,
    and the quota message at the end. *)
Theorem gemini_plain_text_quota_error H this m a
        (env : Env (Response (providerOf (Gemini this)) m)) e :
  alwaysRejects env e ->
  (forall k, JSON_parse H (Async.message (e k)) = None) ->
  (forall k, includes "429" (Async.message (e k))
             || includes "RESOURCE_EXHAUSTED" (Async.message (e k)) = true) ->
  let r := invoke H (Gemini this) m a env in
  calls r = 7%nat /\
  waits r = map (fun k => longDelay k (random env k)) (seq 0 6) /\
  settled r =
    Rejected (Error "You have exceeded your API quota. Please check your plan and billing details.").
Proof.
  intros Hall Hp Hinc. cbn zeta.
  assert (Hparse : forall k, GeminiService.parseGeminiError H (e k) =
                             GeminiService.mkParsed (JNum 429)
                               (JStr "You have exceeded your API quota.")
                               (JStr "RESOURCE_EXHAUSTED")).
  { intros k. unfold GeminiService.parseGeminiError. rewrite Hp.
    unfold GeminiService.parseFallback. rewrite Hinc. reflexivity. }
  destruct (invoke_all_fail H (Gemini this) m a env e Hall) as (Hc & Hs & Hw).
  - intros k. cbn [retryable]. rewrite Hparse. reflexivity.
  - repeat split.
    + exact Hc.
    + rewrite Hw. apply map_ext. intros k. unfold delayTime. cbn [busy].
      rewrite Hparse. reflexivity.
    + rewrite Hs. cbn [finalMessage]. rewrite Hparse. reflexivity.
Qed.

Lemma gemini_plain_text_quota_error_witness :
  calls (invoke plainHost geminiClient ProcessText someArgs exhaustedQuota) = 7%nat /\
  waits (invoke plainHost geminiClient ProcessText someArgs exhaustedQuota) =
    [16250; 31250; 61250; 121250; 241250; 481250]%Z /\
  settled (invoke plainHost geminiClient ProcessText someArgs exhaustedQuota) =
    Rejected (Error "You have exceeded your API quota. Please check your plan and billing details.").
Proof.
  apply (gemini_plain_text_quota_error plainHost
           (GeminiService.new "key" "gemini-2.0-flash-exp")
           ProcessText someArgs exhaustedQuota (fun _ => tooManyRequests)).
  - repeat split.
  - reflexivity.
  - reflexivity.
Defined.

(* ===================================================================== *)
(** * The Gemini class and the functions it replaced *)
(* ===================================================================== *)

Section SameLoop.
Context {R : Type} (env : Env R) (body body' : nat -> bool -> Attempt)
        (handler : nat -> JsError -> bool -> Handled)
        (exhausted : option JsError -> JsError) (g : string -> string).
Hypothesis same_events : forall k f, events (body' k f) = events (body k f).
Hypothesis same_flag : forall k f, flagAfter (body' k f) = flagAfter (body k f).
Hypothesis mapped : forall k f,
    completion (body' k f) = mapSettled g (completion (body k f)).

Lemma attempts_mapped : forall remaining f last,
    trace (attempts env body' handler exhausted remaining f last) =
      trace (attempts env body handler exhausted remaining f last) /\
    settled (attempts env body' handler exhausted remaining f last) =
      mapSettled g (settled (attempts env body handler exhausted remaining f last)).
Proof.
  induction remaining as [|r IH]; intros f last; [split; reflexivity|].
  rewrite !attempts_S. cbn zeta.
  rewrite mapped, same_events, same_flag.
  destruct (completion (body _ f)) as [text|error]; cbn [mapSettled];
    [split; reflexivity|].
  destruct (action (handler _ error _)) as [e'|d]; [split; reflexivity|].
  destruct (IH (flagAfterWait env (maxRetries + 1 - S r)) (Some error)) as (Ht & Hs).
  cbn [trace settled]. rewrite Ht, Hs. split; reflexivity.
Qed.
End SameLoop.

Lemma legacy_body this (env : Env GeminiService.Response) contents notify k f :
  let old := GeminiLegacy.body (GeminiService.ai_apiKey this) (GeminiService.this_model this)
                               env contents notify k f in
  let new := GeminiService.body this env contents notify k f in
  events new = events old /\ flagAfter new = flagAfter old /\
  completion new = mapSettled OutputNormalizer.normalizeGemini (completion old).
Proof.
  cbn zeta. unfold GeminiService.body, GeminiLegacy.body, checkBeforeCall.
  destruct f; [(split; [|split]); reflexivity|].
  destruct (transport env k _) as [[resp|err] fl]; cbn [outcome flag];
    [|(split; [|split]); reflexivity].
  destruct (forAwait GeminiService.chunkText notify resp fl "") as [[evs f'] [full|e]];
    cbn [events flagAfter completion mapSettled]; (split; [|split]); reflexivity.
Qed.

(** The three methods of [GeminiService] and the three functions of
    [geminiService.ts] that they replaced, for a key and a model with
    which the constructor of the class returned an instance: on the
    same arguments, transport and caller, a method goes through the
    same events as the function, rejects with the same error when the
    function rejects, and resolves with [normalizeGemini] of the
    function's value when the function resolves. *)
Theorem gemini_class_normalizes_the_legacy_result newGoogleGenAI H config this
        agentPrompt content parts (env : Env GeminiService.Response) :
  GeminiService.constructor newGoogleGenAI config = Returned this ->
  let key := apiKey config in
  let model := Async.model config in
  let same (new old : Run) :=
    trace new = trace old /\
    settled new = mapSettled OutputNormalizer.normalizeGemini (settled old) in
  same (GeminiService.processText H this agentPrompt content env)
       (GeminiLegacy.processText newGoogleGenAI H key model agentPrompt content env) /\
  same (GeminiService.processTextStream H this agentPrompt content env)
       (GeminiLegacy.processTextStream newGoogleGenAI H key model agentPrompt content env) /\
  same (GeminiService.generateScriptStream H this agentPrompt parts env)
       (GeminiLegacy.generateScriptStream newGoogleGenAI H key model agentPrompt
          (map GeminiService.convertToGeminiPart parts) env).
Proof.
  unfold GeminiService.constructor. intros Hc.
  destruct (newGoogleGenAI (apiKey config)) as [e|] eqn:En; [discriminate|].
  injection Hc as <-. cbn zeta.
  unfold GeminiService.processText, GeminiService.processTextStream,
    GeminiService.generateScriptStream, GeminiLegacy.processText,
    GeminiLegacy.processTextStream, GeminiLegacy.generateScriptStream,
    GeminiLegacy.withClient, retry.
  rewrite En.
  (split; [|split]);
    apply attempts_mapped; intros k f; apply legacy_body.
Qed.

Lemma gemini_class_normalizes_the_legacy_result_witness :
  let this := GeminiService.new "" "gemini-2.0-flash-exp" in
  let same (new old : Run) :=
    trace new = trace old /\
    settled new = mapSettled OutputNormalizer.normalizeGemini (settled old) in
  same (GeminiService.processText plainHost this "prompt" "content" streaming)
       (GeminiLegacy.processText (newGoogleGenAI lenient) plainHost ""
          "gemini-2.0-flash-exp" "prompt" "content" streaming) /\
  same (GeminiService.processTextStream plainHost this "prompt" "content" streaming)
       (GeminiLegacy.processTextStream (newGoogleGenAI lenient) plainHost ""
          "gemini-2.0-flash-exp" "prompt" "content" streaming) /\
  same (GeminiService.generateScriptStream plainHost this "prompt" [] streaming)
       (GeminiLegacy.generateScriptStream (newGoogleGenAI lenient) plainHost ""
          "gemini-2.0-flash-exp" "prompt" [] streaming).
Proof.
  exact (gemini_class_normalizes_the_legacy_result (newGoogleGenAI lenient) plainHost
           keylessGemini (GeminiService.new "" "gemini-2.0-flash-exp")
           "prompt" "content" [] streaming eq_refl).
Defined.

(* ===================================================================== *)
(** * More on the output normalizer *)
(* ===================================================================== *)

(** A text in which a rule matches nowhere holds no text at which the
    rule always matches. *)
Lemma noRule_avoids rule P y :
  (forall t, rule (P ++ t) <> None) -> noRule rule y = true -> includes P y = false.
Proof.
  intros HP. induction y as [|c y IH]; intros Hn.
  - rewrite includes_nil. destruct (prefix P "") eqn:E; [|reflexivity].
    destruct (prefix_split P "" E) as (r & Hr).
    cbn [noRule] in Hn. rewrite Hr in Hn.
    destruct (rule (P ++ r)) eqn:Er; [discriminate | exfalso; exact (HP r Er)].
  - apply noRule_inv in Hn as (Hc & Hy). rewrite includes_cons, (IH Hy), orb_false_r.
    destruct (prefix P (String c y)) eqn:E; [|reflexivity].
    destruct (prefix_split P _ E) as (r & Hr). rewrite Hr in Hc.
    exfalso. exact (HP r Hc).
Qed.

(** [fixDoubleGreaterThan]: for every text, the result holds no [> >-],
    and a second run changes nothing. *)
Theorem fixDoubleGreaterThan_clean (content : string) :
  includes "> >-" (OutputNormalizer.fixDoubleGreaterThan content) = false /\
  OutputNormalizer.fixDoubleGreaterThan (OutputNormalizer.fixDoubleGreaterThan content) =
    OutputNormalizer.fixDoubleGreaterThan content.
Proof.
  assert (H : includes "> >-" (OutputNormalizer.fixDoubleGreaterThan content) = false).
  { apply (Rw_DGT_clean content). apply replaceAll_follows. exact follows_DGT. }
  split; [exact H|].
  unfold OutputNormalizer.fixDoubleGreaterThan at 1.
  apply replaceAll_noMatch. apply noMatch_lit. exact H.
Qed.

Lemma normalizeAlertBlocks_settles (content : string) :
  noRule ruleA (OutputNormalizer.normalizeAlertBlocks content) = true /\
  noRule ruleB (OutputNormalizer.normalizeAlertBlocks content) = true.
Proof.
  rewrite normalizeAlertBlocks_eq.
  pose proof (replaceAll_follows regexA replaceA ruleA content follows_A) as RA.
  pose proof (replaceAll_follows regexB replaceB ruleB
                (Regex.replaceAll regexA replaceA content) follows_B) as RB.
  split.
  - exact (Rw_B_keeps_A _ _ RB (Rw_A_clean _ _ RA)).
  - exact (Rw_B_clean _ _ RB).
Qed.

(** [normalizeAlertBlocks] is idempotent on every text. *)
Theorem normalizeAlertBlocks_idempotent (content : string) :
  OutputNormalizer.normalizeAlertBlocks (OutputNormalizer.normalizeAlertBlocks content) =
    OutputNormalizer.normalizeAlertBlocks content.
Proof.
  destruct (normalizeAlertBlocks_settles content) as (A & B).
  rewrite normalizeAlertBlocks_eq at 1.
  rewrite (replaceAll_noRule regexA replaceA ruleA _ follows_A A).
  exact (replaceAll_noRule regexB replaceB ruleB _ follows_B B).
Qed.

(** [normalizeAlertBlocks]: in the result of every text, no tag [[+] or
    [[!] follows three line feeds and no three line feeds follow a
    closing bracket. *)
Theorem normalizeAlertBlocks_two_newlines (content : string) :
  let out := OutputNormalizer.normalizeAlertBlocks content in
  includes (nl ++ nl ++ nl ++ "[+") out = false /\
  includes (nl ++ nl ++ nl ++ "[!") out = false /\
  includes ("]" ++ nl ++ nl ++ nl) out = false.
Proof.
  cbn zeta. destruct (normalizeAlertBlocks_settles content) as (A & B).
  repeat split.
  - apply (noRule_avoids ruleA); [intros t; discriminate | exact A].
  - apply (noRule_avoids ruleA); [intros t; discriminate | exact A].
  - apply (noRule_avoids ruleB); [intros t; discriminate | exact B].
Qed.

(** ** Lines without trailing white space *)

Lemma splitLines_endsLine r l ls :
  splitLines r = l :: ls -> endsLine r = match l with "" => true | _ => false end.
Proof.
  destruct r as [|c r]; cbn [splitLines endsLine].
  - intros H. inversion H. reflexivity.
  - destruct (isLF c).
    + intros H. inversion H. reflexivity.
    + destruct (splitLines r); intros H; inversion H; reflexivity.
Qed.

Lemma trimmed_lines : forall s,
    trimmed s = true -> Forall (fun l => trimEnd l = l) (splitLines s).
Proof.
  induction s as [|c r IH]; intros Ht.
  - constructor; [reflexivity | constructor].
  - cbn [trimmed] in Ht. apply andb_true_iff in Ht as (Hb & Hr).
    specialize (IH Hr). cbn [splitLines].
    destruct (isLF c) eqn:Ec; [constructor; [reflexivity | exact IH]|].
    destruct (splitLines_cons r) as (l & ls & E & _).
    pose proof (splitLines_endsLine r l ls E) as He.
    rewrite E in *. inversion IH as [|? ? Hl Hls]; subst.
    constructor; [|exact Hls].
    rewrite trimEnd_cons, Hl.
    destruct l as [|d l]; [|reflexivity].
    rewrite He in Hb. unfold blank in Hb. rewrite Ec in Hb. cbn in Hb.
    rewrite andb_true_r in Hb. apply negb_true_iff in Hb.
    rewrite andb_true_r in Hb. rewrite Hb. reflexivity.
Qed.

Lemma length_splitLines s : List.length (splitLines s) = S (countLF s).
Proof.
  induction s as [|c r IH]; [reflexivity|]. cbn [splitLines countLF].
  destruct (isLF c); [cbn [List.length]; rewrite IH; reflexivity|].
  destruct (splitLines r); [discriminate | exact IH].
Qed.

Lemma countLF_trimLines s : countLF (trimLines s) = countLF s.
Proof.
  induction s as [|c r IH]; [reflexivity|]. cbn [trimLines countLF].
  destruct (isLF c) eqn:Ec; [cbn [countLF]; rewrite Ec, IH; reflexivity|].
  destruct (blank c && endsLine (trimLines r)); [exact IH|].
  cbn [countLF]. rewrite Ec. exact IH.
Qed.

(** The second pass of [normalize],
    [s.split('\n').map(line => line.trimEnd()).join('\n')]: for every
    text, no line of the result ends in white space, the result has as
    many lines as the text, and a second run changes nothing. *)
Theorem trailing_whitespace_pass (s : string) :
  let t := join nl (map trimEnd (splitLines s)) in
  Forall (fun l => trimEnd l = l) (splitLines t) /\
  List.length (splitLines t) = List.length (splitLines s) /\
  join nl (map trimEnd (splitLines t)) = t.
Proof.
  cbn zeta. rewrite !trimLines_eq.
  pose proof (trimLines_trimmed s) as Ht.
  repeat split.
  - apply trimmed_lines. exact Ht.
  - rewrite !length_splitLines, countLF_trimLines. reflexivity.
  - apply trimLines_fixed. exact Ht.
Qed.

(** [normalize] on a text without the start marker of a guided block:
    the result holds no CR LF and no [> >-], none of its lines ends in
    white space, and it is again without the marker. *)
Theorem normalize_result_is_clean (T provider : string) :
  includes OutputNormalizer.guidedMarker T = false ->
  let y := OutputNormalizer.normalize T provider in
  includes crlf y = false /\
  includes "> >-" y = false /\
  Forall (fun l => trimEnd l = l) (splitLines y) /\
  includes OutputNormalizer.guidedMarker y = false.
Proof.
  intros H. cbn zeta. destruct (normalize_settles T provider H) as [G Tr D _ _].
  repeat split; auto.
  - apply trimmed_no_crlf. exact Tr.
  - apply trimmed_lines. exact Tr.
Qed.

Lemma normalize_result_is_clean_witness :
  includes OutputNormalizer.guidedMarker untidy = false /\
  includes crlf (OutputNormalizer.normalize untidy "gemini") = false /\
  includes "> >-" (OutputNormalizer.normalize untidy "gemini") = false /\
  Forall (fun l => trimEnd l = l) (splitLines (OutputNormalizer.normalize untidy "gemini")) /\
  includes OutputNormalizer.guidedMarker (OutputNormalizer.normalize untidy "gemini") = false.
Proof.
  split; [reflexivity|].
  apply (normalize_result_is_clean untidy "gemini"). reflexivity.
Defined.

(** The three passes over the guided blocks ([fixGuidedHintSpacing],
    [extractAndRelocateAlertBlocks], [fixGeminiGuidedHintSpacing]) leave
    a text without the start marker of a guided block unchanged. *)
Theorem guided_passes_need_a_guided_block (content : string) :
  includes OutputNormalizer.guidedMarker content = false ->
  OutputNormalizer.fixGuidedHintSpacing content = content /\
  OutputNormalizer.extractAndRelocateAlertBlocks content = content /\
  OutputNormalizer.fixGeminiGuidedHintSpacing content = content.
Proof.
  intros H. repeat split.
  - apply fixGuidedHintSpacing_without_guided. exact H.
  - apply extractAndRelocate_without_guided. exact H.
  - unfold OutputNormalizer.fixGeminiGuidedHintSpacing.
    apply replaceAll_noMatch. apply noMatch_guided. exact H.
Qed.

Lemma guided_passes_need_a_guided_block_witness :
  OutputNormalizer.fixGuidedHintSpacing advancedOnly = advancedOnly /\
  OutputNormalizer.extractAndRelocateAlertBlocks advancedOnly = advancedOnly /\
  OutputNormalizer.fixGeminiGuidedHintSpacing advancedOnly = advancedOnly.
Proof. apply guided_passes_need_a_guided_block. reflexivity. Defined.

(* ===================================================================== *)
(** * The settings manager *)
(* ===================================================================== *)

Lemma lookup_set k k' v (o : SettingsManager.object) :
  lookup k (SettingsManager.set k' v o) =
    if String.eqb k k' then Some v else lookup k o.
Proof.
  induction o as [|[k0 v0] o IH]; cbn [SettingsManager.set lookup].
  - destruct (String.eqb k k'); reflexivity.
  - destruct (String.eqb k' k0) eqn:E0; cbn [lookup].
    + apply String.eqb_eq in E0. subst k0. destruct (String.eqb k k'); reflexivity.
    + destruct (String.eqb k k0) eqn:E1.
      * apply String.eqb_eq in E1. subst k0. rewrite String.eqb_sym, E0. reflexivity.
      * exact IH.
Qed.

Lemma lookup_app k (a b : SettingsManager.object) :
  lookup k (a ++ b)%list = match lookup k a with Some v => Some v | None => lookup k b end.
Proof.
  induction a as [|[k0 v0] a IH]; [reflexivity|]. cbn [app lookup].
  destruct (String.eqb k k0); [reflexivity | exact IH].
Qed.

Lemma lookup_fold k : forall (props a : SettingsManager.object),
    lookup k (fold_left (fun acc kv => SettingsManager.set (fst kv) (snd kv) acc) props a) =
      match lookupLast k props with
      | Some v => Some v
      | None => lookup k a
      end.
Proof.
  unfold lookupLast. induction props as [|[k0 v0] props IH]; intros a; [reflexivity|].
  cbn [fold_left fst snd rev]. rewrite IH, lookup_app, lookup_set. cbn [lookup].
  destruct (lookup k (rev props)); [reflexivity|].
  destruct (String.eqb k k0); reflexivity.
Qed.

(** [getSettings] returns the defaults when nothing is stored, when the
    stored text is empty, when the storage cannot be read, when the
    stored text is no JSON text, and when it is the JSON text of
    [null], of a number or of a boolean. *)
Theorem getSettings_falls_back_to_defaults J st :
  SettingsManager.getItemThrows st = true \/
  SettingsManager.item st = None \/
  SettingsManager.item st = Some "" \/
  (exists stored,
      SettingsManager.item st = Some stored /\
      (SettingsManager.parse J stored = None \/
       SettingsManager.parse J stored = Some JNull \/
       (exists n, SettingsManager.parse J stored = Some (JNum n)) \/
       (exists b, SettingsManager.parse J stored = Some (JBool b)))) ->
  SettingsManager.getSettings J st = SettingsManager.DEFAULT_SETTINGS.
Proof.
  unfold SettingsManager.getSettings.
  intros [Hg | [Hn | [He | (stored & Hs & Hp)]]].
  - rewrite Hg. reflexivity.
  - rewrite Hn. destruct (SettingsManager.getItemThrows st); reflexivity.
  - rewrite He. destruct (SettingsManager.getItemThrows st); reflexivity.
  - rewrite Hs. destruct (SettingsManager.getItemThrows st); [reflexivity|].
    destruct (String.eqb stored ""); [reflexivity|].
    destruct Hp as [-> | [-> | [(n & ->) | (b & ->)]]]; reflexivity.
Qed.

Lemma getSettings_falls_back_to_defaults_witness :
  SettingsManager.getSettings smallJSON
    (SettingsManager.mkStorage (Some "not json") false false false) =
    SettingsManager.DEFAULT_SETTINGS.
Proof.
  apply getSettings_falls_back_to_defaults.
  right. right. right. exists "not json". split; [reflexivity | left; reflexivity].
Defined.

Lemma lookup_getSettings J st stored fields :
  SettingsManager.getItemThrows st = false ->
  SettingsManager.item st = Some stored ->
  stored <> "" ->
  SettingsManager.parse J stored = Some (JObj fields) ->
  forall k,
    lookup k (SettingsManager.getSettings J st) =
      match lookupLast k fields with
      | Some v => Some v
      | None => lookup k SettingsManager.DEFAULT_SETTINGS
      end.
Proof.
  intros Hg Hi Hne Hp k. unfold SettingsManager.getSettings.
  rewrite Hg, Hi. apply String.eqb_neq in Hne. rewrite Hne, Hp.
  unfold SettingsManager.spread. cbn [SettingsManager.ownProperties].
  apply lookup_fold.
Qed.

(** [getSettings] on a stored object: every property of the stored
    object is read back as stored (the last value when the list of
    properties names it twice), and every other property has its
    default, so that the four settings are always there. *)
Theorem getSettings_fills_in_the_defaults J st stored fields :
  SettingsManager.getItemThrows st = false ->
  SettingsManager.item st = Some stored ->
  stored <> "" ->
  SettingsManager.parse J stored = Some (JObj fields) ->
  forall k,
    lookup k (SettingsManager.getSettings J st) =
      match lookupLast k fields with
      | Some v => Some v
      | None => lookup k SettingsManager.DEFAULT_SETTINGS
      end.
Proof.
  intros Hg Hi Hne Hp k. exact (lookup_getSettings J st stored fields Hg Hi Hne Hp k).
Qed.

Lemma getSettings_fills_in_the_defaults_witness :
  lookup "provider" (SettingsManager.getSettings smallJSON ollamaStored) = Some (JStr "ollama") /\
  lookup "model" (SettingsManager.getSettings smallJSON ollamaStored) =
    Some (JStr "gemini-2.0-flash-exp").
Proof.
  split.
  - apply (getSettings_fills_in_the_defaults smallJSON ollamaStored
             (jsonText ollamaChosen) ollamaChosen eq_refl eq_refl); [discriminate | reflexivity].
  - apply (getSettings_fills_in_the_defaults smallJSON ollamaStored
             (jsonText ollamaChosen) ollamaChosen eq_refl eq_refl); [discriminate | reflexivity].
Defined.

(** [saveSettings] then [getSettings]: on a storage that can be written
    and read, and a host whose [JSON.parse] reads back what its
    [JSON.stringify] wrote, the four settings that were saved are the
    settings that are loaded. *)
Theorem saved_settings_are_loaded J st provider apiKey model ollamaBaseUrl :
  let settings := SettingsManager.providerSettings provider apiKey model ollamaBaseUrl in
  SettingsManager.setItemThrows st = false ->
  SettingsManager.getItemThrows st = false ->
  SettingsManager.stringify J (JObj settings) <> "" ->
  SettingsManager.parse J (SettingsManager.stringify J (JObj settings)) = Some (JObj settings) ->
  SettingsManager.getSettings J (SettingsManager.saveSettings J settings st) = settings.
Proof.
  cbn zeta. intros Hs Hg Hne Hp.
  unfold SettingsManager.saveSettings, SettingsManager.getSettings. rewrite Hs.
  cbn [SettingsManager.getItemThrows SettingsManager.item]. rewrite Hg.
  apply String.eqb_neq in Hne. rewrite Hne, Hp. reflexivity.
Qed.

Lemma saved_settings_are_loaded_witness :
  SettingsManager.getSettings smallJSON
    (SettingsManager.saveSettings smallJSON withFirstKey emptyStorage) = withFirstKey.
Proof.
  apply (saved_settings_are_loaded smallJSON emptyStorage "openai" "sk-1" "gpt-4o" "http://h:1");
    try reflexivity. discriminate.
Defined.

(** [clearSettings] then [getSettings]: on a storage that can be read
    and from which items can be removed, the defaults are loaded. *)
Theorem cleared_settings_are_the_defaults J st :
  SettingsManager.removeItemThrows st = false ->
  SettingsManager.getSettings J (SettingsManager.clearSettings st) =
    SettingsManager.DEFAULT_SETTINGS.
Proof.
  intros Hr. unfold SettingsManager.clearSettings. rewrite Hr.
  unfold SettingsManager.getSettings. cbn [SettingsManager.getItemThrows SettingsManager.item].
  destruct (SettingsManager.getItemThrows st); reflexivity.
Qed.

Lemma cleared_settings_are_the_defaults_witness :
  SettingsManager.getSettings smallJSON (SettingsManager.clearSettings firstKeyStored) =
    SettingsManager.DEFAULT_SETTINGS.
Proof. apply cleared_settings_are_the_defaults. reflexivity. Defined.

(** [setApiKey] for a provider that is not the stored one writes
    nothing: the key is dropped, and [getApiKey] for that provider
    returns the empty text before and after. *)
Theorem api_key_of_another_provider_is_dropped J st provider apiKey :
  SettingsManager.isProvider provider (SettingsManager.getSettings J st) = false ->
  SettingsManager.setApiKey J provider apiKey st = st /\
  SettingsManager.getApiKey J provider (SettingsManager.setApiKey J provider apiKey st) =
    Some (JStr "").
Proof.
  intros Hp. assert (Hs : SettingsManager.setApiKey J provider apiKey st = st)
    by (unfold SettingsManager.setApiKey; rewrite Hp; reflexivity).
  split; [exact Hs|]. rewrite Hs. unfold SettingsManager.getApiKey. rewrite Hp. reflexivity.
Qed.

Lemma api_key_of_another_provider_is_dropped_witness :
  SettingsManager.setApiKey smallJSON "openai" "sk-9" ollamaStored = ollamaStored /\
  SettingsManager.getApiKey smallJSON "openai"
    (SettingsManager.setApiKey smallJSON "openai" "sk-9" ollamaStored) = Some (JStr "").
Proof. apply api_key_of_another_provider_is_dropped. reflexivity. Defined.

(** ** Objects without a property named twice *)

Lemma keys_set k v (o : SettingsManager.object) :
  map fst (SettingsManager.set k v o) =
    if existsb (String.eqb k) (map fst o) then map fst o else (map fst o ++ [k])%list.
Proof.
  induction o as [|[k0 v0] o IH]; [reflexivity|].
  cbn [SettingsManager.set map fst existsb].
  destruct (String.eqb k k0) eqn:E; cbn [map fst orb].
  - apply String.eqb_eq in E. subst k0. reflexivity.
  - rewrite IH. destruct (existsb (String.eqb k) (map fst o)); reflexivity.
Qed.

Lemma existsb_eqb_In k (l : list string) : existsb (String.eqb k) l = false -> ~ In k l.
Proof.
  induction l as [|x l IH]; cbn [existsb In]; [tauto|].
  intros Hx. apply orb_false_iff in Hx as (Hk & Hl). apply String.eqb_neq in Hk.
  intros [-> | Hin]; [congruence | exact (IH Hl Hin)].
Qed.

Lemma NoDup_set k v (o : SettingsManager.object) :
  NoDup (map fst o) -> NoDup (map fst (SettingsManager.set k v o)).
Proof.
  intros Hn. rewrite keys_set.
  destruct (existsb (String.eqb k) (map fst o)) eqn:E; [exact Hn|].
  apply NoDup_app; [exact Hn | repeat constructor; intros [] |].
  intros a Ha [<- | []]. exact (existsb_eqb_In _ _ E Ha).
Qed.

Lemma NoDup_fold : forall (props a : SettingsManager.object),
    NoDup (map fst a) ->
    NoDup (map fst (fold_left (fun acc kv => SettingsManager.set (fst kv) (snd kv) acc)
                              props a)).
Proof.
  induction props as [|kv props IH]; intros a Ha; [exact Ha|].
  cbn [fold_left]. apply IH. apply NoDup_set. exact Ha.
Qed.

Lemma NoDup_getSettings J st : NoDup (map fst (SettingsManager.getSettings J st)).
Proof.
  assert (Hd : NoDup (map fst SettingsManager.DEFAULT_SETTINGS)).
  { cbn. repeat constructor; cbn; intuition discriminate. }
  unfold SettingsManager.getSettings.
  destruct (SettingsManager.getItemThrows st); [exact Hd|].
  destruct (SettingsManager.item st) as [stored|]; [|exact Hd].
  destruct (String.eqb stored ""); [exact Hd|].
  destruct (SettingsManager.parse J stored); [|exact Hd].
  apply NoDup_fold. exact Hd.
Qed.

Lemma lookup_None_not_In k (o : SettingsManager.object) :
  ~ In k (map fst o) -> lookup k o = None.
Proof.
  induction o as [|[k0 v0] o IH]; [reflexivity|]. cbn [map fst In lookup].
  intros Hn. destruct (String.eqb k k0) eqn:E.
  - apply String.eqb_eq in E. subst. tauto.
  - apply IH. tauto.
Qed.

Lemma lookupLast_NoDup k (o : SettingsManager.object) :
  NoDup (map fst o) -> lookupLast k o = lookup k o.
Proof.
  unfold lookupLast. induction o as [|[k0 v0] o IH]; [reflexivity|].
  cbn [map fst rev lookup]. intros Hn. inversion Hn as [|? ? Hk Ho]; subst.
  rewrite lookup_app, (IH Ho). cbn [lookup].
  destruct (String.eqb k k0) eqn:E.
  - apply String.eqb_eq in E. subst k0. rewrite (lookup_None_not_In _ _ Hk). reflexivity.
  - destruct (lookup k o); reflexivity.
Qed.

(** Every default setting is a property of what [getSettings] returns. *)
Lemma getSettings_has_defaults J st k :
  lookup k (SettingsManager.getSettings J st) = None ->
  lookup k SettingsManager.DEFAULT_SETTINGS = None.
Proof.
  unfold SettingsManager.getSettings.
  destruct (SettingsManager.getItemThrows st); [auto|].
  destruct (SettingsManager.item st) as [stored|]; [|auto].
  destruct (String.eqb stored ""); [auto|].
  destruct (SettingsManager.parse J stored); [|auto].
  unfold SettingsManager.spread. rewrite lookup_fold.
  destruct (lookupLast k _); [discriminate | auto].
Qed.

(** [setApiKey] then [getApiKey] for the stored provider: on a storage
    that can be written and read, and a host whose [JSON.parse] reads
    back what its [JSON.stringify] wrote for the updated settings,
    [getApiKey] returns the key that was set, and the other settings
    are as before. *)
Theorem api_key_of_the_stored_provider_is_kept J st provider apiKey :
  let old := SettingsManager.getSettings J st in
  let new := SettingsManager.set "apiKey" (JStr apiKey) old in
  SettingsManager.isProvider provider old = true ->
  SettingsManager.setItemThrows st = false ->
  SettingsManager.getItemThrows st = false ->
  SettingsManager.stringify J (JObj new) <> "" ->
  SettingsManager.parse J (SettingsManager.stringify J (JObj new)) = Some (JObj new) ->
  let st' := SettingsManager.setApiKey J provider apiKey st in
  SettingsManager.getApiKey J provider st' = Some (JStr apiKey) /\
  forall k, k <> "apiKey" ->
            lookup k (SettingsManager.getSettings J st') = lookup k old.
Proof.
  cbn zeta. intros Hp Hs Hg Hne Hr.
  set (old := SettingsManager.getSettings J st) in *.
  set (new := SettingsManager.set "apiKey" (JStr apiKey) old) in *.
  assert (Hst : SettingsManager.setApiKey J provider apiKey st =
                SettingsManager.mkStorage (Some (SettingsManager.stringify J (JObj new)))
                  false false (SettingsManager.removeItemThrows st)).
  { unfold SettingsManager.setApiKey. fold old. rewrite Hp. fold new.
    unfold SettingsManager.saveSettings. rewrite Hs, Hg. reflexivity. }
  assert (Hget : forall k,
             lookup k (SettingsManager.getSettings J
                         (SettingsManager.setApiKey J provider apiKey st)) =
               if String.eqb k "apiKey" then Some (JStr apiKey) else lookup k old).
  { intros k. rewrite Hst.
    rewrite (lookup_getSettings J
               (SettingsManager.mkStorage (Some (SettingsManager.stringify J (JObj new)))
                  false false (SettingsManager.removeItemThrows st))
               (SettingsManager.stringify J (JObj new)) new eq_refl eq_refl Hne Hr k).
    rewrite lookupLast_NoDup by (apply NoDup_set; apply NoDup_getSettings).
    unfold new. rewrite lookup_set.
    destruct (String.eqb k "apiKey"); [reflexivity|].
    destruct (lookup k old) eqn:E; [reflexivity|].
    exact (getSettings_has_defaults J st k E). }
  split.
  - unfold SettingsManager.getApiKey, SettingsManager.isProvider.
    rewrite !Hget. cbn [String.eqb Ascii.eqb Bool.eqb].
    unfold SettingsManager.isProvider in Hp. rewrite Hp. reflexivity.
  - intros k Hk. rewrite Hget. apply String.eqb_neq in Hk. rewrite Hk. reflexivity.
Qed.

Lemma api_key_of_the_stored_provider_is_kept_witness :
  SettingsManager.getApiKey smallJSON "openai"
    (SettingsManager.setApiKey smallJSON "openai" "sk-2" firstKeyStored) = Some (JStr "sk-2") /\
  forall k, k <> "apiKey" ->
            lookup k (SettingsManager.getSettings smallJSON
                        (SettingsManager.setApiKey smallJSON "openai" "sk-2" firstKeyStored)) =
              lookup k (SettingsManager.getSettings smallJSON firstKeyStored).
Proof.
  apply (api_key_of_the_stored_provider_is_kept smallJSON firstKeyStored "openai" "sk-2");
    try reflexivity. discriminate.
Defined.

(* ===================================================================== *)
(** * The name of the downloaded file *)
(* ===================================================================== *)

Lemma follows_chr p R : Follows (Regex.Chr p) (fun _ => R) (ruleChr p R).
Proof.
  intros prev s. unfold Regex.matchAt, ruleChr. cbn [Regex.run Regex.start Regex.rest].
  destruct s as [|c r]; [reflexivity|]. destruct (p c); [|reflexivity].
  cbn. split; [discriminate|]. split; [reflexivity|]. exists r. reflexivity.
Qed.

Lemma runOf_split p s : s = runOf p s ++ afterRun p s.
Proof.
  induction s as [|c r IH]; [reflexivity|]. cbn [runOf afterRun].
  destruct (p c); [cbn [append]; rewrite <- IH|]; reflexivity.
Qed.

Lemma runOf_all p s : forallb p (to_list (runOf p s)) = true.
Proof.
  induction s as [|c r IH]; [reflexivity|]. cbn [runOf].
  destruct (p c) eqn:E; [|reflexivity]. cbn. rewrite E. exact IH.
Qed.

Lemma afterRun_head p s : headIs p (afterRun p s) = false.
Proof.
  induction s as [|c r IH]; [reflexivity|]. cbn [afterRun].
  destruct (p c) eqn:E; [exact IH | cbn; exact E].
Qed.

Lemma follows_plus p R : Follows (Regex.plus (Regex.Chr p)) (fun _ => R) (rulePlus p R).
Proof.
  intros prev s. unfold Regex.matchAt, rulePlus, Regex.plus.
  cbn [Regex.run Regex.start Regex.rest].
  destruct s as [|c r]; [reflexivity|]. destruct (p c); [|reflexivity].
  cbn [Regex.step Regex.rest].
  rewrite (iterate_greedy_chr p (fun st => Some st)) with (w := runOf p r) (t := afterRun p r).
  - unfold advance, Regex.step. cbn [Regex.taken Regex.group1 Regex.text].
    rewrite rev_app_distr, rev_involutive. cbn [rev app Regex.start Regex.taken].
    change (c :: to_list (runOf p r))%list with (to_list (String c (runOf p r))).
    rewrite of_list_to_list. split; [discriminate|]. split; [reflexivity|].
    exists (afterRun p r). cbn [append]. rewrite <- runOf_split. reflexivity.
  - right. discriminate.
  - cbn [Regex.step Regex.rest]. apply runOf_split.
  - apply runOf_all.
  - apply afterRun_head.
  - rewrite <- runOf_split. cbn [Regex.step Regex.rest]. lia.
Qed.

Lemma allChars_app p a b : allChars p (a ++ b) = allChars p a && allChars p b.
Proof.
  induction a as [|c a IH]; [reflexivity|]. cbn [append allChars].
  rewrite IH, andb_assoc. reflexivity.
Qed.

(** The characters of a rewritten text: the copied ones, where the rule
    did not match, and those that the rule puts. *)
Lemma Rw_allChars rule (P Q : ascii -> bool) :
  (forall c s, rule (String c s) = None -> P c = true -> Q c = true) ->
  (forall s M R, rule s = Some (M, R) -> allChars Q R = true) ->
  forall s out, Rw rule s out -> allChars P s = true -> allChars Q out = true.
Proof.
  intros Hcopy Hput s out Hrw.
  induction Hrw as [|c s out Hn _ IH|M R rest out Hr HM _ IH]; intros Hs.
  - reflexivity.
  - cbn [allChars] in *. apply andb_true_iff in Hs as (Hc & Hs).
    rewrite (Hcopy c s Hn Hc), (IH Hs). reflexivity.
  - rewrite allChars_app in *. apply andb_true_iff in Hs as (_ & Hs).
    rewrite (Hput _ _ _ Hr), (IH Hs). reflexivity.
Qed.

Lemma allChars_true s : allChars (fun _ => true) s = true.
Proof. induction s as [|c s IH]; [reflexivity | exact IH]. Qed.

Lemma allChars_toLowerCase s :
  allChars (fun c => LabGenerator.isLower c || LabGenerator.isUpper c
                     || LabGenerator.isDigit c || Ascii.eqb c "-") s = true ->
  allChars isFileChar (toLowerCase s) = true.
Proof.
  induction s as [|c s IH]; [reflexivity|]. cbn [allChars toLowerCase].
  intros H. apply andb_true_iff in H as (Hc & Hs). rewrite (IH Hs), andb_true_r.
  clear - Hc. revert Hc.
  destruct c as [[] [] [] [] [] [] [] []]; vm_compute; intros H; try reflexivity; discriminate.
Qed.


(** ** Positions at which a pattern cannot match *)

Lemma canStart_none (r : Regex.regex) :
  forall (A : Type) st (k : Regex.pos -> option A) c s,
    Regex.rest st = String c s -> canStart r c = false -> Regex.run r st k = None.
Proof.
  induction r as [p| |a IHa b IHb|a IHa b IHb|g a IHa|a IHa|a IHa| |];
    intros A st k c s Hr Hc; cbn [canStart] in Hc; cbn [Regex.run]; try discriminate.
  - rewrite Hr, Hc. reflexivity.
  - apply (IHa _ _ _ c s Hr Hc).
  - apply orb_false_iff in Hc as (Ha & Hb).
    rewrite (IHa _ _ _ c s Hr Ha). apply (IHb _ _ _ c s Hr Hb).
  - apply (IHa _ _ _ c s); [exact Hr | exact Hc].
  - rewrite (IHa _ _ _ c s Hr Hc). reflexivity.
  - rewrite Hr. reflexivity.
Qed.

Lemma matchAt_canStart r prev c s :
  canStart r c = false -> Regex.matchAt r prev (String c s) = None.
Proof.
  intros Hc. unfold Regex.matchAt.
  rewrite (canStart_none r _ _ _ c s); [reflexivity | reflexivity | exact Hc].
Qed.

Lemma silent_chars r p :
  allChars (fun c => negb (canStart r c)) p = true -> Silent r p.
Proof.
  induction p as [|c p IH]; intros Hp; cbn [Silent]; [exact I|].
  cbn [allChars] in Hp. apply andb_true_iff in Hp as (Hc & Hp).
  apply negb_true_iff in Hc. split; [|exact (IH Hp)].
  intros s prev. apply matchAt_canStart. exact Hc.
Qed.

Lemma silent_app r a b : Silent r a -> Silent r b -> Silent r (a ++ b).
Proof.
  induction a as [|c a IH]; intros Ha Hb; [exact Hb|].
  cbn [append Silent] in *. destruct Ha as (Hc & Ha). split; [|exact (IH Ha Hb)].
  intros s prev. rewrite append_assoc. apply Hc.
Qed.

(** ** A scan, piece by piece *)

Section Scanning.
Context {St : Type} (r : Regex.regex) (f : Regex.found -> St -> string * St).

Lemma scan_copy : forall p prev s st,
    Silent r p ->
    Regex.scan r f prev 0 (p ++ s) st =
      (p ++ fst (Regex.scan r f (lastChar prev p) 0 s st),
       snd (Regex.scan r f (lastChar prev p) 0 s st)).
Proof.
  induction p as [|c p IH]; intros prev s st Hp.
  - cbn [append lastChar]. destruct (Regex.scan r f prev 0 s st); reflexivity.
  - cbn [Silent] in Hp. destruct Hp as (Hc & Hp).
    cbn [append Regex.scan]. rewrite Hc. rewrite (IH (Some c) s st Hp).
    cbn [lastChar]. reflexivity.
Qed.

Lemma scan_hit M rest prev st m :
  Regex.matchAt r prev (M ++ rest) = Some m ->
  Regex.text m = M -> M <> "" ->
  Regex.scan r f prev 0 (M ++ rest) st =
    (fst (f m st) ++ fst (Regex.scan r f (lastChar prev M) 0 rest (snd (f m st))),
     snd (Regex.scan r f (lastChar prev M) 0 rest (snd (f m st)))).
Proof.
  intros Hm Ht Hne. destruct M as [|c w]; [contradiction|].
  cbn [append Regex.scan]. cbn [append] in Hm. rewrite Hm, Ht.
  destruct (f m st) as [out st1]. cbn [String.length fst snd].
  rewrite scan_skip. cbn [lastChar].
  destruct (Regex.scan r f (lastChar (Some c) w) 0 rest st1); reflexivity.
Qed.

Lemma scan_end prev st :
  Regex.matchAt r prev "" = None -> Regex.scan r f prev 0 "" st = ("", st).
Proof. intros Hm. cbn [Regex.scan]. rewrite Hm. reflexivity. Qed.

(** A text in which the pattern is silent is copied. *)
Lemma scan_silent p prev st :
  Silent r p -> Regex.matchAt r (lastChar prev p) "" = None ->
  Regex.scan r f prev 0 p st = (p, st).
Proof.
  intros Hp He. rewrite <- (append_nil_r p) at 1.
  rewrite scan_copy by exact Hp. rewrite scan_end by exact He.
  cbn [fst snd]. rewrite append_nil_r. reflexivity.
Qed.
End Scanning.

(** ** The pattern of a block *)

Lemma lazy_until {A : Type} (k : Regex.pos -> option A) :
  (forall st, k st <> None) ->
  forall content st fuel rest,
    colonFree content = true ->
    Regex.rest st = content ++ ":::" ++ rest ->
    (String.length (content ++ ":::" ++ rest) <= fuel)%nat ->
    Regex.iterate false (fun s k' => Regex.run Regex.any s k') fuel st
                  (fun st' => Regex.run (Regex.lit ":::") st' k) =
      k (advance (advance st content (":::" ++ rest)) ":::" rest).
Proof.
  intros Hk content. set (atom := fun s (k' : Regex.pos -> option A) => Regex.run Regex.any s k').
  induction content as [|c content IH]; intros st fuel rest Hc Hr Hf.
  - change (Regex.rest st = ":::" ++ rest) in Hr.
    replace (advance st "" (":::" ++ rest)) with st
      by (rewrite <- Hr; symmetry; apply advance_nil).
    destruct fuel as [|fuel]; [cbn in Hf; lia|]. cbn [Regex.iterate].
    rewrite (run_lit ":::" st k rest Hr).
    destruct (k (advance st ":::" rest)) eqn:Ek; [reflexivity|].
    exfalso. exact (Hk _ Ek).
  - unfold colonFree in Hc. cbn [allChars] in Hc. apply andb_true_iff in Hc as (Hc0 & Hc).
    apply negb_true_iff in Hc0.
    destruct fuel as [|fuel]; [cbn in Hf; lia|]. cbn [Regex.iterate].
    rewrite run_lit_fail.
    2: { rewrite Hr. cbn [append prefix].
         destruct (ascii_dec ":" c) as [<-|_]; [|reflexivity].
         rewrite Ascii.eqb_refl in Hc0. discriminate. }
    set (tl := ":::" ++ rest) in *.
    unfold atom at 1. unfold Regex.any at 1. cbn [Regex.run]. rewrite Hr. cbn [append].
    unfold Regex.shorter at 1. cbn [Regex.step Regex.rest]. rewrite Hr.
    cbn [append String.length].
    replace (String.length (content ++ tl) <? S (String.length (content ++ tl)))%nat
      with true by (symmetry; apply Nat.ltb_lt; lia).
    unfold tl.
    rewrite (IH (Regex.step c (content ++ ":::" ++ rest) st) fuel rest); try assumption;
      [| reflexivity | unfold tl in Hf; cbn [append String.length] in Hf |- *; lia].
    rewrite advance_step. reflexivity.
Qed.

Lemma rev_to_list_app (a b : string) :
  rev (to_list (a ++ b)) = (rev (to_list b) ++ rev (to_list a))%list.
Proof.
  induction a as [|c a IH]; cbn [append]; [rewrite app_nil_r; reflexivity|].
  change (to_list (String c (a ++ b))) with (c :: to_list (a ++ b)).
  change (to_list (String c a)) with (c :: to_list a).
  cbn [rev]. rewrite IH, app_assoc. reflexivity.
Qed.

Lemma of_list_rev_rev (a : string) (l : list ascii) :
  of_list (rev (rev (to_list a) ++ l)) = of_list (rev l) ++ a.
Proof. rewrite rev_app_distr, rev_involutive, of_list_app, of_list_to_list. reflexivity. Qed.

Lemma matchAt_block M content rest prev :
  colonFree content = true ->
  Regex.matchAt (blockRegex M) prev (M ++ content ++ ":::" ++ rest) =
    Some (Regex.mkFound (M ++ content ++ ":::") (M ++ content ++ ":::")).
Proof.
  intros Hc. unfold Regex.matchAt, blockRegex. cbn [Regex.seq Regex.run].
  rewrite (run_lit M _ _ (content ++ ":::" ++ rest)); [|reflexivity].
  unfold Regex.lazy. cbn [Regex.run].
  rewrite lazy_until with (content := content) (rest := rest);
    [ | intros ?; discriminate | exact Hc | reflexivity | cbn [advance Regex.rest]; lia ].
  unfold Regex.closeGroup, advance, Regex.openGroup, Regex.start.
  cbn [Regex.taken Regex.group1 Regex.mark Regex.before Regex.rest List.length].
  rewrite Nat.sub_0_r, firstn_all.
  rewrite !of_list_rev_rev. cbn [rev of_list string_of_list_ascii append].
  rewrite !append_assoc. reflexivity.
Qed.

Lemma matchAt_block_none M prev s :
  prefix M s = false -> Regex.matchAt (blockRegex M) prev s = None.
Proof.
  intros Hp. unfold Regex.matchAt, blockRegex.
  cbn [Regex.seq Regex.run]. rewrite run_lit_fail; [reflexivity | exact Hp].
Qed.

(** A text without colon, and a colon that does not open the marker. *)
Lemma silent_block_text M p :
  headIs (Ascii.eqb ":") M = true -> colonFree p = true -> Silent (blockRegex M) p.
Proof.
  intros HM Hp. apply silent_chars. destruct M as [|m M]; [discriminate|].
  cbn [headIs] in HM. apply Ascii.eqb_eq in HM. subst m.
  unfold colonFree in Hp. unfold blockRegex. cbn [Regex.seq canStart Regex.lit Regex.chr].
  exact Hp.
Qed.

(** ** The patterns of the passes over a guided block *)

Lemma run_star_chr {A : Type} (p : ascii -> bool) (k : Regex.pos -> option A) st w t :
  (forall st', headIs p (Regex.rest st') = true -> k st' = None) ->
  Regex.rest st = w ++ t ->
  forallb p (to_list w) = true ->
  headIs p t = false ->
  Regex.run (Regex.star (Regex.Chr p)) st k = k (advance st w t).
Proof.
  intros Hk Hr Hw Ht. unfold Regex.star. cbn [Regex.run].
  apply iterate_greedy_chr; [left; exact Hk | exact Hr | exact Hw | exact Ht|].
  rewrite Hr. lia.
Qed.

Lemma clash_prefix a : forall b s, clash a b = true -> prefix a (b ++ s) = false.
Proof.
  induction a as [|x a IH]; intros b s Hc; [discriminate|].
  destruct b as [|y b]; [discriminate|]. cbn [clash] in Hc. cbn [append prefix].
  destruct (ascii_dec x y) as [->|Hne].
  - rewrite Ascii.eqb_refl in Hc. apply IH. exact Hc.
  - reflexivity.
Qed.

Lemma prefix_app_false P Q : forall s, prefix P s = false -> prefix (P ++ Q) s = false.
Proof.
  induction P as [|c P IH]; intros s Hp; [destruct s; discriminate|].
  destruct s as [|d s]; [reflexivity|]. cbn [append prefix] in *.
  destruct (ascii_dec c d); [apply IH; exact Hp | reflexivity].
Qed.

Lemma forallb_notLF t :
  allChars tagText t = true -> forallb (fun c => negb (isLF c)) (to_list t) = true.
Proof.
  induction t as [|c t IH]; [reflexivity|]. cbn [allChars]. intros H.
  apply andb_true_iff in H as (Hc & Ht). unfold tagText in Hc.
  apply andb_true_iff in Hc as (Hc & _). apply andb_true_iff in Hc as (Hc & _).
  change (to_list (String c t)) with (c :: to_list t). cbn [forallb].
  rewrite Hc. exact (IH Ht).
Qed.

(** A tag line that nothing but its line end follows in the blockquote
    is one match of the pattern of its tag. *)
Lemma matchAt_callout tag t R prev :
  allChars tagText t = true ->
  headIs (Ascii.eqb ">") R = false ->
  Regex.matchAt (OutputNormalizer.calloutRegex (String "[" tag)) prev
                (">" ++ String "[" tag ++ t ++ nl ++ R) =
    Some (Regex.mkFound (">" ++ String "[" tag ++ t ++ nl) "").
Proof.
  intros Ht HR. unfold Regex.matchAt, OutputNormalizer.calloutRegex.
  cbn [Regex.seq]. cbn [Regex.run]. unfold Regex.chr at 1. cbn [Regex.run].
  cbn [Regex.start Regex.rest append]. rewrite Ascii.eqb_refl.
  set (st1 := Regex.step ">" _ _).
  rewrite (run_star_chr isSpace _ st1 "" (String "[" tag ++ t ++ nl ++ R)).
  2: { intros st' Hs. apply run_lit_fail.
       destruct (Regex.rest st') as [|c r]; [discriminate|]. cbn [headIs] in Hs.
       cbn [prefix]. destruct (ascii_dec "[" c) as [<-|]; [discriminate | reflexivity]. }
  2: reflexivity. 2: reflexivity. 2: reflexivity.
  rewrite (run_lit (String "[" tag) _ _ (t ++ nl ++ R)); [|reflexivity].
  unfold Regex.notLF at 1.
  rewrite (run_star_chr (fun c => negb (isLF c)) _ _ t (nl ++ R)).
  2: { intros st' Hs. unfold Regex.chr. cbn [Regex.run].
       destruct (Regex.rest st') as [|c r]; [reflexivity|]. cbn [headIs] in Hs.
       unfold isLF in Hs. rewrite Ascii.eqb_sym.
       apply negb_true_iff in Hs. rewrite Hs. reflexivity. }
  2: reflexivity. 2: apply forallb_notLF; exact Ht. 2: reflexivity.
  unfold Regex.chr at 1. cbn [Regex.run]. cbn [advance Regex.rest nl append].
  rewrite Ascii.eqb_refl.
  unfold Regex.star. cbn [Regex.run Regex.openGroup Regex.step Regex.rest].
  assert (Hstop : forall fuel st (k : Regex.pos -> option Regex.pos),
             Regex.rest st = R ->
             Regex.iterate true
               (fun s k' =>
                  Regex.run (Regex.Seq (Regex.chr ">")
                               (Regex.Seq (Regex.Star true Regex.notLF) (Regex.chr LF))) s k')
               fuel st k = k st).
  { intros fuel st k Hr. destruct fuel as [|fuel]; [reflexivity|].
    cbn [Regex.iterate]. unfold Regex.chr at 1. cbn [Regex.run]. rewrite Hr.
    destruct R as [|c R']; [reflexivity|]. cbn [headIs] in HR. rewrite HR. reflexivity. }
  rewrite Hstop by reflexivity.
  unfold Regex.closeGroup, Regex.openGroup, Regex.step, advance, st1, Regex.step, Regex.start.
  cbn [Regex.taken Regex.group1 Regex.mark Regex.before Regex.rest].
  rewrite Nat.sub_diag. cbn [firstn].
  change (of_list (rev [])) with "".
  f_equal. f_equal.
  change (LF :: rev (to_list t) ++ rev (to_list (String "[" tag))
             ++ rev (to_list "") ++ [">"%char])%list
    with (rev (to_list nl) ++ rev (to_list t) ++ rev (to_list (String "[" tag))
              ++ rev (to_list "") ++ [">"%char])%list.
  rewrite !of_list_rev_rev. cbn [rev app of_list string_of_list_ascii].
  rewrite !append_assoc. reflexivity.
Qed.

(** Behind a [>], optional white space and anything but the tag: no
    match of the pattern of the tag. *)
Lemma matchAt_callout_none tag r s prev :
  clash (String "[" tag) (afterRun isSpace r) = true ->
  Regex.matchAt (OutputNormalizer.calloutRegex (String "[" tag)) prev
                (String ">" (r ++ s)) = None.
Proof.
  intros Hc. unfold Regex.matchAt, OutputNormalizer.calloutRegex.
  cbn [Regex.seq]. cbn [Regex.run]. unfold Regex.chr at 1. cbn [Regex.run].
  cbn [Regex.start Regex.rest]. rewrite Ascii.eqb_refl.
  set (st1 := Regex.step ">" _ _).
  assert (Hne : afterRun isSpace r <> "") by (intros E; rewrite E in Hc; discriminate).
  rewrite (run_star_chr isSpace _ st1 (runOf isSpace r) (afterRun isSpace r ++ s)).
  - rewrite run_lit_fail; [reflexivity|].
    cbn [advance Regex.rest]. apply clash_prefix. exact Hc.
  - intros st' Hs. apply run_lit_fail.
    destruct (Regex.rest st') as [|c r']; [discriminate|]. cbn [headIs] in Hs.
    cbn [prefix]. destruct (ascii_dec "[" c) as [<-|]; [discriminate | reflexivity].
  - unfold st1. cbn [Regex.step Regex.rest]. rewrite <- append_assoc, <- runOf_split.
    reflexivity.
  - apply runOf_all.
  - pose proof (afterRun_head isSpace r) as Hh.
    destruct (afterRun isSpace r) as [|c r']; [contradiction|]. exact Hh.
Qed.

Lemma matchAt_spacing_none r s prev :
  clash (nl ++ ">" ++ nl) r = true ->
  Regex.matchAt spacingRegex prev (String ">" (r ++ s)) = None.
Proof.
  intros Hc. unfold Regex.matchAt, spacingRegex. cbn [Regex.seq Regex.run].
  rewrite run_lit_fail; [reflexivity|].
  cbn [Regex.start Regex.rest append prefix].
  destruct (ascii_dec ">" ">") as [_|Hx]; [|contradiction Hx; reflexivity].
  apply clash_prefix. exact Hc.
Qed.

Lemma matchAt_cleaning_none r s prev :
  clash (nl ++ ">" ++ nl) r = true ->
  Regex.matchAt cleaningRegex prev (String ">" (r ++ s)) = None.
Proof.
  intros Hc. unfold cleaningRegex. rewrite matchAt_lit.
  change (">" ++ nl ++ ">" ++ nl ++ ">" ++ nl) with ((">" ++ nl ++ ">" ++ nl) ++ ">" ++ nl).
  rewrite prefix_app_false; [reflexivity|].
  cbn [append prefix].
  destruct (ascii_dec ">" ">") as [_|Hx]; [|contradiction Hx; reflexivity].
  apply clash_prefix. exact Hc.
Qed.

(** The patterns that start with [>] are silent in calm lines. *)
Lemma silent_calm r body :
  (forall c, Ascii.eqb c ">" = false -> canStart r c = false) ->
  (forall rr s prev, quietAfter rr = true ->
                     Regex.matchAt r prev (String ">" (rr ++ s)) = None) ->
  calm body = true -> Silent r body.
Proof.
  intros Hstart Hquiet. induction body as [|c body IH]; intros Hc; cbn [Silent]; [exact I|].
  cbn [calm] in Hc. apply andb_true_iff in Hc as (Hq & Hc). split; [|exact (IH Hc)].
  intros s prev. destruct (Ascii.eqb c ">") eqn:Ec.
  - apply Ascii.eqb_eq in Ec. subst c. apply Hquiet. exact Hq.
  - apply matchAt_canStart. apply Hstart. exact Ec.
Qed.

Lemma canStart_callout tag c :
  Ascii.eqb c ">" = false -> canStart (OutputNormalizer.calloutRegex tag) c = false.
Proof.
  intros Hc. unfold OutputNormalizer.calloutRegex. cbn [Regex.seq canStart Regex.chr].
  rewrite Ascii.eqb_sym. exact Hc.
Qed.

Lemma canStart_spacing c : Ascii.eqb c ">" = false -> canStart spacingRegex c = false.
Proof.
  intros Hc. unfold spacingRegex. cbn [Regex.seq canStart Regex.lit Regex.chr append].
  rewrite Ascii.eqb_sym. exact Hc.
Qed.

Lemma canStart_cleaning c : Ascii.eqb c ">" = false -> canStart cleaningRegex c = false.
Proof.
  intros Hc. unfold cleaningRegex. cbn [canStart Regex.lit Regex.chr append].
  rewrite Ascii.eqb_sym. exact Hc.
Qed.

Lemma quietAfter_parts r :
  quietAfter r = true ->
  clash "[+alert]" (afterRun isSpace r) = true /\
  clash "[!note]" (afterRun isSpace r) = true /\
  clash "[!help]" (afterRun isSpace r) = true /\
  clash (nl ++ ">" ++ nl) r = true.
Proof.
  unfold quietAfter. intros H.
  apply andb_true_iff in H as (H & H4). apply andb_true_iff in H as (H & H3).
  apply andb_true_iff in H as (H1 & H2). auto.
Qed.

Lemma silent_calm_alert body :
  calm body = true -> Silent OutputNormalizer.alertBlockRegex body.
Proof.
  apply silent_calm; [apply canStart_callout|].
  intros rr s prev Hq. apply quietAfter_parts in Hq as (H & _).
  apply (matchAt_callout_none "+alert]"). exact H.
Qed.

Lemma silent_calm_note body :
  calm body = true -> Silent OutputNormalizer.noteBlockRegex body.
Proof.
  apply silent_calm; [apply canStart_callout|].
  intros rr s prev Hq. apply quietAfter_parts in Hq as (_ & H & _).
  apply (matchAt_callout_none "!note]"). exact H.
Qed.

Lemma silent_calm_help body :
  calm body = true -> Silent OutputNormalizer.helpBlockRegex body.
Proof.
  apply silent_calm; [apply canStart_callout|].
  intros rr s prev Hq. apply quietAfter_parts in Hq as (_ & _ & H & _).
  apply (matchAt_callout_none "!help]"). exact H.
Qed.

Lemma silent_calm_spacing body : calm body = true -> Silent spacingRegex body.
Proof.
  apply silent_calm; [apply canStart_spacing|].
  intros rr s prev Hq. apply quietAfter_parts in Hq as (_ & _ & _ & H).
  apply matchAt_spacing_none. exact H.
Qed.

Lemma silent_calm_cleaning body : calm body = true -> Silent cleaningRegex body.
Proof.
  apply silent_calm; [apply canStart_cleaning|].
  intros rr s prev Hq. apply quietAfter_parts in Hq as (_ & _ & _ & H).
  apply matchAt_cleaning_none. exact H.
Qed.

(** ** The passes over a guided block with callout lines *)

Lemma allChars_impl (P Q : ascii -> bool) s :
  (forall c, P c = true -> Q c = true) -> allChars P s = true -> allChars Q s = true.
Proof.
  intros HPQ. induction s as [|c s IH]; [reflexivity|]. cbn [allChars].
  intros H. apply andb_true_iff in H as (Hc & Hs). rewrite (HPQ c Hc), (IH Hs). reflexivity.
Qed.

Lemma tagText_quote t :
  allChars tagText t = true -> allChars (fun c => negb (Ascii.eqb c ">")) t = true.
Proof.
  apply allChars_impl. intros c H. unfold tagText in H.
  apply andb_true_iff in H as (_ & H). exact H.
Qed.

Lemma tagText_colon t : allChars tagText t = true -> colonFree t = true.
Proof.
  apply allChars_impl. intros c H. unfold tagText in H.
  apply andb_true_iff in H as (H & _). apply andb_true_iff in H as (_ & H). exact H.
Qed.

(** A pattern that starts with [>] is silent in a text without [>]. *)
Lemma silent_unquoted r p :
  (forall c, Ascii.eqb c ">" = false -> canStart r c = false) ->
  allChars (fun c => negb (Ascii.eqb c ">")) p = true -> Silent r p.
Proof.
  intros Hs Hp. apply silent_chars. revert Hp. apply allChars_impl.
  intros c Hc. apply negb_true_iff in Hc. rewrite (Hs c Hc). reflexivity.
Qed.

(** A tag line is silent for a pattern that does not match at its [>]. *)
Lemma silent_line r tag o :
  (forall c, Ascii.eqb c ">" = false -> canStart r c = false) ->
  (forall t s prev, Regex.matchAt r prev (String ">" ((tag ++ t ++ nl) ++ s)) = None) ->
  allChars (fun c => negb (Ascii.eqb c ">")) tag = true ->
  lineText o = true ->
  Silent r (calloutLine tag o).
Proof.
  intros Hs Hm Htag Ho. destruct o as [t|]; [|exact I].
  cbn [calloutLine append Silent]. split; [intros s prev; apply Hm|].
  apply silent_unquoted; [exact Hs|].
  rewrite !allChars_app, Htag, (tagText_quote t Ho). reflexivity.
Qed.

Lemma silent_alert_help o :
  lineText o = true -> Silent OutputNormalizer.alertBlockRegex (calloutLine "[!help]" o).
Proof.
  apply silent_line; [apply canStart_callout | | reflexivity].
  intros t s prev. apply (matchAt_callout_none "+alert]"). reflexivity.
Qed.

Lemma silent_alert_note o :
  lineText o = true -> Silent OutputNormalizer.alertBlockRegex (calloutLine "[!note]" o).
Proof.
  apply silent_line; [apply canStart_callout | | reflexivity].
  intros t s prev. apply (matchAt_callout_none "+alert]"). reflexivity.
Qed.

Lemma silent_note_help o :
  lineText o = true -> Silent OutputNormalizer.noteBlockRegex (calloutLine "[!help]" o).
Proof.
  apply silent_line; [apply canStart_callout | | reflexivity].
  intros t s prev. apply (matchAt_callout_none "!note]"). reflexivity.
Qed.

Lemma silent_spacing_line tag o :
  headIs (Ascii.eqb "[") tag = true ->
  allChars (fun c => negb (Ascii.eqb c ">")) tag = true ->
  lineText o = true -> Silent spacingRegex (calloutLine tag o).
Proof.
  intros Hh. apply silent_line; [apply canStart_spacing|].
  intros t s prev. apply matchAt_spacing_none.
  destruct tag as [|c tag]; [discriminate|]. cbn [headIs] in Hh.
  apply Ascii.eqb_eq in Hh. subst c. reflexivity.
Qed.

(** What [trim] makes of a tag line. *)
Lemma trimEnd_line y :
  allChars (fun c => negb (isLF c)) y = true ->
  trimmed (y ++ nl) = true -> trimEnd (y ++ nl) = y.
Proof.
  induction y as [|c y IH]; intros Hy Ht; [reflexivity|].
  cbn [allChars] in Hy. apply andb_true_iff in Hy as (Hc & Hy).
  cbn [append trimmed] in Ht. apply andb_true_iff in Ht as (Hb & Ht).
  cbn [append]. rewrite trimEnd_cons, (IH Hy Ht).
  destruct y as [|d y]; [|reflexivity].
  cbn [append endsLine nl] in Hb. unfold blank in Hb.
  change (isLF LF) with true in Hb. rewrite andb_true_r, Hc, andb_true_r in Hb.
  apply negb_true_iff in Hb. rewrite Hb. reflexivity.
Qed.

Lemma trim_line tag t :
  allChars tagText (tag ++ t) = true ->
  trimmed (">" ++ tag ++ t ++ nl) = true ->
  trim (">" ++ tag ++ t ++ nl) = ">" ++ tag ++ t.
Proof.
  intros Ha Ht. unfold trim.
  assert (Hs : trimStart (">" ++ tag ++ t ++ nl) = ">" ++ tag ++ t ++ nl).
  { unfold trimStart. cbn [append].
    change (to_list (String ">" (tag ++ t ++ nl))) with (">"%char :: to_list (tag ++ t ++ nl)).
    cbn [dropWhile]. change (isSpace ">") with false. cbv iota.
    change (">"%char :: to_list (tag ++ t ++ nl)) with (to_list (String ">" (tag ++ t ++ nl))).
    apply of_list_to_list. }
  rewrite Hs.
  replace (">" ++ tag ++ t ++ nl) with ((">" ++ tag ++ t) ++ nl)
    by (rewrite !append_assoc; reflexivity).
  apply trimEnd_line.
  - cbn [append allChars]. change (negb (isLF ">")) with true. cbv iota. cbn [andb].
    revert Ha. apply allChars_impl. intros c H. unfold tagText in H.
    apply andb_true_iff in H as (H & _). apply andb_true_iff in H as (H & _). exact H.
  - rewrite !append_assoc. exact Ht.
Qed.

(** One of the three extracting passes, on a block whose last line may
    be a tag line of its kind. *)
Lemma pass_callout tag B o st prev :
  Silent (OutputNormalizer.calloutRegex (String "[" tag)) B ->
  lineText o = true -> trimOk (String "[" tag) o ->
  Regex.scan (OutputNormalizer.calloutRegex (String "[" tag)) OutputNormalizer.pushTrimmed
             prev 0 (B ++ calloutLine (String "[" tag) o ++ ":::") st =
    (B ++ ":::", (st ++ calloutOf (String "[" tag) o)%list).
Proof.
  intros HB Ho Htrim.
  assert (Hend : Silent (OutputNormalizer.calloutRegex (String "[" tag)) ":::").
  { apply silent_unquoted; [apply canStart_callout | reflexivity]. }
  assert (Hnil : forall p, Regex.matchAt (OutputNormalizer.calloutRegex (String "[" tag)) p ""
                           = None) by reflexivity.
  rewrite scan_copy by exact HB.
  destruct o as [t|]; cbn [calloutLine calloutOf].
  - cbn [lineText] in Ho. cbn [trimOk] in Htrim.
    replace ((">" ++ String "[" tag ++ t ++ nl) ++ ":::")
      with ((">" ++ String "[" tag ++ t ++ nl) ++ ":::") by reflexivity.
    rewrite (scan_hit _ _ (">" ++ String "[" tag ++ t ++ nl) ":::" _ _
               (Regex.mkFound (">" ++ String "[" tag ++ t ++ nl) "")).
    + rewrite !scan_silent by (try exact Hend; apply Hnil).
      unfold OutputNormalizer.pushTrimmed. cbn [fst snd Regex.text].
      rewrite Htrim. reflexivity.
    + rewrite !append_assoc.
      exact (matchAt_callout tag t ":::" (lastChar prev B) Ho eq_refl).
    + reflexivity.
    + discriminate.
  - cbn [append]. rewrite scan_silent by (try exact Hend; apply Hnil).
    cbn [fst snd]. rewrite app_nil_r. reflexivity.
Qed.

(** The lines of the block before its tag lines. *)
Lemma silent_opening r body :
  (forall c, Ascii.eqb c ">" = false -> canStart r c = false) ->
  Silent r body -> Silent r (OutputNormalizer.guidedMarker ++ nl ++ body).
Proof.
  intros Hs Hb. apply silent_app; [apply silent_unquoted; [exact Hs | reflexivity]|].
  apply silent_app; [apply silent_unquoted; [exact Hs | reflexivity] | exact Hb].
Qed.

Lemma silent_closing r :
  (forall c, Ascii.eqb c ">" = false -> canStart r c = false) -> Silent r ":::".
Proof. intros Hs. apply silent_unquoted; [exact Hs | reflexivity]. Qed.

(** What the callback of the relocating pass makes of a guided block
    whose last lines are tag lines: the block without them, and the
    three kinds of callouts in the order of the three passes. *)
Lemma cleanGuidedBlock_callouts body h n w m st :
  Regex.text m = guidedBlock (body ++ calloutLine "[!help]" h ++ calloutLine "[!note]" n
                                   ++ calloutLine "[+alert]" w) ->
  calm body = true ->
  lineText h = true -> lineText n = true -> lineText w = true ->
  trimOk "[!help]" h -> trimOk "[!note]" n -> trimOk "[+alert]" w ->
  OutputNormalizer.cleanGuidedBlock m st =
    (guidedBlock body,
     (st ++ calloutOf "[+alert]" w ++ calloutOf "[!note]" n ++ calloutOf "[!help]" h)%list).
Proof.
  intros Ht Hc Hh Hn Hw Th Tn Tw.
  unfold OutputNormalizer.cleanGuidedBlock. rewrite Ht. unfold guidedBlock.
  set (B0 := OutputNormalizer.guidedMarker ++ nl ++ body).
  set (hl := calloutLine "[!help]" h). set (nL := calloutLine "[!note]" n).
  set (al := calloutLine "[+alert]" w).
  replace (OutputNormalizer.guidedMarker ++ nl ++ (body ++ hl ++ nL ++ al) ++ ":::")
    with ((B0 ++ hl ++ nL) ++ al ++ ":::")
    by (unfold B0; rewrite !append_assoc; reflexivity).
  unfold Regex.replaceAllSt, OutputNormalizer.alertBlockRegex,
    OutputNormalizer.noteBlockRegex, OutputNormalizer.helpBlockRegex.
  unfold al. rewrite (pass_callout "+alert]" (B0 ++ hl ++ nL) w st None); [| | exact Hw | exact Tw].
  2: { unfold B0. rewrite <- !append_assoc. apply silent_app; [apply silent_app|].
       - apply silent_opening; [apply canStart_callout | apply silent_calm_alert; exact Hc].
       - apply silent_alert_help. exact Hh.
       - apply silent_alert_note. exact Hn. }
  replace ((B0 ++ hl ++ nL) ++ ":::") with ((B0 ++ hl) ++ nL ++ ":::")
    by (rewrite !append_assoc; reflexivity).
  unfold nL. rewrite (pass_callout "!note]" (B0 ++ hl) n _ None); [| | exact Hn | exact Tn].
  2: { apply silent_app.
       - apply silent_opening; [apply canStart_callout | apply silent_calm_note; exact Hc].
       - apply silent_note_help. exact Hh. }
  replace ((B0 ++ hl) ++ ":::") with (B0 ++ hl ++ ":::")
    by (rewrite !append_assoc; reflexivity).
  unfold hl. rewrite (pass_callout "!help]" B0 h _ None); [| | exact Hh | exact Th].
  2: { apply silent_opening; [apply canStart_callout | apply silent_calm_help; exact Hc]. }
  change (Regex.lit (">" ++ nl ++ ">" ++ nl ++ ">" ++ nl)) with cleaningRegex.
  unfold Regex.replaceAll, Regex.replaceAllSt.
  rewrite scan_silent.
  - cbn [fst]. unfold B0. rewrite !append_assoc, <- !app_assoc. reflexivity.
  - apply silent_app.
    + apply silent_opening; [apply canStart_cleaning | apply silent_calm_cleaning; exact Hc].
    + apply silent_closing. apply canStart_cleaning.
  - reflexivity.
Qed.

(** The spacing pass leaves such a block as it is. *)
Lemma spacing_callouts body h n w :
  calm body = true ->
  lineText h = true -> lineText n = true -> lineText w = true ->
  let G := guidedBlock (body ++ calloutLine "[!help]" h ++ calloutLine "[!note]" n
                             ++ calloutLine "[+alert]" w) in
  Regex.replaceAll spacingRegex (fun m' => ">" ++ nl ++ Regex.capture m') G = G.
Proof.
  intros Hc Hh Hn Hw G. unfold Regex.replaceAll, Regex.replaceAllSt.
  rewrite scan_silent; [reflexivity | | reflexivity].
  unfold G, guidedBlock.
  apply silent_app; [apply silent_unquoted; [apply canStart_spacing | reflexivity]|].
  apply silent_app; [apply silent_unquoted; [apply canStart_spacing | reflexivity]|].
  apply silent_app; [|apply silent_closing; apply canStart_spacing].
  apply silent_app; [apply silent_calm_spacing; exact Hc|].
  apply silent_app; [apply silent_spacing_line; [reflexivity | reflexivity | exact Hh]|].
  apply silent_app; apply silent_spacing_line; try reflexivity; assumption.
Qed.

(** ** The passes over a document with two blocks *)

Ltac silent_block :=
  cbn [Silent append OutputNormalizer.guidedMarker OutputNormalizer.advancedMarker nl];
  repeat split; intros; apply matchAt_block_none; reflexivity.

Lemma silent_guided_advanced :
  Silent (blockRegex OutputNormalizer.guidedMarker) (OutputNormalizer.advancedMarker ++ nl).
Proof. silent_block. Qed.

Lemma silent_advanced_guided :
  Silent (blockRegex OutputNormalizer.advancedMarker) (OutputNormalizer.guidedMarker ++ nl).
Proof. silent_block. Qed.

Lemma silent_guided_close : Silent (blockRegex OutputNormalizer.guidedMarker) (":::" ++ nl).
Proof. silent_block. Qed.

Lemma silent_advanced_close : Silent (blockRegex OutputNormalizer.advancedMarker) (":::" ++ nl).
Proof. silent_block. Qed.

Section TwoBlocks.
Context {St : Type} (f : Regex.found -> St -> string * St).
Context (pre X mid adv post : string).
Hypothesis colonFree_pre : colonFree pre = true.
Hypothesis colonFree_X : colonFree X = true.
Hypothesis colonFree_mid : colonFree mid = true.
Hypothesis colonFree_adv : colonFree adv = true.
Hypothesis colonFree_post : colonFree post = true.

(** The pattern of the guided blocks matches the guided block, once. *)
Lemma scan_guided st :
  Regex.scan OutputNormalizer.guidedBlockRegex f None 0
             (pre ++ guidedBlock X ++ nl ++ mid ++ advancedBlock adv ++ nl ++ post) st =
    (pre ++ fst (f (Regex.mkFound (guidedBlock X) (guidedBlock X)) st)
         ++ nl ++ mid ++ advancedBlock adv ++ nl ++ post,
     snd (f (Regex.mkFound (guidedBlock X) (guidedBlock X)) st)).
Proof.
  change OutputNormalizer.guidedBlockRegex with (blockRegex OutputNormalizer.guidedMarker).
  rewrite scan_copy by (apply silent_block_text; [reflexivity | exact colonFree_pre]).
  set (rest := nl ++ mid ++ advancedBlock adv ++ nl ++ post).
  rewrite (scan_hit _ _ (guidedBlock X) rest _ _
             (Regex.mkFound (guidedBlock X) (guidedBlock X))).
  - rewrite scan_silent; [reflexivity | | reflexivity].
    unfold rest, advancedBlock.
    replace (nl ++ mid ++ (OutputNormalizer.advancedMarker ++ nl ++ adv ++ ":::") ++ nl ++ post)
      with ((nl ++ mid) ++ (OutputNormalizer.advancedMarker ++ nl) ++ adv ++ (":::" ++ nl) ++ post)
      by (rewrite !append_assoc; reflexivity).
    apply silent_app.
    { apply silent_block_text; [reflexivity|]. unfold colonFree in *.
      rewrite allChars_app, colonFree_mid. reflexivity. }
    apply silent_app; [exact silent_guided_advanced|].
    apply silent_app; [apply silent_block_text; [reflexivity | exact colonFree_adv]|].
    apply silent_app; [exact silent_guided_close|].
    apply silent_block_text; [reflexivity | exact colonFree_post].
  - unfold guidedBlock.
    replace ((OutputNormalizer.guidedMarker ++ nl ++ X ++ ":::") ++ rest)
      with (OutputNormalizer.guidedMarker ++ (nl ++ X) ++ ":::" ++ rest)
      by (rewrite !append_assoc; reflexivity).
    rewrite matchAt_block.
    + rewrite !append_assoc. reflexivity.
    + unfold colonFree in *. rewrite allChars_app, colonFree_X. reflexivity.
  - reflexivity.
  - discriminate.
Qed.

(** The pattern of the advanced blocks matches the advanced block,
    once. *)
Lemma scan_advanced st :
  Regex.scan OutputNormalizer.advancedBlockRegex f None 0
             (pre ++ guidedBlock X ++ nl ++ mid ++ advancedBlock adv ++ nl ++ post) st =
    (pre ++ guidedBlock X ++ nl ++ mid
         ++ fst (f (Regex.mkFound (advancedBlock adv) (advancedBlock adv)) st)
         ++ nl ++ post,
     snd (f (Regex.mkFound (advancedBlock adv) (advancedBlock adv)) st)).
Proof.
  change OutputNormalizer.advancedBlockRegex
    with (blockRegex OutputNormalizer.advancedMarker).
  set (rest := nl ++ post).
  replace (pre ++ guidedBlock X ++ nl ++ mid ++ advancedBlock adv ++ rest)
    with ((pre ++ (OutputNormalizer.guidedMarker ++ nl) ++ X ++ (":::" ++ nl) ++ mid)
            ++ advancedBlock adv ++ rest)
    by (unfold guidedBlock; rewrite !append_assoc; reflexivity).
  rewrite scan_copy.
  2: { apply silent_app; [apply silent_block_text; [reflexivity | exact colonFree_pre]|].
       apply silent_app; [exact silent_advanced_guided|].
       apply silent_app; [apply silent_block_text; [reflexivity | exact colonFree_X]|].
       apply silent_app; [exact silent_advanced_close|].
       apply silent_block_text; [reflexivity | exact colonFree_mid]. }
  rewrite (scan_hit _ _ (advancedBlock adv) rest _ _
             (Regex.mkFound (advancedBlock adv) (advancedBlock adv))).
  - rewrite scan_silent; [| | reflexivity].
    + cbn [fst snd]. unfold guidedBlock. rewrite !append_assoc. reflexivity.
    + unfold rest. apply silent_block_text; [reflexivity|]. unfold colonFree in *.
      rewrite allChars_app, colonFree_post. reflexivity.
  - unfold advancedBlock.
    replace ((OutputNormalizer.advancedMarker ++ nl ++ adv ++ ":::") ++ rest)
      with (OutputNormalizer.advancedMarker ++ (nl ++ adv) ++ ":::" ++ rest)
      by (rewrite !append_assoc; reflexivity).
    rewrite matchAt_block.
    + rewrite !append_assoc. reflexivity.
    + unfold colonFree in *. rewrite allChars_app, colonFree_adv. reflexivity.
  - reflexivity.
  - discriminate.
Qed.
End TwoBlocks.

(** ** Runs of three line feeds *)

Lemma prefix_lf3_head c s : isLF c = false -> prefix (nl ++ nl ++ nl) (String c s) = false.
Proof.
  intros Hc. cbn [nl append prefix]. destruct (ascii_dec LF c) as [<-|]; [|reflexivity].
  discriminate.
Qed.

Lemma lf3_char c s :
  isLF c = false -> includes (nl ++ nl ++ nl) (String c s) = includes (nl ++ nl ++ nl) s.
Proof. intros Hc. rewrite includes_cons, prefix_lf3_head by exact Hc. reflexivity. Qed.

Lemma lf3_skip p s :
  allChars (fun c => negb (isLF c)) p = true ->
  includes (nl ++ nl ++ nl) (p ++ s) = includes (nl ++ nl ++ nl) s.
Proof.
  induction p as [|c p IH]; intros Hp; [reflexivity|].
  cbn [allChars] in Hp. apply andb_true_iff in Hp as (Hc & Hp).
  apply negb_true_iff in Hc. cbn [append]. rewrite lf3_char by exact Hc. exact (IH Hp).
Qed.

Lemma lf3_nl c s :
  isLF c = false ->
  includes (nl ++ nl ++ nl) (nl ++ String c s) = includes (nl ++ nl ++ nl) s.
Proof.
  intros Hc. change (nl ++ String c s) with (String LF (String c s)).
  rewrite includes_cons.
  assert (Hp : prefix (nl ++ nl ++ nl) (String LF (String c s)) = false).
  { cbn [nl append prefix]. destruct (ascii_dec LF LF); [|reflexivity].
    destruct (ascii_dec LF c) as [<-|]; [discriminate | reflexivity]. }
  rewrite Hp. cbn [orb]. apply (lf3_char c s Hc).
Qed.

Lemma lf3_nlnl c s :
  isLF c = false ->
  includes (nl ++ nl ++ nl) (nl ++ nl ++ String c s) = includes (nl ++ nl ++ nl) s.
Proof.
  intros Hc. change (nl ++ nl ++ String c s) with (String LF (nl ++ String c s)).
  rewrite includes_cons.
  assert (Hp : prefix (nl ++ nl ++ nl) (String LF (nl ++ String c s)) = false).
  { cbn [nl append prefix]. destruct (ascii_dec LF LF); [|reflexivity].
    destruct (ascii_dec LF c) as [<-|]; [discriminate | reflexivity]. }
  rewrite Hp. cbn [orb]. apply (lf3_nl c s Hc).
Qed.

(** A text cut before a character that is no line feed. *)
Lemma lf3_cut a c b :
  isLF c = false ->
  includes (nl ++ nl ++ nl) (a ++ String c b) =
    includes (nl ++ nl ++ nl) a || includes (nl ++ nl ++ nl) (String c b).
Proof.
  intros Hc. induction a as [|x a IH]; [reflexivity|].
  assert (Hp : prefix (nl ++ nl ++ nl) (String x (a ++ String c b)) =
               prefix (nl ++ nl ++ nl) (String x a)).
  { cbn [nl append prefix].
    destruct (ascii_dec LF x); [|reflexivity].
    destruct a as [|y a]; cbn [nl append prefix].
    - destruct (ascii_dec LF c) as [<-|]; [discriminate | reflexivity].
    - destruct (ascii_dec LF y); [|reflexivity].
      destruct a as [|z a]; cbn [nl append prefix].
      + destruct (ascii_dec LF c) as [<-|]; [discriminate | reflexivity].
      + destruct (ascii_dec LF z); [|reflexivity]. destruct a; reflexivity. }
  cbn [append].
  rewrite (includes_cons _ x (a ++ String c b)), (includes_cons _ x a), IH, Hp, orb_assoc.
  reflexivity.
Qed.

Lemma lfRun_prefix s : (3 <=? lfRun s)%nat = true -> prefix (nl ++ nl ++ nl) s = true.
Proof.
  destruct s as [|a [|b [|c s]]]; cbn [lfRun];
    try destruct (isLF a) eqn:Ea; try destruct (isLF b) eqn:Eb;
    try destruct (isLF c) eqn:Ec; cbn [Nat.leb]; try discriminate.
  intros _. apply isLF_eq in Ea, Eb, Ec. subst a b c. cbn [nl append prefix].
  destruct (ascii_dec LF LF) as [_|Hx]; [destruct s; reflexivity | contradiction Hx; reflexivity].
Qed.

(** Without three line feeds in a row, the two patterns of
    [normalizeAlertBlocks] match nowhere. *)
Lemma lf3_noRule s :
  includes (nl ++ nl ++ nl) s = false -> noRule ruleA s = true /\ noRule ruleB s = true.
Proof.
  induction s as [|c s IH]; intros Hi; [split; reflexivity|].
  rewrite includes_cons in Hi. apply orb_false_iff in Hi as (Hp & Hi).
  destruct (IH Hi) as (HA & HB). split.
  - apply noRule_cons; [|exact HA]. unfold ruleA.
    destruct (3 <=? lfRun (String c s))%nat eqn:E; [|reflexivity].
    rewrite (lfRun_prefix _ E) in Hp. discriminate.
  - apply noRule_cons; [|exact HB]. unfold ruleB.
    destruct (3 <=? lfRun s)%nat eqn:E; [|rewrite andb_false_r; reflexivity].
    apply lfRun_prefix in E.
    assert (includes (nl ++ nl ++ nl) s = true).
    { destruct s; cbn [includes]; rewrite E; reflexivity. }
    congruence.
Qed.

Lemma normalizeAlertBlocks_lf3 s :
  includes (nl ++ nl ++ nl) s = false -> OutputNormalizer.normalizeAlertBlocks s = s.
Proof.
  intros Hi. destruct (lf3_noRule s Hi) as (HA & HB).
  rewrite normalizeAlertBlocks_eq.
  rewrite (replaceAll_noRule regexA replaceA ruleA s follows_A HA).
  exact (replaceAll_noRule regexB replaceB ruleB s follows_B HB).
Qed.

(** A tidy text passes the first three fixes unchanged. *)
Lemma tidy_parts s :
  tidy s = true ->
  trimmed s = true /\ includes "> >-" s = false /\ includes (nl ++ nl ++ nl) s = false.
Proof.
  unfold tidy. intros H. apply andb_true_iff in H as (H & H3).
  apply andb_true_iff in H as (H1 & H2).
  apply negb_true_iff in H2, H3. auto.
Qed.

Lemma tidy_first_fixes s :
  tidy s = true ->
  OutputNormalizer.fixDoubleGreaterThan
    (trimLines (Regex.replaceAll (Regex.lit crlf) (fun _ => nl) s)) = s.
Proof.
  intros H. apply tidy_parts in H as (Ht & Hd & _).
  rewrite (replaceAll_noRule (Regex.lit crlf) (fun _ => nl) ruleCRLF s follows_CRLF)
    by (apply noRule_lit; apply trimmed_no_crlf; exact Ht).
  rewrite (trimLines_fixed s Ht).
  unfold OutputNormalizer.fixDoubleGreaterThan.
  apply (replaceAll_noRule (Regex.lit "> >-") (fun _ => "> -") ruleDGT s follows_DGT).
  apply noRule_lit. exact Hd.
Qed.

Lemma trimmed_line a b : trimmed (a ++ nl ++ b) = true -> trimmed (a ++ nl) = true.
Proof.
  induction a as [|c a IH]; [reflexivity|]. cbn [append trimmed].
  intros H. apply andb_true_iff in H as (Hb & H). rewrite (IH H), andb_true_r.
  rewrite <- Hb. f_equal. f_equal. destruct a; reflexivity.
Qed.

Lemma trimOk_line tag o a b :
  allChars tagText tag = true -> lineText o = true ->
  trimmed (a ++ calloutLine tag o ++ b) = true -> trimOk tag o.
Proof.
  intros Htag Ho Ht. destruct o as [t|]; [|exact I]. cbn [trimOk calloutLine lineText] in *.
  apply trim_line; [rewrite allChars_app, Htag, Ho; reflexivity|].
  apply trimmed_rest in Ht.
  replace ((">" ++ tag ++ t ++ nl) ++ b) with ((">" ++ tag ++ t) ++ nl ++ b) in Ht
    by (rewrite !append_assoc; reflexivity).
  apply trimmed_line in Ht. rewrite !append_assoc in Ht. exact Ht.
Qed.

(** ** The relocation of the callouts *)

Lemma colonFree_line tag o :
  colonFree tag = true -> lineText o = true -> colonFree (calloutLine tag o) = true.
Proof.
  intros Htag Ho. destruct o as [t|]; [|reflexivity]. cbn [calloutLine lineText] in *.
  unfold colonFree in *. rewrite !allChars_app, Htag. apply tagText_colon in Ho.
  unfold colonFree in Ho. rewrite Ho. reflexivity.
Qed.

Lemma colonFree_lines body h n w :
  colonFree body = true -> lineText h = true -> lineText n = true -> lineText w = true ->
  colonFree (body ++ calloutLine "[!help]" h ++ calloutLine "[!note]" n
                  ++ calloutLine "[+alert]" w) = true.
Proof.
  intros Hb Hh Hn Hw.
  pose proof (colonFree_line "[!help]" h eq_refl Hh) as H1.
  pose proof (colonFree_line "[!note]" n eq_refl Hn) as H2.
  pose proof (colonFree_line "[+alert]" w eq_refl Hw) as H3.
  unfold colonFree in *. rewrite !allChars_app, Hb, H1, H2, H3. reflexivity.
Qed.

Lemma relocatable_parts pre body h n w mid adv post :
  relocatable pre body h n w mid adv post = true ->
  tidy (withCallouts pre body h n w mid adv post) = true /\
  (colonFree pre = true /\ colonFree body = true /\ colonFree mid = true /\
   colonFree adv = true /\ colonFree post = true) /\
  calm body = true /\ lineText h = true /\ lineText n = true /\ lineText w = true.
Proof.
  unfold relocatable. intros H.
  repeat match type of H with
         | (_ && _) = true => let H' := fresh in apply andb_true_iff in H as (H & H')
         end.
  repeat split; assumption.
Qed.

Section Relocation.
Context (pre body : string) (h n w : option string) (mid adv post : string).
Hypothesis well_formed : relocatable pre body h n w mid adv post = true.

Lemma spacing_relocatable :
  OutputNormalizer.fixGuidedHintSpacing (withCallouts pre body h n w mid adv post) =
    withCallouts pre body h n w mid adv post.
Proof.
  destruct (relocatable_parts _ _ _ _ _ _ _ _ well_formed)
    as (_ & (Hp & Hb & Hm & Ha & Ho) & Hc & Hh & Hn & Hw).
  unfold OutputNormalizer.fixGuidedHintSpacing, Regex.replaceAll, Regex.replaceAllSt,
    withCallouts.
  rewrite scan_guided; try assumption; [|apply colonFree_lines; assumption].
  cbn [fst Regex.text].
  pose proof (spacing_callouts body h n w Hc Hh Hn Hw) as Hs. cbn zeta in Hs.
  unfold spacingRegex, Regex.replaceAll, Regex.replaceAllSt in Hs. rewrite Hs. reflexivity.
Qed.

Lemma extract_relocatable :
  OutputNormalizer.extractAndRelocateAlertBlocks (withCallouts pre body h n w mid adv post) =
    relocatedCallouts pre body h n w mid adv post.
Proof.
  destruct (relocatable_parts _ _ _ _ _ _ _ _ well_formed)
    as (Ht & (Hp & Hb & Hm & Ha & Ho) & Hc & Hh & Hn & Hw).
  apply tidy_parts in Ht as (Ht & _ & _).
  unfold OutputNormalizer.extractAndRelocateAlertBlocks, Regex.replaceAllSt.
  unfold withCallouts at 1.
  rewrite scan_guided; try assumption; [|apply colonFree_lines; assumption].
  rewrite (cleanGuidedBlock_callouts body h n w _ []); try assumption; try reflexivity.
  - cbn [fst snd app]. unfold relocatedCallouts.
    destruct (calloutOf "[+alert]" w ++ calloutOf "[!note]" n ++ calloutOf "[!help]" h)%list
      as [|c cs] eqn:Ecs.
    + reflexivity.
    + cbn [List.length Nat.ltb Nat.leb]. unfold Regex.replaceAll, Regex.replaceAllSt.
      rewrite scan_advanced; try assumption.
      cbn [fst Regex.text relocatedAfter]. rewrite !append_assoc. reflexivity.
  - unfold withCallouts, guidedBlock in Ht.
    apply (trimOk_line "[!help]" h (pre ++ OutputNormalizer.guidedMarker ++ nl ++ body)
             (calloutLine "[!note]" n ++ calloutLine "[+alert]" w ++ ":::" ++ nl ++ mid
                ++ advancedBlock adv ++ nl ++ post)); [reflexivity | exact Hh|].
    rewrite !append_assoc in Ht. rewrite !append_assoc. exact Ht.
  - unfold withCallouts, guidedBlock in Ht.
    apply (trimOk_line "[!note]" n
             (pre ++ OutputNormalizer.guidedMarker ++ nl ++ body ++ calloutLine "[!help]" h)
             (calloutLine "[+alert]" w ++ ":::" ++ nl ++ mid
                ++ advancedBlock adv ++ nl ++ post)); [reflexivity | exact Hn|].
    rewrite !append_assoc in Ht. rewrite !append_assoc. exact Ht.
  - unfold withCallouts, guidedBlock in Ht.
    apply (trimOk_line "[+alert]" w
             (pre ++ OutputNormalizer.guidedMarker ++ nl ++ body ++ calloutLine "[!help]" h
                  ++ calloutLine "[!note]" n)
             (":::" ++ nl ++ mid ++ advancedBlock adv ++ nl ++ post)); [reflexivity | exact Hw|].
    rewrite !append_assoc in Ht. rewrite !append_assoc. exact Ht.
Qed.
End Relocation.

Lemma tagText_notLF t :
  allChars tagText t = true -> allChars (fun c => negb (isLF c)) t = true.
Proof.
  apply allChars_impl. intros c H. unfold tagText in H.
  apply andb_true_iff in H as (H & _). apply andb_true_iff in H as (H & _). exact H.
Qed.

(** What is relocated and the line end behind it bring no three line
    feeds in a row. *)
Lemma relocated_lf3 h n w post :
  lineText h = true -> lineText n = true -> lineText w = true ->
  includes (nl ++ nl ++ nl) (":::" ++ nl ++ post) = false ->
  includes (nl ++ nl ++ nl)
           (":::" ++ relocatedAfter (calloutOf "[+alert]" w ++ calloutOf "[!note]" n
                                       ++ calloutOf "[!help]" h)%list
                  ++ nl ++ post) = false.
Proof.
  intros Hh Hn Hw Hp.
  assert (Hq : includes (nl ++ nl ++ nl) (nl ++ post) = false).
  { change (":::" ++ nl ++ post) with (String ":" (String ":" (String ":" (nl ++ post)))) in Hp.
    rewrite !lf3_char in Hp by reflexivity. exact Hp. }
  assert (Hline : forall tag t rest,
             allChars (fun c => negb (isLF c)) tag = true -> allChars tagText t = true ->
             includes (nl ++ nl ++ nl) (">" ++ tag ++ t ++ rest) =
               includes (nl ++ nl ++ nl) rest).
  { intros tag t rest Htag Ht.
    replace (">" ++ tag ++ t ++ rest) with ((">" ++ tag ++ t) ++ rest)
      by (rewrite !append_assoc; reflexivity).
    apply lf3_skip.
    cbn [append allChars]. rewrite !allChars_app, Htag, (tagText_notLF t Ht). reflexivity. }
  assert (Hsep : forall rest,
             includes (nl ++ nl ++ nl) (nl ++ ">" ++ nl ++ ">" ++ rest) =
               includes (nl ++ nl ++ nl) (">" ++ rest)).
  { intros rest.
    change (nl ++ ">" ++ nl ++ ">" ++ rest) with (nl ++ String ">" (nl ++ String ">" rest)).
    rewrite lf3_nl by reflexivity. rewrite lf3_nl by reflexivity.
    change (">" ++ rest) with (String ">" rest).
    rewrite lf3_char by reflexivity. reflexivity. }
  assert (Hopen : forall rest,
             includes (nl ++ nl ++ nl) (":::" ++ nl ++ nl ++ ">" ++ rest) =
               includes (nl ++ nl ++ nl) (">" ++ rest)).
  { intros rest.
    change (":::" ++ nl ++ nl ++ ">" ++ rest)
      with (String ":" (String ":" (String ":" (nl ++ nl ++ String ">" rest)))).
    rewrite !lf3_char by reflexivity. rewrite lf3_nlnl by reflexivity.
    change (">" ++ rest) with (String ">" rest).
    rewrite lf3_char by reflexivity. reflexivity. }
  destruct h as [th|], n as [tn|], w as [tw|];
    cbn [calloutOf app relocatedAfter join String.concat lineText] in *;
    rewrite ?append_assoc;
    try exact Hp;
    repeat first [ rewrite Hopen | rewrite Hsep
                 | rewrite Hline by (try reflexivity; assumption) ];
    exact Hq.
Qed.

Section RelocatedText.
Context (pre body : string) (h n w : option string) (mid adv post : string).
Hypothesis well_formed : relocatable pre body h n w mid adv post = true.

(** The result of the relocation has no three line feeds in a row. *)
Lemma relocated_tidy :
  includes (nl ++ nl ++ nl) (relocatedCallouts pre body h n w mid adv post) = false.
Proof.
  destruct (relocatable_parts _ _ _ _ _ _ _ _ well_formed)
    as (Ht & _ & _ & Hh & Hn & Hw).
  apply tidy_parts in Ht as (_ & _ & H3).
  set (X0 := pre ++ OutputNormalizer.guidedMarker ++ nl ++ body).
  set (L := calloutLine "[!help]" h ++ calloutLine "[!note]" n ++ calloutLine "[+alert]" w).
  set (T := nl ++ mid ++ OutputNormalizer.advancedMarker ++ nl ++ adv).
  assert (Hdoc : withCallouts pre body h n w mid adv post =
                 (X0 ++ L) ++ (":::" ++ T) ++ ":::" ++ nl ++ post).
  { unfold withCallouts, guidedBlock, advancedBlock, X0, L, T.
    rewrite !append_assoc. reflexivity. }
  rewrite Hdoc in H3.
  pose proof (includes_false_l _ _ _ (includes_false_l _ _ _ H3)) as H1.
  pose proof (includes_false_r _ _ _ H3) as H2.
  pose proof (includes_false_l _ _ _ H2) as H4.
  pose proof (includes_false_r _ _ _ H2) as H5.
  set (R := relocatedAfter (calloutOf "[+alert]" w ++ calloutOf "[!note]" n
                              ++ calloutOf "[!help]" h)%list).
  assert (Hout : relocatedCallouts pre body h n w mid adv post =
                 X0 ++ String ":" ("::" ++ T ++ ":::" ++ R ++ nl ++ post)).
  { unfold relocatedCallouts, guidedBlock, advancedBlock, X0, T, R.
    rewrite !append_assoc. reflexivity. }
  rewrite Hout, lf3_cut, H1 by reflexivity. cbn [orb].
  change (String ":" ("::" ++ T ++ ":::" ++ R ++ nl ++ post))
    with ((":::" ++ T) ++ String ":" ("::" ++ R ++ nl ++ post)).
  rewrite lf3_cut, H4 by reflexivity. cbn [orb].
  change (String ":" ("::" ++ R ++ nl ++ post)) with (":::" ++ R ++ nl ++ post).
  apply relocated_lf3; assumption.
Qed.
End RelocatedText.



